(** * Grail Scanner: forensic tools, response parser and orchestrator

    A shallow embedding of [src/tools] (the four forensic tools and their
    router), of [src/services/gemini.ts] (confidence levels, the tool
    declarations, the response parser and [authenticateItem]), of the
    colours of the report and of the capture handler of the application,
    followed by the properties the specification states about them and by
    further properties of the code.

    Modelling conventions.
    - A JavaScript string is a Rocq [string] holding its UTF-8 bytes.
      ASCII text is modelled exactly.  [toLowerCase] folds ASCII letters
      only, and [slice] counts bytes; both agree with JavaScript on ASCII
      text and on no other, so statements about lower-cased or sliced
      text are statements about ASCII text.  White space is the full ECMAScript set, spelled as byte
      sequences.
    - A JavaScript number is a binary64 number, held by its exact value:
      an integer ([Z]) in [number], a rational ([Q]) in [fnumber], each
      with [Infinity], [-Infinity] and [NaN].  [round64] rounds an exact
      value to the nearest binary64 number, ties to even, with 53
      significant bits and the least exponent -1074; [Number] adds the
      overflow to [Infinity].  Decimal literals, the sums, products and
      quotients of the dating formula, of the construction weights, of the
      midpoint of a parsed value and of the self-correction threshold, and
      the integer [parseInt] returns are rounded this way.  Negative zero
      is not told from zero.  Sums and differences of years, scores,
      catalogue prices and clock readings are integers far below 2^53 and
      are taken exactly.  [Math.round] is [floor (x + 1/2)].
    - An object literal used as a table is an association list in source
      order, read through [Js.get], which also sees the members every
      object literal inherits from [Object.prototype].
    - Calls that may throw return an [outcome]; [Math.random], [Date.now],
      the chat session and the progress callback are threaded as explicit
      state. *)

From Stdlib Require Import ZArith QArith Qround Qminmax Qpower Qreduction Bool String Ascii List Lia Lqa.
From Stdlib Require Import DecimalString Sorted.
From stdpp Require Import gmap strings.
Import ListNotations.

Open Scope string_scope.
Open Scope Z_scope.

(* ================================================================== *)
(** * JavaScript primitives *)
(* ================================================================== *)

Module Js.

(** What a [throw] carries. *)
Inductive error :=
| Error (message : string)      (* [new Error(message)] *)
| TypeError (message : string)  (* raised by the runtime *)
| ApiError (message : string).  (* failure reported by the hosted model's SDK *)

Inductive outcome (A : Type) :=
| Ok (a : A)
| Throw (e : error).
Arguments Ok {A} a.
Arguments Throw {A} e.

(** ** Numbers *)

(** Integer-valued numbers, [Infinity], [-Infinity] and [NaN]. *)
Inductive number :=
| Num (z : Z)
| Infinity (negative : bool)
| NaN.

(** Numbers by their exact value. *)
Inductive fnumber :=
| Frac (q : Q)
| FInfinity (negative : bool)
| FNaN.

(** *** binary64 *)

Definition pow2 (e : Z) : Q := ((2 # 1) ^ e)%Q.

(** [floor (log2 q)] for a positive [q]. *)
Definition ilog2 (q : Q) : Z :=
  let e := Z.log2 (Qnum q) - Z.log2 (Z.pos (Qden q)) in
  if Qle_bool (pow2 e) q then e else e - 1.

(** The nearest integer, ties to even. *)
Definition round_half_even (q : Q) : Z :=
  let f := Qfloor q in
  match Qcompare (q - inject_Z f) (1 # 2) with
  | Lt => f
  | Gt => f + 1
  | Eq => if Z.even f then f else f + 1
  end.

(** The exponent of the last place of a positive [q] in binary64: 53
    significant bits, and no exponent below -1074. *)
Definition ulp_exp (q : Q) : Z := Z.max (ilog2 q - 52) (-1074).

(** Round to nearest, ties to even, with no bound on the exponent. *)
Definition round64_pos (q : Q) : Q :=
  Qred (inject_Z (round_half_even (q / pow2 (ulp_exp q))) * pow2 (ulp_exp q)).

Definition round64 (q : Q) : Q :=
  match Qnum q with
  | Z0 => 0%Q
  | Zpos _ => round64_pos q
  | Zneg _ => (- round64_pos (- q))%Q
  end.

(** The value of a decimal literal. *)
Definition literal (q : Q) : Q := round64 q.

(** Sum, product and quotient of finite numbers, where the result is
    finite too. *)
Definition fadd (x y : Q) : Q := round64 (x + y).
Definition fmul (x y : Q) : Q := round64 (x * y).
Definition fdiv (x y : Q) : Q := round64 (x / y).

(** The number an exact result is rounded to: what rounds to 2^1024 or
    beyond is infinite. *)
Definition Number (q : Q) : fnumber :=
  let r := round64 q in
  if Qle_bool (pow2 1024) r then FInfinity false
  else if Qle_bool r (- pow2 1024) then FInfinity true
  else Frac r.

Definition to_f (n : number) : fnumber :=
  match n with
  | Num z => Frac (inject_Z z)
  | Infinity s => FInfinity s
  | NaN => FNaN
  end.

(** The number of an integer, as [parseInt] returns it. *)
Definition number_of_Z (z : Z) : number :=
  match Number (inject_Z z) with
  | Frac q => Num (Qfloor q)
  | FInfinity s => Infinity s
  | FNaN => NaN
  end.

Definition negative (q : Q) : bool :=
  match Qnum q with
  | Zneg _ => true
  | _ => false
  end.

(** [a + b] *)
Definition f_add (a b : fnumber) : fnumber :=
  match a, b with
  | Frac x, Frac y => Number (x + y)
  | FInfinity s, FInfinity t => if Bool.eqb s t then FInfinity s else FNaN
  | FInfinity s, Frac _ => FInfinity s
  | Frac _, FInfinity t => FInfinity t
  | _, _ => FNaN
  end.

(** [a - b] *)
Definition f_sub (a b : fnumber) : fnumber :=
  match a, b with
  | Frac x, Frac y => Number (x - y)
  | FInfinity s, FInfinity t => if Bool.eqb s t then FNaN else FInfinity s
  | FInfinity s, Frac _ => FInfinity s
  | Frac _, FInfinity t => FInfinity (negb t)
  | _, _ => FNaN
  end.

(** [a * b] *)
Definition f_mul (a b : fnumber) : fnumber :=
  match a, b with
  | Frac x, Frac y => Number (x * y)
  | FInfinity s, FInfinity t => FInfinity (xorb s t)
  | FInfinity s, Frac y | Frac y, FInfinity s =>
      if Qeq_bool y 0 then FNaN else FInfinity (xorb s (negative y))
  | _, _ => FNaN
  end.

(** [a / b] *)
Definition f_div (a b : fnumber) : fnumber :=
  match a, b with
  | Frac x, Frac y =>
      if Qeq_bool y 0
      then (if Qeq_bool x 0 then FNaN else FInfinity (negative x))
      else Number (x / y)
  | FInfinity s, Frac y => FInfinity (xorb s (negative y))
  | Frac _, FInfinity _ => Frac 0
  | _, _ => FNaN
  end.

(** [a < b]; every comparison with [NaN] is false. *)
Definition f_lt (a b : fnumber) : bool :=
  match a, b with
  | Frac x, Frac y => negb (Qle_bool y x)
  | Frac _, FInfinity t => negb t
  | FInfinity s, Frac _ => s
  | FInfinity s, FInfinity t => s && negb t
  | _, _ => false
  end.

(** [Math.min(a, b)] *)
Definition f_min (a b : fnumber) : fnumber :=
  match a, b with
  | FNaN, _ | _, FNaN => FNaN
  | _, _ => if f_lt b a then b else a
  end.

Definition Math_round (q : Q) : Z := Qfloor (q + (1 # 2)).

(** [Math.round(a)] *)
Definition Math_round_f (a : fnumber) : number :=
  match a with
  | Frac q => Num (Math_round q)
  | FInfinity s => Infinity s
  | FNaN => NaN
  end.

(** *** Integer-valued numbers

    Sums and differences of [number]s are taken exactly: they are used
    on years, scores and prices, far below 2^53. *)

Definition num_add (a b : number) : number :=
  match a, b with
  | Num x, Num y => Num (x + y)
  | Infinity s, Infinity t => if Bool.eqb s t then Infinity s else NaN
  | Infinity s, Num _ => Infinity s
  | Num _, Infinity t => Infinity t
  | _, _ => NaN
  end.

Definition num_sub (a b : number) : number :=
  match a, b with
  | Num x, Num y => Num (x - y)
  | Infinity s, Infinity t => if Bool.eqb s t then NaN else Infinity s
  | Infinity s, Num _ => Infinity s
  | Num _, Infinity t => Infinity (negb t)
  | _, _ => NaN
  end.

(** [a < b] and [a > b]; every comparison with [NaN] is false. *)
Definition num_lt (a b : number) : bool :=
  match a, b with
  | Num x, Num y => x <? y
  | Num _, Infinity t => negb t
  | Infinity s, Num _ => s
  | Infinity s, Infinity t => s && negb t
  | _, _ => false
  end.

Definition num_gt (a b : number) : bool := num_lt b a.

Definition num_ge (a b : number) : bool :=
  match a, b with
  | Num x, Num y => y <=? x
  | Num _, Infinity t => t
  | Infinity s, Num _ => negb s
  | Infinity s, Infinity t => negb s || t
  | _, _ => false
  end.

(** [a / 100] *)
Definition num_div100 (a : number) : fnumber := f_div (to_f a) (Frac (100 # 1)).

(** [Math.min(a, b)]. *)
Definition Math_min (a b : number) : number :=
  match a, b with
  | Num x, Num y => Num (Z.min x y)
  | NaN, _ | _, NaN => NaN
  | Infinity true, _ | _, Infinity true => Infinity true
  | Infinity false, c | c, Infinity false => c
  end.

(** ** Strings *)

Definition code (c : ascii) : nat := nat_of_ascii c.

Definition bytes (l : list nat) : string :=
  fold_right (fun n s => String (ascii_of_nat n) s) "" l.

Definition is_digit (c : ascii) : bool :=
  (48 <=? code c)%nat && (code c <=? 57)%nat.

Definition is_upper (c : ascii) : bool :=
  (65 <=? code c)%nat && (code c <=? 90)%nat.

Definition is_lower (c : ascii) : bool :=
  (97 <=? code c)%nat && (code c <=? 122)%nat.

Definition lower (c : ascii) : ascii :=
  if is_upper c then ascii_of_nat (code c + 32) else c.

Fixpoint toLowerCase (s : string) : string :=
  match s with
  | "" => ""
  | String c s' => String (lower c) (toLowerCase s')
  end.

Fixpoint filter_chars (p : ascii -> bool) (s : string) : string :=
  match s with
  | "" => ""
  | String c s' => if p c then String c (filter_chars p s') else filter_chars p s'
  end.

Fixpoint all_chars (p : ascii -> bool) (s : string) : bool :=
  match s with
  | "" => true
  | String c s' => p c && all_chars p s'
  end.

Definition nonempty (s : string) : bool :=
  match s with "" => false | _ => true end.

(** [o || d] where [o] is a possibly missing string property. *)
Definition str_or (o : option string) (d : string) : string :=
  match o with
  | Some s => if nonempty s then s else d
  | None => d
  end.

(** [hay.includes(needle)]. *)
Fixpoint includes (needle hay : string) : bool :=
  String.prefix needle hay ||
  match hay with
  | "" => false
  | String _ hay' => includes needle hay'
  end.

(** [s.slice(0, n)]. *)
Definition slice0 (n : nat) (s : string) : string := substring 0 n s.

Fixpoint drop (n : nat) (s : string) : string :=
  match n, s with
  | O, _ => s
  | S n', String _ s' => drop n' s'
  | S _, "" => ""
  end.

(** [s.replace(pat, by)] with a string pattern: the first occurrence only. *)
Fixpoint replace_first (pat by_ s : string) : string :=
  if String.prefix pat s then by_ ++ drop (String.length pat) s
  else match s with
       | "" => ""
       | String c s' => String c (replace_first pat by_ s')
       end.

(** [s.split(sep)] for a one-character separator. *)
Fixpoint split (sep : ascii) (s : string) : list string :=
  match s with
  | "" => [""]
  | String c s' =>
      if Ascii.eqb c sep then "" :: split sep s'
      else match split sep s' with
           | piece :: rest => String c piece :: rest
           | [] => [String c ""]
           end
  end.

(** ECMAScript white space and line terminators, as UTF-8. *)
Definition white_space : list string :=
  [ bytes [9]; bytes [10]; bytes [11]; bytes [12]; bytes [13]; bytes [32];
    bytes [194; 160]; bytes [225; 154; 128];
    bytes [226; 128; 128]; bytes [226; 128; 129]; bytes [226; 128; 130];
    bytes [226; 128; 131]; bytes [226; 128; 132]; bytes [226; 128; 133];
    bytes [226; 128; 134]; bytes [226; 128; 135]; bytes [226; 128; 136];
    bytes [226; 128; 137]; bytes [226; 128; 138];
    bytes [226; 128; 168]; bytes [226; 128; 169]; bytes [226; 128; 175];
    bytes [226; 129; 159]; bytes [227; 128; 128]; bytes [239; 187; 191] ]%nat.

(** The rest of [s] after one leading item of [seqs], if it starts with one. *)
Fixpoint strip_one (seqs : list string) (s : string) : option string :=
  match seqs with
  | [] => None
  | w :: seqs' =>
      if String.prefix w s then Some (drop (String.length w) s)
      else strip_one seqs' s
  end.

Fixpoint strip_all (fuel : nat) (seqs : list string) (s : string) : string :=
  match fuel with
  | O => s
  | S fuel' =>
      match strip_one seqs s with
      | Some s' => strip_all fuel' seqs s'
      | None => s
      end
  end.

Definition trimStart (s : string) : string :=
  strip_all (String.length s) white_space s.

Definition trimEnd (s : string) : string :=
  String.rev (strip_all (String.length s) (map String.rev white_space) (String.rev s)).

Definition trim (s : string) : string := trimEnd (trimStart s).

(** ** Numbers and strings *)

Definition digit_value (c : ascii) : Z := Z.of_nat (code c) - 48.

Definition hex_value (c : ascii) : option Z :=
  if is_digit c then Some (digit_value c)
  else if (97 <=? code (lower c))%nat && (code (lower c) <=? 102)%nat
       then Some (Z.of_nat (code (lower c)) - 87)
       else None.

(** Value of the longest prefix of radix-10 digits, [None] if it is empty. *)
Fixpoint decimal_prefix (acc : option Z) (s : string) : option Z :=
  match s with
  | String c s' =>
      if is_digit c
      then decimal_prefix (Some (10 * default 0 acc + digit_value c)) s'
      else acc
  | "" => acc
  end.

Fixpoint hex_prefix (acc : option Z) (s : string) : option Z :=
  match s with
  | String c s' =>
      match hex_value c with
      | Some d => hex_prefix (Some (16 * default 0 acc + d)) s'
      | None => acc
      end
  | "" => acc
  end.

Definition unsigned_prefix (s : string) : option Z :=
  match s with
  | String "0" (String x s') =>
      if Ascii.eqb (lower x) "x" then hex_prefix None s' else decimal_prefix None s
  | _ => decimal_prefix None s
  end.

(** [parseInt(s)] with no radix argument.  The digits denote an integer,
    which is rounded to a number (beyond twenty significant digits
    ECMAScript also allows an implementation to round the first twenty
    only; exact rounding is what V8 does). *)
Definition parseInt (s : string) : number :=
  let t := trimStart s in
  let '(sign, body) :=
    match t with
    | String "-" t' => (-1, t')
    | String "+" t' => (1, t')
    | _ => (1, t)
    end in
  match unsigned_prefix body with
  | Some v => number_of_Z (sign * v)
  | None => NaN
  end.

(** [String(z)] for an integer below 2^53. *)
Definition show (z : Z) : string := NilZero.string_of_int (Z.to_int z).

(** Whether the integer [v] is rounded to the number [z]. *)
Definition reads_as (z v : Z) : bool := Qeq_bool (round64 (inject_Z v)) (inject_Z z).

(** The integer with the fewest significant digits that is rounded to the
    number [z] of [n] digits, and among those the closest to [z]: with
    [k] significant digits, or else with more. *)
Fixpoint shortest (fuel k : nat) (n z : Z) : Z :=
  match fuel with
  | O => z
  | S fuel' =>
      let scale := 10 ^ (n - Z.of_nat k) in
      let lo := z / scale * scale in
      let hi := lo + scale in
      match reads_as z lo && (0 <? lo), reads_as z hi with
      | true, true =>
          if (z - lo <? hi - z) || ((z - lo =? hi - z) && Z.even (lo / scale))
          then lo else hi
      | true, false => lo
      | false, true => hi
      | false, false => shortest fuel' (S k) n z
      end
  end.

Fixpoint strip_zeros (s : string) : string :=
  match s with
  | String "0" s' => strip_zeros s'
  | _ => s
  end.

(** [String(z)] for a positive integer-valued number: its shortest
    decimal form, in exponent notation from 10^21 on. *)
Definition show_positive (z : Z) : string :=
  let n := Z.of_nat (String.length (show z)) in
  let v := if z <? 2 ^ 53 then z else shortest (Z.to_nat n) 1 n z in
  if v <? 10 ^ 21 then show v
  else
    match String.rev (strip_zeros (String.rev (show v))) with
    | String d rest =>
        String d (if nonempty rest then "." ++ rest else "")
          ++ "e+" ++ show (Z.of_nat (String.length (show v)) - 1)
    | "" => ""
    end.

Definition show_number (n : number) : string :=
  match n with
  | Num z => if z <? 0 then "-" ++ show_positive (- z) else show_positive z
  | Infinity s => if s then "-Infinity" else "Infinity"
  | NaN => "NaN"
  end.

Definition dquote : string := bytes [34%nat].

(** ** Object literals *)

(** Names every object literal inherits from [Object.prototype]. *)
Definition Object_prototype : list string :=
  [ "constructor"; "__proto__"; "hasOwnProperty"; "isPrototypeOf";
    "propertyIsEnumerable"; "toLocaleString"; "toString"; "valueOf";
    "__defineGetter__"; "__defineSetter__"; "__lookupGetter__";
    "__lookupSetter__" ].

Inductive property (A : Type) :=
| Own (a : A)                (* a property of the literal itself *)
| Inherited (name : string)  (* a member of [Object.prototype] *)
| Undefined.
Arguments Own {A} a.
Arguments Inherited {A} name.
Arguments Undefined {A}.

Fixpoint assoc {A} (k : string) (o : list (string * A)) : option A :=
  match o with
  | [] => None
  | (k', v) :: o' => if String.eqb k k' then Some v else assoc k o'
  end.

Definition mem (k : string) (l : list string) : bool :=
  existsb (String.eqb k) l.

(** [o[k]] on an object literal [o]. *)
Definition get {A} (o : list (string * A)) (k : string) : property A :=
  match assoc k o with
  | Some v => Own v
  | None => if mem k Object_prototype then Inherited k else Undefined
  end.

End Js.


(* ================================================================== *)
(** * Forensic authentication tools *)
(* ================================================================== *)

Module Tools.
Import Js.

(** The argument map of a tool call, [Record<string, string>]. *)
Abbreviation Args := (gmap string string).

(** ** Result records *)

Inductive RNStatus := active | inactive | not_found.

Module RNLookupResult.
Record t := mk {
  rnNumber : string;
  companyName : string;
  registrationYear : option Z;
  calculatedYear : option number;
  status : RNStatus;
  formula : string }.
End RNLookupResult.

Module BrandPatternResult.
Record t := mk {
  brand : string;
  era : string;
  authenticityScore : number;
  matchedPatterns : list string;
  redFlags : list string;
  details : string }.
End BrandPatternResult.

Module DateForensicsResult.
Record t := mk {
  estimatedEra : string;
  yearRange : number * number;
  confidence : fnumber;
  evidence : list string;
  constructionDetails : list string;
  materialAnalysis : string }.
End DateForensicsResult.

Inductive MarketTrend := rising | stable | declining.
Inductive DemandLevel := demand_very_high | demand_high | demand_moderate | demand_low.

Module ComparableSale.
Record t := mk {
  title : string;
  price : number;
  platform : string;
  date : string;
  condition : string }.
End ComparableSale.

Module EstimatedValue.
Record t := mk {
  low : number;
  mid : number;
  high : number;
  currency : string }.
End EstimatedValue.

Module MarketSearchResult.
Record t := mk {
  estimatedValue : EstimatedValue.t;
  comparableSales : list ComparableSale.t;
  marketTrend : MarketTrend;
  demandLevel : DemandLevel }.
End MarketSearchResult.

(** ** Tool 1: RN/WPL lookup *)

(** RN dating formula: (RN - 13670) / 2635 + 1959. *)
Definition calculateRNYear (rnNumber : number) : option number :=
  if num_lt rnNumber (Num 13670) then None
  else Some (Math_round_f
               (f_add (f_div (f_sub (to_f rnNumber) (Frac 13670)) (Frac 2635)) (Frac 1959))).

Module RNEntry.
Record t := mk { company : string; year : option Z }.
End RNEntry.

Definition RN_DATABASE : list (string * RNEntry.t) :=
  [ ("42850", RNEntry.mk "Nike Inc." (Some 1970));
    ("55531", RNEntry.mk "Gap Inc." (Some 1975));
    ("73277", RNEntry.mk "Levi Strauss & Co." (Some 1982));
    ("73909", RNEntry.mk "Ralph Lauren Corporation" (Some 1982));
    ("77388", RNEntry.mk "Tommy Hilfiger" (Some 1984));
    ("91518", RNEntry.mk "The North Face" (Some 1989));
    ("101243", RNEntry.mk "Patagonia Inc." (Some 1992));
    ("114798", RNEntry.mk "Carhartt Inc." (Some 1997));
    ("56002", RNEntry.mk "Levi's (alternate)" (Some 1975));
    ("41381", RNEntry.mk "Pendleton Woolen Mills" (Some 1969));
    ("15763", RNEntry.mk "L.L.Bean Inc." (Some 1960));
    ("26094", RNEntry.mk "Fruit of the Loom" (Some 1964)) ].

(** [y || null] for a possibly missing year: zero is falsy. *)
Definition year_or_null (y : option Z) : option Z :=
  match y with
  | Some v => if v =? 0 then None else Some v
  | None => None
  end.

(** Whether a formula year is truthy: [null], [0] and [NaN] are not. *)
Definition truthy (y : option number) : bool :=
  match y with
  | Some (Num v) => negb (v =? 0)
  | Some (Infinity _) => true
  | Some NaN | None => false
  end.

(** [y || 'N/A'] inside a template string. *)
Definition year_or_na (y : option number) : string :=
  match y with
  | Some v => if truthy y then show_number v else "N/A"
  | None => "N/A"
  end.

Definition rnLookup (args : Args) : RNLookupResult.t :=
  let rawNumber := str_or (args !! "rn_number") "" in
  let cleaned := filter_chars is_digit rawNumber in
  match parseInt cleaned with
  | NaN =>
      {| RNLookupResult.rnNumber := rawNumber;
         RNLookupResult.companyName := "Invalid RN number";
         RNLookupResult.registrationYear := None;
         RNLookupResult.calculatedYear := None;
         RNLookupResult.status := not_found;
         RNLookupResult.formula := "N/A" |}
  | rnNum =>
      let knownEntry := get RN_DATABASE cleaned in
      let calculatedYear := calculateRNYear rnNum in
      {| RNLookupResult.rnNumber := "RN " ++ cleaned;
         RNLookupResult.companyName :=
           match knownEntry with
           | Own e => str_or (Some (RNEntry.company e)) ("Unknown (RN " ++ cleaned ++ ")")
           | _ => "Unknown (RN " ++ cleaned ++ ")"
           end;
         RNLookupResult.registrationYear :=
           match knownEntry with
           | Own e => year_or_null (RNEntry.year e)
           | _ => None
           end;
         RNLookupResult.calculatedYear := calculatedYear;
         RNLookupResult.status :=
           match knownEntry with
           | Undefined => if truthy calculatedYear then active else not_found
           | _ => active
           end;
         RNLookupResult.formula :=
           "(" ++ show_number rnNum ++ " - 13670) / 2635 + 1959 = "
             ++ year_or_na calculatedYear |}
  end.

(** ** Tool 2: brand pattern verification *)

Module EraData.
Record t := mk {
  patterns : list string;
  redFlags : list string;
  details : string }.
End EraData.

Module BrandPatternDB.
Record t := mk { eras : list (string * EraData.t) }.
End BrandPatternDB.

Definition BRAND_PATTERNS : list (string * BrandPatternDB.t) :=
  [ ("nike", BrandPatternDB.mk
      [ ("1970s", EraData.mk
          ["Block letter NIKE logo"; "Made in Japan/Taiwan"; "Waffle outsole"; "Simple swoosh"]
          ["Modern swoosh design"; "Made in China/Vietnam"; "Moisture-wicking materials"]
          "Early Nike featured block letters and Japanese manufacturing. The swoosh was thinner and simpler.");
        ("1980s", EraData.mk
          ["Grey tag"; "Silver/grey label"; "Made in Taiwan/Korea"; "Block font"; "Pin tag on collar"]
          ["White label"; "Modern barcode format"; "Dri-FIT branding"]
          "The Grey Tag era (1980-87) is highly collectible. Look for silver/grey woven labels.");
        ("1990s", EraData.mk
          ["White tag"; "White label"; "Made in USA possible"; "Embroidered swoosh"; "Mini swoosh"]
          ["Grey tag (too early)"; "Modern hang tag design"; "Flex/React branding"]
          "White Tag era (1988-1998). Highly sought after. Mini swoosh and center swoosh are valuable.");
        ("2000s", EraData.mk
          ["Size tag on inside"; "Modern hang tag"; "Tech fabric labels"; "Barcode tag"]
          ["Missing care labels"; "Incorrect font spacing"; "Poor swoosh proportions"]
          "Modern era Nike. Look for consistent label formatting and proper material composition tags.") ]);
    ("levis", BrandPatternDB.mk
      [ ("1960s", EraData.mk
          ["Big E (LEVI'S)"; "Single-stitch hems"; "Redline selvedge"; "Paper patch"]
          ["Lowercase e"; "Chain stitch hems"; "Modern rivets"]
          "Big E era uses capital E in LEVI'S. Extremely valuable. Check for selvedge denim.");
        ("1970s", EraData.mk
          ["Small e (Levi's)"; "Orange tab possible"; "Care tag with numbers"; "Chain stitch hems"]
          ["Big E (too early)"; "Modern leather patch"; "Stretch denim"]
          "Transition from Big E to small e happened ~1971. Orange tab indicates non-501 line.");
        ("1980s", EraData.mk
          ["Red tab small e"; "Leather patch"; "Made in USA"; "Cone Mills denim possible"]
          ["Paper patch"; "Non-US manufacture"; "Modern button styles"]
          "Made in USA era. Look for quality denim weight and Cone Mills fabric.");
        ("1990s", EraData.mk
          ["Red tab small e"; "Various global manufacture"; "Silver tab line"; "Baggy/loose cuts"]
          ["Incorrect tab placement"; "Poor rivet quality"; "Wrong pocket arc pattern"]
          "Diverse manufacturing era. Silver Tab line is collectible. Check pocket arcs carefully.") ]);
    ("ralph lauren", BrandPatternDB.mk
      [ ("1980s", EraData.mk
          ["Polo player logo"; "Made in USA"; "Single-needle construction"; "Button-down collar"]
          ["Modern tag design"; "Made in Sri Lanka/China"; "Missing country of origin"]
          "Golden era Ralph Lauren. Made in USA with premium construction. Look for single-needle stitching.");
        ("1990s", EraData.mk
          ["Polo Sport line"; "Hi-Tech collection"; "Snow Beach"; "Stadium 1992"]
          ["Incorrect flag design"; "Wrong font for era"; "Poor embroidery quality"]
          "Highly collectible era. Polo Sport, Snow Beach, and Stadium 1992 command premium prices.") ]) ].

(** [observedMarkers.some(m => m.toLowerCase().includes(p.toLowerCase().slice(0, 10)))] *)
Definition observed (observedMarkers : list string) (p : string) : bool :=
  existsb (fun m => includes (slice0 10 (toLowerCase p)) (toLowerCase m)) observedMarkers.

Definition clamp_score (q : Q) : Z := Z.max 0 (Z.min 100 (Math_round q)).

Definition brandPatterns (args : Args) : outcome BrandPatternResult.t :=
  let brand := trim (toLowerCase (str_or (args !! "brand") "")) in
  let era := trim (str_or (args !! "era") "") in
  let observedMarkers :=
    List.filter (fun m => nonempty m) (map trim (split "," (str_or (args !! "markers") ""))) in
  match get BRAND_PATTERNS brand with
  | Undefined =>
      Ok {| BrandPatternResult.brand := str_or (args !! "brand") "Unknown";
            BrandPatternResult.era := era;
            BrandPatternResult.authenticityScore := Num 50;
            BrandPatternResult.matchedPatterns := [];
            BrandPatternResult.redFlags :=
              ["Brand not in database - manual verification required"];
            BrandPatternResult.details :=
              "Brand " ++ dquote
                ++ match args !! "brand" with Some b => b | None => "undefined" end
                ++ dquote
                ++ " not found in forensic database. Manual authentication recommended." |}
  | Inherited _ =>
      (* [brandData.eras] is undefined and [Object.keys(undefined)] throws *)
      Throw (TypeError "Cannot convert undefined or null to object")
  | Own brandData =>
      (* Find closest era match *)
      let eraKeys := map fst (BrandPatternDB.eras brandData) in
      let matchedEra :=
        match find (fun k => includes (replace_first "s" "" k) era) eraKeys with
        | Some k => Some k
        | None => last eraKeys
        end in
      match matchedEra with
      | None => Throw (TypeError "Cannot read properties of undefined (reading 'patterns')")
      | Some matchedEra =>
      match get (BrandPatternDB.eras brandData) matchedEra with
      | Own eraData =>
          (* Score based on pattern matching *)
          let matchedPatterns := List.filter (observed observedMarkers) (EraData.patterns eraData) in
          let redFlags := List.filter (observed observedMarkers) (EraData.redFlags eraData) in
          let patternScore :=
            if (0 <? length (EraData.patterns eraData))%nat
            then (inject_Z (Z.of_nat (length matchedPatterns))
                  / inject_Z (Z.of_nat (length (EraData.patterns eraData))) * inject_Z 100)%Q
            else inject_Z 50 in
          let redFlagPenalty := Z.of_nat (length redFlags) * 15 in
          let authenticityScore := clamp_score (patternScore - inject_Z redFlagPenalty) in
          Ok {| BrandPatternResult.brand := str_or (args !! "brand") "Unknown";
                BrandPatternResult.era := matchedEra;
                BrandPatternResult.authenticityScore := Num authenticityScore;
                BrandPatternResult.matchedPatterns :=
                  if (0 <? length matchedPatterns)%nat then matchedPatterns
                  else EraData.patterns eraData;
                BrandPatternResult.redFlags :=
                  if (0 <? length redFlags)%nat then redFlags else [];
                BrandPatternResult.details := EraData.details eraData |}
      | _ => Throw (TypeError "Cannot read properties of undefined (reading 'patterns')")
      end
      end
  end.

(** ** Tool 3: date forensics *)

Module ConstructionMarker.
Record t := mk {
  feature : string;
  eraRange : Z * Z;
  confidence : Q }.
End ConstructionMarker.

Definition CONSTRUCTION_MARKERS : list ConstructionMarker.t :=
  [ ConstructionMarker.mk "single-needle" (1950, 1990) (literal (7 # 10));
    ConstructionMarker.mk "chain stitch" (1950, 1985) (literal (8 # 10));
    ConstructionMarker.mk "selvedge" (1920, 1985) (literal (85 # 100));
    ConstructionMarker.mk "union label" (1955, 1995) (literal (9 # 10));
    ConstructionMarker.mk "made in usa" (1940, 2000) (literal (6 # 10));
    ConstructionMarker.mk "made in japan" (1960, 1990) (literal (7 # 10));
    ConstructionMarker.mk "made in china" (1985, 2026) (literal (5 # 10));
    ConstructionMarker.mk "ykk zipper" (1960, 2026) (literal (4 # 10));
    ConstructionMarker.mk "talon zipper" (1930, 1990) (literal (85 # 100));
    ConstructionMarker.mk "coats & clark" (1950, 2010) (literal (6 # 10));
    ConstructionMarker.mk "bar tack" (1960, 2026) (literal (3 # 10));
    ConstructionMarker.mk "rolled hem" (1940, 1980) (literal (75 # 100));
    ConstructionMarker.mk "triple stitch" (1970, 2026) (literal (4 # 10));
    ConstructionMarker.mk "polyester" (1960, 2026) (literal (3 # 10));
    ConstructionMarker.mk "nylon" (1940, 2026) (literal (2 # 10));
    ConstructionMarker.mk "rayon" (1920, 2026) (literal (3 # 10));
    ConstructionMarker.mk "care label" (1971, 2026) (literal (8 # 10));
    ConstructionMarker.mk "no care label" (1920, 1971) (literal (9 # 10)) ].

Definition era_start (m : ConstructionMarker.t) : Z := fst (ConstructionMarker.eraRange m).
Definition era_end (m : ConstructionMarker.t) : Z := snd (ConstructionMarker.eraRange m).

(** The three accumulators of the weighting loop. *)
Definition add_weight (acc : Q * Q * Q) (marker : ConstructionMarker.t) : Q * Q * Q :=
  let '(totalWeight, weightedStart, weightedEnd) := acc in
  (fadd totalWeight (ConstructionMarker.confidence marker),
   fadd weightedStart (fmul (inject_Z (era_start marker)) (ConstructionMarker.confidence marker)),
   fadd weightedEnd (fmul (inject_Z (era_end marker)) (ConstructionMarker.confidence marker))).

Definition evidence_line (m : ConstructionMarker.t) : string :=
  ConstructionMarker.feature m ++ ": " ++ show (era_start m) ++ "-" ++ show (era_end m)
    ++ " (" ++ show (Math_round (fmul (ConstructionMarker.confidence m) (inject_Z 100)))
    ++ "% confidence)".

Definition dateForensics (args : Args) : DateForensicsResult.t :=
  let details := toLowerCase (str_or (args !! "construction_details") "") in
  let materials := toLowerCase (str_or (args !! "materials") "") in
  let combined := details ++ " " ++ materials in
  let matchedMarkers :=
    List.filter (fun marker => includes (ConstructionMarker.feature marker) combined)
           CONSTRUCTION_MARKERS in
  match matchedMarkers with
  | [] =>
      {| DateForensicsResult.estimatedEra := "Undetermined";
         DateForensicsResult.yearRange := (Num 1960, Num 2020);
         DateForensicsResult.confidence := Frac (literal (3 # 10));
         DateForensicsResult.evidence := ["No specific construction markers identified"];
         DateForensicsResult.constructionDetails := [details];
         DateForensicsResult.materialAnalysis := str_or (Some materials) "Not specified" |}
  | first :: others =>
      (* Calculate weighted year range *)
      let '(totalWeight, weightedStart, weightedEnd) :=
        fold_left add_weight matchedMarkers (0 # 1, 0 # 1, 0 # 1)%Q in
      let avgStart := Math_round (fdiv weightedStart totalWeight) in
      let avgEnd := Math_round (fdiv weightedEnd totalWeight) in
      (* Narrow the range based on overlap *)
      let overlapStart := fold_left Z.max (map era_start others) (era_start first) in
      let overlapEnd := fold_left Z.min (map era_end others) (era_end first) in
      let finalStart := if overlapStart <=? overlapEnd then overlapStart else avgStart in
      let finalEnd := if overlapStart <=? overlapEnd then overlapEnd else avgEnd in
      let avgConfidence :=
        fdiv totalWeight (inject_Z (Z.of_nat (length matchedMarkers))) in
      let decade := finalStart / 10 * 10 in
      {| DateForensicsResult.estimatedEra :=
           show decade ++ "s - " ++ show (finalEnd / 10 * 10) ++ "s";
         DateForensicsResult.yearRange := (Num finalStart, Num finalEnd);
         DateForensicsResult.confidence :=
           Frac (Qmin (literal (95 # 100))
                   (fadd avgConfidence
                      (fmul (inject_Z (Z.of_nat (length matchedMarkers))) (literal (5 # 100)))));
         DateForensicsResult.evidence := map evidence_line matchedMarkers;
         DateForensicsResult.constructionDetails :=
           List.filter (fun d => nonempty d) (map trim (split "," details));
         DateForensicsResult.materialAnalysis := str_or (Some materials) "Not specified" |}
  end.

(** ** Tool 4: market search *)

(** The state of [Math.random]: the draws still to come, each in [0, 1). *)
Definition Rng := nat -> Q.

Definition Math_random (rng : Rng) : Q * Rng :=
  (rng O, fun n => rng (S n)).

Module Band.
Record t := mk { low : Z; high : Z }.
End Band.

(** Simulated market data. *)
Definition baseValues : list (string * Band.t) :=
  [ ("nike", Band.mk 80 450);
    ("levis", Band.mk 60 800);
    ("ralph lauren", Band.mk 50 600);
    ("the north face", Band.mk 70 350);
    ("patagonia", Band.mk 60 300);
    ("carhartt", Band.mk 40 250);
    ("champion", Band.mk 40 200);
    ("stussy", Band.mk 80 500);
    ("supreme", Band.mk 100 2000);
    ("default", Band.mk 30 200) ].

(** [Math.round(side * eraMultiplier)] where [side] is [brandValues.low] or
    [brandValues.high]; on an inherited member the field is undefined and
    the product is [NaN]. *)
Definition scale (brandValues : property Band.t) (side : Band.t -> Z) (eraMultiplier : Q)
  : number :=
  match brandValues with
  | Own b => Num (Math_round (inject_Z (side b) * eraMultiplier))
  | _ => NaN
  end.

(** [Math.round((low + high) / 2)]. *)
Definition midpoint (low high : number) : number :=
  Math_round_f (f_div (f_add (to_f low) (to_f high)) (Frac 2)).

Definition marketSearch (args : Args) (rng : Rng) : MarketSearchResult.t * Rng :=
  let description := str_or (args !! "item_description") "" in
  let brand := toLowerCase (str_or (args !! "brand") "") in
  let era := str_or (args !! "era") "" in
  let brandValues :=
    match get baseValues brand with
    | Undefined => get baseValues "default"
    | found => found
    end in
  (* Adjust for era desirability *)
  let eraMultiplier : Q :=
    if includes "1970" era || includes "1980" era then 18 # 10
    else if includes "1990" era then 14 # 10
    else if includes "2000" era then 8 # 10
    else 1 # 1 in
  let low := scale brandValues Band.low eraMultiplier in
  let high := scale brandValues Band.high eraMultiplier in
  let mid := midpoint low high in
  let '(r1, rng) := Math_random rng in
  let '(r2, rng) := Math_random rng in
  let '(r3, rng) := Math_random rng in
  ({| MarketSearchResult.estimatedValue :=
        {| EstimatedValue.low := low;
           EstimatedValue.mid := mid;
           EstimatedValue.high := high;
           EstimatedValue.currency := "USD" |};
      MarketSearchResult.comparableSales :=
        [ {| ComparableSale.title := description ++ " - Similar condition";
             ComparableSale.price :=
               num_add mid (Num (Math_round (r1 * inject_Z 50 - inject_Z 25)));
             ComparableSale.platform := "eBay";
             ComparableSale.date := "2026-01-15";
             ComparableSale.condition := "Good" |};
          {| ComparableSale.title := description ++ " - Excellent condition";
             ComparableSale.price := num_sub high (Num (Math_round (r2 * inject_Z 50)));
             ComparableSale.platform := "Grailed";
             ComparableSale.date := "2026-01-10";
             ComparableSale.condition := "Excellent" |};
          {| ComparableSale.title := description ++ " - Fair condition";
             ComparableSale.price := num_add low (Num (Math_round (r3 * inject_Z 30)));
             ComparableSale.platform := "Depop";
             ComparableSale.date := "2025-12-28";
             ComparableSale.condition := "Fair" |} ];
      MarketSearchResult.marketTrend :=
        if Qlt_le_dec (12 # 10) eraMultiplier then rising else stable;
      MarketSearchResult.demandLevel :=
        if Qlt_le_dec (15 # 10) eraMultiplier then demand_very_high
        else if Qlt_le_dec (1 # 1) eraMultiplier then demand_high
        else demand_moderate |},
   rng).

(** ** Tool router *)

Inductive ToolResult :=
| RN (r : RNLookupResult.t)
| BP (r : BrandPatternResult.t)
| DF (r : DateForensicsResult.t)
| MS (r : MarketSearchResult.t).

Definition Tool := Args -> Rng -> outcome ToolResult * Rng.

Definition TOOL_MAP : list (string * Tool) :=
  [ ("rn_lookup", fun args rng => (Ok (RN (rnLookup args)), rng));
    ("brand_patterns",
      fun args rng =>
        (match brandPatterns args with
         | Ok r => Ok (BP r)
         | Throw e => Throw e
         end, rng));
    ("date_forensics", fun args rng => (Ok (DF (dateForensics args)), rng));
    ("market_search",
      fun args rng => let '(r, rng') := marketSearch args rng in (Ok (MS r), rng')) ].

(** What the promise of [executeToolCall] resolves to.  Besides the four
    result shapes, the names [constructor] and [toString] reach members of
    [Object.prototype] that return. *)
Inductive ToolValue :=
| Result (r : ToolResult)
| ArgsObject (args : Args)         (* [Object(args)] *)
| StringValue (s : string).        (* [Object.prototype.toString] *)

(** Execute a tool call by name. *)
Definition executeToolCall (toolName : string) (args : Args) (rng : Rng)
  : outcome ToolValue * Rng :=
  match get TOOL_MAP toolName with
  | Undefined => (Throw (Error ("Unknown tool: " ++ toolName)), rng)
  | Own tool =>
      let '(r, rng') := tool args rng in
      (match r with Ok v => Ok (Result v) | Throw e => Throw e end, rng')
  | Inherited name =>
      (if String.eqb name "constructor" then Ok (ArgsObject args)
       else if String.eqb name "toString" then Ok (StringValue "[object Undefined]")
       else if String.eqb name "__proto__" then Throw (TypeError "tool is not a function")
       else Throw (TypeError "Cannot convert undefined or null to object"),
       rng)
  end.

(** Get all available forensic tools. *)
Definition forensicTools : list string := map fst TOOL_MAP.

End Tools.


(* ================================================================== *)
(** * Regular expressions *)
(* ================================================================== *)

(** A backtracking matcher for the fragment of ECMAScript regular
    expressions the response parser uses: literals and character classes,
    sequence, alternation, greedy and lazy repetition, capture groups and
    the assertions [^], [$] and [\b].  No pattern of the parser has a
    capture group under a repetition, so captures are never reset. *)

Module Regex.
Import Js.

Inductive regex :=
| Eps
| Chr (p : ascii -> bool)
| Seq (r1 r2 : regex)
| Alt (r1 r2 : regex)
| Star (greedy : bool) (r : regex)
| Group (i : nat) (r : regex)
| Bol      (* [^] *)
| Eol      (* [$] *)
| WordB.   (* [\b] *)

Record state := mkState {
  pos : nat;                   (* characters consumed so far *)
  prev : option ascii;         (* the character before [rest] *)
  rest : string;               (* input still to read *)
  caps : list (nat * string) }.

Definition advance (c : ascii) (s' : string) (st : state) : state :=
  {| pos := S (pos st); prev := Some c; rest := s'; caps := caps st |}.

Definition set_cap (i : nat) (from to : state) : state :=
  {| pos := pos to; prev := prev to; rest := rest to;
     caps := (i, substring 0 (pos to - pos from) (rest from)) :: caps to |}.

Definition progress (st st' : state) : bool :=
  (String.length (rest st') <? String.length (rest st))%nat.

Definition is_word (c : ascii) : bool :=
  is_digit c || is_upper c || is_lower c || Ascii.eqb c "_".

Definition word_at (o : option ascii) : bool :=
  match o with Some c => is_word c | None => false end.

Definition next (s : string) : option ascii :=
  match s with String c _ => Some c | "" => None end.

Definition orelse {A} (x : option A) (y : unit -> option A) : option A :=
  match x with Some a => Some a | None => y tt end.

(** Repetition of a matcher [m1]: at most [n] further iterations, each of
    which must consume input. *)
Fixpoint star_loop {A} (greedy : bool)
    (m1 : state -> (state -> option A) -> option A)
    (k : state -> option A) (n : nat) (st : state) : option A :=
  let again (_ : unit) :=
    match n with
    | O => None
    | S n' =>
        m1 st (fun st' => if progress st st' then star_loop greedy m1 k n' st' else None)
    end in
  if greedy then orelse (again tt) (fun _ => k st)
  else orelse (k st) again.

Fixpoint rmatch {A} (r : regex) (st : state) (k : state -> option A) : option A :=
  match r with
  | Eps => k st
  | Chr p =>
      match rest st with
      | String c s' => if p c then k (advance c s' st) else None
      | "" => None
      end
  | Seq r1 r2 => rmatch r1 st (fun st' => rmatch r2 st' k)
  | Alt r1 r2 => orelse (rmatch r1 st k) (fun _ => rmatch r2 st k)
  | Star greedy r1 => star_loop greedy (rmatch r1) k (String.length (rest st)) st
  | Group i r1 => rmatch r1 st (fun st' => k (set_cap i st st'))
  | Bol => if (pos st =? 0)%nat then k st else None
  | Eol => match rest st with "" => k st | _ => None end
  | WordB => if xorb (word_at (prev st)) (word_at (next (rest st))) then k st else None
  end.

(** The leftmost match at or after the current position. *)
Fixpoint search (r : regex) (p : nat) (before : option ascii) (s : string)
  : option (state * state) :=
  let st := {| pos := p; prev := before; rest := s; caps := [] |} in
  match rmatch r st Some with
  | Some st' => Some (st, st')
  | None =>
      match s with
      | String c s' => search r (S p) (Some c) s'
      | "" => None
      end
  end.

Module Match.
Record t := mk {
  index : nat;
  whole : string;                 (* [m[0]] *)
  groups : list (nat * string) }.
End Match.

Definition found (ends : state * state) : Match.t :=
  let '(st, st') := ends in
  {| Match.index := pos st;
     Match.whole := substring 0 (pos st' - pos st) (rest st);
     Match.groups := caps st' |}.

(** [m[i]] for [i >= 1]; [None] is [undefined]. *)
Definition group (m : Match.t) (i : nat) : option string :=
  snd <$> find (fun c => (fst c =? i)%nat) (Match.groups m).

(** [s.match(r)] without the [g] flag. *)
Definition exec (r : regex) (s : string) : option Match.t :=
  found <$> search r 0 None s.

(** [r.test(s)]. *)
Definition test (r : regex) (s : string) : bool :=
  match exec r s with Some _ => true | None => false end.

(** [s.match(r)] with the [g] flag: every match, left to right. *)
Fixpoint match_all_from (fuel : nat) (r : regex) (p : nat) (before : option ascii)
    (s : string) : list string :=
  match fuel with
  | O => []
  | S fuel' =>
      match search r p before s with
      | None => []
      | Some (st, st') =>
          Match.whole (found (st, st')) ::
          (if (pos st' =? pos st)%nat
           then match rest st' with
                | String c s' => match_all_from fuel' r (S (pos st')) (Some c) s'
                | "" => []
                end
           else match_all_from fuel' r (pos st') (prev st') (rest st'))
      end
  end.

Definition match_all (r : regex) (s : string) : list string :=
  match_all_from (S (String.length s)) r 0 None s.

(** [s.replace(r, '')] without the [g] flag. *)
Definition remove_first (r : regex) (s : string) : string :=
  match exec r s with
  | Some m =>
      substring 0 (Match.index m) s
        ++ drop (Match.index m + String.length (Match.whole m)) s
  | None => s
  end.

(** ** Pattern syntax *)

Definition chr (c : ascii) : regex := Chr (Ascii.eqb c).
Definition chri (c : ascii) : regex := Chr (fun x => Ascii.eqb (lower x) (lower c)).

Fixpoint lit (s : string) : regex :=
  match s with
  | "" => Eps
  | String c "" => chr c
  | String c s' => Seq (chr c) (lit s')
  end.

(** A literal under the [i] flag. *)
Fixpoint liti (s : string) : regex :=
  match s with
  | "" => Eps
  | String c "" => chri c
  | String c s' => Seq (chri c) (liti s')
  end.

Definition alt (rs : list regex) : regex :=
  match rs with
  | [] => Eps
  | r :: rs' => fold_left Alt rs' r
  end.

Definition opt (r : regex) : regex := Alt r Eps.
Definition plus (r : regex) : regex := Seq r (Star true r).
Definition plus_lazy (r : regex) : regex := Seq r (Star false r).

(** [r{n}] *)
Fixpoint rep (n : nat) (r : regex) : regex :=
  match n with
  | O => Eps
  | S O => r
  | S n' => Seq r (rep n' r)
  end.

(** Up to [n] further greedy copies of [r]. *)
Fixpoint upto (n : nat) (r : regex) : regex :=
  match n with
  | O => Eps
  | S n' => opt (Seq r (upto n' r))
  end.

(** [r{lo,hi}] *)
Definition rep_range (lo hi : nat) (r : regex) : regex :=
  Seq (rep lo r) (upto (hi - lo) r).

Definition digit : regex := Chr is_digit.                (* [\d], [[0-9]] *)
Definition ws : regex := alt (map lit white_space).      (* [\s] *)
Definition colon_ws : regex := Alt (chr ":") ws.         (* [[:\s]] *)
Definition dash : regex := Alt (chr "-") (lit "–").      (* [[-–]] *)
Definition bullet : regex :=                             (* [[-•*]] *)
  alt [chr "-"; lit "•"; chr "*"].
Definition any : regex := Chr (fun _ => true).           (* [[^]] *)

(** [.]: anything but the line terminators LF, CR, U+2028 and U+2029. *)
Definition dot : regex :=
  let b (n : nat) (c : ascii) := (code c =? n)%nat in
  alt [ Chr (fun c => negb (b 10%nat c || b 13%nat c || b 226%nat c));
        Seq (Chr (b 226%nat)) (Chr (fun c => negb (b 128%nat c)));
        Seq (Chr (b 226%nat)) (Seq (Chr (b 128%nat))
                                (Chr (fun c => negb (b 168%nat c || b 169%nat c)))) ].

End Regex.


(* ================================================================== *)
(** * Gemini integration service *)
(* ================================================================== *)

Module Gemini.
Import Js Tools Regex.

(** ** Types *)

Inductive ConfidenceLevel := very_high | high | moderate | low | uncertain.

Inductive ItemCategory :=
| jacket | shirt | pants | dress | shoes | bag | accessory | hat
| outerwear | sportswear | denim | unknown.

Module BrandEra.
Record t := mk {
  brand : string;
  era : string;
  yearRange : number * number;
  confidence : fnumber;
  markers : list string }.
End BrandEra.

Module AuthenticationResult.
Record t := mk {
  isAuthentic : bool;
  confidence : number;
  confidenceLevel : ConfidenceLevel;
  category : ItemCategory;
  brandEra : BrandEra.t;
  rnLookup : option RNLookupResult.t;
  brandPattern : BrandPatternResult.t;
  dateForensics : DateForensicsResult.t;
  marketData : MarketSearchResult.t;
  reasoning : string;
  redFlags : list string;
  verifiedMarkers : list string;
  thinkingOutput : option string;
  timestamp : Z;
  processingTime : Z }.
End AuthenticationResult.

Inductive ScanStatus :=
| idle | capturing | uploading | analyzing | tool_calling | self_correcting
| complete | error_status.

Module ScanProgress.
Record t := mk {
  status : ScanStatus;
  message : string;
  step : Z;
  totalSteps : Z;
  toolName : option string;
  (** The value whose JSON text, cut to 200 characters, is the preview. *)
  toolResult : option ToolValue }.
End ScanProgress.

(** A configuration; [None] is a field that is undefined. *)
Module GeminiConfig.
Record t := mk {
  apiKey : option string;
  model : option string;
  thinkingLevel : option string;
  mediaResolution : option string;
  maxRetries : option Z;
  selfCorrectionThreshold : option Q }.
End GeminiConfig.

(** A field of [Partial<GeminiConfig>]: left out, or given (possibly as
    undefined). *)
Inductive field (A : Type) :=
| Absent
| Given (v : option A).
Arguments Absent {A}.
Arguments Given {A} v.

Module PartialConfig.
Record t := mk {
  apiKey : field string;
  model : field string;
  thinkingLevel : field string;
  mediaResolution : field string;
  maxRetries : field Z;
  selfCorrectionThreshold : field Q }.
End PartialConfig.

(** [import.meta.env] *)
Module Env.
Record t := mk {
  VITE_GEMINI_API_KEY : option string;
  VITE_GEMINI_MODEL : option string;
  VITE_THINKING_LEVEL : option string;
  VITE_MEDIA_RESOLUTION : option string }.
End Env.

(** ** The hosted model and the chat session *)

Module FunctionCall.
Record t := mk { name : string; args : Args }.
End FunctionCall.

Inductive Part :=
| Text (s : string)
| InlineData (data mimeType : string)
| FunctionResponse (name : string) (response : ToolValue).

Definition Message := list Part.

Module Response.
Record t := mk {
  functionCalls : outcome (option (list FunctionCall.t));
  text : outcome string }.
End Response.

(** The hosted model behind a chat: its reply to the messages sent so far,
    the last being the one just sent. *)
Definition Chat := list Message -> outcome Response.t.

(** [client.getGenerativeModel({ model, tools }).startChat()] *)
Definition Hosted := string -> option string -> Chat.

(** ** Effects *)

(** [Date.now]: the readings still to come. *)
Definition Clock := nat -> Z.

Definition Date_now (clock : Clock) : Z * Clock :=
  (clock O, fun n => clock (S n)).

Module World.
Record t := mk {
  rng : Rng;
  clock : Clock;
  sent : list Message;               (* messages sent in the chat, in order *)
  progress : list ScanProgress.t }.  (* calls of [onProgress], in order *)
End World.

Definition M (A : Type) := World.t -> outcome A * World.t.

Definition ret {A} (a : A) : M A := fun w => (Ok a, w).
Definition throw {A} (e : error) : M A := fun w => (Throw e, w).
Definition bind {A B} (m : M A) (f : A -> M B) : M B :=
  fun w =>
    match m w with
    | (Ok a, w') => f a w'
    | (Throw e, w') => (Throw e, w')
    end.

Declare Scope m_scope.
Delimit Scope m_scope with m.
Bind Scope m_scope with M.
Notation "x <- c ;; k" := (bind c (fun x => k))
  (at level 100, c at next level, right associativity) : m_scope.
Notation "c ;; k" := (bind c (fun _ => k))
  (at level 100, right associativity) : m_scope.
Open Scope m_scope.

Definition lift {A} (o : outcome A) : M A := fun w => (o, w).

Definition now : M Z :=
  fun w =>
    let '(t, clock') := Date_now (World.clock w) in
    (Ok t, World.mk (World.rng w) clock' (World.sent w) (World.progress w)).

Definition onProgress (p : ScanProgress.t) : M unit :=
  fun w =>
    (Ok tt, World.mk (World.rng w) (World.clock w) (World.sent w)
                     (World.progress w ++ [p])%list).

(** [chat.sendMessage(message)] followed by [.response]. *)
Definition sendMessage (chat : Chat) (message : Message) : M Response.t :=
  fun w =>
    let history := (World.sent w ++ [message])%list in
    (chat history, World.mk (World.rng w) (World.clock w) history (World.progress w)).

Definition withRng {A} (f : Rng -> A * Rng) : M A :=
  fun w =>
    let '(a, rng') := f (World.rng w) in
    (Ok a, World.mk rng' (World.clock w) (World.sent w) (World.progress w)).

(** ** Configuration *)

(** [o || d], as a field that is defined. *)
Definition str_or_else (o : option string) (d : string) : option string :=
  Some (str_or o d).

Definition DEFAULT_CONFIG (env : Env.t) : GeminiConfig.t :=
  {| GeminiConfig.apiKey := str_or_else (Env.VITE_GEMINI_API_KEY env) "";
     GeminiConfig.model := str_or_else (Env.VITE_GEMINI_MODEL env) "gemini-2.0-flash";
     GeminiConfig.thinkingLevel := str_or_else (Env.VITE_THINKING_LEVEL env) "high";
     GeminiConfig.mediaResolution := str_or_else (Env.VITE_MEDIA_RESOLUTION env) "high";
     GeminiConfig.maxRetries := Some 2;
     GeminiConfig.selfCorrectionThreshold := Some (literal (7 # 10)) |}.

Definition spread {A} (base : option A) (over : field A) : option A :=
  match over with
  | Absent => base
  | Given v => v
  end.

(** [{ ...base, ...config }] *)
Definition merge (base : GeminiConfig.t) (config : PartialConfig.t) : GeminiConfig.t :=
  {| GeminiConfig.apiKey := spread (GeminiConfig.apiKey base) (PartialConfig.apiKey config);
     GeminiConfig.model := spread (GeminiConfig.model base) (PartialConfig.model config);
     GeminiConfig.thinkingLevel :=
       spread (GeminiConfig.thinkingLevel base) (PartialConfig.thinkingLevel config);
     GeminiConfig.mediaResolution :=
       spread (GeminiConfig.mediaResolution base) (PartialConfig.mediaResolution config);
     GeminiConfig.maxRetries :=
       spread (GeminiConfig.maxRetries base) (PartialConfig.maxRetries config);
     GeminiConfig.selfCorrectionThreshold :=
       spread (GeminiConfig.selfCorrectionThreshold base)
              (PartialConfig.selfCorrectionThreshold config) |}.

(** Initialize the Gemini client: the credential it was built with. *)
Definition createClient (config : GeminiConfig.t) : outcome string :=
  match GeminiConfig.apiKey config with
  | Some key =>
      if nonempty key then Ok key
      else Throw (Error "VITE_GEMINI_API_KEY is required. Get one at https://ai.google.dev/gemini-api/docs/api-key")
  | None =>
      Throw (Error "VITE_GEMINI_API_KEY is required. Get one at https://ai.google.dev/gemini-api/docs/api-key")
  end.

(** Convert base64 image to Gemini-compatible format. *)
Definition imageToGenerativePart (base64Data : string) : Part :=
  let base64 :=
    if includes "," base64Data
    then nth 1 (split "," base64Data) ""
    else base64Data in
  let mimeType := if includes "image/png" base64Data then "image/png" else "image/jpeg" in
  InlineData base64 mimeType.

(** Map confidence score to level. *)
Definition getConfidenceLevel (score : number) : ConfidenceLevel :=
  if num_ge score (Num 90) then very_high
  else if num_ge score (Num 75) then high
  else if num_ge score (Num 55) then moderate
  else if num_ge score (Num 35) then low
  else uncertain.

(** Build the forensic authentication prompt. *)
Definition buildForensicPrompt : string :=
"You are GRAIL SCANNER, an expert forensic vintage clothing authenticator.

TASK: Analyze this vintage clothing item image and perform a comprehensive forensic authentication.

ANALYSIS STEPS:
1. IDENTIFY the item: category, brand (if visible), approximate era
2. EXAMINE authentication markers: labels, tags, stitching, hardware, materials
3. USE the available tools to verify findings:
   - rn_lookup: If you spot an RN or WPL number, look it up
   - brand_patterns: Verify brand-specific authentication markers for the identified era
   - date_forensics: Analyze construction details to date the item
   - market_search: Get current market pricing for authenticated items
4. CROSS-REFERENCE all tool results for consistency
5. ASSESS authenticity confidence (0-100)

IMPORTANT:
- Be thorough but honest. If you can't determine something, say so.
- Look for red flags: inconsistent labels, wrong-era materials, poor construction
- Consider both macro (overall look) and micro (stitching, fabric weave) details
- If confidence is below 70%, explain what additional information would help

OUTPUT: Use the tools available to build a comprehensive authentication report.
Call each relevant tool and synthesize the results into a final assessment.".

(** ** Response parser *)

Definition nl : string := bytes [10%nat].

(** [/confidence[:\s]*(\d{1,3})%/i] *)
Definition confidence_colon : regex :=
  Seq (liti "confidence") (Seq (Star true colon_ws)
    (Seq (Group 1 (rep_range 1 3 digit)) (chr "%"))).

(** [/(\d{1,3})%\s*confident/i] *)
Definition percent_confident : regex :=
  Seq (Group 1 (rep_range 1 3 digit)) (Seq (chr "%")
    (Seq (Star true ws) (liti "confident"))).

(** [/score[:\s]*(\d{1,3})/i] *)
Definition score_colon : regex :=
  Seq (liti "score") (Seq (Star true colon_ws) (Group 1 (rep_range 1 3 digit))).

(** [/\b(authentic|genuine|real|verified|legitimate)\b/i] *)
Definition positive_terms : regex :=
  Seq WordB (Seq (Group 1 (alt (map liti
    ["authentic"; "genuine"; "real"; "verified"; "legitimate"]))) WordB).

(** [/\b(not authentic|not genuine|fake|counterfeit|replica|reproduction)\b/i] *)
Definition negative_terms : regex :=
  Seq WordB (Seq (Group 1 (alt (map liti
    ["not authentic"; "not genuine"; "fake"; "counterfeit"; "replica"; "reproduction"])))
    WordB).

(** [/brand[:\s]*([A-Za-z\s&]+?)(?:\n|,|\.|;)/i] *)
Definition brand_colon : regex :=
  Seq (liti "brand") (Seq (Star true colon_ws)
    (Seq (Group 1 (plus_lazy
            (Alt (Chr (fun c => is_upper c || is_lower c || Ascii.eqb c "&")) ws)))
         (alt [lit nl; chr ","; chr "."; chr ";"]))).

(** [[0-9]{4}s?] under the [i] flag *)
Definition decade_re : regex := Seq (rep 4 digit) (opt (chri "s")).

(** [/(?:era|period|decade|year)[:\s]*([0-9]{4}s?(?:\s*[-–]\s*[0-9]{4}s?)?)/i] *)
Definition era_colon : regex :=
  Seq (alt (map liti ["era"; "period"; "decade"; "year"])) (Seq (Star true colon_ws)
    (Group 1 (Seq decade_re
               (opt (Seq (Star true ws) (Seq dash (Seq (Star true ws) decade_re))))))).

(** [/((?:early|mid|late)\s+[0-9]{4}s)/i] *)
Definition era_phrase : regex :=
  Group 1 (Seq (alt (map liti ["early"; "mid"; "late"]))
            (Seq (plus ws) (Seq (rep 4 digit) (chri "s")))).

(** [/(\d{4})\s*[-–]\s*(\d{4})/], also [/([0-9]{4})\s*[-–]\s*([0-9]{4})/i] *)
Definition year_pair : regex :=
  Seq (Group 1 (rep 4 digit)) (Seq (Star true ws) (Seq dash (Seq (Star true ws)
    (Group 2 (rep 4 digit))))).

(** [/^[:\s]+/] *)
Definition leading_colon_ws : regex := Seq Bol (plus colon_ws).

(** [([^]*?)(?:\n\n|$)] *)
Definition section_body : regex :=
  Seq (Group 1 (Star false any)) (Alt (lit (nl ++ nl)) Eol).

(** [/red flag[s]?[:\s]*([^]*?)(?:\n\n|$)/i] *)
Definition red_flag_section : regex :=
  Seq (liti "red flag") (Seq (opt (chri "s")) (Seq (Star true colon_ws) section_body)).

(** [/(?:verified|authentication)\s*markers?[:\s]*([^]*?)(?:\n\n|$)/i] *)
Definition marker_section : regex :=
  Seq (alt (map liti ["verified"; "authentication"])) (Seq (Star true ws)
    (Seq (liti "marker") (Seq (opt (chri "s")) (Seq (Star true colon_ws) section_body)))).

(** [/[-•*]\s*(.+)/g] *)
Definition bullet_line : regex :=
  Seq bullet (Seq (Star true ws) (Group 1 (plus dot))).

(** [/^[-•*]\s*/] *)
Definition bullet_prefix : regex := Seq Bol (Seq bullet (Star true ws)).

(** [\d+(?:,\d{3})*] *)
Definition amount : regex := Seq (plus digit) (Star true (Seq (chr ",") (rep 3 digit))).

(** [/\$(A)\s*[-–]\s*\$(A)/] where [A] is [amount] *)
Definition value_pair : regex :=
  Seq (chr "$") (Seq (Group 1 amount) (Seq (Star true ws) (Seq dash (Seq (Star true ws)
    (Seq (chr "$") (Group 2 amount)))))).

(** [a || b || ...] over the results of [text.match]. *)
Fixpoint first_match (rs : list regex) (text : string) : option Match.t :=
  match rs with
  | [] => None
  | r :: rs' =>
      match exec r text with
      | Some m => Some m
      | None => first_match rs' text
      end
  end.

(** [parseInt(m[i])]; an undefined group reads as ["undefined"]. *)
Definition parseInt_group (m : Match.t) (i : nat) : number :=
  parseInt (default "undefined" (group m i)).

(** The bullet lines of a section, each without its bullet. *)
Definition bullets (section : option Match.t) : list string :=
  match section with
  | Some m =>
      map (remove_first bullet_prefix) (match_all bullet_line (default "" (group m 1)))
  | None => []
  end.

Definition strip_commas (s : string) : string :=
  filter_chars (fun c => negb (Ascii.eqb c ",")) s.

(** Parse Gemini's text response into a structured AuthenticationResult. *)
Definition parseAuthenticationResponse (text : string) (startTime : Z) (clock : Clock)
  : AuthenticationResult.t * Clock :=
  (* Extract confidence score *)
  let confidenceMatch :=
    first_match [confidence_colon; percent_confident; score_colon] text in
  let confidence :=
    match confidenceMatch with
    | Some m => Math_min (Num 100) (parseInt_group m 1)
    | None => Num 50
    end in
  (* Extract authenticity determination *)
  let isAuthentic := test positive_terms text && negb (test negative_terms text) in
  (* Extract brand *)
  let brandMatch := exec brand_colon text in
  let brand := str_or (trim <$> (brandMatch ≫= fun m => group m 1)) "Unknown" in
  (* Extract era *)
  let eraMatch := first_match [era_colon; era_phrase; year_pair] text in
  let era :=
    str_or (remove_first leading_colon_ws <$> (Match.whole <$> eraMatch)) "Unknown era" in
  (* Extract year range *)
  let yearMatch := exec year_pair text in
  let yearRange :=
    match yearMatch with
    | Some m => (parseInt_group m 1, parseInt_group m 2)
    | None => (Num 1970, Num 2000)
    end in
  (* Extract red flags *)
  let redFlags := bullets (exec red_flag_section text) in
  (* Extract verified markers *)
  let verifiedMarkers := bullets (exec marker_section text) in
  (* Extract market value *)
  let valueMatch := exec value_pair text in
  let lowValue :=
    match valueMatch with
    | Some m => parseInt (strip_commas (default "" (group m 1)))
    | None => Num 0
    end in
  let highValue :=
    match valueMatch with
    | Some m => parseInt (strip_commas (default "" (group m 2)))
    | None => Num 0
    end in
  let '(timestamp, clock) := Date_now clock in
  let '(finished, clock) := Date_now clock in
  ({| AuthenticationResult.isAuthentic := isAuthentic;
      AuthenticationResult.confidence := confidence;
      AuthenticationResult.confidenceLevel := getConfidenceLevel confidence;
      AuthenticationResult.category := unknown;
      AuthenticationResult.brandEra :=
        {| BrandEra.brand := brand;
           BrandEra.era := era;
           BrandEra.yearRange := yearRange;
           BrandEra.confidence := num_div100 confidence;
           BrandEra.markers := firstn 5 verifiedMarkers |};
      AuthenticationResult.rnLookup := None;
      AuthenticationResult.brandPattern :=
        {| BrandPatternResult.brand := brand;
           BrandPatternResult.era := era;
           BrandPatternResult.authenticityScore := confidence;
           BrandPatternResult.matchedPatterns := verifiedMarkers;
           BrandPatternResult.redFlags := redFlags;
           BrandPatternResult.details := slice0 500 text |};
      AuthenticationResult.dateForensics :=
        {| DateForensicsResult.estimatedEra := era;
           DateForensicsResult.yearRange := yearRange;
           DateForensicsResult.confidence := num_div100 confidence;
           DateForensicsResult.evidence := verifiedMarkers;
           DateForensicsResult.constructionDetails := [];
           DateForensicsResult.materialAnalysis := "" |};
      AuthenticationResult.marketData :=
        {| MarketSearchResult.estimatedValue :=
             {| EstimatedValue.low := lowValue;
                EstimatedValue.mid := midpoint lowValue highValue;
                EstimatedValue.high := highValue;
                EstimatedValue.currency := "USD" |};
           MarketSearchResult.comparableSales := [];
           MarketSearchResult.marketTrend := stable;
           MarketSearchResult.demandLevel :=
             if num_gt confidence (Num 75) then demand_high else demand_moderate |};
      AuthenticationResult.reasoning := text;
      AuthenticationResult.redFlags := redFlags;
      AuthenticationResult.verifiedMarkers := verifiedMarkers;
      AuthenticationResult.thinkingOutput := Some text;
      AuthenticationResult.timestamp := timestamp;
      AuthenticationResult.processingTime := finished - startTime |},
   clock).

(** ** Orchestrator *)

Definition progress_event (status : ScanStatus) (message : string) (step : Z)
    (toolName : option string) (toolResult : option ToolValue) : ScanProgress.t :=
  {| ScanProgress.status := status;
     ScanProgress.message := message;
     ScanProgress.step := step;
     ScanProgress.totalSteps := 6;
     ScanProgress.toolName := toolName;
     ScanProgress.toolResult := toolResult |}.

Definition maxToolCalls : Z := 8.

(** One element of [functionCalls.map(async (call) => ...)]: the tool runs
    at once; its completion event follows only if it did not throw. *)
Definition runCall (call : FunctionCall.t) : M (outcome Part) :=
  toolResult <- withRng (executeToolCall (FunctionCall.name call) (FunctionCall.args call)) ;;
  match toolResult with
  | Ok v =>
      onProgress (progress_event tool_calling
                    ("Tool: " ++ FunctionCall.name call ++ " completed") 3
                    (Some (FunctionCall.name call)) (Some v)) ;;
      ret (Ok (FunctionResponse (FunctionCall.name call) v))
  | Throw e => ret (Throw e)
  end.

Fixpoint runCalls (calls : list FunctionCall.t) : M (list (outcome Part)) :=
  match calls with
  | [] => ret []
  | call :: calls' =>
      r <- runCall call ;;
      rs <- runCalls calls' ;;
      ret (r :: rs)
  end.

(** [Promise.all]: every value, or the first rejection. *)
Fixpoint all_settled {A} (l : list (outcome A)) : outcome (list A) :=
  match l with
  | [] => Ok []
  | Throw e :: _ => Throw e
  | Ok a :: l' =>
      match all_settled l' with
      | Ok l'' => Ok (a :: l'')
      | Throw e => Throw e
      end
  end.

(** Process function calls in a loop.  [fuel] bounds the rounds still to
    run; the loop guard stops the loop before it is used up as soon as
    [maxToolCalls - toolCallCount <= fuel] (lemma [toolLoop_fuel]). *)
Fixpoint toolLoop (fuel : nat) (chat : Chat) (result : Response.t) (toolCallCount : Z)
  : M Response.t :=
  requested <- lift (Response.functionCalls result) ;;
  match requested with
  | None => ret result
  | Some functionCalls =>
      if toolCallCount <? maxToolCalls then
        match fuel with
        | O => ret result
        | S fuel' =>
            let toolCallCount := toolCallCount + 1 in
            onProgress (progress_event tool_calling
                          ("Executing forensic tools (" ++ show toolCallCount ++ "/"
                             ++ show (Z.of_nat (length functionCalls)) ++ ")...") 3
                          (FunctionCall.name <$> head functionCalls) None) ;;
            (* Execute all function calls *)
            settled <- runCalls functionCalls ;;
            toolResponses <- lift (all_settled settled) ;;
            (* Send tool results back to Gemini *)
            result <- sendMessage chat toolResponses ;;
            toolLoop fuel' chat result toolCallCount
        end
      else ret result
  end.

Definition parse (text : string) (startTime : Z) : M AuthenticationResult.t :=
  fun w =>
    let '(r, clock') := parseAuthenticationResponse text startTime (World.clock w) in
    (Ok r, World.mk (World.rng w) clock' (World.sent w) (World.progress w)).

(** [confidence < threshold * 100]; with no threshold the product is [NaN]. *)
Definition below_threshold (confidence : number) (threshold : option Q) : bool :=
  match threshold with
  | Some t => f_lt (to_f confidence) (f_mul (Frac t) (Frac 100))
  | None => false
  end.

Definition correctionPrompt (confidence : number) : string :=
  "Your initial analysis yielded " ++ show_number confidence
    ++ "% confidence. Please re-examine the image more carefully:

1. Look for ANY additional authentication markers you may have missed
2. Check for subtle details: stitching count per inch, thread color consistency, label alignment
3. Consider if the item could be a high-quality reproduction vs authentic
4. Provide your revised confidence score with detailed justification

Be more definitive in your assessment. If evidence points strongly one way, commit to that conclusion.".

(** Steps 1 to 4: the conversation up to the parsed final text. *)
Definition analyse (hosted : Hosted) (mergedConfig : GeminiConfig.t)
    (imageData : string) (startTime : Z) : M (Chat * AuthenticationResult.t) :=
  onProgress (progress_event analyzing
                "Initializing Gemini 3 Pro forensic analysis..." 1 None None) ;;
  client <- lift (createClient mergedConfig) ;;
  let chat := hosted client (GeminiConfig.model mergedConfig) in
  let imagePart := imageToGenerativePart imageData in
  let prompt := buildForensicPrompt in
  onProgress (progress_event analyzing
                "Sending image to Gemini 3 Pro (thinking level: high)..." 2 None None) ;;
  (* Start multi-turn conversation with function calling *)
  result <- sendMessage chat [Text prompt; imagePart] ;;
  result <- toolLoop (Z.to_nat maxToolCalls) chat result 0 ;;
  onProgress (progress_event analyzing
                "Synthesizing forensic authentication report..." 4 None None) ;;
  (* Parse the final text response into structured result *)
  textResponse <- lift (Response.text result) ;;
  authResult <- parse textResponse startTime ;;
  ret (chat, authResult).

(** Step 5 and the final report: self-correction if confidence is low. *)
Definition selfCorrect (chat : Chat) (mergedConfig : GeminiConfig.t) (startTime : Z)
    (authResult : AuthenticationResult.t) : M AuthenticationResult.t :=
  let finish :=
    onProgress (progress_event complete
                  ("Authentication complete: "
                     ++ show_number (AuthenticationResult.confidence authResult)
                     ++ "% confidence") 6 None None) ;;
    ret authResult in
  if below_threshold (AuthenticationResult.confidence authResult)
                     (GeminiConfig.selfCorrectionThreshold mergedConfig)
  then
    onProgress (progress_event self_correcting
                  ("Low confidence ("
                     ++ show_number (AuthenticationResult.confidence authResult)
                     ++ "%). Re-analyzing with enhanced scrutiny...") 5 None None) ;;
    correctionResponse <-
      sendMessage chat [Text (correctionPrompt (AuthenticationResult.confidence authResult))] ;;
    correctedText <- lift (Response.text correctionResponse) ;;
    correctedResult <- parse correctedText startTime ;;
    (* Use whichever result has higher confidence *)
    if num_gt (AuthenticationResult.confidence correctedResult)
              (AuthenticationResult.confidence authResult)
    then
      onProgress (progress_event complete
                    ("Self-correction improved confidence: "
                       ++ show_number (AuthenticationResult.confidence authResult)
                       ++ "% → "
                       ++ show_number (AuthenticationResult.confidence correctedResult)
                       ++ "%") 6 None None) ;;
      ret correctedResult
    else finish
  else finish.

(** Authenticate a vintage item using Gemini 3 Pro. *)
Definition authenticateItem (env : Env.t) (hosted : Hosted) (imageData : string)
    (config : PartialConfig.t) : M AuthenticationResult.t :=
  startTime <- now ;;
  let mergedConfig := merge (DEFAULT_CONFIG env) config in
  analysed <- analyse hosted mergedConfig imageData startTime ;;
  let '(chat, authResult) := analysed in
  selfCorrect chat mergedConfig startTime authResult.

(** Check if Gemini API is configured. *)
Definition isGeminiConfigured (env : Env.t) : bool :=
  match Env.VITE_GEMINI_API_KEY env with
  | Some key => nonempty key
  | None => false
  end.

(** ** Tool declarations for Gemini function calling *)

Inductive SchemaType := STRING | NUMBER | INTEGER | BOOLEAN | ARRAY | OBJECT.

Module Schema.
Record t := mk { type : SchemaType; description : string }.
End Schema.

Module FunctionDeclaration.
Record t := mk {
  name : string;
  description : string;
  type : SchemaType;                         (* [parameters.type] *)
  properties : list (string * Schema.t);     (* [parameters.properties] *)
  required : list string }.                  (* [parameters.required] *)
End FunctionDeclaration.

(** [(e.g., "a")], [(e.g., "a" or "b")] and [(e.g., "a", "b", "c")]. *)
Definition quoted (s : string) : string := dquote ++ s ++ dquote.

Definition toolDeclarations : list FunctionDeclaration.t :=
  [ {| FunctionDeclaration.name := "rn_lookup";
       FunctionDeclaration.description := "Look up an RN (Registered Number) or WPL (Wool Products Label) number to identify the manufacturer and registration year. RN numbers are assigned by the FTC to US textile manufacturers.";
       FunctionDeclaration.type := OBJECT;
       FunctionDeclaration.properties :=
         [ ("rn_number", Schema.mk STRING
              ("The RN or WPL number found on the garment label (e.g., " ++ quoted "RN 42850"
                 ++ " or " ++ quoted "WPL 12345" ++ ")")) ];
       FunctionDeclaration.required := ["rn_number"] |};
    {| FunctionDeclaration.name := "brand_patterns";
       FunctionDeclaration.description := "Verify brand-specific authentication markers for a given brand and era. Checks label fonts, tag placement, hardware details, and era-specific patterns.";
       FunctionDeclaration.type := OBJECT;
       FunctionDeclaration.properties :=
         [ ("brand", Schema.mk STRING
              ("The brand name to verify (e.g., " ++ quoted "Nike" ++ ", " ++ quoted "Levis"
                 ++ ", " ++ quoted "Ralph Lauren" ++ ")"));
           ("era", Schema.mk STRING
              ("The suspected era/decade (e.g., " ++ quoted "1990s" ++ ", " ++ quoted "1980s"
                 ++ ", " ++ quoted "early 2000s" ++ ")"));
           ("markers", Schema.mk STRING
              ("Comma-separated list of authentication markers observed (e.g., "
                 ++ quoted "swoosh logo, white tag, made in USA" ++ ")")) ];
       FunctionDeclaration.required := ["brand"; "era"] |};
    {| FunctionDeclaration.name := "date_forensics";
       FunctionDeclaration.description := "Perform forensic dating analysis based on construction techniques, materials, and manufacturing details visible in the garment.";
       FunctionDeclaration.type := OBJECT;
       FunctionDeclaration.properties :=
         [ ("category", Schema.mk STRING
              ("Item category (e.g., " ++ quoted "jacket" ++ ", " ++ quoted "shirt" ++ ", "
                 ++ quoted "pants" ++ ", " ++ quoted "shoes" ++ ")"));
           ("construction_details", Schema.mk STRING
              ("Observed construction details (e.g., "
                 ++ quoted "single-needle stitching, bar-tack reinforcement, YKK zipper" ++ ")"));
           ("materials", Schema.mk STRING
              ("Observed materials (e.g., " ++ quoted "100% cotton, heavy denim, selvedge edge"
                 ++ ")")) ];
       FunctionDeclaration.required := ["category"; "construction_details"] |};
    {| FunctionDeclaration.name := "market_search";
       FunctionDeclaration.description := "Search for current market pricing and recent sales data for an authenticated vintage item. Returns comparable sales, estimated value range, and market trends.";
       FunctionDeclaration.type := OBJECT;
       FunctionDeclaration.properties :=
         [ ("item_description", Schema.mk STRING
              ("Full description of the item (e.g., "
                 ++ quoted "1992 Nike Air windbreaker jacket, size L, teal colorway" ++ ")"));
           ("brand", Schema.mk STRING "Brand name");
           ("era", Schema.mk STRING "Era/year range") ];
       FunctionDeclaration.required := ["item_description"] |} ].

End Gemini.


(* ================================================================== *)
(** * Authentication report component *)
(* ================================================================== *)

Module Report.
Import Js.

Definition getConfidenceColor (confidence : number) : string :=
  if num_ge confidence (Num 90) then "text-green-400"
  else if num_ge confidence (Num 75) then "text-green-300"
  else if num_ge confidence (Num 55) then "text-yellow-400"
  else if num_ge confidence (Num 35) then "text-orange-400"
  else "text-red-400".

Definition getConfidenceBarColor (confidence : number) : string :=
  if num_ge confidence (Num 90) then "bg-green-500"
  else if num_ge confidence (Num 75) then "bg-green-400"
  else if num_ge confidence (Num 55) then "bg-yellow-500"
  else if num_ge confidence (Num 35) then "bg-orange-500"
  else "bg-red-500".

End Report.


(* ================================================================== *)
(** * Application shell *)
(* ================================================================== *)

(** The state of the [App] component and its capture handler, run to
    completion: no other handler fires while a scan is under way. *)

Module App.
Import Js Gemini.

Inductive AppView := home | scanner | results.

Module State.
Record t := mk {
  view : AppView;
  scanning : bool;
  result : option AuthenticationResult.t;
  progress : option ScanProgress.t;
  error : option string;
  showDemo : bool;
  isDemoResult : bool }.
End State.

Definition initial : State.t :=
  State.mk home false None None None false false.

Definition setView (v : AppView) (s : State.t) : State.t :=
  State.mk v (State.scanning s) (State.result s) (State.progress s) (State.error s)
           (State.showDemo s) (State.isDemoResult s).

Definition setScanning (b : bool) (s : State.t) : State.t :=
  State.mk (State.view s) b (State.result s) (State.progress s) (State.error s)
           (State.showDemo s) (State.isDemoResult s).

Definition setResult (r : option AuthenticationResult.t) (s : State.t) : State.t :=
  State.mk (State.view s) (State.scanning s) r (State.progress s) (State.error s)
           (State.showDemo s) (State.isDemoResult s).

Definition setProgress (p : option ScanProgress.t) (s : State.t) : State.t :=
  State.mk (State.view s) (State.scanning s) (State.result s) p (State.error s)
           (State.showDemo s) (State.isDemoResult s).

Definition setError (e : option string) (s : State.t) : State.t :=
  State.mk (State.view s) (State.scanning s) (State.result s) (State.progress s) e
           (State.showDemo s) (State.isDemoResult s).

Definition setShowDemo (b : bool) (s : State.t) : State.t :=
  State.mk (State.view s) (State.scanning s) (State.result s) (State.progress s)
           (State.error s) b (State.isDemoResult s).

Definition setIsDemoResult (b : bool) (s : State.t) : State.t :=
  State.mk (State.view s) (State.scanning s) (State.result s) (State.progress s)
           (State.error s) (State.showDemo s) b.

(** [err.message]; every value the embedding throws is an [Error]. *)
Definition message (err : error) : string :=
  match err with
  | Error m | TypeError m | ApiError m => m
  end.

(** [{}] as a partial configuration. *)
Definition no_config : PartialConfig.t :=
  PartialConfig.mk Absent Absent Absent Absent Absent Absent.

Definition handleCapture (env : Env.t) (hosted : Hosted) (imageData : string)
    (s : State.t) (w : World.t) : State.t * World.t :=
  let s := setIsDemoResult false (setResult None (setError None (setScanning true s))) in
  let '(settled, w') := authenticateItem env hosted imageData no_config w in
  (* [setProgress] is the progress callback *)
  let reported := skipn (length (World.progress w)) (World.progress w') in
  let s := fold_left (fun s p => setProgress (Some p) s) reported s in
  let s :=
    match settled with
    | Ok authResult => setView results (setResult (Some authResult) s)
    | Throw err => setError (Some (message err)) s
    end in
  (setProgress None (setScanning false s), w').

Definition handleStartScan (s : State.t) : State.t :=
  setIsDemoResult false (setError None (setResult None (setView scanner s))).

Definition handleBackHome (s : State.t) : State.t :=
  setIsDemoResult false (setError None (setProgress None (setScanning false
    (setResult None (setView home s))))).

Definition handleDemoSelect (demoResult : AuthenticationResult.t) (s : State.t) : State.t :=
  setView results (setShowDemo false (setIsDemoResult true (setResult (Some demoResult) s))).

End App.

Import Js Tools Regex Gemini.

(* ================================================================== *)
(** * Notions used by the statements *)
(* ================================================================== *)

Open Scope Q_scope.

(** A non-negative binary64 number: zero, or a significand below 2^53
    scaled by a power of two not below the least one. *)
Definition representable (q : Q) : Prop :=
  (q == 0)%Q \/
  exists m e : Z, (0 < m < 2 ^ 53)%Z /\ (-1074 <= e)%Z /\ (q == inject_Z m * pow2 e)%Q.

Open Scope Z_scope.

(** The integer a string of decimal digits denotes. *)
Definition decimal_value (s : string) : Z :=
  fold_left (fun acc c => 10 * acc + digit_value c) (list_ascii_of_string s) 0.

Definition invalid_rn (rawNumber : string) : RNLookupResult.t :=
  {| RNLookupResult.rnNumber := rawNumber;
     RNLookupResult.companyName := "Invalid RN number";
     RNLookupResult.registrationYear := None;
     RNLookupResult.calculatedYear := None;
     RNLookupResult.status := not_found;
     RNLookupResult.formula := "N/A" |}.

(** The record of a lookup whose argument holds digits. *)
Definition valid_rn (cleaned : string) (rnNum : number) : RNLookupResult.t :=
  let knownEntry := get RN_DATABASE cleaned in
  let calculatedYear := calculateRNYear rnNum in
  {| RNLookupResult.rnNumber := "RN " ++ cleaned;
     RNLookupResult.companyName :=
       match knownEntry with
       | Own e => str_or (Some (RNEntry.company e)) ("Unknown (RN " ++ cleaned ++ ")")
       | _ => "Unknown (RN " ++ cleaned ++ ")"
       end;
     RNLookupResult.registrationYear :=
       match knownEntry with
       | Own e => year_or_null (RNEntry.year e)
       | _ => None
       end;
     RNLookupResult.calculatedYear := calculatedYear;
     RNLookupResult.status :=
       match knownEntry with
       | Undefined => if truthy calculatedYear then active else not_found
       | _ => active
       end;
     RNLookupResult.formula :=
       "(" ++ show_number rnNum ++ " - 13670) / 2635 + 1959 = " ++ year_or_na calculatedYear |}.

(** The normalised inputs of [brandPatterns]. *)
Definition brand_key (args : Args) : string :=
  trim (toLowerCase (str_or (args !! "brand") "")).

Definition observed_markers (args : Args) : list string :=
  List.filter (fun m => nonempty m) (map trim (split "," (str_or (args !! "markers") ""))).

Definition well_formed_era (e : string * EraData.t) : Prop :=
  length (EraData.patterns (snd e)) = 4%nat \/ length (EraData.patterns (snd e)) = 5%nat.

(** The score as the specification words it, in exact arithmetic. *)
Definition spec_score (matched total flagged : nat) : Q :=
  Qmax (inject_Z 0)
    (Qmin (inject_Z 100)
       (inject_Z 100 * (inject_Z (Z.of_nat matched) / inject_Z (Z.of_nat total))
        - inject_Z 15 * inject_Z (Z.of_nat flagged))).

(** The band the specification scales: the brand's own, else the default. *)
Definition base_band (brand : string) : Band.t :=
  default (Band.mk 30 200) (assoc brand baseValues).

Definition market_brand (args : Args) : string :=
  toLowerCase (str_or (args !! "brand") "").

Definition market_era (args : Args) : string := str_or (args !! "era") "".

(** The sum of a list in binary64, taken from left to right as the loop
    does. *)
Definition sum64 (l : list Q) : Q := fold_left fadd l (0 # 1)%Q.



(** The markers whose feature occurs in the lower-cased concatenation. *)
Definition matched_markers (args : Args) : list ConstructionMarker.t :=
  let details := toLowerCase (str_or (args !! "construction_details") "") in
  let materials := toLowerCase (str_or (args !! "materials") "") in
  List.filter (fun marker => includes (ConstructionMarker.feature marker) (details ++ " " ++ materials))
         CONSTRUCTION_MARKERS.

(** Confidence-weighted average of one end of the matched ranges, in
    binary64. *)
Definition weighted_average (side : ConstructionMarker.t -> Z)
    (ms : list ConstructionMarker.t) : Q :=
  fdiv (sum64 (map (fun m => fmul (inject_Z (side m)) (ConstructionMarker.confidence m)) ms))
       (sum64 (map ConstructionMarker.confidence ms)).

Definition mean_confidence (ms : list ConstructionMarker.t) : Q :=
  fdiv (sum64 (map ConstructionMarker.confidence ms)) (inject_Z (Z.of_nat (length ms))).

(** The same average in exact arithmetic, on the decimal confidences. *)
Definition exact_average (l : list (Z * Q)) : Q :=
  (fold_right Qplus 0 (map (fun yc => inject_Z (fst yc) * snd yc) l)
   / fold_right Qplus 0 (map snd l))%Q.

Definition greatest (x : Z) (l : list Z) : Prop := In x l /\ forall y, In y l -> y <= x.
Definition least (x : Z) (l : list Z) : Prop := In x l /\ forall y, In y l -> x <= y.


Open Scope Q_scope.

(** The exact sum of a list. *)
Definition sumQ (l : list Q) : Q := fold_right Qplus (0 # 1)%Q l.

(** What every row of the marker table satisfies: the range lies in
    1920..2026 and the confidence, a binary64 number, in 0.2..1. *)
Definition plausible_marker (m : ConstructionMarker.t) : Prop :=
  (1920 <= era_start m)%Z /\ (era_start m <= era_end m)%Z /\ (era_end m <= 2026)%Z /\
  (1 # 5 <= ConstructionMarker.confidence m)%Q /\
  (ConstructionMarker.confidence m <= 1)%Q /\
  fadd (0 # 1)%Q (ConstructionMarker.confidence m) = ConstructionMarker.confidence m.

Open Scope Z_scope.

(** Declarative reading of a pattern: [matches r st st'] when [r] can take
    the matcher from [st] to [st']. *)
Inductive matches : regex -> state -> state -> Prop :=
| M_Eps st : matches Eps st st
| M_Chr p c s' st :
    rest st = String c s' -> p c = true -> matches (Chr p) st (advance c s' st)
| M_Seq r1 r2 st st' st'' :
    matches r1 st st' -> matches r2 st' st'' -> matches (Seq r1 r2) st st''
| M_AltL r1 r2 st st' : matches r1 st st' -> matches (Alt r1 r2) st st'
| M_AltR r1 r2 st st' : matches r2 st st' -> matches (Alt r1 r2) st st'
| M_Star0 g r st : matches (Star g r) st st
| M_StarS g r st st' st'' :
    matches r st st' -> progress st st' = true -> matches (Star g r) st' st'' ->
    matches (Star g r) st st''
| M_Group i r st st' : matches r st st' -> matches (Group i r) st (set_cap i st st')
| M_Bol st : pos st = 0%nat -> matches Bol st st
| M_Eol st : rest st = "" -> matches Eol st st
| M_WordB st :
    xorb (word_at (prev st)) (word_at (next (rest st))) = true -> matches WordB st st.

Fixpoint group_free (r : regex) : bool :=
  match r with
  | Seq r1 r2 | Alt r1 r2 => group_free r1 && group_free r2
  | Star _ r1 => group_free r1
  | Group _ _ => false
  | _ => true
  end.

Definition sound {A} (r : regex) (m : state -> (state -> option A) -> option A) : Prop :=
  forall st k a, m st k = Some a -> exists st', matches r st st' /\ k st' = Some a.

(** What consuming one to three digits does to the state. *)
Definition consumed (d : string) (st st' : state) : Prop :=
  rest st = d ++ rest st' /\ pos st' = (pos st + String.length d)%nat /\ caps st' = caps st.

Definition short_digits (d : string) : Prop :=
  all_chars is_digit d = true /\ (1 <= String.length d <= 3)%nat.

Definition first_group (l : list (nat * string)) : option string :=
  snd <$> find (fun c => (fst c =? 1)%nat) l.

(** A world in which nothing has been sent or reported yet. *)
Definition fresh (rng : Rng) (clock : Clock) : World.t := World.mk rng clock [] [].

(** The event that opens a round of tool calls. *)
Definition round_started (p : ScanProgress.t) : bool :=
  match ScanProgress.status p, ScanProgress.toolResult p with
  | tool_calling, None => true
  | _, _ => false
  end.

(** Rounds begun, read off the progress callback. *)
Definition rounds (w : World.t) : nat :=
  length (List.filter round_started (World.progress w)).

Definition is_response (p : Part) : bool :=
  match p with FunctionResponse _ _ => true | _ => false end.

(** A message that carries tool responses only. *)
Definition tool_turn (m : Message) : bool := forallb is_response m.

(** Tool-response turns sent to the model. *)
Definition tool_turns (w : World.t) : nat :=
  length (List.filter tool_turn (World.sent w)).

(** The event reported when the tool [name] has returned [v]. *)
Definition completed (name : string) (v : ToolValue) : ScanProgress.t :=
  progress_event tool_calling ("Tool: " ++ name ++ " completed") 3 (Some name) (Some v).

(** One pass through the body of the loop. *)
Definition round (chat : Chat) (functionCalls : list FunctionCall.t) (toolCallCount : Z)
  : M Response.t :=
  (onProgress (progress_event tool_calling
                 ("Executing forensic tools (" ++ show toolCallCount ++ "/"
                    ++ show (Z.of_nat (length functionCalls)) ++ ")...") 3
                 (FunctionCall.name <$> head functionCalls) None) ;;
   settled <- runCalls functionCalls ;;
   toolResponses <- lift (all_settled settled) ;;
   sendMessage chat toolResponses)%m.

(** Every tool result reported so far has been sent back to the model. *)
Definition fed_back (w : World.t) : Prop :=
  forall name v,
    In (completed name v) (World.progress w) ->
    exists message, In message (World.sent w) /\ In (FunctionResponse name v) message.

(** A call whose tool returns, whatever [Math.random] yields. *)
Definition call_succeeds (call : FunctionCall.t) : Prop :=
  forall rng, exists v,
    fst (executeToolCall (FunctionCall.name call) (FunctionCall.args call) rng) = Ok v.

(** A hosted model that asks for tools in every reply. *)
Definition always_requests_tools (chat : Chat) : Prop :=
  forall history, exists calls text,
    chat history = Ok (Response.mk (Ok (Some calls)) (Ok text)) /\
    Forall call_succeeds calls.

(** How far a step moves the world: what it appends to the two logs. *)
Definition appends (w w' : World.t) (events : list ScanProgress.t) (messages : list Message)
  : Prop :=
  World.progress w' = (World.progress w ++ events)%list /\
  World.sent w' = (World.sent w ++ messages)%list.

(** What one call leaves behind. *)
Definition call_events (settled : list (outcome Part)) : list ScanProgress.t :=
  flat_map (fun o => match o with
                     | Ok (FunctionResponse name v) => [completed name v]
                     | _ => []
                     end) settled.

Definition settled_response (o : outcome Part) : Prop :=
  match o with
  | Ok p => is_response p = true
  | Throw _ => True
  end.

Definition sample_env : Env.t := Env.mk (Some "sample-key") None None None.

Definition no_overrides : PartialConfig.t :=
  PartialConfig.mk Absent Absent Absent Absent Absent Absent.

(** Draws 1/2, 1/3, 1/4, ... *)
Definition sample_rng : Rng := fun n => (1 # Pos.of_succ_nat (S n))%Q.

Definition sample_clock : Clock := fun n => 1000 + Z.of_nat n.

Definition answer (text : string) : Response.t := Response.mk (Ok None) (Ok text).

Definition request (calls : list FunctionCall.t) : Response.t :=
  Response.mk (Ok (Some calls)) (Ok "").

Definition rn_call : FunctionCall.t :=
  FunctionCall.mk "rn_lookup" {["rn_number" := "RN 42850"]}.

(** Answers at 60%, and at 85% when asked to look again. *)
Definition hesitant : Hosted :=
  fun _ _ history =>
    Ok (answer (if (length history <=? 1)%nat then "Confidence: 60%" else "Confidence: 85%")).

(** Asks for a registration lookup in every reply. *)
Definition insatiable : Hosted := fun _ _ _ => Ok (request [rn_call]).

(** Looks up one registration number, then answers. *)
Definition lookup_then_answer : Hosted :=
  fun _ _ history =>
    Ok (if (length history <=? 1)%nat then request [rn_call]
        else answer "Authentic Nike, RN 42850. Confidence: 92%").

Definition blank_price (s : ComparableSale.t) : ComparableSale.t :=
  {| ComparableSale.title := ComparableSale.title s;
     ComparableSale.price := NaN;
     ComparableSale.platform := ComparableSale.platform s;
     ComparableSale.date := ComparableSale.date s;
     ComparableSale.condition := ComparableSale.condition s |}.

(** A tool outcome with the comparable-sale prices blanked out. *)
Definition without_prices (o : outcome ToolValue) : outcome ToolValue :=
  match o with
  | Ok (Result (MS r)) =>
      Ok (Result (MS {| MarketSearchResult.estimatedValue := MarketSearchResult.estimatedValue r;
                        MarketSearchResult.comparableSales :=
                          map blank_price (MarketSearchResult.comparableSales r);
                        MarketSearchResult.marketTrend := MarketSearchResult.marketTrend r;
                        MarketSearchResult.demandLevel := MarketSearchResult.demandLevel r |}))
  | other => other
  end.

(** The digits [rnLookup] keeps of its argument. *)
Definition rn_digits (args : Args) : string :=
  filter_chars is_digit (str_or (args !! "rn_number") "").

Definition not_upper (c : ascii) : bool := negb (is_upper c).

(** The era argument as [brandPatterns] reads it. *)
Definition era_arg (args : Args) : string := trim (str_or (args !! "era") "").

(** The decade an era key stands for, as the era search spells it. *)
Definition decade_of (k : string) : string := replace_first "s" "" k.

(** The era search of [brandPatterns]. *)
Definition select_era_key (era : string) (eraKeys : list string) : option string :=
  match find (fun k => includes (decade_of k) era) eraKeys with
  | Some k => Some k
  | None => last eraKeys
  end.

(** The text [dateForensics] searches for construction markers. *)
Definition combined_text (args : Args) : string :=
  toLowerCase (str_or (args !! "construction_details") "") ++ " "
    ++ toLowerCase (str_or (args !! "materials") "").

Definition care_label : ConstructionMarker.t :=
  ConstructionMarker.mk "care label" (1971, 2026) (literal (8 # 10)).

Definition no_care_label : ConstructionMarker.t :=
  ConstructionMarker.mk "no care label" (1920, 1971) (literal (9 # 10)).

(** A piece of a comma-separated list of lower-cased details. *)
Definition detail_char (c : ascii) : bool := not_upper c && negb (Ascii.eqb c ",").

(** [Math.random] keeps its contract: every draw lies in [0, 1). *)
Definition unit_draws (rng : Rng) : Prop := forall n, (0 <= rng n)%Q /\ (rng n < 1)%Q.

(** The era multiplier of [marketSearch]. *)
Definition era_multiplier (era : string) : Q :=
  if includes "1970" era || includes "1980" era then 18 # 10
  else if includes "1990" era then 14 # 10
  else if includes "2000" era then 8 # 10
  else 1 # 1.

(** Two argument maps that agree on the parameters a declaration lists,
    [category] apart. *)
Definition agree_on_declared (d : FunctionDeclaration.t) (args args' : Args) : Prop :=
  forall p, In p (map fst (FunctionDeclaration.properties d)) -> p <> "category" ->
            args !! p = args' !! p.

(** The media type [imageToGenerativePart] gives an image. *)
Definition mime_of (base64Data : string) : string :=
  if includes "image/png" base64Data then "image/png" else "image/jpeg".

Definition all_ascii : list ascii := map ascii_of_nat (seq 0 256).

(** A pattern without groups all of whose character classes lie within [q]. *)
Fixpoint within (q : ascii -> bool) (r : regex) : bool :=
  match r with
  | Eps | Bol | Eol | WordB => true
  | Chr p => forallb (fun c => implb (p c) (q c)) all_ascii
  | Seq r1 r2 | Alt r1 r2 => within q r1 && within q r2
  | Star _ r1 => within q r1
  | Group _ _ => false
  end.

Definition digit_or_comma (c : ascii) : bool := is_digit c || Ascii.eqb c ",".

(** Text an [amount] can match: digits and commas, a digit first. *)
Definition amount_text (d : string) : Prop :=
  all_chars digit_or_comma d = true /\
  exists c d', d = String c d' /\ is_digit c = true.

Definition four_digits (d : string) : Prop :=
  all_chars is_digit d = true /\ String.length d = 4%nat.

(** A number [parseInt] reads from digits: not below zero, and a binary64
    integer when it is finite. *)
Definition amount_number (n : number) : Prop :=
  n = Infinity false \/ exists v, n = Num v /\ 0 <= v /\ representable (inject_Z v).

(** What a step leaves behind: the events it reports and the messages it
    sends, with [Date.now] not read. *)
Definition leaves (w w' : World.t) (events : list ScanProgress.t) (messages : list Message)
  : Prop :=
  appends w w' events messages /\ World.clock w' = World.clock w.

(** An event of the tool-calling step. *)
Definition tool_event (p : ScanProgress.t) : Prop :=
  ScanProgress.status p = tool_calling /\ ScanProgress.step p = 3 /\
  ScanProgress.totalSteps p = 6.

(** An event reported while the run is under way. *)
Definition in_progress (p : ScanProgress.t) : Prop :=
  ScanProgress.status p <> complete /\ ScanProgress.totalSteps p = 6 /\
  1 <= ScanProgress.step p <= 5.

(** The event that closes a run. *)
Definition final_event (p : ScanProgress.t) : Prop :=
  ScanProgress.status p = complete /\ ScanProgress.totalSteps p = 6 /\
  ScanProgress.step p = 6.

(** Events whose step numbers never go down. *)
Definition ascending (events : list ScanProgress.t) : Prop :=
  StronglySorted (fun p q => ScanProgress.step p <= ScanProgress.step q) events.

(** Ascending events of steps [lo] to [hi], none of them final. *)
Definition phase (lo hi : Z) (events : list ScanProgress.t) : Prop :=
  ascending events /\
  Forall (fun p => lo <= ScanProgress.step p <= hi /\
                   ScanProgress.status p <> complete /\ ScanProgress.totalSteps p = 6) events.

(** The first message of a conversation: the prompt and the image. *)
Definition first_message (imageData : string) : Message :=
  [Text buildForensicPrompt; imageToGenerativePart imageData].

Definition initializing : ScanProgress.t :=
  progress_event analyzing "Initializing Gemini 3 Pro forensic analysis..." 1 None None.

Definition sending : ScanProgress.t :=
  progress_event analyzing "Sending image to Gemini 3 Pro (thinking level: high)..." 2 None None.

Definition synthesizing : ScanProgress.t :=
  progress_event analyzing "Synthesizing forensic authentication report..." 4 None None.

Definition reanalyzing (confidence : number) : ScanProgress.t :=
  progress_event self_correcting
    ("Low confidence (" ++ show_number confidence
       ++ "%). Re-analyzing with enhanced scrutiny...") 5 None None.

(** The message of the missing credential. *)
Definition key_required : string :=
  "VITE_GEMINI_API_KEY is required. Get one at https://ai.google.dev/gemini-api/docs/api-key".

(** A tool name the router rejects. *)
Definition unknown_tool (name : string) : Prop :=
  ~ In name forensicTools /\ mem name Object_prototype = false.

(** A [brand_patterns] call that reports the given markers. *)
Definition report (brand era : string) (markers : list string) : Args :=
  <["brand" := brand]> (<["era" := era]> {["markers" := String.concat "," markers]}).

(** The name a tool response answers to. *)
Definition response_name (p : Part) : option string :=
  match p with
  | FunctionResponse name _ => Some name
  | _ => None
  end.

(** A turn that answers the calls one for one, in order. *)
Definition answers (turn : Message) (calls : list FunctionCall.t) : Prop :=
  map response_name turn = map (fun call => Some (FunctionCall.name call)) calls.

(** Every tool-response turn of a conversation answers the calls the model
    asked for in its reply to the messages before it. *)
Definition answered (chat : Chat) (sent : list Message) : Prop :=
  forall pre turn post,
    sent = (pre ++ turn :: post)%list -> tool_turn turn = true ->
    exists reply calls,
      chat pre = Ok reply /\ Response.functionCalls reply = Ok (Some calls) /\
      answers turn calls.

(* ================================================================== *)
(** * Properties *)
(* ================================================================== *)

(** ** Binary64 arithmetic *)

Open Scope Q_scope.

Lemma pow2_pos e : 0 < pow2 e.
Proof. apply Qpower_0_lt. reflexivity. Qed.

Lemma pow2_add a b : pow2 (a + b) == pow2 a * pow2 b.
Proof. apply Qpower_plus. discriminate. Qed.

Lemma pow2_sub a b : pow2 (a - b) == pow2 a / pow2 b.
Proof. apply Qpower_minus. discriminate. Qed.

Lemma pow2_inject n : (0 <= n)%Z -> inject_Z (2 ^ n) == pow2 n.
Proof. intros H. unfold pow2. rewrite (Zpower_Qpower 2 n H). reflexivity. Qed.

Lemma pow2_le a b : (a <= b)%Z -> pow2 a <= pow2 b.
Proof. intros H. apply Qpower_le_compat_l; [exact H|discriminate]. Qed.

Lemma pow2_lt a b : (a < b)%Z -> pow2 a < pow2 b.
Proof. intros H. apply Qpower_lt_compat_l; [exact H|reflexivity]. Qed.

Lemma pow2_succ a : pow2 (a + 1) == 2 * pow2 a.
Proof. rewrite pow2_add. change (pow2 1) with (2 # 1). ring. Qed.

Lemma Zlog2_Q (n : positive) :
  pow2 (Z.log2 (Z.pos n)) <= inject_Z (Z.pos n) < pow2 (Z.log2 (Z.pos n) + 1).
Proof.
  destruct (Z.log2_spec (Z.pos n)) as [H1 H2]; [reflexivity|].
  pose proof (Z.log2_nonneg (Z.pos n)) as H0.
  rewrite <- !pow2_inject by lia. split.
  - rewrite <- Zle_Qle. exact H1.
  - rewrite <- Zlt_Qlt. replace (Z.log2 (Z.pos n) + 1)%Z with (Z.succ (Z.log2 (Z.pos n))) by lia.
    exact H2.
Qed.

Lemma ilog2_spec (q : Q) : 0 < q -> pow2 (ilog2 q) <= q < pow2 (ilog2 q + 1).
Proof.
  intros Hq. destruct q as [n d]. unfold ilog2. cbn [Qnum Qden].
  destruct n as [|n|n]; try (exfalso; revert Hq; unfold Qlt; simpl; lia).
  set (a := Z.log2 (Z.pos n)). set (b := Z.log2 (Z.pos d)).
  destruct (Zlog2_Q n) as [Ha1 Ha2]. destruct (Zlog2_Q d) as [Hb1 Hb2]. fold a in Ha1, Ha2.
  fold b in Hb1, Hb2.
  assert (Hq' : (Z.pos n # d) * inject_Z (Z.pos d) == inject_Z (Z.pos n)).
  { rewrite (Qmake_Qdiv (Z.pos n) d). field. discriminate. }
  assert (Hd : 0 < inject_Z (Z.pos d)) by reflexivity.
  pose proof (pow2_pos (a - b)) as Hp. pose proof (pow2_pos b) as Hpb.
  assert (E3 : pow2 a == pow2 (a - b) * pow2 b).
  { rewrite <- (pow2_add (a - b) b). replace (a - b + b)%Z with a by lia. reflexivity. }
  assert (E1 : pow2 (a + 1) == 2 * pow2 (a - b) * pow2 b).
  { rewrite pow2_succ, E3. ring. }
  assert (E2 : pow2 (b + 1) == 2 * pow2 b) by apply pow2_succ.
  assert (Hup : (Z.pos n # d) < 2 * pow2 (a - b)).
  { nra. }
  assert (Hlow : pow2 (a - b) < 2 * (Z.pos n # d)).
  { nra. }
  destruct (Qle_bool (pow2 (a - b)) (Z.pos n # d)) eqn:E.
  - apply Qle_bool_iff in E. split; [exact E|]. rewrite pow2_succ. exact Hup.
  - assert (E' : (Z.pos n # d) < pow2 (a - b)).
    { apply Qnot_le_lt. intros H. apply Qle_bool_iff in H. congruence. }
    replace (a - b - 1 + 1)%Z with (a - b)%Z by lia. split; [|exact E'].
    assert (E4 : pow2 (a - b) == 2 * pow2 (a - b - 1)).
    { rewrite <- pow2_succ. replace (a - b - 1 + 1)%Z with (a - b)%Z by lia. reflexivity. }
    lra.
Qed.

Lemma ilog2_unique (q : Q) (e : Z) : pow2 e <= q < pow2 (e + 1) -> ilog2 q = e.
Proof.
  intros [H1 H2]. assert (Hq : 0 < q) by (pose proof (pow2_pos e); lra).
  destruct (ilog2_spec q Hq) as [G1 G2].
  destruct (Z.lt_trichotomy (ilog2 q) e) as [L|[L|L]]; [|exact L|].
  - assert (pow2 (ilog2 q + 1) <= pow2 e) by (apply pow2_le; lia). lra.
  - assert (pow2 (e + 1) <= pow2 (ilog2 q)) by (apply pow2_le; lia). lra.
Qed.

Lemma ilog2_le (x y : Q) : 0 < x -> x <= y -> (ilog2 x <= ilog2 y)%Z.
Proof.
  intros Hx Hxy. destruct (ilog2_spec x Hx) as [H1 _].
  destruct (ilog2_spec y) as [_ H2]; [lra|].
  destruct (Z_le_gt_dec (ilog2 x) (ilog2 y)) as [L|L]; [exact L|].
  assert (pow2 (ilog2 y + 1) <= pow2 (ilog2 x)) by (apply pow2_le; lia). lra.
Qed.

Lemma round_half_even_comp (x y : Q) : x == y -> round_half_even x = round_half_even y.
Proof.
  intros H. unfold round_half_even. rewrite (Qfloor_comp _ _ H).
  assert (E : Qcompare (x - inject_Z (Qfloor y)) (1 # 2) = Qcompare (y - inject_Z (Qfloor y)) (1 # 2)).
  { apply Qcompare_comp; [rewrite H; reflexivity|reflexivity]. }
  rewrite E. reflexivity.
Qed.

Lemma round_half_even_error (q : Q) :
  q - (1 # 2) <= inject_Z (round_half_even q) <= q + (1 # 2).
Proof.
  unfold round_half_even.
  pose proof (Qfloor_le q) as H1. pose proof (Qlt_floor q) as H2.
  rewrite inject_Z_plus in H2. change (inject_Z 1) with 1 in H2.
  destruct (Qcompare_spec (q - inject_Z (Qfloor q)) (1 # 2)) as [E|E|E].
  - destruct (Z.even (Qfloor q)); [|rewrite inject_Z_plus; change (inject_Z 1) with 1]; lra.
  - lra.
  - rewrite inject_Z_plus. change (inject_Z 1) with 1. lra.
Qed.

Lemma round_half_even_inject (z : Z) : round_half_even (inject_Z z) = z.
Proof.
  unfold round_half_even. rewrite Qfloor_Z.
  destruct (Qcompare_spec (inject_Z z - inject_Z z) (1 # 2)) as [E|E|E]; try lra. reflexivity.
Qed.

Lemma round_half_even_mono (x y : Q) : x <= y -> (round_half_even x <= round_half_even y)%Z.
Proof.
  intros H. pose proof (Qfloor_resp_le _ _ H) as Hf.
  unfold round_half_even.
  pose proof (Qfloor_le x) as X1. pose proof (Qlt_floor x) as X2.
  pose proof (Qfloor_le y) as Y1. pose proof (Qlt_floor y) as Y2.
  rewrite inject_Z_plus in X2, Y2. change (inject_Z 1) with 1 in X2, Y2.
  destruct (Z.eq_dec (Qfloor x) (Qfloor y)) as [E|E].
  - rewrite E in *.
    destruct (Qcompare_spec (x - inject_Z (Qfloor y)) (1 # 2)) as [Ex|Ex|Ex];
      destruct (Qcompare_spec (y - inject_Z (Qfloor y)) (1 # 2)) as [Ey|Ey|Ey];
      try lra; destruct (Z.even (Qfloor y)); lia.
  - assert (Qfloor x + 1 <= Qfloor y)%Z by lia.
    destruct (Qcompare (x - inject_Z (Qfloor x)) (1 # 2));
      destruct (Qcompare (y - inject_Z (Qfloor y)) (1 # 2));
      repeat match goal with |- context [Z.even ?z] => destruct (Z.even z) end; lia.
Qed.

Lemma round_half_even_ge (q : Q) (z : Z) : inject_Z z <= q -> (z <= round_half_even q)%Z.
Proof. intros H. rewrite <- (round_half_even_inject z). now apply round_half_even_mono. Qed.

Lemma round_half_even_le (q : Q) (z : Z) : q <= inject_Z z -> (round_half_even q <= z)%Z.
Proof. intros H. rewrite <- (round_half_even_inject z). now apply round_half_even_mono. Qed.

Lemma round64_pos_eq (q : Q) :
  round64_pos q == inject_Z (round_half_even (q / pow2 (ulp_exp q))) * pow2 (ulp_exp q).
Proof. unfold round64_pos. apply Qred_correct. Qed.

Lemma round64_pos_error (q : Q) :
  q - pow2 (ulp_exp q) * (1 # 2) <= round64_pos q <= q + pow2 (ulp_exp q) * (1 # 2).
Proof.
  rewrite round64_pos_eq. pose proof (pow2_pos (ulp_exp q)) as Hp.
  pose proof (round_half_even_error (q / pow2 (ulp_exp q))) as [H1 H2].
  set (m := inject_Z (round_half_even (q / pow2 (ulp_exp q)))) in *.
  assert (E : q == q / pow2 (ulp_exp q) * pow2 (ulp_exp q)) by (field; lra).
  set (t := q / pow2 (ulp_exp q)) in *. set (P := pow2 (ulp_exp q)) in *.
  clearbody m t P.
  assert (G1 : (t - (1 # 2)) * P <= m * P) by (apply Qmult_le_compat_r; lra).
  assert (G2 : m * P <= (t + (1 # 2)) * P) by (apply Qmult_le_compat_r; lra).
  split; lra.
Qed.

Lemma round64_pos_comp (x y : Q) : 0 < x -> x == y -> round64_pos x = round64_pos y.
Proof.
  intros Hx H. unfold round64_pos, ulp_exp.
  assert (E : ilog2 x = ilog2 y).
  { apply ilog2_unique. rewrite H. apply ilog2_spec. lra. }
  rewrite E. apply Qred_complete.
  rewrite (round_half_even_comp (x / pow2 (Z.max (ilog2 y - 52) (-1074)))
             (y / pow2 (Z.max (ilog2 y - 52) (-1074)))); [reflexivity|].
  rewrite H. reflexivity.
Qed.

(** Relative error of rounding in the normal range. *)
Lemma round64_pos_relative (q : Q) :
  pow2 (-1022) <= q ->
  q * (1 - pow2 (-53)) <= round64_pos q <= q * (1 + pow2 (-53)).
Proof.
  intros Hq. assert (Hq0 : 0 < q) by (pose proof (pow2_pos (-1022)); lra).
  destruct (ilog2_spec q Hq0) as [H1 H2].
  assert (He : (-1022 <= ilog2 q)%Z).
  { destruct (Z_le_gt_dec (-1022) (ilog2 q)) as [L|L]; [exact L|].
    assert (pow2 (ilog2 q + 1) <= pow2 (-1022)) by (apply pow2_le; lia). lra. }
  pose proof (round64_pos_error q) as [E1 E2].
  assert (Hu : ulp_exp q = (ilog2 q - 52)%Z) by (unfold ulp_exp; lia).
  rewrite Hu in E1, E2.
  assert (Hp : pow2 (ilog2 q - 52) * (1 # 2) == pow2 (ilog2 q) * pow2 (-53)).
  { replace (ilog2 q - 52)%Z with (ilog2 q + -53 + 1)%Z by lia. rewrite pow2_succ, pow2_add.
    ring. }
  rewrite Hp in E1, E2. pose proof (pow2_pos (-53)). nra.
Qed.

Lemma pow2_quot (a b : Z) : (b <= a)%Z -> pow2 a / pow2 b == inject_Z (2 ^ (a - b)).
Proof. intros H. rewrite pow2_inject by lia. symmetry. apply pow2_sub. Qed.

Lemma round64_pos_nonneg (q : Q) : 0 < q -> 0 <= round64_pos q.
Proof.
  intros Hq. rewrite round64_pos_eq. pose proof (pow2_pos (ulp_exp q)) as Hp.
  apply Qmult_le_0_compat; [|lra].
  change 0 with (inject_Z 0). rewrite <- Zle_Qle. apply round_half_even_ge.
  change (inject_Z 0) with 0. apply Qle_shift_div_l; [exact Hp|]. lra.
Qed.

Lemma round64_pos_upper (q : Q) : 0 < q -> round64_pos q <= pow2 (ulp_exp q + 53).
Proof.
  intros Hq. rewrite round64_pos_eq. pose proof (pow2_pos (ulp_exp q)) as Hp.
  destruct (ilog2_spec q Hq) as [_ H2].
  assert (H3 : pow2 (ilog2 q + 1) <= pow2 (ulp_exp q + 53)) by (apply pow2_le; unfold ulp_exp; lia).
  assert (H4 : (round_half_even (q / pow2 (ulp_exp q)) <= 2 ^ 53)%Z).
  { apply round_half_even_le. apply Qle_shift_div_r; [exact Hp|].
    change (inject_Z (2 ^ 53)) with (pow2 53). rewrite <- pow2_add.
    replace (53 + ulp_exp q)%Z with (ulp_exp q + 53)%Z by lia. lra. }
  rewrite Zle_Qle in H4. change (inject_Z (2 ^ 53)) with (pow2 53) in H4.
  rewrite (Z.add_comm (ulp_exp q) 53), pow2_add.
  apply Qmult_le_compat_r; [exact H4|lra].
Qed.

Lemma round64_pos_lower (q : Q) :
  0 < q -> ulp_exp q = (ilog2 q - 52)%Z -> pow2 (ilog2 q) <= round64_pos q.
Proof.
  intros Hq Hu. rewrite round64_pos_eq. pose proof (pow2_pos (ulp_exp q)) as Hp.
  destruct (ilog2_spec q Hq) as [H1 _].
  assert (H4 : (2 ^ 52 <= round_half_even (q / pow2 (ulp_exp q)))%Z).
  { apply round_half_even_ge. apply Qle_shift_div_l; [exact Hp|].
    change (inject_Z (2 ^ 52)) with (pow2 52). rewrite <- pow2_add.
    replace (52 + ulp_exp q)%Z with (ilog2 q) by lia. exact H1. }
  rewrite Zle_Qle in H4. change (inject_Z (2 ^ 52)) with (pow2 52) in H4.
  replace (ilog2 q) with (52 + ulp_exp q)%Z at 1 by lia. rewrite pow2_add.
  apply Qmult_le_compat_r; [exact H4|lra].
Qed.

Lemma round64_pos_mono (x y : Q) : 0 < x -> x <= y -> round64_pos x <= round64_pos y.
Proof.
  intros Hx Hxy. assert (Hy : 0 < y) by lra.
  pose proof (ilog2_le x y Hx Hxy) as Hl.
  destruct (Z.eq_dec (ulp_exp x) (ulp_exp y)) as [E|E].
  - rewrite !round64_pos_eq, E. pose proof (pow2_pos (ulp_exp y)) as Hp.
    apply Qmult_le_compat_r; [|lra]. rewrite <- Zle_Qle. apply round_half_even_mono.
    apply Qmult_le_compat_r; [exact Hxy|]. apply Qinv_le_0_compat. lra.
  - assert (Hu : ulp_exp y = (ilog2 y - 52)%Z) by (unfold ulp_exp in *; lia).
    pose proof (round64_pos_upper x Hx) as H1. pose proof (round64_pos_lower y Hy Hu) as H2.
    assert (H3 : pow2 (ulp_exp x + 53) <= pow2 (ilog2 y)) by (apply pow2_le; unfold ulp_exp in *; lia).
    lra.
Qed.

Lemma Qnum_pos (q : Q) : 0 < q -> exists p, Qnum q = Z.pos p.
Proof.
  destruct q as [[|n|n] d]; unfold Qlt; simpl; intros H; try lia. now exists n.
Qed.

Lemma round64_of_pos (q : Q) : 0 < q -> round64 q = round64_pos q.
Proof. intros H. destruct (Qnum_pos q H) as [p Hp]. unfold round64. now rewrite Hp. Qed.

Lemma round64_of_zero (q : Q) : q == 0 -> round64 q = 0.
Proof.
  destruct q as [[|n|n] d]; unfold Qeq; simpl; intros H; try lia. reflexivity.
Qed.

Lemma round64_nonneg (q : Q) : 0 <= q -> 0 <= round64 q.
Proof.
  intros H. destruct (Qlt_le_dec 0 q) as [L|L].
  - rewrite (round64_of_pos q L). now apply round64_pos_nonneg.
  - rewrite (round64_of_zero q); lra.
Qed.

(** Rounding is monotone (stated for what is used here, non-negative numbers). *)
Lemma round64_mono (x y : Q) : 0 <= x -> x <= y -> round64 x <= round64 y.
Proof.
  intros Hx Hxy. destruct (Qlt_le_dec 0 x) as [L|L].
  - rewrite (round64_of_pos x L), (round64_of_pos y) by lra. now apply round64_pos_mono.
  - rewrite (round64_of_zero x) by lra. apply round64_nonneg. lra.
Qed.

Lemma round64_comp (x y : Q) : x == y -> round64 x = round64 y.
Proof.
  intros H. destruct (Qlt_le_dec 0 x) as [L|L].
  - rewrite (round64_of_pos x L), (round64_of_pos y) by lra. now apply round64_pos_comp.
  - destruct (Qlt_le_dec x 0) as [N|N].
    + unfold round64. destruct x as [[|n|n] d]; try (exfalso; revert N; unfold Qlt; simpl; lia).
      destruct y as [[|m|m] e]; try (exfalso; revert H; unfold Qeq; simpl; lia).
      cbn [Qnum]. f_equal. apply round64_pos_comp; [reflexivity|]. rewrite H. reflexivity.
    + rewrite (round64_of_zero x), (round64_of_zero y); [reflexivity|lra|lra].
Qed.

(** Numbers with at most 53 significant bits are not changed. *)
Lemma round64_pos_exact (m e : Z) :
  (0 < m < 2 ^ 53)%Z -> (-1074 <= e)%Z ->
  round64_pos (inject_Z m * pow2 e) == inject_Z m * pow2 e.
Proof.
  intros Hm He. destruct m as [|m|m]; try lia.
  destruct (Zlog2_Q m) as [L1 L2]. pose proof (pow2_pos e) as Hp.
  assert (Hl : (Z.log2 (Z.pos m) <= 52)%Z).
  { assert (Z.log2 (Z.pos m) < 53)%Z by (apply Z.log2_lt_pow2; lia). lia. }
  assert (Hi : ilog2 (inject_Z (Z.pos m) * pow2 e) = (Z.log2 (Z.pos m) + e)%Z).
  { apply ilog2_unique. replace (Z.log2 (Z.pos m) + e + 1)%Z with (Z.log2 (Z.pos m) + 1 + e)%Z by lia.
    rewrite (pow2_add (Z.log2 (Z.pos m)) e), (pow2_add (Z.log2 (Z.pos m) + 1) e).
    split; [apply Qmult_le_compat_r; lra|apply Qmult_lt_compat_r; lra]. }
  rewrite round64_pos_eq. unfold ulp_exp. rewrite Hi.
  set (p := Z.max (Z.log2 (Z.pos m) + e - 52) (-1074)).
  assert (Hpe : (p <= e)%Z) by (unfold p; lia).
  assert (E : inject_Z (Z.pos m) * pow2 e / pow2 p == inject_Z (Z.pos m * 2 ^ (e - p))).
  { rewrite inject_Z_mult, <- (pow2_quot e p Hpe). field. pose proof (pow2_pos p). lra. }
  rewrite (round_half_even_comp _ _ E), round_half_even_inject.
  rewrite inject_Z_mult, <- (pow2_quot e p Hpe). field. pose proof (pow2_pos p). lra.
Qed.

Lemma Qred_inject_Z (z : Z) : Qred (inject_Z z) = inject_Z z.
Proof.
  unfold Qred, inject_Z.
  pose proof (Z.ggcd_correct_divisors z 1) as H. pose proof (Z.ggcd_gcd z 1) as G.
  destruct (Z.ggcd z 1) as [g [aa bb]]. cbn [fst snd] in *. destruct H as [H1 H2].
  rewrite Z.gcd_1_r in G. subst g. rewrite Z.mul_1_l in H1, H2. subst aa bb. reflexivity.
Qed.

Lemma round64_integer (z : Z) : (0 <= z < 2 ^ 53)%Z -> round64 (inject_Z z) = inject_Z z.
Proof.
  intros Hz. destruct (Z.eq_dec z 0%Z) as [->|Hn]; [reflexivity|].
  assert (H0 : 0 < inject_Z z) by (change 0 with (inject_Z 0); rewrite <- Zlt_Qlt; lia).
  rewrite (round64_of_pos _ H0).
  assert (E : round64_pos (inject_Z z) == inject_Z z).
  { rewrite (round64_pos_comp (inject_Z z) (inject_Z z * pow2 0) H0)
      by (change (pow2 0) with 1; ring).
    rewrite (round64_pos_exact z 0); [change (pow2 0) with 1; ring|lia|lia]. }
  transitivity (Qred (inject_Z z)); [|apply Qred_inject_Z].
  unfold round64_pos at 1. apply Qred_complete.
  transitivity (round64_pos (inject_Z z)); [|exact E].
  unfold round64_pos. symmetry. apply Qred_correct.
Qed.

Lemma round64_pow2 (e : Z) : (-1074 <= e)%Z -> round64 (pow2 e) == pow2 e.
Proof.
  intros He. rewrite (round64_of_pos _ (pow2_pos e)).
  rewrite (round64_pos_comp (pow2 e) (inject_Z 1 * pow2 e) (pow2_pos e))
    by (change (inject_Z 1) with 1; ring).
  rewrite (round64_pos_exact 1 e); [change (inject_Z 1) with 1; ring|lia|exact He].
Qed.

(** A representable number below what is rounded stays below the result. *)
Lemma round64_ge (k q : Q) : 0 <= k -> round64 k == k -> k <= q -> k <= round64 q.
Proof. intros H0 Hk Hq. rewrite <- Hk. now apply round64_mono. Qed.

Lemma round64_le (k q : Q) : 0 <= q -> round64 k == k -> q <= k -> round64 q <= k.
Proof. intros H0 Hk Hq. rewrite <- Hk. now apply round64_mono. Qed.

(** What a non-negative exact result is rounded to. *)
Lemma Number_cases (q : Q) :
  0 <= q ->
  (Number q = Frac (round64 q) /\ round64 q < pow2 1024) \/ Number q = FInfinity false.
Proof.
  intros Hq. pose proof (round64_nonneg q Hq) as Hr. unfold Number.
  destruct (Qle_bool (pow2 1024) (round64 q)) eqn:E1; [now right|left].
  assert (H1 : round64 q < pow2 1024).
  { apply Qnot_le_lt. intros H. apply Qle_bool_iff in H. congruence. }
  destruct (Qle_bool (round64 q) (- pow2 1024)) eqn:E2; [|now split].
  apply Qle_bool_iff in E2. pose proof (pow2_pos 1024). lra.
Qed.

Lemma Number_finite (q : Q) : 0 <= q -> q <= pow2 1023 -> Number q = Frac (round64 q).
Proof.
  intros Hq Hb. destruct (Number_cases q Hq) as [[H _]|H]; [exact H|].
  exfalso. unfold Number in H.
  assert (Hr : round64 q <= pow2 1023).
  { apply round64_le; [exact Hq|apply round64_pow2; lia|exact Hb]. }
  assert (Hlt : pow2 1023 < pow2 1024) by (apply pow2_lt; lia).
  destruct (Qle_bool (pow2 1024) (round64 q)) eqn:E1.
  - apply Qle_bool_iff in E1. lra.
  - destruct (Qle_bool (round64 q) (- pow2 1024)); discriminate H.
Qed.

Lemma inject_Z_bound (z : Z) : (0 <= z < 2 ^ 53)%Z -> 0 <= inject_Z z <= pow2 1023.
Proof.
  intros Hz. split.
  - change 0 with (inject_Z 0). rewrite <- Zle_Qle. lia.
  - apply Qle_trans with (pow2 53); [|apply pow2_le; lia].
    change (pow2 53) with (inject_Z (2 ^ 53)). rewrite <- Zle_Qle. lia.
Qed.

(** Below 2^53 every non-negative integer is a number of its own. *)
Lemma number_of_Z_small (z : Z) : (0 <= z < 2 ^ 53)%Z -> number_of_Z z = Num z.
Proof.
  intros Hz. unfold number_of_Z. destruct (inject_Z_bound z Hz) as [H0 H1].
  rewrite (Number_finite _ H0 H1), (round64_integer z Hz), Qfloor_Z. reflexivity.
Qed.

(** The number of a non-negative integer is not below a representable
    integer the integer is not below. *)
Lemma number_of_Z_lower (k z : Z) :
  (0 <= k < 2 ^ 53)%Z -> (k <= z)%Z ->
  number_of_Z z = Infinity false \/ exists r, number_of_Z z = Num r /\ (k <= r)%Z.
Proof.
  intros Hk Hz. unfold number_of_Z.
  assert (H0 : 0 <= inject_Z z) by (change 0 with (inject_Z 0); rewrite <- Zle_Qle; lia).
  destruct (Number_cases _ H0) as [[E _]|E]; rewrite E; [right|now left].
  eexists. split; [reflexivity|].
  rewrite <- (Qfloor_Z k). apply Qfloor_resp_le.
  rewrite <- (round64_integer k Hk). apply round64_mono.
  - change 0 with (inject_Z 0). rewrite <- Zle_Qle. lia.
  - rewrite <- Zle_Qle. exact Hz.
Qed.

(** Absolute error of rounding below a power of two. *)
Lemma round64_abs_error (q : Q) (e : Z) :
  0 <= q -> q <= pow2 e -> (-1022 <= e)%Z ->
  q - pow2 (e - 53) <= round64 q <= q + pow2 (e - 53).
Proof.
  intros Hq Hb He. pose proof (pow2_pos (e - 53)) as Hp.
  destruct (Qlt_le_dec 0 q) as [L|L]; [|rewrite (round64_of_zero q) by lra; lra].
  rewrite (round64_of_pos q L). pose proof (round64_pos_error q) as [E1 E2].
  assert (Hl : (ilog2 q <= e)%Z).
  { destruct (ilog2_spec q L) as [H1 _].
    destruct (Z_le_gt_dec (ilog2 q) e) as [G|G]; [exact G|].
    assert (pow2 e < pow2 (ilog2 q)) by (apply pow2_lt; lia). lra. }
  assert (Hu : pow2 (ulp_exp q) * (1 # 2) <= pow2 (e - 53)).
  { assert (H : pow2 (ulp_exp q) <= pow2 (e - 52)) by (apply pow2_le; unfold ulp_exp; lia).
    replace (e - 52)%Z with (e - 53 + 1)%Z in H by lia. rewrite pow2_succ in H. lra. }
  lra.
Qed.

(** Relative error of rounding in the normal range. *)
Lemma round64_relative (q : Q) :
  pow2 (-1022) <= q ->
  q * (1 - pow2 (-53)) <= round64 q <= q * (1 + pow2 (-53)).
Proof.
  intros Hq. rewrite (round64_of_pos q) by (pose proof (pow2_pos (-1022)); lra).
  now apply round64_pos_relative.
Qed.

Lemma Math_round_mono (p q : Q) : p <= q -> (Math_round p <= Math_round q)%Z.
Proof. intros H. unfold Math_round. apply Qfloor_resp_le. lra. Qed.

Lemma Math_round_eq (p q : Q) : p == q -> Math_round p = Math_round q.
Proof. intros H. unfold Math_round. now rewrite H. Qed.

Lemma Qfloor_unique (q : Q) (z : Z) : inject_Z z <= q -> q < inject_Z (z + 1) -> Qfloor q = z.
Proof.
  intros H1 H2. pose proof (Qfloor_le q) as F1. pose proof (Qlt_floor q) as F2.
  assert (G1 : inject_Z z < inject_Z (Qfloor q + 1)) by lra.
  assert (G2 : inject_Z (Qfloor q) < inject_Z (z + 1)) by lra.
  rewrite <- Zlt_Qlt in G1, G2. lia.
Qed.

(** Halving an integer below 2^53 is exact. *)
Lemma midpoint_small (l h : Z) :
  (0 <= l + h < 2 ^ 53)%Z ->
  midpoint (Num l) (Num h) = Num (Math_round (inject_Z (l + h) / inject_Z 2)).
Proof.
  intros Hs. unfold midpoint, to_f, f_add.
  assert (E : inject_Z l + inject_Z h == inject_Z (l + h)) by (rewrite inject_Z_plus; reflexivity).
  destruct (inject_Z_bound _ Hs) as [H0 H1].
  rewrite (Number_finite (inject_Z l + inject_Z h)) by lra.
  rewrite (round64_comp _ _ E), (round64_integer _ Hs).
  unfold f_div. change (Qeq_bool 2 0) with false. cbv iota.
  assert (Hh : 0 <= inject_Z (l + h) / 2) by (apply Qle_shift_div_l; lra).
  assert (Hh2 : inject_Z (l + h) / 2 <= pow2 1023).
  { pose proof (pow2_pos 1023). apply Qle_shift_div_r; lra. }
  rewrite (Number_finite (inject_Z (l + h) / 2) Hh Hh2).
  unfold Math_round_f. f_equal. apply Math_round_eq.
  destruct (Z.eq_dec (l + h)%Z 0%Z) as [Z0|Hn].
  - rewrite Z0. reflexivity.
  - assert (Hpos : 0 < inject_Z (l + h) / 2).
    { apply Qlt_shift_div_l; [reflexivity|]. change (0 * 2) with (inject_Z 0).
      rewrite <- Zlt_Qlt. lia. }
    rewrite (round64_of_pos _ Hpos).
    rewrite (round64_pos_comp _ (inject_Z (l + h) * pow2 (-1)) Hpos)
      by (change (pow2 (-1)) with (1 # 2); field).
    rewrite (round64_pos_exact (l + h) (-1)); [change (pow2 (-1)) with (1 # 2); field|lia|lia].
Qed.

Lemma calculateRNYear_below (z : Z) : (z < 13670)%Z -> calculateRNYear (Num z) = None.
Proof.
  intros H. unfold calculateRNYear. cbn [num_lt]. apply Z.ltb_lt in H. now rewrite H.
Qed.

(** From 13670 on there is a formula year, and it is at least 1959. *)
Lemma calculateRNYear_from (rn : number) :
  num_ge rn (Num 13670) = true ->
  exists y, calculateRNYear rn = Some y /\ num_ge y (Num 1959) = true.
Proof.
  destruct rn as [z|[|]|]; cbn [num_ge negb]; intros H; try discriminate H.
  - apply Z.leb_le in H. unfold calculateRNYear. cbn [num_lt].
    assert (E : (z <? 13670)%Z = false) by (apply Z.ltb_ge; lia). rewrite E.
    eexists. split; [reflexivity|]. cbn [to_f f_sub].
    assert (H1 : 0 <= inject_Z z - 13670).
    { change 13670 with (inject_Z 13670). rewrite Zle_Qle in H. lra. }
    destruct (Number_cases _ H1) as [[-> _]| ->]; [|reflexivity].
    pose proof (round64_nonneg _ H1) as H2. set (r1 := round64 (inject_Z z - 13670)) in *. clearbody r1.
    unfold f_div. change (Qeq_bool 2635 0) with false. cbv iota.
    assert (H3 : 0 <= r1 / 2635) by (apply Qle_shift_div_l; lra).
    destruct (Number_cases _ H3) as [[-> _]| ->]; [|reflexivity].
    pose proof (round64_nonneg _ H3) as H4. set (r2 := round64 (r1 / 2635)) in *. clearbody r2.
    unfold f_add.
    assert (H5 : 0 <= r2 + 1959) by lra.
    destruct (Number_cases _ H5) as [[-> _]| ->]; [|reflexivity].
    cbn [Math_round_f num_ge]. apply Z.leb_le.
    apply (Z.le_trans _ (Math_round 1959)); [vm_compute; discriminate|].
    apply Math_round_mono.
    apply round64_ge; [lra| |lra].
    change 1959 with (inject_Z 1959). now rewrite round64_integer.
  - eexists. split; reflexivity.
Qed.

(** Up to fifteen digits the formula year in binary64 is the exact one. *)
Lemma calculateRNYear_exact (z : Z) :
  (13670 <= z < 10 ^ 15)%Z ->
  calculateRNYear (Num z) = Some (Num ((2 * (z - 13670) + 2635) / 5270 + 1959)).
Proof.
  intros Hz. unfold calculateRNYear. cbn [num_lt].
  assert (E : (z <? 13670)%Z = false) by (apply Z.ltb_ge; lia). rewrite E.
  f_equal. cbn [to_f f_sub].
  set (a := (z - 13670)%Z).
  assert (Ha : (0 <= a < 2 ^ 53)%Z) by (unfold a; lia).
  assert (Ea : inject_Z z - 13670 == inject_Z a).
  { unfold a. change 13670 with (inject_Z 13670). unfold Zminus.
    rewrite inject_Z_plus, inject_Z_opp. ring. }
  destruct (inject_Z_bound a Ha) as [A0 A1].
  rewrite (Number_finite (inject_Z z - 13670)) by lra.
  rewrite (round64_comp _ _ Ea), (round64_integer a Ha).
  unfold f_div. change (Qeq_bool 2635 0) with false. cbv iota.
  set (t := inject_Z a / 2635).
  assert (Ht : 2635 * t == inject_Z a) by (unfold t; field).
  assert (Hb : inject_Z a < 1000000000000000).
  { change 1000000000000000 with (inject_Z (10 ^ 15)). rewrite <- Zlt_Qlt. unfold a. lia. }
  assert (T0 : 0 <= t) by lra.
  assert (T1 : t <= pow2 39).
  { change (pow2 39) with (549755813888 # 1). lra. }
  assert (P1 : pow2 39 <= pow2 1023) by (apply pow2_le; lia).
  rewrite (Number_finite t) by lra.
  pose proof (round64_abs_error t 39 T0 T1 ltac:(lia)) as [D1 D2].
  change (pow2 (39 - 53)) with (1 # 16384) in D1, D2.
  pose proof (round64_nonneg t T0) as D0. set (d := round64 t) in *.
  unfold f_add.
  assert (S1 : d + 1959 <= pow2 39).
  { change (pow2 39) with (549755813888 # 1). lra. }
  rewrite (Number_finite (d + 1959)) by lra.
  pose proof (round64_abs_error (d + 1959) 39 ltac:(lra) S1 ltac:(lia)) as [R1 R2].
  change (pow2 (39 - 53)) with (1 # 16384) in R1, R2.
  set (s := round64 (d + 1959)) in *.
  cbn [Math_round_f]. f_equal. unfold Math_round.
  set (Y := ((2 * a + 2635) / 5270 + 1959)%Z).
  assert (HY : exists r, (2 * a + 2635 + 1959 * 5270 = 5270 * Y + r /\ 1 <= r <= 5269)%Z).
  { exists ((2 * a + 2635) mod 5270)%Z. unfold Y. Z.div_mod_to_equations. lia. }
  destruct HY as (r & HN & Hr).
  assert (QN : inject_Z (2 * a + 2635 + 1959 * 5270) == inject_Z (5270 * Y + r))
    by (rewrite HN; reflexivity).
  rewrite !inject_Z_plus, !inject_Z_mult in QN.
  change (inject_Z 2) with 2 in QN. change (inject_Z 2635) with 2635 in QN.
  change (inject_Z 1959) with 1959 in QN. change (inject_Z 5270) with 5270 in QN.
  assert (Qr : 1 <= inject_Z r <= 5269).
  { change 1 with (inject_Z 1). change 5269 with (inject_Z 5269). rewrite <- !Zle_Qle. exact Hr. }
  clearbody t d s. apply Qfloor_unique.
  - lra.
  - rewrite inject_Z_plus. change (inject_Z 1) with 1. lra.
Qed.

Open Scope Z_scope.

Open Scope Q_scope.

Lemma representable_fixed (q : Q) : representable q -> round64 q == q.
Proof.
  intros [H|(m & e & Hm & He & H)].
  - rewrite (round64_of_zero q H). symmetry. exact H.
  - assert (Hpos : 0 < q).
    { rewrite H. apply Qmult_lt_0_compat; [|apply pow2_pos].
      change 0 with (inject_Z 0). rewrite <- Zlt_Qlt. lia. }
    rewrite (round64_of_pos q Hpos), (round64_pos_comp _ _ Hpos H).
    rewrite (round64_pos_exact m e Hm He). symmetry. exact H.
Qed.

Lemma round64_representable (q : Q) : 0 <= q -> representable (round64 q).
Proof.
  intros Hq. destruct (Qlt_le_dec 0 q) as [L|L].
  2:{ left. rewrite (round64_of_zero q); [reflexivity|lra]. }
  rewrite (round64_of_pos q L).
  pose proof (round64_pos_eq q) as E. pose proof (round64_pos_upper q L) as U.
  pose proof (round64_pos_nonneg q L) as N.
  pose proof (pow2_pos (ulp_exp q)) as Hp.
  set (u := ulp_exp q) in *. set (M := round_half_even (q / pow2 u)) in *.
  assert (Hu : (-1074 <= u)%Z) by (unfold u, ulp_exp; lia).
  assert (HM0 : (0 <= M)%Z).
  { apply round_half_even_ge. apply Qle_shift_div_l; [exact Hp|]. change (inject_Z 0) with 0. lra. }
  assert (HM1 : (M <= 2 ^ 53)%Z).
  { rewrite Zle_Qle. rewrite (pow2_inject 53) by lia.
    rewrite E in U. rewrite pow2_add in U.
    apply (Qmult_le_r _ _ (pow2 u) Hp). lra. }
  destruct (Z.eq_dec M 0%Z) as [Z0|Hn0].
  { left. rewrite E, Z0. ring. }
  destruct (Z.eq_dec M (2 ^ 53)%Z) as [Z1|Hn1].
  - right. exists (2 ^ 52)%Z, (u + 1)%Z. split; [lia|]. split; [lia|].
    rewrite E, Z1, pow2_succ. change (inject_Z (2 ^ 53)) with (2 * inject_Z (2 ^ 52)). ring.
  - right. exists M, u. split; [lia|]. split; [exact Hu|exact E].
Qed.

Lemma representable_double (q : Q) : representable q -> representable (2 * q).
Proof.
  intros [H|(m & e & Hm & He & H)].
  - left. rewrite H. reflexivity.
  - right. exists m, (e + 1)%Z. split; [exact Hm|]. split; [lia|].
    rewrite H, pow2_succ. ring.
Qed.

Lemma representable_pow2 (e : Z) : (-1074 <= e)%Z -> representable (pow2 e).
Proof.
  intros He. right. exists 1%Z, e. split; [lia|]. split; [exact He|].
  change (inject_Z 1) with 1. ring.
Qed.

Lemma representable_small (z : Z) : (0 <= z < 2 ^ 53)%Z -> representable (inject_Z z).
Proof.
  intros Hz. destruct (Z.eq_dec z 0%Z) as [->|Hn]; [left; reflexivity|].
  right. exists z, 0%Z. split; [lia|]. split; [lia|]. change (pow2 0) with 1. ring.
Qed.

(** A representable number from 2^53 on is an integer. *)
Lemma representable_integer (q : Q) :
  representable q -> pow2 53 <= q -> exists z : Z, q == inject_Z z.
Proof.
  intros [H|(m & e & Hm & He & H)] Hq.
  - exfalso. pose proof (pow2_pos 53). lra.
  - assert (He0 : (0 <= e)%Z).
    { destruct (Z_lt_le_dec e 0) as [Hneg|]; [|assumption]. exfalso.
      assert (Hp1 : pow2 e <= pow2 0) by (apply pow2_le; lia).
      change (pow2 0) with 1 in Hp1.
      assert (Hm1 : inject_Z m < pow2 53).
      { rewrite <- (pow2_inject 53) by lia. rewrite <- Zlt_Qlt. lia. }
      assert (Hm0 : 0 < inject_Z m) by (change 0 with (inject_Z 0); rewrite <- Zlt_Qlt; lia).
      pose proof (pow2_pos e) as Hp0.
      assert (inject_Z m * pow2 e <= inject_Z m * 1)
        by (apply Qmult_le_l; [exact Hm0|exact Hp1]).
      lra. }
    exists (m * 2 ^ e)%Z. rewrite H, inject_Z_mult, (pow2_inject e He0). reflexivity.
Qed.

(** What [parseInt] makes of a non-negative integer: an integer-valued
    binary64 number, or Infinity. *)
Lemma number_of_Z_value (z : Z) :
  (0 <= z)%Z ->
  number_of_Z z = Infinity false \/
  exists r : Z, number_of_Z z = Num r /\ (0 <= r)%Z /\ representable (inject_Z r).
Proof.
  intros Hz. destruct (Z_lt_le_dec z (2 ^ 53)) as [Hs|Hb].
  { right. exists z. rewrite number_of_Z_small by lia. split; [reflexivity|].
    split; [exact Hz|]. apply representable_small. lia. }
  assert (H0 : 0 <= inject_Z z) by (change 0 with (inject_Z 0); rewrite <- Zle_Qle; exact Hz).
  unfold number_of_Z.
  destruct (Number_cases _ H0) as [[E _]|E]; rewrite E; [right|now left].
  pose proof (round64_representable _ H0) as R.
  assert (Hge : pow2 53 <= round64 (inject_Z z)).
  { apply round64_ge; [pose proof (pow2_pos 53); lra|apply round64_pow2; lia|].
    rewrite <- (pow2_inject 53) by lia. rewrite <- Zle_Qle. exact Hb. }
  destruct (representable_integer _ R Hge) as (k & Hk).
  exists (Qfloor (round64 (inject_Z z))). split; [reflexivity|].
  rewrite (Qfloor_comp _ _ Hk), Qfloor_Z.
  assert (Hk0 : (0 <= k)%Z).
  { rewrite Zle_Qle. rewrite <- Hk. pose proof (pow2_pos 53). change (inject_Z 0) with 0. lra. }
  split; [exact Hk0|].
  destruct R as [R|(m & e & Hm & He & R)]; [left|right; exists m, e; split; [|split]]; try assumption.
  - rewrite <- Hk. exact R.
  - rewrite <- Hk. exact R.
Qed.

(** The mean of two binary64 numbers, rounded, lies between them unless
    their sum is beyond every finite number. *)
Lemma midpoint_between (l h : Z) :
  (0 <= l)%Z -> (0 <= h)%Z -> representable (inject_Z l) -> representable (inject_Z h) ->
  midpoint (Num l) (Num h) = Infinity false \/
  exists m : Z, midpoint (Num l) (Num h) = Num m /\ (Z.min l h <= m <= Z.max l h)%Z.
Proof.
  intros Hl Hh Rl Rh. unfold midpoint, to_f, f_add.
  assert (Il : 0 <= inject_Z l) by (change 0 with (inject_Z 0); rewrite <- Zle_Qle; exact Hl).
  assert (Ih : 0 <= inject_Z h) by (change 0 with (inject_Z 0); rewrite <- Zle_Qle; exact Hh).
  assert (Rmin : representable (inject_Z (Z.min l h))) by (destruct (Z.min_spec l h) as [[_ ->]|[_ ->]]; assumption).
  assert (Rmax : representable (inject_Z (Z.max l h))) by (destruct (Z.max_spec l h) as [[_ ->]|[_ ->]]; assumption).
  assert (Imin : 0 <= inject_Z (Z.min l h)) by (change 0 with (inject_Z 0); rewrite <- Zle_Qle; lia).
  assert (Imax : 0 <= inject_Z (Z.max l h)) by (change 0 with (inject_Z 0); rewrite <- Zle_Qle; lia).
  assert (Lo : 2 * inject_Z (Z.min l h) <= inject_Z l + inject_Z h).
  { change 2 with (inject_Z 2). rewrite <- inject_Z_mult, <- inject_Z_plus, <- Zle_Qle. lia. }
  assert (Hi : inject_Z l + inject_Z h <= 2 * inject_Z (Z.max l h)).
  { change 2 with (inject_Z 2). rewrite <- inject_Z_mult, <- inject_Z_plus, <- Zle_Qle. lia. }
  assert (Hs : 0 <= inject_Z l + inject_Z h) by lra.
  destruct (Number_cases _ Hs) as [[E _]|E]; rewrite E; [|left; reflexivity].
  set (s := round64 (inject_Z l + inject_Z h)).
  assert (S1 : 2 * inject_Z (Z.min l h) <= s).
  { apply round64_ge; [lra|apply representable_fixed, representable_double, Rmin|exact Lo]. }
  assert (S2 : s <= 2 * inject_Z (Z.max l h)).
  { apply round64_le; [exact Hs|apply representable_fixed, representable_double, Rmax|exact Hi]. }
  clearbody s.
  unfold f_div. change (Qeq_bool 2 0) with false. cbv iota.
  assert (T1 : inject_Z (Z.min l h) <= s / 2) by (apply Qle_shift_div_l; lra).
  assert (T2 : s / 2 <= inject_Z (Z.max l h)) by (apply Qle_shift_div_r; lra).
  assert (Ht : 0 <= s / 2) by lra.
  destruct (Number_cases _ Ht) as [[F _]|F]; rewrite F; [right|left; reflexivity].
  eexists. split; [reflexivity|]. split.
  - apply Z.le_trans with (Math_round (inject_Z (Z.min l h))).
    + unfold Math_round. apply Z.eq_le_incl. symmetry. apply Qfloor_unique.
      * lra.
      * rewrite inject_Z_plus. change (inject_Z 1) with 1. lra.
    + apply Math_round_mono. apply round64_ge; [exact Imin|apply representable_fixed, Rmin|exact T1].
  - apply Z.le_trans with (Math_round (inject_Z (Z.max l h))).
    + apply Math_round_mono. apply round64_le; [exact Ht|apply representable_fixed, Rmax|exact T2].
    + unfold Math_round. apply Z.eq_le_incl. apply Qfloor_unique.
      * lra.
      * rewrite inject_Z_plus. change (inject_Z 1) with 1. lra.
Qed.

Open Scope Z_scope.

(** ** Registration-number lookup *)

Lemma all_chars_filter p s : all_chars p (filter_chars p s) = true.
Proof.
  induction s as [|c s IH]; simpl; [reflexivity|].
  destruct (p c) eqn:E; simpl; [rewrite E, IH|]; auto.
Qed.

Lemma digit_not_space c s :
  is_digit c = true -> strip_one white_space (String c s) = None.
Proof.
  intros H. destruct c as [[] [] [] [] [] [] [] []]; try discriminate H; reflexivity.
Qed.

Lemma trimStart_digits s : all_chars is_digit s = true -> trimStart s = s.
Proof.
  destruct s as [|c s]; [reflexivity|]. cbn [all_chars]. intros H.
  apply andb_true_iff in H as [H _]. unfold trimStart.
  change (String.length (String c s)) with (S (String.length s)).
  cbn [strip_all]. rewrite (digit_not_space c s H). reflexivity.
Qed.

Lemma decimal_prefix_digits s : forall a,
  all_chars is_digit s = true ->
  decimal_prefix (Some a) s
  = Some (fold_left (fun acc c => 10 * acc + digit_value c) (list_ascii_of_string s) a).
Proof.
  induction s as [|c s IH]; intros a H; simpl in *; [reflexivity|].
  apply andb_true_iff in H as [Hc Hs]. rewrite Hc. simpl. apply IH, Hs.
Qed.

Lemma parseInt_digits s :
  all_chars is_digit s = true ->
  parseInt s = if nonempty s then number_of_Z (decimal_value s) else NaN.
Proof.
  intros H. unfold parseInt. rewrite (trimStart_digits s H).
  destruct s as [|c s]; [reflexivity|].
  simpl in H. apply andb_true_iff in H as [Hc Hs].
  assert (Hsign : (let '(sign, body) :=
            match String c s with
            | String "-" t' => (-1, t')
            | String "+" t' => (1, t')
            | _ => (1, String c s)
            end in
          match unsigned_prefix body with
          | Some v => number_of_Z (sign * v)
          | None => NaN
          end) = match unsigned_prefix (String c s) with
          | Some v => number_of_Z (1 * v)
          | None => NaN
          end).
  { destruct c as [[] [] [] [] [] [] [] []]; try discriminate Hc; reflexivity. }
  rewrite Hsign. clear Hsign.
  assert (Hu : unsigned_prefix (String c s) = decimal_prefix None (String c s)).
  { unfold unsigned_prefix. destruct s as [|x s']; [destruct c as [[] [] [] [] [] [] [] []]; reflexivity|].
    simpl in Hs. apply andb_true_iff in Hs as [Hx _].
    assert (Ascii.eqb (lower x) "x" = false)
      by (destruct x as [[] [] [] [] [] [] [] []]; try discriminate Hx; reflexivity).
    destruct c as [[] [] [] [] [] [] [] []]; try reflexivity. rewrite H. reflexivity. }
  rewrite Hu. cbn [decimal_prefix]. rewrite Hc. cbn [default from_option id].
  rewrite decimal_prefix_digits by exact Hs.
  unfold decimal_value. cbn [nonempty list_ascii_of_string fold_left]. f_equal.
  destruct (fold_left _ _ _); reflexivity.
Qed.

Lemma decimal_value_nonneg_digits s : all_chars is_digit s = true -> 0 <= decimal_value s.
Proof.
  unfold decimal_value. intros H.
  assert (G : forall l a, 0 <= a -> forallb is_digit l = true ->
              0 <= fold_left (fun acc c => 10 * acc + digit_value c) l a).
  { induction l as [|c l IH]; intros a Ha Hl; [exact Ha|]. cbn [fold_left forallb] in *.
    apply andb_true_iff in Hl as [Hc Hl]. apply IH; [|exact Hl].
    unfold digit_value, is_digit, code in *. apply andb_true_iff in Hc as [H1 H2].
    apply Nat.leb_le in H1. lia. }
  apply G; [lia|]. clear G. induction s as [|c s IH]; [reflexivity|].
  cbn [all_chars] in H. apply andb_true_iff in H as [Hc Hs].
  cbn [list_ascii_of_string forallb]. now rewrite Hc, IH.
Qed.

Lemma number_of_Z_not_NaN (z : Z) : number_of_Z z <> NaN.
Proof.
  unfold number_of_Z, Number.
  destruct (Qle_bool _ _); [discriminate|]. destruct (Qle_bool _ _); discriminate.
Qed.

Lemma rnLookup_cases (args : Args) :
  let rawNumber := str_or (args !! "rn_number") "" in
  let cleaned := filter_chars is_digit rawNumber in
  rnLookup args = if nonempty cleaned
                  then valid_rn cleaned (number_of_Z (decimal_value cleaned))
                  else invalid_rn rawNumber.
Proof.
  intros rawNumber cleaned. unfold rnLookup. fold rawNumber. fold cleaned.
  rewrite (parseInt_digits cleaned (all_chars_filter _ _)).
  destruct (nonempty cleaned); [|reflexivity].
  pose proof (number_of_Z_not_NaN (decimal_value cleaned)) as Hn.
  destruct (number_of_Z (decimal_value cleaned)); [reflexivity|reflexivity|congruence].
Qed.




(** ** Brand patterns *)

Lemma Math_round_int (q : Q) (z : Z) : (q == inject_Z z)%Q -> Math_round q = z.
Proof.
  intros H. unfold Math_round. rewrite H. unfold Qfloor, inject_Z, Qplus. simpl.
  rewrite Z.mul_1_r. replace (z * 2 + 1) with (1 + z * 2) by ring.
  rewrite Z.div_add by discriminate. reflexivity.
Qed.

(** A score computed from zero matched patterns is 0. *)
Lemma clamp_score_zero (total flagged : nat) :
  clamp_score (inject_Z 0 / inject_Z (Z.of_nat total) * inject_Z 100
               - inject_Z (Z.of_nat flagged * 15)) = 0.
Proof.
  unfold clamp_score.
  rewrite (Math_round_int _ (- (Z.of_nat flagged * 15))).
  - lia.
  - unfold Qdiv. rewrite !Qmult_0_l. unfold Qeq, Qminus, Qplus, Qopp, inject_Z. simpl. lia.
Qed.

Lemma assoc_In {A} k (o : list (string * A)) v : assoc k o = Some v -> In (k, v) o.
Proof.
  induction o as [|[k' v'] o IH]; simpl; [discriminate|].
  destruct (String.eqb_spec k k') as [->|]; intros H.
  - injection H as ->. now left.
  - right. auto.
Qed.

Lemma assoc_of_key {A} k (o : list (string * A)) :
  In k (map fst o) -> exists v, assoc k o = Some v.
Proof.
  induction o as [|[k' v'] o IH]; simpl; [tauto|].
  destruct (String.eqb_spec k k') as [->|Hne]; [eauto|].
  intros [E|H]; [congruence|auto].
Qed.

Lemma get_Own_In {A} (o : list (string * A)) k v : get o k = Own v -> In (k, v) o.
Proof.
  unfold get. destruct (assoc k o) eqn:E.
  - intros H. injection H as ->. now apply assoc_In.
  - destruct (mem k Object_prototype); discriminate.
Qed.

Lemma last_In {A} (l : list A) x : last l = Some x -> In x l.
Proof.
  induction l as [|a [|b l] IH]; simpl; [discriminate| |].
  - intros H. injection H as ->. now left.
  - intros H. right. apply IH. exact H.
Qed.

Lemma last_nonempty {A} (l : list A) : l <> [] -> exists x, last l = Some x.
Proof.
  induction l as [|a [|b l] IH]; [congruence|simpl; eauto|].
  intros _. apply IH. discriminate.
Qed.

(** The era fallback always lands on an entry of a non-empty era table. *)
Lemma select_era (eras : list (string * EraData.t)) (f : string -> bool) :
  eras <> [] ->
  exists k d,
    match find f (map fst eras) with Some k => Some k | None => last (map fst eras) end = Some k
    /\ get eras k = Own d /\ In (k, d) eras.
Proof.
  intros Hne.
  assert (Hk : exists k, match find f (map fst eras) with
                         | Some k => Some k | None => last (map fst eras) end = Some k
                         /\ In k (map fst eras)).
  { destruct (find f (map fst eras)) eqn:E.
    - exists s. split; [reflexivity|]. now apply find_some in E.
    - destruct (last_nonempty (map fst eras)) as [k Hk].
      + destruct eras; [congruence|discriminate].
      + exists k. split; [exact Hk|]. now apply last_In. }
  destruct Hk as (k & Hsel & Hin).
  destruct (assoc_of_key k eras Hin) as [d Hd].
  exists k, d. split; [exact Hsel|]. unfold get. rewrite Hd.
  split; [reflexivity|]. now apply assoc_In.
Qed.

Lemma BRAND_PATTERNS_shape brand bd :
  get BRAND_PATTERNS brand = Own bd ->
  BrandPatternDB.eras bd <> [] /\ Forall well_formed_era (BrandPatternDB.eras bd).
Proof.
  intros H. apply get_Own_In in H. simpl in H.
  destruct H as [H|[H|[H|[]]]]; injection H as _ <-; (split; [discriminate|]);
    simpl; repeat (constructor; [unfold well_formed_era; simpl; auto|]); constructor.
Qed.

(** What [brandPatterns] returns for a brand of the table, in terms of the
    era entry it selects. *)
Lemma brandPatterns_own (args : Args) bd :
  get BRAND_PATTERNS (brand_key args) = Own bd ->
  exists eraName eraData r,
    In (eraName, eraData) (BrandPatternDB.eras bd) /\
    brandPatterns args = Ok r /\
    BrandPatternResult.era r = eraName /\
    BrandPatternResult.details r = EraData.details eraData /\
    let matched := List.filter (observed (observed_markers args)) (EraData.patterns eraData) in
    let flagged := List.filter (observed (observed_markers args)) (EraData.redFlags eraData) in
    BrandPatternResult.matchedPatterns r
      = (if (0 <? length matched)%nat then matched else EraData.patterns eraData) /\
    BrandPatternResult.redFlags r = flagged /\
    BrandPatternResult.authenticityScore r
      = Num (clamp_score
               (inject_Z (Z.of_nat (length matched))
                  / inject_Z (Z.of_nat (length (EraData.patterns eraData))) * inject_Z 100
                - inject_Z (Z.of_nat (length flagged) * 15))).
Proof.
  intros Hget.
  destruct (BRAND_PATTERNS_shape _ _ Hget) as [Hne Hwf].
  destruct (select_era (BrandPatternDB.eras bd)
              (fun k => includes (replace_first "s" "" k)
                                 (trim (str_or (args !! "era") ""))) Hne)
    as (k & d & Hsel & Hown & Hin).
  assert (Hlen : (0 <? length (EraData.patterns d))%nat = true).
  { rewrite List.Forall_forall in Hwf. specialize (Hwf _ Hin). unfold well_formed_era in Hwf.
    simpl in Hwf. apply Nat.ltb_lt. lia. }
  exists k, d. unfold brandPatterns. fold (brand_key args). rewrite Hget.
  cbv zeta. rewrite Hsel, Hown. fold (observed_markers args). rewrite Hlen.
  eexists. split; [exact Hin|]. split; [reflexivity|]. cbn.
  repeat split.
  destruct (List.filter (observed (observed_markers args)) (EraData.redFlags d)); reflexivity.
Qed.

(** C10.  Matched-pattern fallback.  For a brand of the table the result is
    built from one era entry of that brand, whose expected patterns are not
    empty; when no observed marker matches any of them, [matchedPatterns] is
    the full list of expected patterns while the score is computed from zero
    matches (and is therefore 0).  A result with an empty [matchedPatterns]
    comes from a brand that is not in the table. *)
Theorem matchedPatterns_fallback (args : Args) :
  (forall bd, get BRAND_PATTERNS (brand_key args) = Own bd ->
     exists eraName eraData r,
       In (eraName, eraData) (BrandPatternDB.eras bd) /\
       brandPatterns args = Ok r /\
       BrandPatternResult.era r = eraName /\
       EraData.patterns eraData <> [] /\
       (List.filter (observed (observed_markers args)) (EraData.patterns eraData) = [] ->
          BrandPatternResult.matchedPatterns r = EraData.patterns eraData /\
          BrandPatternResult.authenticityScore r
            = Num (clamp_score
                     (inject_Z 0 / inject_Z (Z.of_nat (length (EraData.patterns eraData)))
                        * inject_Z 100
                      - inject_Z (Z.of_nat (length (BrandPatternResult.redFlags r)) * 15))) /\
          BrandPatternResult.authenticityScore r = Num 0))
  /\
  (forall r, brandPatterns args = Ok r ->
     BrandPatternResult.matchedPatterns r = [] ->
     get BRAND_PATTERNS (brand_key args) = Undefined).
Proof.
  split.
  - intros bd Hget.
    destruct (brandPatterns_own args bd Hget)
      as (k & d & r & Hin & Hr & Hera & _ & Hm & Hf & Hs).
    destruct (BRAND_PATTERNS_shape _ _ Hget) as [_ Hwf].
    rewrite List.Forall_forall in Hwf. specialize (Hwf _ Hin). unfold well_formed_era in Hwf.
    simpl in Hwf.
    exists k, d, r. repeat split; auto.
    + intros E. rewrite E in Hwf. simpl in Hwf. lia.
    + rewrite Hm, H. reflexivity.
    + rewrite Hs, Hf, H. reflexivity.
    + rewrite Hs, H. cbn [length]. now rewrite clamp_score_zero.
  - intros r Hr Hnil.
    destruct (get BRAND_PATTERNS (brand_key args)) as [bd| |] eqn:Hget; [|exfalso|reflexivity].
    + exfalso.
      destruct (brandPatterns_own args bd Hget)
        as (k & d & r' & Hin & Hr' & _ & _ & Hm & _).
      rewrite Hr in Hr'. injection Hr' as <-.
      destruct (BRAND_PATTERNS_shape _ _ Hget) as [_ Hwf].
      rewrite List.Forall_forall in Hwf. specialize (Hwf _ Hin). unfold well_formed_era in Hwf.
      simpl in Hwf. rewrite Hnil in Hm.
      destruct (List.filter _ (EraData.patterns d)) as [|x l] eqn:E; simpl in Hm.
      * rewrite <- Hm in Hwf. simpl in Hwf. lia.
      * discriminate.
    + unfold brandPatterns in Hr. fold (brand_key args) in Hr. rewrite Hget in Hr.
      discriminate.
Qed.

Lemma matchedPatterns_fallback_witness :
  exists r,
    brandPatterns (<["brand" := "Nike"]> (<["era" := "1990s"]> {["markers" := "zipper"]})) = Ok r /\
    BrandPatternResult.matchedPatterns r
    = ["White tag"; "White label"; "Made in USA possible"; "Embroidered swoosh"; "Mini swoosh"] /\
    BrandPatternResult.authenticityScore r = Num 0.
Proof.
  pose (args := (<["brand" := "Nike"]> (<["era" := "1990s"]> {["markers" := "zipper"]})) : Args).
  destruct (matchedPatterns_fallback args) as [H _].
  destruct (get BRAND_PATTERNS (brand_key args)) as [bd| |] eqn:Hget;
    [|vm_compute in Hget; discriminate Hget|vm_compute in Hget; discriminate Hget].
  destruct (H bd eq_refl) as (k & d & r & Hin & Hr & Hera & Hne & Hzero).
  exists r. split; [exact Hr|].
  vm_compute in Hget. injection Hget as <-.
  vm_compute in Hr. injection Hr as <-. cbn [BrandPatternResult.era] in Hera. subst k.
  split; reflexivity.
Defined.

Lemma inject_Z_max a b : (inject_Z (Z.max a b) == Qmax (inject_Z a) (inject_Z b))%Q.
Proof.
  destruct (Z.max_spec a b) as [[H ->]|[H ->]].
  - symmetry. apply Q.max_r. rewrite <- Zle_Qle. lia.
  - symmetry. apply Q.max_l. rewrite <- Zle_Qle. lia.
Qed.

Lemma inject_Z_min a b : (inject_Z (Z.min a b) == Qmin (inject_Z a) (inject_Z b))%Q.
Proof.
  destruct (Z.min_spec a b) as [[H ->]|[H ->]].
  - symmetry. apply Q.min_l. rewrite <- Zle_Qle. lia.
  - symmetry. apply Q.min_r. rewrite <- Zle_Qle. lia.
Qed.

Lemma clamp_score_int (q : Q) (z : Z) :
  (q == inject_Z z)%Q ->
  (inject_Z (clamp_score q) == Qmax (inject_Z 0) (Qmin (inject_Z 100) q))%Q.
Proof.
  intros H. unfold clamp_score. rewrite (Math_round_int q z H).
  rewrite inject_Z_max, inject_Z_min, H. reflexivity.
Qed.

(** With four or five expected patterns the pattern score is a whole number. *)
Lemma pattern_score_whole (m t f : nat) :
  t = 4%nat \/ t = 5%nat ->
  exists z,
    (inject_Z (Z.of_nat m) / inject_Z (Z.of_nat t) * inject_Z 100
       - inject_Z (Z.of_nat f * 15) == inject_Z z)%Q.
Proof.
  intros [-> | ->].
  - exists (Z.of_nat m * 25 - Z.of_nat f * 15).
    unfold Qeq, Qminus, Qplus, Qmult, Qdiv, Qinv, Qopp, inject_Z. simpl. lia.
  - exists (Z.of_nat m * 20 - Z.of_nat f * 15).
    unfold Qeq, Qminus, Qplus, Qmult, Qdiv, Qinv, Qopp, inject_Z. simpl. lia.
Qed.

(** The score of a brand of the table is the specification's formula, with
    no rounding left. *)
Lemma brandPatterns_score (args : Args) bd :
  get BRAND_PATTERNS (brand_key args) = Own bd ->
  exists eraName eraData r score,
    In (eraName, eraData) (BrandPatternDB.eras bd) /\
    brandPatterns args = Ok r /\
    BrandPatternResult.authenticityScore r = Num score /\
    (inject_Z score ==
       spec_score
         (length (List.filter (observed (observed_markers args)) (EraData.patterns eraData)))
         (length (EraData.patterns eraData))
         (length (List.filter (observed (observed_markers args)) (EraData.redFlags eraData))))%Q.
Proof.
  intros Hget.
  destruct (brandPatterns_own args bd Hget)
    as (k & d & r & Hin & Hr & _ & _ & _ & _ & Hs).
  destruct (BRAND_PATTERNS_shape _ _ Hget) as [_ Hwf].
  rewrite List.Forall_forall in Hwf. specialize (Hwf _ Hin). unfold well_formed_era in Hwf.
  simpl in Hwf.
  destruct (pattern_score_whole
              (length (List.filter (observed (observed_markers args)) (EraData.patterns d)))
              (length (EraData.patterns d))
              (length (List.filter (observed (observed_markers args)) (EraData.redFlags d))) Hwf)
    as [z Hz].
  eexists k, d, r, _. split; [exact Hin|]. split; [exact Hr|]. split; [exact Hs|].
  rewrite (clamp_score_int _ z Hz). unfold spec_score.
  apply Q.max_compat; [reflexivity|]. apply Q.min_compat; [reflexivity|].
  unfold Qeq, Qminus, Qplus, Qmult, Qdiv, Qinv, Qopp, inject_Z. simpl.
  destruct Hwf as [-> | ->]; simpl; lia.
Qed.

(** A brand that is neither in the table nor a member of [Object.prototype]
    gets the neutral result. *)
Lemma brandPatterns_unknown (args : Args) :
  get BRAND_PATTERNS (brand_key args) = Undefined ->
  exists r,
    brandPatterns args = Ok r /\
    BrandPatternResult.authenticityScore r = Num 50 /\
    BrandPatternResult.redFlags r = ["Brand not in database - manual verification required"] /\
    BrandPatternResult.matchedPatterns r = [].
Proof.
  intros H. unfold brandPatterns. fold (brand_key args). rewrite H.
  eexists. split; [reflexivity|]. repeat split.
Qed.

Example brandPatterns_acme :
  exists r,
    brandPatterns {["brand" := "Acme Vintage Co"]} = Ok r /\
    BrandPatternResult.authenticityScore r = Num 50 /\
    length (BrandPatternResult.redFlags r) = 1%nat /\
    BrandPatternResult.matchedPatterns r = [].
Proof. eexists. vm_compute. repeat split. Qed.

(** C7, at the failing input.  The brand "constructor" is not in the table,
    yet [brandPatterns] throws a TypeError instead of returning the neutral
    result with score 50: the table lookup finds [Object.prototype.constructor]. *)
Theorem brandPatterns_inherited_name_throws :
  assoc "constructor" BRAND_PATTERNS = None /\
  brandPatterns (<["brand" := "constructor"]> {["era" := "1990s"]})
  = Throw (TypeError "Cannot convert undefined or null to object").
Proof. split; vm_compute; reflexivity. Qed.

(** ** Market search *)

(** Every base price times every era multiplier is a whole number. *)
Lemma scale_exact (b : Band.t) (m : Q) :
  In b (map snd baseValues) ->
  m = 18 # 10 \/ m = 14 # 10 \/ m = 8 # 10 \/ m = 1 # 1 ->
  (inject_Z (Math_round (inject_Z (Band.low b) * m)) == inject_Z (Band.low b) * m)%Q /\
  (inject_Z (Math_round (inject_Z (Band.high b) * m)) == inject_Z (Band.high b) * m)%Q.
Proof.
  intros Hb Hm.
  assert (Hall : Forall (fun b : Band.t =>
            Forall (fun m : Q =>
              (inject_Z (Math_round (inject_Z (Band.low b) * m)) == inject_Z (Band.low b) * m)%Q /\
              (inject_Z (Math_round (inject_Z (Band.high b) * m))
                 == inject_Z (Band.high b) * m)%Q)
              [18 # 10; 14 # 10; 8 # 10; 1 # 1])
            (map snd baseValues)).
  { repeat (constructor; [repeat (constructor; [split; reflexivity|]); constructor|]).
    constructor. }
  rewrite List.Forall_forall in Hall. specialize (Hall b Hb).
  rewrite List.Forall_forall in Hall. apply Hall. simpl.
  destruct Hm as [-> |[-> |[-> | ->]]]; auto.
Qed.

(** The scaled prices are far below 2^53. *)
Lemma scale_small (b : Band.t) (m : Q) :
  In b (map snd baseValues) ->
  m = 18 # 10 \/ m = 14 # 10 \/ m = 8 # 10 \/ m = 1 # 1 ->
  0 <= Math_round (inject_Z (Band.low b) * m) + Math_round (inject_Z (Band.high b) * m) < 2 ^ 53.
Proof.
  intros Hb Hm.
  assert (Hall : Forall (fun b : Band.t =>
            Forall (fun m : Q =>
              0 <= Math_round (inject_Z (Band.low b) * m)
                   + Math_round (inject_Z (Band.high b) * m) < 2 ^ 53)
              [18 # 10; 14 # 10; 8 # 10; 1 # 1])
            (map snd baseValues)).
  { repeat (constructor; [repeat (constructor; [vm_compute; split; [discriminate|reflexivity]|]);
                          constructor|]).
    constructor. }
  rewrite List.Forall_forall in Hall. specialize (Hall b Hb).
  rewrite List.Forall_forall in Hall. apply Hall. simpl.
  destruct Hm as [-> |[-> |[-> | ->]]]; auto.
Qed.

(** For every brand that is not a member of [Object.prototype], the band is
    the base band times the era multiplier, exactly. *)
Lemma marketSearch_band (args : Args) (rng : Rng) :
  mem (market_brand args) Object_prototype = false ->
  exists (eraMultiplier : Q) (low mid high : Z),
    MarketSearchResult.estimatedValue (fst (marketSearch args rng))
      = EstimatedValue.mk (Num low) (Num mid) (Num high) "USD" /\
    (inject_Z low == inject_Z (Band.low (base_band (market_brand args))) * eraMultiplier)%Q /\
    (inject_Z high == inject_Z (Band.high (base_band (market_brand args))) * eraMultiplier)%Q /\
    mid = Math_round (inject_Z (low + high) / inject_Z 2) /\
    eraMultiplier =
      (if includes "1970" (market_era args) || includes "1980" (market_era args) then 18 # 10
       else if includes "1990" (market_era args) then 14 # 10
       else if includes "2000" (market_era args) then 8 # 10
       else 1 # 1).
Proof.
  intros Hproto. unfold marketSearch. fold (market_brand args). fold (market_era args).
  set (m := if includes "1970" (market_era args) || includes "1980" (market_era args)
            then 18 # 10
            else if includes "1990" (market_era args) then 14 # 10
            else if includes "2000" (market_era args) then 8 # 10 else 1 # 1).
  assert (Hm : m = 18 # 10 \/ m = 14 # 10 \/ m = 8 # 10 \/ m = 1 # 1).
  { subst m. destruct (_ || _); [auto|]. destruct (includes "1990" _); [auto|].
    destruct (includes "2000" _); auto. }
  assert (Hb : match get baseValues (market_brand args) with
               | Undefined => get baseValues "default"
               | found => found
               end = Own (base_band (market_brand args))
               /\ In (base_band (market_brand args)) (map snd baseValues)).
  { unfold get, base_band. rewrite Hproto.
    destruct (assoc (market_brand args) baseValues) eqn:E.
    - split; [reflexivity|]. apply assoc_In in E.
      apply (in_map snd) in E. exact E.
    - split; [reflexivity|]. simpl. tauto. }
  destruct Hb as [-> Hin].
  exists m. cbn [scale Math_random fst].
  rewrite (midpoint_small _ _ (scale_small _ m Hin Hm)).
  eexists _, _, _. split; [reflexivity|].
  destruct (scale_exact _ m Hin Hm) as [Hlow Hhigh].
  split; [exact Hlow|]. split; [exact Hhigh|]. split; reflexivity.
Qed.

Lemma marketSearch_band_witness :
  exists (eraMultiplier : Q) (low mid high : Z),
    MarketSearchResult.estimatedValue
      (fst (marketSearch {["brand" := "Acme"]} (fun _ => 0 # 1)))
      = EstimatedValue.mk (Num low) (Num mid) (Num high) "USD" /\
    (inject_Z low == inject_Z 30 * eraMultiplier)%Q /\
    (inject_Z high == inject_Z 200 * eraMultiplier)%Q.
Proof.
  assert (Hp : mem (market_brand {["brand" := "Acme"]}) Object_prototype = false)
    by (vm_compute; reflexivity).
  destruct (marketSearch_band {["brand" := "Acme"]} (fun _ => 0 # 1) Hp)
    as (m & l & mi & h & H1 & H2 & H3 & _).
  exists m, l, mi, h. auto.
Defined.

(** The specification's example: Levi's, an era mentioning 1980. *)
Lemma marketSearch_levis_1980 (era item : string) (rng : Rng) :
  includes "1980" era = true ->
  MarketSearchResult.estimatedValue
    (fst (marketSearch (<["brand" := "levis"]> (<["era" := era]> {["item_description" := item]}))
            rng))
  = EstimatedValue.mk (Num 108) (Num 774) (Num 1440) "USD".
Proof.
  intros H. unfold marketSearch.
  assert (He : str_or ((<["brand" := "levis"]> (<["era" := era]> {["item_description" := item]}) : Args)
                         !! "era") "" = era).
  { rewrite lookup_insert_ne by discriminate. rewrite lookup_insert_eq.
    destruct era; [discriminate H|reflexivity]. }
  rewrite He. rewrite lookup_insert_eq. rewrite H, orb_true_r. reflexivity.
Qed.

(** C9, at the failing input.  The brand "constructor" is not in the price
    table, yet [marketSearch] does not fall back to the default band: the
    lookup finds [Object.prototype.constructor], whose [low] and [high] are
    undefined, and the whole band is NaN. *)
Theorem marketSearch_inherited_name_NaN (rng : Rng) :
  assoc "constructor" baseValues = None /\
  MarketSearchResult.estimatedValue
    (fst (marketSearch
            (<["item_description" := "jacket"]>
               (<["brand" := "constructor"]> {["era" := "1980s"]})) rng))
  = EstimatedValue.mk NaN NaN NaN "USD".
Proof. split; reflexivity. Qed.

(** ** Date forensics *)

Lemma fold_max_greatest l : forall a, greatest (fold_left Z.max l a) (a :: l).
Proof.
  induction l as [|b l IH]; intros a; simpl.
  - split; [now left|]. intros y [Hy|[]]. lia.
  - destruct (IH (Z.max a b)) as [Hin Hle]. split.
    + destruct Hin as [E|Hin]; [|right; right; exact Hin].
      rewrite <- E. destruct (Z.max_spec a b) as [[_ ->]|[_ ->]]; simpl; auto.
    + intros y [Hy|[Hy|Hy]].
      * specialize (Hle (Z.max a b) (or_introl eq_refl)). lia.
      * specialize (Hle (Z.max a b) (or_introl eq_refl)). lia.
      * apply Hle. now right.
Qed.

Lemma fold_min_least l : forall a, least (fold_left Z.min l a) (a :: l).
Proof.
  induction l as [|b l IH]; intros a; simpl.
  - split; [now left|]. intros y [Hy|[]]. lia.
  - destruct (IH (Z.min a b)) as [Hin Hle]. split.
    + destruct Hin as [E|Hin]; [|right; right; exact Hin].
      rewrite <- E. destruct (Z.min_spec a b) as [[_ ->]|[_ ->]]; simpl; auto.
    + intros y [Hy|[Hy|Hy]].
      * specialize (Hle (Z.min a b) (or_introl eq_refl)). lia.
      * specialize (Hle (Z.min a b) (or_introl eq_refl)). lia.
      * apply Hle. now right.
Qed.

(** The weighting loop computes the three sums. *)
Lemma fold_add_weight ms : forall a b c,
  fold_left add_weight ms (a, b, c)
  = (fold_left fadd (map ConstructionMarker.confidence ms) a,
     fold_left fadd
       (map (fun m => fmul (inject_Z (era_start m)) (ConstructionMarker.confidence m)) ms) b,
     fold_left fadd
       (map (fun m => fmul (inject_Z (era_end m)) (ConstructionMarker.confidence m)) ms) c).
Proof.
  induction ms as [|m ms IH]; intros a b c; [reflexivity|].
  cbn [fold_left map add_weight]. apply IH.
Qed.




Example dateForensics_rounded_example :
  DateForensicsResult.yearRange
    (dateForensics {["construction_details" := "made in china, rolled hem"]})
  = (Num 1958, Num 1998) /\
  weighted_average era_end
    (matched_markers {["construction_details" := "made in china, rolled hem"]})
  = literal (9992 # 5).
Proof. split; vm_compute; reflexivity. Qed.

(** Rounding in binary64 shows: for these six markers the exact average of
    the starts is 8569/4.4 = 1947.5, which rounds to 1948, but the sums in
    binary64 give a quotient just below, and the range starts at 1947. *)
Example dateForensics_binary64_example :
  DateForensicsResult.yearRange
    (dateForensics {["construction_details" :=
       "chain stitch, selvedge, union label, made in china, coats & clark, rolled hem"]})
  = (Num 1947, Num 1994) /\
  Math_round (exact_average [(1950, (8 # 10)%Q); (1920, (85 # 100)%Q); (1955, (9 # 10)%Q);
                             (1985, (5 # 10)%Q); (1950, (6 # 10)%Q); (1940, (75 # 100)%Q)])
  = 1948.
Proof. split; vm_compute; reflexivity. Qed.

(** ** Date forensics: the weighting loop in binary64 *)

Open Scope Q_scope.

Lemma CONSTRUCTION_MARKERS_plausible : Forall plausible_marker CONSTRUCTION_MARKERS.
Proof.
  repeat (constructor;
          [unfold plausible_marker, era_start, era_end; cbn [ConstructionMarker.eraRange fst snd
             ConstructionMarker.confidence];
           split; [lia|]; split; [lia|]; split; [lia|];
           split; [vm_compute; discriminate|]; split; [vm_compute; discriminate|];
           vm_compute; reflexivity|]).
  constructor.
Qed.

Lemma sumQ_nonneg (l : list Q) : Forall (fun x => 0 <= x) l -> 0 <= sumQ l.
Proof.
  induction 1 as [|x l Hx Hl IH]; [cbn; lra|]. cbn [sumQ fold_right]. fold (sumQ l). lra.
Qed.

Lemma inject_succ (n : nat) : inject_Z (Z.of_nat (S n)) == inject_Z (Z.of_nat n) + 1.
Proof. rewrite Nat2Z.inj_succ. unfold Z.succ. rewrite inject_Z_plus. reflexivity. Qed.

Lemma inject_nat_nonneg (n : nat) : 0 <= inject_Z (Z.of_nat n).
Proof. change 0 with (inject_Z 0). rewrite <- Zle_Qle. lia. Qed.

(** A sum in binary64 of non-negative numbers that stays below [2^B] is
    off the exact sum by at most [2^(B-53)] for each addition. *)
Lemma fold_fadd_error (B : Z) (l : list Q) : forall (a A err : Q),
  (-1022 <= B)%Z ->
  Forall (fun x => 0 <= x) l ->
  0 <= a -> A - err <= a -> a <= A + err ->
  A + sumQ l + err + inject_Z (Z.of_nat (length l)) * pow2 (B - 53) <= pow2 B ->
  0 <= fold_left fadd l a /\
  A + sumQ l - (err + inject_Z (Z.of_nat (length l)) * pow2 (B - 53)) <= fold_left fadd l a /\
  fold_left fadd l a <= A + sumQ l + (err + inject_Z (Z.of_nat (length l)) * pow2 (B - 53)).
Proof.
  induction l as [|x l IH]; intros a A err HB Hl Ha H1 H2 Hb.
  - cbn [fold_left sumQ fold_right length] in *. change (inject_Z (Z.of_nat 0)) with 0 in *.
    split; [|split]; lra.
  - inversion Hl as [|x' l' Hx Hl']; subst. cbn [fold_left sumQ fold_right length] in *.
    fold (sumQ l) in *. pose proof (sumQ_nonneg l Hl') as Hs.
    pose proof (pow2_pos (B - 53)) as Hp. pose proof (inject_nat_nonneg (length l)) as Hn.
    rewrite inject_succ in *.
    assert (Hnp : 0 <= inject_Z (Z.of_nat (length l)) * pow2 (B - 53))
      by (apply Qmult_le_0_compat; lra).
    assert (Hax : a + x <= pow2 B) by lra.
    pose proof (round64_abs_error (a + x) B ltac:(lra) Hax HB) as [E1 E2].
    pose proof (round64_nonneg (a + x) ltac:(lra)) as E0.
    change (round64 (a + x)) with (fadd a x) in *.
    destruct (IH (fadd a x) (A + x) (err + pow2 (B - 53)) HB Hl' E0
                 ltac:(lra) ltac:(lra) ltac:(lra)) as (G0 & G1 & G2).
    split; [|split]; lra.
Qed.

(** Sums in binary64 are monotone in their terms. *)
Lemma fold_fadd_mono (l1 l2 : list Q) : forall a b,
  Forall2 (fun x y => 0 <= x /\ x <= y) l1 l2 -> 0 <= a -> a <= b ->
  fold_left fadd l1 a <= fold_left fadd l2 b.
Proof.
  intros a b H. revert a b. induction H as [|x y l1 l2 [Hx Hxy] Hl IH]; intros a b Ha Hab.
  - exact Hab.
  - cbn [fold_left]. apply IH.
    + unfold fadd. apply round64_nonneg. lra.
    + unfold fadd. apply round64_mono; lra.
Qed.

Lemma round64_point (k : Q) : round64 k = k -> round64 k == k.
Proof. intros H. rewrite H. reflexivity. Qed.

(** The three sums of the weighting loop over plausible markers. *)
Lemma weighted_sums (ms : list ConstructionMarker.t) :
  Forall plausible_marker ms -> (1 <= length ms <= 18)%nat ->
  let W := sum64 (map ConstructionMarker.confidence ms) in
  let WS := sum64 (map (fun m => fmul (inject_Z (era_start m)) (ConstructionMarker.confidence m)) ms) in
  let WE := sum64 (map (fun m => fmul (inject_Z (era_end m)) (ConstructionMarker.confidence m)) ms) in
  0 < W /\ (7679 # 4) * W <= WS /\ WS <= WE /\ WE <= (8105 # 4) * W /\
  inject_Z (Z.of_nat (length ms)) * (3 # 16) <= W.
Proof.
  intros HP Hlen W WS WE.
  set (cs := map ConstructionMarker.confidence ms).
  set (ts := map (fun m => fmul (inject_Z (era_start m)) (ConstructionMarker.confidence m)) ms).
  set (te := map (fun m => fmul (inject_Z (era_end m)) (ConstructionMarker.confidence m)) ms).
  set (n := inject_Z (Z.of_nat (length ms))).
  assert (Hn1 : 1 <= n).
  { unfold n. change 1 with (inject_Z 1). rewrite <- Zle_Qle. lia. }
  assert (Hn18 : n <= 18).
  { unfold n. change 18 with (inject_Z 18). rewrite <- Zle_Qle. lia. }
  (* exact sums *)
  assert (Hexact : Forall (fun x => 0 <= x) cs /\ Forall (fun x => 0 <= x) ts /\
                   Forall (fun x => 0 <= x) te /\
                   n * (1 # 5) <= sumQ cs /\ sumQ cs <= n /\
                   1920 * sumQ cs - n * (1 # 4398046511104) <= sumQ ts /\
                   sumQ te <= 2026 * sumQ cs + n * (1 # 4398046511104) /\
                   sumQ ts <= 2027 * n /\ sumQ te <= 2027 * n /\
                   Forall2 (fun x y => 0 <= x /\ x <= y) ts te).
  { subst cs ts te n. clear Hlen W WS WE Hn1 Hn18.
    induction HP as [|m ms Hm Hms IH].
    - cbn [map sumQ fold_right length]. change (inject_Z (Z.of_nat 0)) with 0.
      do 3 (split; [constructor|]). do 6 (split; [lra|]). constructor.
    - destruct IH as (I1 & I2 & I3 & I4 & I5 & I6 & I7 & I8 & I9 & I10).
      destruct Hm as (Hs & Hse & He & Hc1 & Hc2 & _).
      cbn [map sumQ fold_right length]. rewrite inject_succ.
      set (c := ConstructionMarker.confidence m) in *.
      fold (sumQ (map ConstructionMarker.confidence ms)).
      fold (sumQ (map (fun m => fmul (inject_Z (era_start m)) (ConstructionMarker.confidence m)) ms)).
      fold (sumQ (map (fun m => fmul (inject_Z (era_end m)) (ConstructionMarker.confidence m)) ms)).
      assert (S1 : 1920 <= inject_Z (era_start m)).
      { change 1920 with (inject_Z 1920). rewrite <- Zle_Qle. exact Hs. }
      assert (S2 : inject_Z (era_start m) <= inject_Z (era_end m)) by (rewrite <- Zle_Qle; exact Hse).
      assert (S3 : inject_Z (era_end m) <= 2026).
      { change 2026 with (inject_Z 2026). rewrite <- Zle_Qle. exact He. }
      assert (Ps : 1920 * c <= inject_Z (era_start m) * c) by (apply Qmult_le_compat_r; lra).
      assert (Pse : inject_Z (era_start m) * c <= inject_Z (era_end m) * c)
        by (apply Qmult_le_compat_r; lra).
      assert (Pe : inject_Z (era_end m) * c <= 2026 * c) by (apply Qmult_le_compat_r; lra).
      assert (B2 : 2026 * c <= pow2 11) by (change (pow2 11) with (2048 # 1); lra).
      pose proof (round64_abs_error (inject_Z (era_start m) * c) 11 ltac:(lra) ltac:(lra)
                    ltac:(lia)) as [Es1 Es2].
      pose proof (round64_abs_error (inject_Z (era_end m) * c) 11 ltac:(lra) ltac:(lra)
                    ltac:(lia)) as [Ee1 Ee2].
      change (pow2 (11 - 53)) with (1 # 4398046511104) in Es1, Es2, Ee1, Ee2.
      pose proof (round64_nonneg (inject_Z (era_start m) * c) ltac:(lra)) as Ns.
      pose proof (round64_nonneg (inject_Z (era_end m) * c) ltac:(lra)) as Ne.
      pose proof (round64_mono (inject_Z (era_start m) * c) (inject_Z (era_end m) * c)
                    ltac:(lra) Pse) as Mse.
      fold (fmul (inject_Z (era_start m)) c) in *. fold (fmul (inject_Z (era_end m)) c) in *.
      clearbody c.
      do 3 (split; [constructor; [lra|assumption]|]). do 6 (split; [lra|]).
      constructor; [split; lra|exact I10]. }
  destruct Hexact as (Hc & Hts & Hte & C1 & C2 & Ps & Pe & Bs & Be & Hmono).
  assert (Elen_c : length cs = length ms) by (unfold cs; apply length_map).
  assert (Elen_s : length ts = length ms) by (unfold ts; apply length_map).
  assert (Elen_e : length te = length ms) by (unfold te; apply length_map).
  (* the sums in binary64 *)
  destruct (fold_fadd_error 5 cs 0 0 0 ltac:(lia) Hc ltac:(lra) ltac:(lra) ltac:(lra))
    as (W0 & W1 & W2).
  { rewrite Elen_c. fold n. change (pow2 (5 - 53)) with (1 # 281474976710656).
    change (pow2 5) with (32 # 1). lra. }
  destruct (fold_fadd_error 16 ts 0 0 0 ltac:(lia) Hts ltac:(lra) ltac:(lra) ltac:(lra))
    as (S0 & S1 & S2).
  { rewrite Elen_s. fold n. change (pow2 (16 - 53)) with (1 # 137438953472).
    change (pow2 16) with (65536 # 1). lra. }
  destruct (fold_fadd_error 16 te 0 0 0 ltac:(lia) Hte ltac:(lra) ltac:(lra) ltac:(lra))
    as (T0 & T1 & T2).
  { rewrite Elen_e. fold n. change (pow2 (16 - 53)) with (1 # 137438953472).
    change (pow2 16) with (65536 # 1). lra. }
  rewrite Elen_c in W1, W2. rewrite Elen_s in S1, S2. rewrite Elen_e in T1, T2.
  fold n in W1, W2, S1, S2, T1, T2.
  change (pow2 (5 - 53)) with (1 # 281474976710656) in W1, W2.
  change (pow2 (16 - 53)) with (1 # 137438953472) in S1, S2, T1, T2.
  pose proof (fold_fadd_mono ts te 0 0 Hmono ltac:(lra) ltac:(lra)) as Hse.
  subst W WS WE. unfold sum64. fold cs ts te.
  set (W := fold_left fadd cs 0) in *. set (WS := fold_left fadd ts 0) in *.
  set (WE := fold_left fadd te 0) in *.
  clearbody W WS WE n. repeat split; lra.
Qed.

(** The rounded weighted averages of plausible markers lie in 1920..2026,
    the one of the starts not above the one of the ends. *)
Lemma weighted_average_range (ms : list ConstructionMarker.t) :
  Forall plausible_marker ms -> (1 <= length ms <= 18)%nat ->
  (1920 <= Math_round (weighted_average era_start ms))%Z /\
  (Math_round (weighted_average era_start ms) <= Math_round (weighted_average era_end ms))%Z /\
  (Math_round (weighted_average era_end ms) <= 2026)%Z.
Proof.
  intros HP Hlen. destruct (weighted_sums ms HP Hlen) as (W0 & H1 & H2 & H3 & _).
  unfold weighted_average.
  set (W := sum64 (map ConstructionMarker.confidence ms)) in *.
  set (WS := sum64 (map (fun m => fmul (inject_Z (era_start m)) (ConstructionMarker.confidence m)) ms)) in *.
  set (WE := sum64 (map (fun m => fmul (inject_Z (era_end m)) (ConstructionMarker.confidence m)) ms)) in *.
  clearbody W WS WE.
  assert (Q1 : 7679 # 4 <= WS / W) by (apply Qle_shift_div_l; lra).
  assert (Q2 : WS / W <= WE / W).
  { unfold Qdiv. apply Qmult_le_compat_r; [exact H2|]. apply Qinv_le_0_compat. lra. }
  assert (Q3 : WE / W <= 8105 # 4) by (apply Qle_shift_div_r; lra).
  unfold fdiv. split; [|split].
  - apply (Z.le_trans _ (Math_round (7679 # 4))); [vm_compute; discriminate|].
    apply Math_round_mono. apply round64_ge; [lra|vm_compute; reflexivity|exact Q1].
  - apply Math_round_mono. apply round64_mono; lra.
  - apply (Z.le_trans _ (Math_round (8105 # 4))); [|vm_compute; discriminate].
    apply Math_round_mono. apply round64_le; [lra|vm_compute; reflexivity|exact Q3].
Qed.

(** The confidence formula on two or more plausible markers is at least 1/4. *)
Lemma confidence_from_two (ms : list ConstructionMarker.t) :
  Forall plausible_marker ms -> (2 <= length ms <= 18)%nat ->
  1 # 4 <= fadd (mean_confidence ms)
                (fmul (inject_Z (Z.of_nat (length ms))) (literal (5 # 100))).
Proof.
  intros HP Hlen. destruct (weighted_sums ms HP ltac:(lia)) as (W0 & _ & _ & _ & H4).
  unfold mean_confidence.
  set (W := sum64 (map ConstructionMarker.confidence ms)) in *.
  set (n := inject_Z (Z.of_nat (length ms))) in *.
  assert (Hn : 2 <= n).
  { unfold n. change 2 with (inject_Z 2). rewrite <- Zle_Qle. lia. }
  clearbody W n.
  assert (Q1 : 3 # 16 <= W / n) by (apply Qle_shift_div_l; lra).
  assert (A1 : 3 # 16 <= fdiv W n).
  { unfold fdiv. apply round64_ge; [lra|vm_compute; reflexivity|exact Q1]. }
  assert (L : 3 # 64 <= literal (5 # 100)) by (vm_compute; discriminate).
  assert (A2 : 3 # 32 <= fmul n (literal (5 # 100))).
  { unfold fmul. apply round64_ge; [lra|vm_compute; reflexivity|].
    set (h := literal (5 # 100)) in *. clearbody h. nra. }
  unfold fadd. apply round64_ge; [lra|vm_compute; reflexivity|]. lra.
Qed.

(** The confidence formula on a single marker of the table. *)
Lemma confidence_of_one :
  Forall (fun m => 1 # 4 <= fadd (mean_confidence [m])
                             (fmul (inject_Z (Z.of_nat (length [m]))) (literal (5 # 100))))
         CONSTRUCTION_MARKERS.
Proof. repeat (constructor; [vm_compute; discriminate|]). constructor. Qed.

Open Scope Z_scope.

(** ** Regular expressions and the response parser *)

Lemma star_loop_sound {A} g r (m1 : state -> (state -> option A) -> option A) k :
  sound r m1 ->
  forall n st a, star_loop g m1 k n st = Some a ->
    exists st', matches (Star g r) st st' /\ k st' = Some a.
Proof.
  intros Hm1. induction n as [|n IH]; intros st a H.
  - simpl in H. destruct g; simpl in H.
    + exists st. split; [constructor|exact H].
    + destruct (k st) eqn:E; simpl in H; [|discriminate].
      exists st. split; [constructor|congruence].
  - cbn [star_loop] in H.
    assert (Hagain : forall a,
      m1 st (fun st' => if progress st st' then star_loop g m1 k n st' else None) = Some a ->
      exists st', matches (Star g r) st st' /\ k st' = Some a).
    { intros a' Ha. apply Hm1 in Ha as (st1 & Hr & Hk).
      destruct (progress st st1) eqn:Hp; [|discriminate].
      apply IH in Hk as (st2 & Hs & Hk). exists st2. split; [|exact Hk].
      eapply M_StarS; eauto. }
    destruct g; unfold orelse in H.
    + destruct (m1 st _) eqn:E.
      * injection H as <-. now apply Hagain.
      * exists st. split; [constructor|exact H].
    + destruct (k st) eqn:E.
      * injection H as <-. exists st. split; [constructor|exact E].
      * now apply Hagain.
Qed.

Lemma rmatch_sound {A} (r : regex) : sound r (@rmatch A r).
Proof.
  induction r as [|p|r1 IH1 r2 IH2|r1 IH1 r2 IH2|g r1 IH1|i r1 IH1| | |];
    intros st k a H; cbn [rmatch] in H.
  - exists st. split; [constructor|exact H].
  - destruct (rest st) as [|c s'] eqn:E; [discriminate|].
    destruct (p c) eqn:Ep; [|discriminate].
    exists (advance c s' st). split; [now constructor|exact H].
  - apply IH1 in H as (st1 & H1 & H). apply IH2 in H as (st2 & H2 & H).
    exists st2. split; [eapply M_Seq; eauto|exact H].
  - unfold orelse in H. destruct (rmatch r1 st k) eqn:E.
    + injection H as <-. apply IH1 in E as (st1 & H1 & H).
      exists st1. split; [now apply M_AltL|exact H].
    + apply IH2 in H as (st1 & H1 & H). exists st1. split; [now apply M_AltR|exact H].
  - eapply star_loop_sound; eauto.
  - apply IH1 in H as (st1 & H1 & H). exists (set_cap i st st1).
    split; [now constructor|exact H].
  - destruct (pos st =? 0)%nat eqn:E; [|discriminate].
    exists st. split; [constructor; now apply Nat.eqb_eq|exact H].
  - destruct (rest st) eqn:E; [|discriminate].
    exists st. split; [now constructor|exact H].
  - destruct (xorb _ _) eqn:E; [|discriminate].
    exists st. split; [now constructor|exact H].
Qed.

Lemma search_sound r s : forall p before st st',
  search r p before s = Some (st, st') -> matches r st st' /\ caps st = [].
Proof.
  induction s as [|c s IH]; intros p before st st' H; cbn [search] in H.
  - destruct (rmatch r _ Some) eqn:E; [|discriminate].
    injection H as <- <-. apply rmatch_sound in E as (st1 & Hm & Hk).
    injection Hk as ->. split; [exact Hm|reflexivity].
  - destruct (rmatch r _ Some) eqn:E.
    + injection H as <- <-. apply rmatch_sound in E as (st1 & Hm & Hk).
      injection Hk as ->. split; [exact Hm|reflexivity].
    + eapply IH; eauto.
Qed.

Lemma exec_sound r s m :
  exec r s = Some m -> exists st st', matches r st st' /\ Match.groups m = caps st'.
Proof.
  unfold exec. destruct (search r 0 None s) as [[st st']|] eqn:E; [|discriminate].
  simpl. intros H. injection H as <-. apply search_sound in E as [E _].
  exists st, st'. split; [exact E|reflexivity].
Qed.

(** A pattern without groups leaves the captures alone. *)
Lemma group_free_caps r st st' :
  matches r st st' -> group_free r = true -> caps st' = caps st.
Proof.
  induction 1; cbn [group_free]; intros Hg;
    try apply andb_true_iff in Hg as [Hg1 Hg2];
    try reflexivity; try discriminate; auto.
  - rewrite IHmatches2, IHmatches1; auto.
  - rewrite IHmatches2, IHmatches1; auto.
Qed.

Lemma digit_consumed st st' :
  matches digit st st' ->
  exists c, is_digit c = true /\ consumed (String c "") st st'.
Proof.
  inversion 1; subst. exists c. split; [assumption|].
  unfold consumed, advance; simpl. repeat split; [assumption|lia].
Qed.

Lemma append_assoc (a b c : string) : a ++ (b ++ c) = (a ++ b) ++ c.
Proof.
  induction a as [|x a IH]; [reflexivity|].
  change (String x (a ++ (b ++ c)) = String x ((a ++ b) ++ c)). now rewrite IH.
Qed.

Lemma length_append (a b : string) :
  String.length (a ++ b) = (String.length a + String.length b)%nat.
Proof.
  induction a as [|x a IH]; [reflexivity|].
  change (S (String.length (a ++ b)) = S (String.length a + String.length b)).
  now rewrite IH.
Qed.

Lemma consumed_app d1 d2 st st' st'' :
  consumed d1 st st' -> consumed d2 st' st'' -> consumed (d1 ++ d2) st st''.
Proof.
  intros (H1 & H2 & H3) (H4 & H5 & H6). unfold consumed.
  rewrite H1, H4, H5, H2, H6, H3. repeat split.
  - apply append_assoc.
  - rewrite length_append. lia.
Qed.

Lemma digits_1_3 st st' :
  matches (rep_range 1 3 digit) st st' ->
  exists d, short_digits d /\ consumed d st st'.
Proof.
  cbn. intros H.
  inversion H as [| |r1 r2 s0 s1 s2 Hd1 Hrest| | | | | | | |]; subst; clear H.
  apply digit_consumed in Hd1 as (c1 & Hc1 & Hcons1).
  inversion Hrest as [| | |r1 r2 s0 s2' Hl|r1 r2 s0 s2' Hr| | | | | |]; subst; clear Hrest.
  - inversion Hl as [| |r1 r2 s0 s2' s3 Hd2 Hrest2| | | | | | | |]; subst; clear Hl.
    apply digit_consumed in Hd2 as (c2 & Hc2 & Hcons2).
    pose proof (consumed_app _ _ _ _ _ Hcons1 Hcons2) as Hcons12.
    inversion Hrest2 as [| | |r1 r2 s0 s3' Hl|r1 r2 s0 s3' Hr| | | | | |]; subst; clear Hrest2.
    + inversion Hl as [| |r1 r2 s0 s3' s4 Hd3 Hrest3| | | | | | | |]; subst; clear Hl.
      apply digit_consumed in Hd3 as (c3 & Hc3 & Hcons3).
      pose proof (consumed_app _ _ _ _ _ Hcons12 Hcons3) as Hcons123.
      inversion Hrest3; subst.
      exists (String c1 (String c2 (String c3 ""))). split; [|exact Hcons123].
      split; [simpl; now rewrite Hc1, Hc2, Hc3|simpl; lia].
    + inversion Hr; subst.
      exists (String c1 (String c2 "")). split; [|exact Hcons12].
      split; [simpl; now rewrite Hc1, Hc2|simpl; lia].
  - inversion Hr; subst.
    exists (String c1 ""). split; [|exact Hcons1].
    split; [simpl; now rewrite Hc1|simpl; lia].
Qed.

Lemma substring_prefix d s : substring 0 (String.length d) (d ++ s) = d.
Proof.
  induction d as [|c d IH]; [now destruct s|].
  change (String c (substring 0 (String.length d) (d ++ s)) = String c d). now rewrite IH.
Qed.

Lemma group_digits st st' :
  matches (Group 1 (rep_range 1 3 digit)) st st' ->
  exists d, short_digits d /\ first_group (caps st') = Some d.
Proof.
  inversion 1 as [| | | | | | |i r s0 s1 Hm| | |]; subst.
  apply digits_1_3 in Hm as (d & Hd & Hrest & Hpos & _).
  exists d. split; [exact Hd|].
  unfold first_group, set_cap. simpl. f_equal.
  rewrite Hpos, Hrest. replace (pos st + String.length d - pos st)%nat with (String.length d) by lia.
  apply substring_prefix.
Qed.

Ltac split_seq H :=
  match type of H with
  | matches (Seq _ _) _ _ =>
      let H1 := fresh "Hm" in let H2 := fresh "Hm" in
      inversion H as [| |? ? ? ? ? H1 H2| | | | | | | |]; subst; clear H;
      try split_seq H2
  end.

Ltac captured_digits :=
  match goal with
  | H : matches (Group 1 (rep_range 1 3 digit)) _ _ |- _ =>
      let d := fresh "d" in let Hd := fresh "Hd" in let Hg := fresh "Hg" in
      apply group_digits in H as (d & Hd & Hg); exists d; split; [exact Hd|];
      repeat match goal with
             | Hm : matches ?r ?a ?b |- context [caps ?b] =>
                 rewrite (group_free_caps r a b Hm eq_refl)
             end;
      exact Hg
  end.

Lemma confidence_colon_digits st st' :
  matches confidence_colon st st' ->
  exists d, short_digits d /\ first_group (caps st') = Some d.
Proof. unfold confidence_colon. intros H. split_seq H. captured_digits. Qed.

Lemma percent_confident_digits st st' :
  matches percent_confident st st' ->
  exists d, short_digits d /\ first_group (caps st') = Some d.
Proof. unfold percent_confident. intros H. split_seq H. captured_digits. Qed.

Lemma score_colon_digits st st' :
  matches score_colon st st' ->
  exists d, short_digits d /\ first_group (caps st') = Some d.
Proof. unfold score_colon. intros H. split_seq H. captured_digits. Qed.

(** Whichever confidence pattern matches first, its group is one to three
    digits. *)
Lemma confidence_match_digits text m :
  first_match [confidence_colon; percent_confident; score_colon] text = Some m ->
  exists d, short_digits d /\ group m 1 = Some d.
Proof.
  cbn [first_match]. unfold group.
  destruct (exec confidence_colon text) as [m1|] eqn:E1.
  { intros H. injection H as <-. apply exec_sound in E1 as (st & st' & Hm & ->).
    now apply confidence_colon_digits in Hm. }
  destruct (exec percent_confident text) as [m2|] eqn:E2.
  { intros H. injection H as <-. apply exec_sound in E2 as (st & st' & Hm & ->).
    now apply percent_confident_digits in Hm. }
  destruct (exec score_colon text) as [m3|] eqn:E3; [|discriminate].
  intros H. injection H as <-. apply exec_sound in E3 as (st & st' & Hm & ->).
  now apply score_colon_digits in Hm.
Qed.

Lemma digit_value_range c : is_digit c = true -> 0 <= digit_value c <= 9.
Proof.
  destruct c as [[] [] [] [] [] [] [] []]; intros H; try discriminate H; vm_compute; split; discriminate.
Qed.

Lemma decimal_fold_nonneg d : forall a,
  0 <= a -> all_chars is_digit d = true ->
  0 <= fold_left (fun acc c => 10 * acc + digit_value c) (list_ascii_of_string d) a.
Proof.
  induction d as [|c d IH]; intros a Ha Hd; simpl in *; [exact Ha|].
  apply andb_true_iff in Hd as [Hc Hd]. apply IH; [|exact Hd].
  pose proof (digit_value_range c Hc). lia.
Qed.

Lemma decimal_value_nonneg d : all_chars is_digit d = true -> 0 <= decimal_value d.
Proof. apply decimal_fold_nonneg. lia. Qed.

Lemma decimal_fold_lt d : forall a,
  0 <= a -> all_chars is_digit d = true ->
  fold_left (fun acc c => 10 * acc + digit_value c) (list_ascii_of_string d) a
  < (a + 1) * 10 ^ Z.of_nat (String.length d).
Proof.
  induction d as [|c d IH]; intros a Ha Hd; [cbn; lia|].
  cbn [all_chars] in Hd. apply andb_true_iff in Hd as [Hc Hd].
  cbn [list_ascii_of_string fold_left String.length].
  pose proof (digit_value_range c Hc) as Hr.
  specialize (IH (10 * a + digit_value c) ltac:(lia) Hd).
  rewrite Nat2Z.inj_succ, Z.pow_succ_r by lia.
  assert (0 < 10 ^ Z.of_nat (String.length d)) by (apply Z.pow_pos_nonneg; lia). nia.
Qed.

(** A string of [n] digits denotes a number below 10^n. *)
Lemma decimal_value_lt d :
  all_chars is_digit d = true -> decimal_value d < 10 ^ Z.of_nat (String.length d).
Proof.
  intros Hd. pose proof (decimal_fold_lt d 0 ltac:(lia) Hd) as H. unfold decimal_value. lia.
Qed.

(** Up to fifteen digits are parsed exactly. *)
Lemma parseInt_exact d :
  all_chars is_digit d = true -> (1 <= String.length d <= 15)%nat ->
  parseInt d = Num (decimal_value d).
Proof.
  intros Hd Hlen. rewrite (parseInt_digits d Hd).
  destruct d as [|x d]; [simpl in Hlen; lia|]. cbn [nonempty].
  apply number_of_Z_small. pose proof (decimal_value_nonneg _ Hd) as H0.
  pose proof (decimal_value_lt _ Hd) as H1.
  assert (10 ^ Z.of_nat (String.length (String x d)) <= 10 ^ 15)
    by (apply Z.pow_le_mono_r; lia).
  split; [exact H0|]. apply Z.lt_le_trans with (10 ^ 15); [lia|]. vm_compute. discriminate.
Qed.

(** The confidence of a parsed response is a number between 0 and 100. *)
Lemma parsed_confidence text startTime clock :
  exists c,
    AuthenticationResult.confidence (fst (parseAuthenticationResponse text startTime clock))
      = Num c /\ 0 <= c <= 100 /\
    c = match first_match [confidence_colon; percent_confident; score_colon] text with
        | Some m => Z.min 100 (decimal_value (default "" (group m 1)))
        | None => 50
        end.
Proof.
  unfold parseAuthenticationResponse. cbn [fst AuthenticationResult.confidence].
  destruct (first_match _ text) as [m|] eqn:E.
  - destruct (confidence_match_digits text m E) as (d & [Hd Hlen] & Hg).
    unfold parseInt_group. rewrite Hg.
    change (default "undefined" (Some d)) with d. change (default "" (Some d)) with d.
    rewrite (parseInt_exact d Hd) by lia. cbn [Math_min].
    pose proof (decimal_value_nonneg _ Hd).
    eexists. split; [reflexivity|]. split; [lia|reflexivity].
  - exists 50. split; [reflexivity|]. split; [lia|reflexivity].
Qed.

(** C2.  Confidence invariant of the parser.  For every text, start time and
    clock the parsed confidence is a number between 0 and 100: 50 when no
    confidence pattern matches, else the captured digits capped at 100.  The
    confidence level is the threshold function of that number: very_high
    from 90, high from 75, moderate from 55, low from 35, uncertain below. *)
Theorem parse_confidence_invariant (text : string) (startTime : Z) (clock : Clock) :
  let r := fst (parseAuthenticationResponse text startTime clock) in
  exists c,
    AuthenticationResult.confidence r = Num c /\
    0 <= c <= 100 /\
    c = match first_match [confidence_colon; percent_confident; score_colon] text with
        | Some m => Z.min 100 (decimal_value (default "" (group m 1)))
        | None => 50
        end /\
    (AuthenticationResult.confidenceLevel r = very_high <-> 90 <= c) /\
    (AuthenticationResult.confidenceLevel r = high <-> 75 <= c < 90) /\
    (AuthenticationResult.confidenceLevel r = moderate <-> 55 <= c < 75) /\
    (AuthenticationResult.confidenceLevel r = low <-> 35 <= c < 55) /\
    (AuthenticationResult.confidenceLevel r = uncertain <-> c < 35).
Proof.
  intros r. destruct (parsed_confidence text startTime clock) as (c & Hc & Hr & Hm).
  exists c. fold r in Hc. split; [exact Hc|]. split; [exact Hr|]. split; [exact Hm|].
  assert (Hl : AuthenticationResult.confidenceLevel r = getConfidenceLevel (Num c)).
  { rewrite <- Hc. subst r. unfold parseAuthenticationResponse. reflexivity. }
  rewrite Hl. unfold getConfidenceLevel, num_ge.
  destruct (90 <=? c) eqn:E1; [apply Z.leb_le in E1|apply Z.leb_gt in E1].
  { repeat split; intros; try lia; try discriminate. }
  destruct (75 <=? c) eqn:E2; [apply Z.leb_le in E2|apply Z.leb_gt in E2].
  { repeat split; intros; try lia; try discriminate. }
  destruct (55 <=? c) eqn:E3; [apply Z.leb_le in E3|apply Z.leb_gt in E3].
  { repeat split; intros; try lia; try discriminate. }
  destruct (35 <=? c) eqn:E4; [apply Z.leb_le in E4|apply Z.leb_gt in E4].
  { repeat split; intros; try lia; try discriminate. }
  repeat split; intros; try lia; try discriminate.
Qed.

Example parse_confidence_150 :
  AuthenticationResult.confidence
    (fst (parseAuthenticationResponse "Confidence: 150%" 0 (fun _ => 0))) = Num 100 /\
  AuthenticationResult.confidenceLevel
    (fst (parseAuthenticationResponse "Confidence: 150%" 0 (fun _ => 0))) = very_high.
Proof. split; vm_compute; reflexivity. Qed.

Lemma parse_confidence_invariant_witness :
  exists c,
    AuthenticationResult.confidence
      (fst (parseAuthenticationResponse "I am 65% confident it is genuine." 0 (fun _ => 0)))
    = Num c /\ 0 <= c <= 100.
Proof.
  destruct (parse_confidence_invariant "I am 65% confident it is genuine." 0 (fun _ => 0))
    as (c & Hc & Hr & _).
  exists c. split; [exact Hc|exact Hr].
Defined.

(** ** Orchestrator *)

Lemma bind_inv {A B} (m : M A) (f : A -> M B) w o w' :
  bind m f w = (o, w') ->
  (exists a w1, m w = (Ok a, w1) /\ f a w1 = (o, w')) \/
  (exists e, m w = (Throw e, w') /\ o = Throw e).
Proof.
  unfold bind. destruct (m w) as [[a|e] w1]; intros H.
  - left. eauto.
  - right. injection H as <- <-. eauto.
Qed.

Lemma bind_Ok {A B} (m : M A) (f : A -> M B) w b w' :
  bind m f w = (Ok b, w') -> exists a w1, m w = (Ok a, w1) /\ f a w1 = (Ok b, w').
Proof.
  intros H. apply bind_inv in H as [H|(e & _ & H)]; [exact H|discriminate].
Qed.

Lemma bind_assoc {A B C} (m : M A) (f : A -> M B) (g : B -> M C) w :
  bind (bind m f) g w = bind m (fun a => bind (f a) g) w.
Proof. unfold bind. destruct (m w) as [[a|e] w1]; reflexivity. Qed.

Lemma bind_ext {A B} (m : M A) (f g : A -> M B) w :
  (forall a w1, f a w1 = g a w1) -> bind m f w = bind m g w.
Proof. intros H. unfold bind. destruct (m w) as [[a|e] w1]; auto. Qed.

(** The loop, one round at a time. *)
Lemma toolLoop_S fuel chat result c w :
  toolLoop (S fuel) chat result c w =
  match Response.functionCalls result with
  | Throw e => (Throw e, w)
  | Ok None => (Ok result, w)
  | Ok (Some calls) =>
      if c <? maxToolCalls
      then bind (round chat calls (c + 1)) (fun r => toolLoop fuel chat r (c + 1)) w
      else (Ok result, w)
  end.
Proof.
  cbn [toolLoop]. unfold lift at 1. unfold bind at 1.
  destruct (Response.functionCalls result) as [[calls|]|e]; try reflexivity.
  destruct (c <? maxToolCalls); [|reflexivity].
  unfold round. rewrite !bind_assoc. apply bind_ext. intros _ w1.
  rewrite !bind_assoc. apply bind_ext. intros settled w2.
  rewrite !bind_assoc. reflexivity.
Qed.

Lemma toolLoop_O chat result c w :
  toolLoop O chat result c w =
  match Response.functionCalls result with
  | Throw e => (Throw e, w)
  | _ => (Ok result, w)
  end.
Proof.
  cbn [toolLoop]. unfold lift at 1. unfold bind at 1.
  destruct (Response.functionCalls result) as [[calls|]|e]; try reflexivity.
  destruct (c <? maxToolCalls); reflexivity.
Qed.

(** Enough fuel: beyond [maxToolCalls - toolCallCount] more makes no
    difference. *)
Lemma toolLoop_fuel chat : forall fuel1 fuel2 result c w,
  maxToolCalls - c <= Z.of_nat fuel1 -> maxToolCalls - c <= Z.of_nat fuel2 ->
  toolLoop fuel1 chat result c w = toolLoop fuel2 chat result c w.
Proof.
  induction fuel1 as [|f1 IH]; intros fuel2 result c w H1 H2.
  - assert (Hc : (c <? maxToolCalls) = false) by (apply Z.ltb_ge; simpl in H1; lia).
    destruct fuel2 as [|f2]; [reflexivity|].
    rewrite toolLoop_O, toolLoop_S, Hc.
    destruct (Response.functionCalls result) as [[calls|]|e]; reflexivity.
  - destruct fuel2 as [|f2].
    + assert (Hc : (c <? maxToolCalls) = false) by (apply Z.ltb_ge; simpl in H2; lia).
      rewrite toolLoop_O, toolLoop_S, Hc.
      destruct (Response.functionCalls result) as [[calls|]|e]; reflexivity.
    + rewrite !toolLoop_S.
      destruct (Response.functionCalls result) as [[calls|]|e]; try reflexivity.
      destruct (c <? maxToolCalls); [|reflexivity].
      apply bind_ext. intros r w1. apply IH; lia.
Qed.

Lemma appends_refl w : appends w w [] [].
Proof. unfold appends. now rewrite !app_nil_r. Qed.

Lemma appends_trans w1 w2 w3 e1 e2 m1 m2 :
  appends w1 w2 e1 m1 -> appends w2 w3 e2 m2 ->
  appends w1 w3 (e1 ++ e2)%list (m1 ++ m2)%list.
Proof.
  intros [H1 H2] [H3 H4]. unfold appends. rewrite H3, H4, H1, H2, <- !app_assoc. auto.
Qed.

Lemma onProgress_appends p w o w' :
  onProgress p w = (o, w') -> o = Ok tt /\ appends w w' [p] [].
Proof.
  unfold onProgress. intros H. injection H as <- <-. split; [reflexivity|].
  unfold appends. simpl. now rewrite app_nil_r.
Qed.

Lemma rounds_appends w w' events messages :
  appends w w' events messages ->
  rounds w' = (rounds w + length (List.filter round_started events))%nat /\
  tool_turns w' = (tool_turns w + length (List.filter tool_turn messages))%nat /\
  length (World.sent w') = (length (World.sent w) + length messages)%nat.
Proof.
  intros [H1 H2]. unfold rounds, tool_turns.
  rewrite H1, H2, !List.filter_app, !List.length_app. auto.
Qed.

Lemma runCall_effect call w :
  exists o w',
    runCall call w = (Ok o, w') /\ settled_response o /\
    appends w w' (call_events [o]) [] /\
    o = match fst (executeToolCall (FunctionCall.name call) (FunctionCall.args call)
                     (World.rng w)) with
        | Ok v => Ok (FunctionResponse (FunctionCall.name call) v)
        | Throw e => Throw e
        end.
Proof.
  unfold runCall, bind, withRng.
  destruct (executeToolCall _ _ (World.rng w)) as [[v|e] rng'] eqn:E; simpl.
  - eexists _, _. split; [reflexivity|]. split; [reflexivity|].
    split; [|reflexivity]. unfold appends. simpl. now rewrite app_nil_r.
  - eexists _, _. split; [reflexivity|]. split; [exact I|].
    split; [|reflexivity]. unfold appends. simpl. now rewrite !app_nil_r.
Qed.

Lemma runCalls_effect calls : forall w,
  exists settled w',
    runCalls calls w = (Ok settled, w') /\
    Forall settled_response settled /\
    appends w w' (call_events settled) [].
Proof.
  induction calls as [|call calls IH]; intros w.
  - exists [], w. split; [reflexivity|]. split; [constructor|apply appends_refl].
  - cbn [runCalls]. destruct (runCall_effect call w) as (o & w1 & H1 & Hr1 & Ha1 & _).
    destruct (IH w1) as (settled & w2 & H2 & Hr2 & Ha2).
    exists (o :: settled), w2. unfold bind. rewrite H1, H2. split; [reflexivity|].
    split; [now constructor|].
    pose proof (appends_trans _ _ _ _ _ _ _ Ha1 Ha2) as Ha. simpl in Ha.
    rewrite app_nil_r in Ha. exact Ha.
Qed.

Lemma runCalls_succeed calls : forall w,
  Forall call_succeeds calls ->
  exists settled w' parts,
    runCalls calls w = (Ok settled, w') /\ all_settled settled = Ok parts.
Proof.
  induction calls as [|call calls IH]; intros w Hs.
  - exists [], w, []. split; reflexivity.
  - inversion Hs as [|c cs Hc Hcs]; subst.
    cbn [runCalls]. destruct (runCall_effect call w) as (o & w1 & H1 & _ & _ & Ho).
    destruct (Hc (World.rng w)) as [v Hv]. rewrite Hv in Ho. subst o.
    destruct (IH w1 Hcs) as (settled & w2 & parts & H2 & Hp).
    eexists _, w2, _. unfold bind. rewrite H1, H2. split; [reflexivity|].
    cbn [all_settled]. rewrite Hp. reflexivity.
Qed.

Lemma all_settled_parts settled parts :
  all_settled settled = Ok parts ->
  Forall settled_response settled ->
  tool_turn parts = true /\
  forall name v, In (completed name v) (call_events settled) ->
                 In (FunctionResponse name v) parts.
Proof.
  revert parts. induction settled as [|o settled IH]; intros parts H Hr.
  - injection H as <-. split; [reflexivity|]. intros ? ? [].
  - inversion Hr as [|x xs Ho Hrest]; subst. cbn [all_settled] in H.
    destruct o as [p|e]; [|discriminate].
    destruct (all_settled settled) as [parts'|] eqn:E; [|discriminate].
    injection H as <-. destruct (IH parts' eq_refl Hrest) as [Ht Hin].
    simpl in Ho. split; [simpl; now rewrite Ho, Ht|].
    intros name v Hc. cbn [call_events flat_map] in Hc. apply in_app_or in Hc as [Hc|Hc].
    + destruct p as [t|d m|name' v']; [destruct Hc|destruct Hc|].
      destruct Hc as [Hc|[]].
      unfold completed, progress_event in Hc. injection Hc as _ -> ->. now left.
    + right. now apply Hin.
Qed.

Lemma call_events_not_rounds settled :
  List.filter round_started (call_events settled) = [].
Proof.
  induction settled as [|o settled IH]; [reflexivity|].
  cbn [call_events flat_map]. rewrite List.filter_app. fold (call_events settled).
  rewrite IH, app_nil_r. destruct o as [[| |name v]|e]; reflexivity.
Qed.

(** The effect of one round, whether or not it goes through. *)
Lemma round_effect chat calls c w o w' :
  round chat calls c w = (o, w') ->
  exists events messages,
    appends w w' events messages /\
    length (List.filter round_started events) = 1%nat /\
    (length (List.filter tool_turn messages) <= 1)%nat /\
    (forall r, o = Ok r ->
       chat (World.sent w') = Ok r /\
       exists parts, messages = [parts] /\ tool_turn parts = true /\
         forall name v, In (completed name v) events -> In (FunctionResponse name v) parts).
Proof.
  unfold round. intros H.
  apply bind_inv in H as [(u & w1 & H1 & H)|(e & H1 & _)]; [|discriminate H1].
  apply onProgress_appends in H1 as [_ Ha1].
  destruct (runCalls_effect calls w1) as (settled & w2 & H2 & Hr & Ha2).
  pose proof (appends_trans _ _ _ _ _ _ _ Ha1 Ha2) as [Hp Hs].
  simpl in Hs. rewrite app_nil_r in Hs.
  unfold bind at 1 in H. rewrite H2 in H.
  unfold bind, lift in H.
  assert (Hone : length (List.filter round_started
            ([progress_event tool_calling
                ("Executing forensic tools (" ++ show c ++ "/"
                   ++ show (Z.of_nat (length calls)) ++ ")...") 3
                (FunctionCall.name <$> head calls) None] ++ call_events settled)%list)
          = 1%nat).
  { rewrite List.filter_app, call_events_not_rounds. reflexivity. }
  destruct (all_settled settled) as [parts|e] eqn:Es.
  - unfold sendMessage in H. injection H as <- <-.
    eexists _, [parts]. split; [split; simpl; [exact Hp|now rewrite Hs]|].
    destruct (all_settled_parts _ _ Es Hr) as [Ht Hin].
    split; [exact Hone|]. split; [simpl; rewrite Ht; simpl; lia|].
    intros r Hr'. split.
    + simpl. exact Hr'.
    + exists parts. split; [reflexivity|]. split; [exact Ht|].
      intros name v [Hc|Hc]; [discriminate Hc|now apply Hin].
  - injection H as <- <-. eexists _, []. split; [split; [exact Hp|now rewrite app_nil_r]|].
    split; [exact Hone|]. split; [simpl; lia|]. intros r Hr'. discriminate Hr'.
Qed.

(** The loop never opens more rounds than the ceiling leaves. *)
Lemma toolLoop_bound chat : forall fuel result c w o w',
  toolLoop fuel chat result c w = (o, w') ->
  (rounds w' <= rounds w + Z.to_nat (maxToolCalls - c))%nat /\
  (tool_turns w' <= tool_turns w + Z.to_nat (maxToolCalls - c))%nat.
Proof.
  induction fuel as [|fuel IH]; intros result c w o w' H.
  - rewrite toolLoop_O in H.
    destruct (Response.functionCalls result) as [[calls|]|e]; injection H as _ <-; lia.
  - rewrite toolLoop_S in H.
    destruct (Response.functionCalls result) as [[calls|]|e];
      try (injection H as _ <-; lia).
    destruct (c <? maxToolCalls) eqn:Hc; [|injection H as _ <-; lia].
    apply Z.ltb_lt in Hc. unfold maxToolCalls in *.
    apply bind_inv in H as [(r & w1 & Hround & Hloop)|(e & Hround & _)].
    + apply round_effect in Hround as (events & messages & Ha & He & Hm & _).
      apply rounds_appends in Ha as (Hr & Ht & _).
      apply IH in Hloop as [Hr' Ht']. unfold maxToolCalls in *. lia.
    + apply round_effect in Hround as (events & messages & Ha & He & Hm & _).
      apply rounds_appends in Ha as (Hr & Ht & _). lia.
Qed.

Lemma fed_back_appends w w' events messages :
  appends w w' events messages ->
  fed_back w ->
  (forall name v, In (completed name v) events ->
     exists message, In message messages /\ In (FunctionResponse name v) message) ->
  fed_back w'.
Proof.
  intros [Hp Hs] Hw He name v Hin. rewrite Hp in Hin. rewrite Hs.
  apply in_app_or in Hin as [Hin|Hin].
  - destruct (Hw name v Hin) as (m & Hm & Hr). exists m. split; [|exact Hr].
    apply in_or_app. now left.
  - destruct (He name v Hin) as (m & Hm & Hr). exists m. split; [|exact Hr].
    apply in_or_app. now right.
Qed.

(** A loop that returns gives the model's reply to the last message sent. *)
Lemma toolLoop_reply chat : forall fuel result c w r w',
  toolLoop fuel chat result c w = (Ok r, w') ->
  chat (World.sent w) = Ok result ->
  chat (World.sent w') = Ok r.
Proof.
  induction fuel as [|fuel IH]; intros result c w r w' H Hlast.
  - rewrite toolLoop_O in H.
    destruct (Response.functionCalls result) as [[calls|]|e];
      try discriminate H; injection H as <- <-; auto.
  - rewrite toolLoop_S in H.
    destruct (Response.functionCalls result) as [[calls|]|e];
      try discriminate H; try (injection H as <- <-; auto).
    destruct (c <? maxToolCalls); [|injection H as <- <-; auto].
    apply bind_Ok in H as (r1 & w1 & Hround & Hloop).
    apply round_effect in Hround as (events & messages & Ha & _ & _ & Hok).
    destruct (Hok r1 eq_refl) as (Hlast1 & _).
    apply (IH _ _ _ _ _ Hloop Hlast1).
Qed.

(** When the loop returns, every tool result reported has gone back to the
    model. *)
Lemma toolLoop_fed_back chat : forall fuel result c w r w',
  toolLoop fuel chat result c w = (Ok r, w') -> fed_back w -> fed_back w'.
Proof.
  induction fuel as [|fuel IH]; intros result c w r w' H Hfed.
  - rewrite toolLoop_O in H.
    destruct (Response.functionCalls result) as [[calls|]|e];
      try discriminate H; injection H as <- <-; auto.
  - rewrite toolLoop_S in H.
    destruct (Response.functionCalls result) as [[calls|]|e];
      try discriminate H; try (injection H as <- <-; auto).
    destruct (c <? maxToolCalls); [|injection H as <- <-; auto].
    apply bind_Ok in H as (r1 & w1 & Hround & Hloop).
    apply round_effect in Hround as (events & messages & Ha & _ & _ & Hok).
    destruct (Hok r1 eq_refl) as (_ & parts & -> & _ & Hin).
    apply (IH _ _ _ _ _ Hloop).
    apply (fed_back_appends _ _ _ _ Ha Hfed).
    intros name v Hc. exists parts. split; [now left|now apply Hin].
Qed.

(** Against a model that always asks for tools, the loop runs every round
    the ceiling leaves and then returns. *)
Lemma toolLoop_full chat : always_requests_tools chat ->
  forall fuel result c w,
    chat (World.sent w) = Ok result ->
    0 <= c -> Z.of_nat fuel = maxToolCalls - c ->
    exists r w',
      toolLoop fuel chat result c w = (Ok r, w') /\
      chat (World.sent w') = Ok r /\
      rounds w' = (rounds w + fuel)%nat /\
      tool_turns w' = (tool_turns w + fuel)%nat /\
      length (World.sent w') = (length (World.sent w) + fuel)%nat.
Proof.
  intros Hreq. induction fuel as [|fuel IH]; intros result c w Hlast Hc Hfuel.
  - exists result, w. rewrite toolLoop_O.
    destruct (Hreq (World.sent w)) as (calls & text & Hreply & _).
    rewrite Hreply in Hlast. injection Hlast as <-. simpl.
    repeat split; auto.
  - rewrite toolLoop_S.
    destruct (Hreq (World.sent w)) as (calls & text & Hreply & Hcalls).
    rewrite Hreply in Hlast. injection Hlast as <-. cbn [Response.functionCalls].
    assert (Hlt : (c <? maxToolCalls) = true) by (apply Z.ltb_lt; lia).
    rewrite Hlt.
    destruct (round chat calls (c + 1) w) as [o w1] eqn:Hround.
    assert (Hok : exists r1, o = Ok r1).
    { unfold round in Hround.
      apply bind_inv in Hround as [(u & w0 & H0 & Hround)|(e & H0 & _)]; [|discriminate H0].
      destruct (runCalls_succeed calls w0 Hcalls) as (settled & w2 & parts & Hrun & Hsettled).
      unfold bind at 1 in Hround. rewrite Hrun in Hround.
      unfold bind, lift in Hround. rewrite Hsettled in Hround.
      unfold sendMessage in Hround. injection Hround as <- _.
      match goal with
      | |- exists r1, chat ?h = Ok r1 =>
          destruct (Hreq h) as (calls' & text' & E & _); rewrite E; eauto
      end. }
    destruct Hok as [r1 ->].
    pose proof (round_effect _ _ _ _ _ _ Hround) as (events & messages & Ha & He & _ & Hr).
    destruct (Hr r1 eq_refl) as (Hlast1 & parts & -> & Ht & _).
    apply rounds_appends in Ha as (Hrounds & Hturns & Hlen).
    destruct (IH r1 (c + 1) w1 Hlast1) as (r & w' & Hloop & Hlast' & Hr' & Ht' & Hl');
      [lia|lia|].
    exists r, w'. unfold bind. rewrite Hround, Hloop. split; [reflexivity|].
    split; [exact Hlast'|]. simpl in Hturns, Hlen. rewrite Ht in Hturns. simpl in Hturns.
    lia.
Qed.

Lemma sendMessage_effect chat message w o w' :
  sendMessage chat message w = (o, w') ->
  appends w w' [] [message] /\ o = chat (World.sent w').
Proof.
  unfold sendMessage. intros H. injection H as <- <-. split; [|reflexivity].
  unfold appends. simpl. now rewrite app_nil_r.
Qed.

Lemma parse_effect text startTime w o w' :
  parse text startTime w = (o, w') ->
  o = Ok (fst (parseAuthenticationResponse text startTime (World.clock w))) /\
  appends w w' [] [].
Proof.
  unfold parse. destruct (parseAuthenticationResponse _ _ _) as [r clock'].
  intros H. injection H as <- <-. split; [reflexivity|].
  unfold appends. simpl. now rewrite !app_nil_r.
Qed.

Lemma now_effect w o w' : now w = (o, w') -> appends w w' [] [].
Proof.
  unfold now. simpl. intros H. injection H as _ <-.
  unfold appends. simpl. now rewrite !app_nil_r.
Qed.

Lemma Ok_inj {A} (a b : A) : Ok a = Ok b -> a = b.
Proof. congruence. Qed.

Lemma lift_effect {A} (x : outcome A) w o w' : lift x w = (o, w') -> o = x /\ w' = w.
Proof. unfold lift. intros H. injection H as <- <-. auto. Qed.

Lemma fed_back_quiet w w' p messages :
  appends w w' [p] messages -> ScanProgress.toolResult p = None -> fed_back w -> fed_back w'.
Proof.
  intros Ha Hp Hw. apply (fed_back_appends _ _ _ _ Ha Hw).
  intros name v [E|[]]. rewrite E in Hp. discriminate Hp.
Qed.

Lemma fed_back_silent w w' messages :
  appends w w' [] messages -> fed_back w -> fed_back w'.
Proof. intros Ha Hw. apply (fed_back_appends _ _ _ _ Ha Hw). intros name v []. Qed.

Tactic Notation "event" hyp(H) "as" ident(w) ident(Hp) :=
  let u := fresh "u" in
  apply bind_inv in H as [(u & w & Hp & H)|(? & Hp & _)];
  [apply onProgress_appends in Hp as [_ Hp]|discriminate Hp].

(** A synthesis that returns has parsed the model's reply to the last message
    of the conversation. *)
Lemma analyse_Ok hosted mergedConfig imageData startTime w chat initial w' :
  analyse hosted mergedConfig imageData startTime w = (Ok (chat, initial), w') ->
  exists key reply text clock,
    createClient mergedConfig = Ok key /\
    chat = hosted key (GeminiConfig.model mergedConfig) /\
    chat (World.sent w') = Ok reply /\
    Response.text reply = Ok text /\
    initial = fst (parseAuthenticationResponse text startTime clock) /\
    (fed_back w -> fed_back w').
Proof.
  unfold analyse. intros H. event H as w1 Hp1.
  apply bind_Ok in H as (key & w2 & Hkey & H). apply lift_effect in Hkey as [Hkey ->].
  event H as w2 Hp2.
  apply bind_Ok in H as (result & w3 & Hsend & H).
  apply sendMessage_effect in Hsend as [Ha3 Hlast].
  apply bind_Ok in H as (result' & w4 & Hloop & H).
  event H as w5 Hp5.
  apply bind_Ok in H as (text & w6 & Htext & H). apply lift_effect in Htext as [Htext ->].
  apply bind_Ok in H as (a & w7 & Hparse & H).
  apply parse_effect in Hparse as [Ha Ha7].
  unfold ret in H. injection H as <- <- <-. injection Ha as ->.
  exists key, result', text, (World.clock w5).
  split; [symmetry; exact Hkey|]. split; [reflexivity|].
  split.
  { destruct Ha7 as [_ Hs7]. destruct Hp5 as [_ Hs5]. rewrite Hs7, Hs5, !app_nil_r.
    apply (toolLoop_reply _ _ _ _ _ _ _ Hloop (eq_sym Hlast)). }
  split; [symmetry; exact Htext|]. split; [reflexivity|].
  intros Hw. eapply fed_back_silent; [exact Ha7|].
  eapply fed_back_quiet; [exact Hp5|reflexivity|].
  eapply toolLoop_fed_back; [exact Hloop|].
  eapply fed_back_silent; [exact Ha3|].
  eapply fed_back_quiet; [exact Hp2|reflexivity|].
  eapply fed_back_quiet; [exact Hp1|reflexivity|exact Hw].
Qed.

Ltac count H :=
  let R := fresh "R" in let T := fresh "T" in let L := fresh "L" in
  apply rounds_appends in H as (R & T & L); simpl in R, T, L.

(** Synthesis opens at most eight rounds, however it ends. *)
Lemma analyse_bound hosted mergedConfig imageData startTime w o w' :
  analyse hosted mergedConfig imageData startTime w = (o, w') ->
  (rounds w' <= rounds w + 8)%nat /\ (tool_turns w' <= tool_turns w + 8)%nat.
Proof.
  unfold analyse. intros H. event H as w1 Hp1. count Hp1.
  apply bind_inv in H as [(key & w2 & Hkey & H)|(e & Hkey & _)];
    apply lift_effect in Hkey as [_ ->]; [|lia].
  event H as w2 Hp2. count Hp2.
  apply bind_inv in H as [(result & w3 & Hsend & H)|(e & Hsend & _)];
    apply sendMessage_effect in Hsend as [Ha3 _]; count Ha3; [|lia].
  apply bind_inv in H as [(result' & w4 & Hloop & H)|(e & Hloop & _)];
    apply toolLoop_bound in Hloop as [R4 T4];
    change (Z.to_nat (maxToolCalls - 0)) with 8%nat in R4, T4; [|lia].
  event H as w5 Hp5. count Hp5.
  apply bind_inv in H as [(text & w6 & Htext & H)|(e & Htext & _)];
    apply lift_effect in Htext as [_ ->]; [|lia].
  apply bind_inv in H as [(a & w7 & Hparse & H)|(e & Hparse & _)];
    apply parse_effect in Hparse as [_ Ha7]; count Ha7; [|lia].
  unfold ret in H. injection H as _ <-. lia.
Qed.

(** Self-correction opens no round, however it ends. *)
Lemma selfCorrect_bound chat mergedConfig startTime authResult w o w' :
  selfCorrect chat mergedConfig startTime authResult w = (o, w') ->
  rounds w' = rounds w /\ tool_turns w' = tool_turns w.
Proof.
  unfold selfCorrect. intros H.
  assert (Hfinish : forall w o w',
    bind (onProgress (progress_event complete
            ("Authentication complete: "
               ++ show_number (AuthenticationResult.confidence authResult)
               ++ "% confidence") 6 None None)) (fun _ => ret authResult) w = (o, w') ->
    rounds w' = rounds w /\ tool_turns w' = tool_turns w).
  { clear. intros w o w' H. event H as w1 Hp1. count Hp1.
    unfold ret in H. injection H as _ <-. lia. }
  destruct (below_threshold _ _); [|exact (Hfinish _ _ _ H)].
  event H as w1 Hp1. count Hp1.
  apply bind_inv in H as [(reply & w2 & Hsend & H)|(e & Hsend & _)];
    apply sendMessage_effect in Hsend as [Ha2 _]; count Ha2; [|lia].
  apply bind_inv in H as [(text & w3 & Htext & H)|(e & Htext & _)];
    apply lift_effect in Htext as [_ ->]; [|lia].
  apply bind_inv in H as [(corrected & w4 & Hparse & H)|(e & Hparse & _)];
    apply parse_effect in Hparse as [_ Ha4]; count Ha4; [|lia].
  destruct (num_gt _ _).
  - event H as w5 Hp5. count Hp5. unfold ret in H. injection H as _ <-. lia.
  - apply Hfinish in H. lia.
Qed.

(** What a self-correction that returns has done. *)
Lemma selfCorrect_Ok chat mergedConfig startTime authResult w r w' :
  selfCorrect chat mergedConfig startTime authResult w = (Ok r, w') ->
  (fed_back w -> fed_back w') /\
  if below_threshold (AuthenticationResult.confidence authResult)
                     (GeminiConfig.selfCorrectionThreshold mergedConfig)
  then exists w1 reply correctedText w2 corrected w3,
         sendMessage chat
           [Text (correctionPrompt (AuthenticationResult.confidence authResult))] w1
           = (Ok reply, w2) /\
         Response.text reply = Ok correctedText /\
         parse correctedText startTime w2 = (Ok corrected, w3) /\
         r = (if num_gt (AuthenticationResult.confidence corrected)
                        (AuthenticationResult.confidence authResult)
              then corrected else authResult)
  else r = authResult.
Proof.
  unfold selfCorrect. intros H.
  assert (Hfinish : forall w r w',
    bind (onProgress (progress_event complete
            ("Authentication complete: "
               ++ show_number (AuthenticationResult.confidence authResult)
               ++ "% confidence") 6 None None)) (fun _ => ret authResult) w = (Ok r, w') ->
    (fed_back w -> fed_back w') /\ r = authResult).
  { clear. intros w r w' H. event H as w1 Hp1.
    unfold ret in H. injection H as <- <-. split; [|reflexivity].
    intros Hw. eapply fed_back_quiet; [exact Hp1|reflexivity|exact Hw]. }
  destruct (below_threshold _ _); [|exact (Hfinish _ _ _ H)].
  event H as w1 Hp1.
  apply bind_Ok in H as (reply & w2 & Hsend & H).
  pose proof (sendMessage_effect _ _ _ _ _ Hsend) as [Ha2 _].
  apply bind_Ok in H as (text & w3 & Htext & H). apply lift_effect in Htext as [Htext ->].
  apply bind_Ok in H as (corrected & w4 & Hparse & H).
  pose proof (parse_effect _ _ _ _ _ Hparse) as [_ Ha4].
  assert (Hfed4 : fed_back w -> fed_back w4).
  { intros Hw. eapply fed_back_silent; [exact Ha4|].
    eapply fed_back_silent; [exact Ha2|].
    eapply fed_back_quiet; [exact Hp1|reflexivity|exact Hw]. }
  destruct (num_gt _ _) eqn:Hgt.
  - event H as w5 Hp5. unfold ret in H. injection H as <- <-. split.
    + intros Hw. eapply fed_back_quiet; [exact Hp5|reflexivity|auto].
    + exists w1, reply, text, w2, corrected, w4. rewrite Hgt. auto.
  - apply Hfinish in H as [Hfed ->]. split; [auto|].
    exists w1, reply, text, w2, corrected, w4. rewrite Hgt. auto.
Qed.

Lemma authenticateItem_Ok env hosted imageData config w r w' :
  authenticateItem env hosted imageData config w = (Ok r, w') ->
  exists startTime w0 chat initial w1,
    now w = (Ok startTime, w0) /\
    analyse hosted (merge (DEFAULT_CONFIG env) config) imageData startTime w0
      = (Ok (chat, initial), w1) /\
    selfCorrect chat (merge (DEFAULT_CONFIG env) config) startTime initial w1 = (Ok r, w').
Proof.
  unfold authenticateItem. intros H.
  apply bind_Ok in H as (startTime & w0 & Hnow & H).
  apply bind_Ok in H as ([chat initial] & w1 & Han & H).
  exists startTime, w0, chat, initial, w1. auto.
Qed.

(** C1.  Self-correction monotonicity.  Whenever [authenticateItem] returns
    a result, its confidence is at least the confidence of the initial
    parse.  If the initial confidence is below the threshold, one correction
    turn is parsed and the corrected result is returned exactly when its
    confidence is strictly greater; on a tie or a lower value, and when no
    correction runs, the initial result is returned. *)
Theorem self_correction_monotone env hosted imageData config w r w' :
  authenticateItem env hosted imageData config w = (Ok r, w') ->
  let mergedConfig := merge (DEFAULT_CONFIG env) config in
  exists startTime w0 chat initial w1 ci cr,
    now w = (Ok startTime, w0) /\
    analyse hosted mergedConfig imageData startTime w0 = (Ok (chat, initial), w1) /\
    AuthenticationResult.confidence initial = Num ci /\
    AuthenticationResult.confidence r = Num cr /\
    ci <= cr /\
    if below_threshold (Num ci) (GeminiConfig.selfCorrectionThreshold mergedConfig)
    then exists w1' reply correctedText w2 corrected w3 cc,
           sendMessage chat [Text (correctionPrompt (Num ci))] w1' = (Ok reply, w2) /\
           Response.text reply = Ok correctedText /\
           parse correctedText startTime w2 = (Ok corrected, w3) /\
           AuthenticationResult.confidence corrected = Num cc /\
           r = (if ci <? cc then corrected else initial)
    else r = initial.
Proof.
  intros H mergedConfig.
  apply authenticateItem_Ok in H as (startTime & w0 & chat & initial & w1 & Hnow & Han & Hsc).
  fold mergedConfig in Han, Hsc.
  pose proof (analyse_Ok _ _ _ _ _ _ _ _ Han)
    as (key & reply0 & text0 & clock0 & _ & _ & _ & _ & Hinit & _).
  destruct (parsed_confidence text0 startTime clock0) as (ci & Hci & _ & _).
  rewrite <- Hinit in Hci.
  apply selfCorrect_Ok in Hsc as [_ Hsc]. rewrite Hci in Hsc.
  exists startTime, w0, chat, initial, w1, ci.
  destruct (below_threshold (Num ci) _).
  - destruct Hsc as (w1' & reply & text & w2 & corrected & w3 & Hsend & Htext & Hparse & Hr).
    pose proof (parse_effect _ _ _ _ _ Hparse) as [Hc _]. apply Ok_inj in Hc.
    destruct (parsed_confidence text startTime (World.clock w2)) as (cc & Hcc & _ & _).
    rewrite <- Hc in Hcc. rewrite Hcc in Hr. cbn [num_gt num_lt] in Hr.
    destruct (ci <? cc) eqn:Hlt.
    + exists cc. repeat split; auto; [now rewrite Hr|apply Z.ltb_lt in Hlt; lia|].
      exists w1', reply, text, w2, corrected, w3, cc. rewrite Hlt. auto.
    + exists ci. repeat split; auto; [now rewrite Hr|lia|].
      exists w1', reply, text, w2, corrected, w3, cc. rewrite Hlt. auto.
  - exists ci. subst r. repeat split; auto. lia.
Qed.

Lemma bind_step {A B} (m : M A) (f : A -> M B) w a w1 :
  m w = (Ok a, w1) -> bind m f w = f a w1.
Proof. intros H. unfold bind. now rewrite H. Qed.

Lemma onProgress_Ok p w : exists w1, onProgress p w = (Ok tt, w1) /\ appends w w1 [p] [].
Proof.
  destruct (onProgress p w) as [o w1] eqn:E.
  pose proof (onProgress_appends _ _ _ _ E) as [-> Ha]. eauto.
Qed.

Lemma parse_reasoning text startTime clock :
  AuthenticationResult.reasoning (fst (parseAuthenticationResponse text startTime clock)) = text.
Proof. reflexivity. Qed.

(** Against a model that always asks for tools, synthesis runs exactly eight
    rounds and then parses the reply to the last of them. *)
Lemma analyse_full hosted mergedConfig imageData startTime w key :
  createClient mergedConfig = Ok key ->
  always_requests_tools (hosted key (GeminiConfig.model mergedConfig)) ->
  exists initial w1 reply text,
    analyse hosted mergedConfig imageData startTime w
      = (Ok (hosted key (GeminiConfig.model mergedConfig), initial), w1) /\
    rounds w1 = (rounds w + 8)%nat /\
    tool_turns w1 = (tool_turns w + 8)%nat /\
    length (World.sent w1) = (length (World.sent w) + 9)%nat /\
    hosted key (GeminiConfig.model mergedConfig) (World.sent w1) = Ok reply /\
    Response.text reply = Ok text /\
    AuthenticationResult.reasoning initial = text.
Proof.
  intros Hkey Hreq. set (chat := hosted key (GeminiConfig.model mergedConfig)) in *.
  unfold analyse.
  destruct (onProgress_Ok (progress_event analyzing
              "Initializing Gemini 3 Pro forensic analysis..." 1 None None) w)
    as (w1 & E1 & Ha1).
  rewrite (bind_step _ _ _ _ _ E1).
  rewrite (bind_step (lift (createClient mergedConfig)) _ w1 key w1)
    by (unfold lift; now rewrite Hkey).
  fold chat.
  destruct (onProgress_Ok (progress_event analyzing
              "Sending image to Gemini 3 Pro (thinking level: high)..." 2 None None) w1)
    as (w2 & E2 & Ha2).
  rewrite (bind_step _ _ _ _ _ E2).
  destruct (sendMessage chat [Text buildForensicPrompt; imageToGenerativePart imageData] w2)
    as [o w3] eqn:E3.
  pose proof (sendMessage_effect _ _ _ _ _ E3) as [Ha3 Ho].
  destruct (Hreq (World.sent w3)) as (calls0 & text0 & Hreply0 & _).
  rewrite Hreply0 in Ho. subst o.
  rewrite (bind_step _ _ _ _ _ E3).
  destruct (toolLoop_full chat Hreq (Z.to_nat maxToolCalls) _ 0 w3 Hreply0)
    as (r & w4 & Hloop & Hlast & Hr4 & Ht4 & Hl4); [lia|reflexivity|].
  rewrite (bind_step _ _ _ _ _ Hloop).
  destruct (onProgress_Ok (progress_event analyzing
              "Synthesizing forensic authentication report..." 4 None None) w4)
    as (w5 & E5 & Ha5).
  rewrite (bind_step _ _ _ _ _ E5).
  assert (Hs5 : World.sent w5 = World.sent w4)
    by (destruct Ha5 as [_ ->]; apply app_nil_r).
  destruct (Hreq (World.sent w4)) as (calls & text & Hreply & _).
  rewrite Hreply in Hlast. apply Ok_inj in Hlast. subst r.
  rewrite (bind_step (lift (Ok text)) _ w5 text w5) by reflexivity.
  destruct (parse text startTime w5) as [o w6] eqn:E6.
  pose proof (parse_effect _ _ _ _ _ E6) as [-> Ha6].
  rewrite (bind_step _ _ _ _ _ E6). unfold ret.
  eexists _, w6, _, text. split; [reflexivity|].
  assert (Hs6 : World.sent w6 = World.sent w4)
    by (destruct Ha6 as [_ ->]; rewrite app_nil_r; exact Hs5).
  count Ha1. count Ha2. count Ha3. count Ha5. count Ha6.
  change (Z.to_nat maxToolCalls) with 8%nat in *.
  repeat split; try lia; try reflexivity.
  - rewrite Hs6. exact Hreply.
  - reflexivity.
Qed.

Lemma selfCorrect_total chat mergedConfig startTime authResult w :
  always_requests_tools chat ->
  exists r w', selfCorrect chat mergedConfig startTime authResult w = (Ok r, w').
Proof.
  intros Hreq. unfold selfCorrect.
  assert (Hfinish : forall w, exists r w',
    bind (onProgress (progress_event complete
            ("Authentication complete: "
               ++ show_number (AuthenticationResult.confidence authResult)
               ++ "% confidence") 6 None None)) (fun _ => ret authResult) w = (Ok r, w')).
  { clear. intros w. eexists _, _. reflexivity. }
  destruct (below_threshold _ _); [|apply Hfinish].
  destruct (onProgress_Ok (progress_event self_correcting
              ("Low confidence ("
                 ++ show_number (AuthenticationResult.confidence authResult)
                 ++ "%). Re-analyzing with enhanced scrutiny...") 5 None None) w)
    as (w1 & E1 & _).
  rewrite (bind_step _ _ _ _ _ E1).
  destruct (sendMessage chat
              [Text (correctionPrompt (AuthenticationResult.confidence authResult))] w1)
    as [o w2] eqn:E2.
  pose proof (sendMessage_effect _ _ _ _ _ E2) as [_ Ho].
  destruct (Hreq (World.sent w2)) as (calls & text & Hreply & _).
  rewrite Hreply in Ho. subst o. rewrite (bind_step _ _ _ _ _ E2).
  cbn [Response.text]. rewrite (bind_step (lift (Ok text)) _ w2 text w2) by reflexivity.
  destruct (parse text startTime w2) as [o w3] eqn:E3.
  pose proof (parse_effect _ _ _ _ _ E3) as [-> _].
  rewrite (bind_step _ _ _ _ _ E3).
  destruct (num_gt _ _); [|apply Hfinish].
  eexists _, _. reflexivity.
Qed.

(** C3.  Round ceiling.  Whatever the hosted model does, a run opens at most
    eight rounds of tool calls and sends at most eight tool-response turns.
    If the credential is present and the model asks for tools in every
    reply, the run opens exactly eight rounds, then parses the text of the
    reply to the eighth tool-response turn and returns a result, not an
    error. *)
Theorem round_ceiling env hosted imageData config rng clock :
  let mergedConfig := merge (DEFAULT_CONFIG env) config in
  let run := authenticateItem env hosted imageData config (fresh rng clock) in
  (rounds (snd run) <= 8)%nat /\
  (tool_turns (snd run) <= 8)%nat /\
  (forall key,
     createClient mergedConfig = Ok key ->
     always_requests_tools (hosted key (GeminiConfig.model mergedConfig)) ->
     rounds (snd run) = 8%nat /\
     tool_turns (snd run) = 8%nat /\
     exists r startTime w0 chat initial w1 reply text,
       fst run = Ok r /\
       now (fresh rng clock) = (Ok startTime, w0) /\
       analyse hosted mergedConfig imageData startTime w0 = (Ok (chat, initial), w1) /\
       rounds w1 = 8%nat /\
       length (World.sent w1) = 9%nat /\
       chat (World.sent w1) = Ok reply /\
       Response.text reply = Ok text /\
       AuthenticationResult.reasoning initial = text /\
       (r = initial \/
        num_gt (AuthenticationResult.confidence r) (AuthenticationResult.confidence initial)
        = true)).
Proof.
  intros mergedConfig run.
  assert (Hbound : (rounds (snd run) <= 8)%nat /\ (tool_turns (snd run) <= 8)%nat).
  { subst run. destruct (authenticateItem _ _ _ _ _) as [o w'] eqn:H. cbn [snd].
    unfold authenticateItem in H.
    apply bind_inv in H as [(startTime & w0 & Hnow & H)|(e & Hnow & _)];
      [|discriminate Hnow].
    apply now_effect in Hnow. count Hnow.
    apply bind_inv in H as [([chat initial] & w1 & Han & H)|(e & Han & _)];
      apply analyse_bound in Han as [R1 T1]; [|lia].
    apply selfCorrect_bound in H as [R2 T2]. lia. }
  split; [apply Hbound|]. split; [apply Hbound|].
  intros key Hkey Hreq.
  destruct (now (fresh rng clock)) as [o0 w0] eqn:Hnow.
  assert (Ho0 : o0 = Ok (clock O)) by (unfold now in Hnow; simpl in Hnow; congruence).
  subst o0. pose proof (now_effect _ _ _ Hnow) as Ha0. count Ha0.
  destruct (analyse_full hosted mergedConfig imageData (clock O) w0 key Hkey Hreq)
    as (initial & w1 & reply & text & Han & R1 & T1 & L1 & Hreply & Htext & Hreason).
  destruct (selfCorrect_total (hosted key (GeminiConfig.model mergedConfig)) mergedConfig
              (clock O) initial w1 Hreq) as (r & w' & Hsc).
  assert (Hrun : run = (Ok r, w')).
  { subst run. unfold authenticateItem. rewrite (bind_step _ _ _ _ _ Hnow).
    fold mergedConfig. rewrite (bind_step _ _ _ _ _ Han). exact Hsc. }
  pose proof (selfCorrect_bound _ _ _ _ _ _ _ Hsc) as [R2 T2].
  rewrite Hrun. cbn [fst snd].
  split; [lia|]. split; [lia|].
  exists r, (clock O), w0, (hosted key (GeminiConfig.model mergedConfig)), initial, w1,
         reply, text.
  repeat split; auto; try lia.
  apply selfCorrect_Ok in Hsc as [_ Hsc].
  destruct (below_threshold _ _); [|now left].
  destruct Hsc as (? & ? & ? & ? & corrected & ? & _ & _ & _ & ->).
  destruct (num_gt _ _) eqn:Hgt; [now right|now left].
Qed.

(** What a report is made of.  When a run returns a result, every tool
    result reported during the run has been sent back to the model in a
    tool-response turn.  The result itself is the parse of the text of one
    reply and of nothing else: its [rnLookup] is null, its comparable sales
    and construction details are empty and its brand-pattern score is the
    parsed confidence, whatever the tools returned. *)
Theorem report_from_final_text env hosted imageData config rng clock r w' :
  authenticateItem env hosted imageData config (fresh rng clock) = (Ok r, w') ->
  fed_back w' /\
  AuthenticationResult.rnLookup r = None /\
  MarketSearchResult.comparableSales (AuthenticationResult.marketData r) = [] /\
  DateForensicsResult.constructionDetails (AuthenticationResult.dateForensics r) = [] /\
  BrandPatternResult.authenticityScore (AuthenticationResult.brandPattern r)
    = AuthenticationResult.confidence r /\
  exists key history reply text startTime clock',
    createClient (merge (DEFAULT_CONFIG env) config) = Ok key /\
    hosted key (GeminiConfig.model (merge (DEFAULT_CONFIG env) config)) history = Ok reply /\
    Response.text reply = Ok text /\
    r = fst (parseAuthenticationResponse text startTime clock').
Proof.
  intros H.
  apply authenticateItem_Ok in H as (startTime & w0 & chat & initial & w1 & Hnow & Han & Hsc).
  apply now_effect in Hnow.
  pose proof (analyse_Ok _ _ _ _ _ _ _ _ Han)
    as (key & reply0 & text0 & clock0 & Hkey & Hchat & Hreply0 & Htext0 & Hinit & Hfed1).
  pose proof (selfCorrect_Ok _ _ _ _ _ _ _ Hsc) as [Hfed2 Hr].
  assert (Hfed : fed_back w').
  { apply Hfed2, Hfed1. eapply fed_back_silent; [exact Hnow|]. intros name v []. }
  assert (Hparsed : exists history reply text clock',
            chat history = Ok reply /\ Response.text reply = Ok text /\
            r = fst (parseAuthenticationResponse text startTime clock')).
  { destruct (below_threshold _ _).
    - destruct Hr as (w1' & reply & text & w2 & corrected & w3 & Hsend & Htext & Hparse & ->).
      destruct (num_gt _ _).
      + pose proof (sendMessage_effect _ _ _ _ _ Hsend) as [_ Ho].
        pose proof (parse_effect _ _ _ _ _ Hparse) as [Hc _]. apply Ok_inj in Hc.
        exists (World.sent w2), reply, text, (World.clock w2). auto.
      + exists (World.sent w1), reply0, text0, clock0. auto.
    - subst r. exists (World.sent w1), reply0, text0, clock0. auto. }
  destruct Hparsed as (history & reply & text & clock' & Hh & Ht & ->).
  split; [exact Hfed|]. repeat split.
  exists key, history, reply, text, startTime, clock'. subst chat. auto.
Qed.

(** ** Sample runs and the tool router *)

Lemma run_pair {A} (x : outcome A * World.t) : x = (fst x, snd x).
Proof. now destruct x. Qed.

Lemma self_correction_monotone_witness :
  exists r ci cr,
    fst (authenticateItem sample_env hesitant "AAAA" no_overrides
           (fresh sample_rng sample_clock)) = Ok r /\
    AuthenticationResult.confidence r = Num cr /\ ci <= cr /\ cr = 85.
Proof.
  pose proof (run_pair (authenticateItem sample_env hesitant "AAAA" no_overrides
                          (fresh sample_rng sample_clock))) as E.
  destruct (fst (authenticateItem sample_env hesitant "AAAA" no_overrides
                   (fresh sample_rng sample_clock))) as [r|e] eqn:Hr;
    [|vm_compute in Hr; discriminate Hr].
  destruct (self_correction_monotone _ _ _ _ _ _ _ E)
    as (startTime & w0 & chat & initial & w1 & ci & cr & _ & _ & _ & Hcr & Hle & _).
  exists r, ci, cr. split; [reflexivity|]. split; [exact Hcr|]. split; [exact Hle|].
  vm_compute in Hr. injection Hr as <-. vm_compute in Hcr. congruence.
Defined.

Lemma insatiable_always_requests key model : always_requests_tools (insatiable key model).
Proof.
  intros history. exists [rn_call], "". split; [reflexivity|].
  constructor; [|constructor]. intros rng. eexists. reflexivity.
Defined.

Lemma round_ceiling_witness :
  let run := authenticateItem sample_env insatiable "AAAA" no_overrides
               (fresh sample_rng sample_clock) in
  rounds (snd run) = 8%nat /\ tool_turns (snd run) = 8%nat /\ exists r, fst run = Ok r.
Proof.
  destruct (round_ceiling sample_env insatiable "AAAA" no_overrides sample_rng sample_clock)
    as (_ & _ & H).
  destruct (H "sample-key" eq_refl (insatiable_always_requests _ _))
    as (Hr & Ht & r & startTime & w0 & chat & initial & w1 & reply & text & Hrun & _).
  split; [exact Hr|]. split; [exact Ht|]. exists r. exact Hrun.
Defined.

Lemma report_from_final_text_witness :
  exists r,
    fst (authenticateItem sample_env lookup_then_answer "AAAA" no_overrides
           (fresh sample_rng sample_clock)) = Ok r /\
    AuthenticationResult.rnLookup r = None.
Proof.
  pose proof (run_pair (authenticateItem sample_env lookup_then_answer "AAAA" no_overrides
                          (fresh sample_rng sample_clock))) as E.
  destruct (fst (authenticateItem sample_env lookup_then_answer "AAAA" no_overrides
                   (fresh sample_rng sample_clock))) as [r|e] eqn:Hr;
    [|vm_compute in Hr; discriminate Hr].
  destruct (report_from_final_text _ _ _ _ _ _ _ _ E) as (_ & Hrn & _).
  exists r. split; [reflexivity|exact Hrn].
Defined.

(** C5.  Tool results are not retained in the report.  In a run in which
    [rn_lookup] found the Nike registration, reported it and sent it back
    to the model, the returned result has [rnLookup] null and no comparable
    sales, where the result type documents [rnLookup] as the lookup if
    found and the report card shows it. *)
Lemma rn_lookup_result_not_retained :
  let run := authenticateItem sample_env lookup_then_answer "AAAA" no_overrides
               (fresh sample_rng sample_clock) in
  let found := rnLookup {["rn_number" := "RN 42850"]} in
  RNLookupResult.companyName found = "Nike Inc." /\
  RNLookupResult.status found = active /\
  In (completed "rn_lookup" (Result (RN found))) (World.progress (snd run)) /\
  In [FunctionResponse "rn_lookup" (Result (RN found))] (World.sent (snd run)) /\
  exists r,
    fst run = Ok r /\
    AuthenticationResult.rnLookup r = None /\
    AuthenticationResult.rnLookup r <> Some found /\
    MarketSearchResult.comparableSales (AuthenticationResult.marketData r) = [].
Proof.
  split; [reflexivity|]. split; [reflexivity|].
  split; [vm_compute; tauto|]. split; [vm_compute; tauto|].
  eexists. split; [vm_compute; reflexivity|]. split; [reflexivity|].
  split; [discriminate|reflexivity].
Qed.

(** C4, amended.  For each of the four registered tools and every argument
    map, two executions agree on everything except the prices of the
    comparable sales; for the three tools other than [market_search] they
    agree outright and leave [Math.random] untouched. *)
Theorem tools_deterministic_up_to_prices (name : string) (args : Args) (rng1 rng2 : Rng) :
  In name forensicTools ->
  without_prices (fst (executeToolCall name args rng1))
    = without_prices (fst (executeToolCall name args rng2)) /\
  (name <> "market_search" ->
     fst (executeToolCall name args rng1) = fst (executeToolCall name args rng2) /\
     snd (executeToolCall name args rng1) = rng1).
Proof.
  intros Hin. simpl in Hin.
  destruct Hin as [<-|[<-|[<-|[<-|[]]]]].
  - split; [reflexivity|]. intros _. split; reflexivity.
  - split; [reflexivity|]. intros _. split; reflexivity.
  - split; [reflexivity|]. intros _. split; reflexivity.
  - split; [reflexivity|]. intros H. congruence.
Qed.

Lemma tools_deterministic_up_to_prices_witness :
  fst (executeToolCall "date_forensics" {["materials" := "nylon"]} sample_rng)
  = fst (executeToolCall "date_forensics" {["materials" := "nylon"]} (fun _ => 0 # 1)).
Proof.
  destruct (tools_deterministic_up_to_prices "date_forensics" {["materials" := "nylon"]}
              sample_rng (fun _ => 0 # 1)) as [_ H].
  - simpl. tauto.
  - apply H. discriminate.
Defined.

(** C4, as stated, fails: two executions of [market_search] in a row, with
    the same name and the same arguments, return different results. *)
Lemma market_search_not_repeatable :
  let args : Args := {["item_description" := "501 jeans"]} in
  let first := executeToolCall "market_search" args sample_rng in
  let second := executeToolCall "market_search" args (snd first) in
  fst first <> fst second.
Proof. vm_compute. discriminate. Qed.

(** ** Examples from the specification *)

(** Confidence levels at the documented boundaries. *)
Example confidence_level_boundaries :
  map getConfidenceLevel [Num 100; Num 90; Num 89; Num 75; Num 74; Num 55; Num 54; Num 35;
                          Num 34; Num 0; NaN]
  = [very_high; very_high; high; high; moderate; moderate; low; low; uncertain; uncertain;
     uncertain].
Proof. reflexivity. Qed.

(** The router rejects a name that is neither registered nor inherited. *)
Example router_rejects_unknown_name (args : Args) (rng : Rng) :
  executeToolCall "delete_everything" args rng
  = (Throw (Error "Unknown tool: delete_everything"), rng).
Proof. reflexivity. Qed.

(** Three dashed lines under "Red flags:" come back as three strings, in
    order, without their dashes. *)
Example three_red_flags :
  AuthenticationResult.redFlags
    (fst (parseAuthenticationResponse
            ("Red flags:" ++ nl ++ "- Modern barcode format" ++ nl ++ "- White label" ++ nl
               ++ "- Dri-FIT branding" ++ nl ++ nl ++ "Confidence: 40%") 0 sample_clock))
  = ["Modern barcode format"; "White label"; "Dri-FIT branding"].
Proof. vm_compute. reflexivity. Qed.

(** ** Registration numbers: bands, inputs and status *)

(** X1.  The dating formula inverted, for numbers of at most fifteen
    digits: year [y] is the formula year of exactly the registration
    numbers from 13670 on that lie within 1317 of
    [13670 + 2635 * (y - 1959)]; below 13670 there is no formula year.
    The bound is needed: in binary64 the sixteen digits 5794474983998007
    get the year 2199041741612, from which they lie 1318 away. *)
Theorem calculateRNYear_band (rn y : Z) :
  rn < 10 ^ 15 ->
  (calculateRNYear (Num rn) = Some (Num y)
   <-> 13670 <= rn /\ -1317 <= rn - 13670 - 2635 * (y - 1959) <= 1317) /\
  (calculateRNYear (Num rn) = None <-> rn < 13670) /\
  calculateRNYear (Num 5794474983998007) = Some (Num 2199041741612) /\
  5794474983998007 - 13670 - 2635 * (2199041741612 - 1959) = -1318.
Proof.
  intros Hb. split; [|split; [|split; [vm_compute; reflexivity|reflexivity]]].
  - destruct (Z_lt_le_dec rn 13670) as [L|L].
    + rewrite (calculateRNYear_below rn L). split; [discriminate|lia].
    + rewrite (calculateRNYear_exact rn (conj L Hb)). split.
      * intros H. injection H as <-. split; [exact L|]. Z.div_mod_to_equations. lia.
      * intros [_ H]. do 2 f_equal. Z.div_mod_to_equations. lia.
  - destruct (Z_lt_le_dec rn 13670) as [L|L].
    + rewrite (calculateRNYear_below rn L). tauto.
    + rewrite (calculateRNYear_exact rn (conj L Hb)). split; [discriminate|lia].
Qed.

Lemma calculateRNYear_band_witness :
  calculateRNYear (Num 42850) = Some (Num 1970)
  <-> 13670 <= 42850 /\ -1317 <= 42850 - 13670 - 2635 * (1970 - 1959) <= 1317.
Proof.
  destruct (calculateRNYear_band 42850 1970) as [H _]; [reflexivity|]. exact H.
Defined.

(** With at least one digit, the result is a function of the digits alone. *)
Lemma rnLookup_by_digits (args args' : Args) :
  rn_digits args = rn_digits args' -> rn_digits args <> "" -> rnLookup args = rnLookup args'.
Proof.
  unfold rn_digits. intros E Hne.
  rewrite (rnLookup_cases args), (rnLookup_cases args'). cbv zeta. rewrite <- E.
  destruct (filter_chars is_digit (str_or (args !! "rn_number") "")); [congruence|].
  reflexivity.
Qed.

(** X2.  Only the digits of the argument count: two calls whose arguments
    hold the same digits, at least one, return the same record, whatever
    prefix, separators or other characters surround them. *)
Theorem rnLookup_digits_only (args args' : Args) :
  rn_digits args = rn_digits args' -> rn_digits args <> "" -> rnLookup args = rnLookup args'.
Proof. apply rnLookup_by_digits. Qed.

Lemma rnLookup_digits_only_witness :
  rnLookup {["rn_number" := "RN 42850"]} = rnLookup {["rn_number" := "rn# 42,850 (Nike)"]}.
Proof.
  apply rnLookup_digits_only; [vm_compute; reflexivity|vm_compute; discriminate].
Defined.

(** A name inherited from [Object.prototype] does not start with a digit. *)
Lemma digits_not_inherited (s : string) :
  all_chars is_digit s = true -> mem s Object_prototype = false.
Proof.
  destruct s as [|c s]; [reflexivity|]. cbn [all_chars]. intros H.
  apply andb_true_iff in H as [H _].
  destruct c as [[] [] [] [] [] [] [] []]; try discriminate H; reflexivity.
Qed.

(** Every registration number of the table is a canonical digit string of
    a number from 13670 on, with a registration year. *)
Lemma RN_DATABASE_entries :
  Forall (fun ke : string * RNEntry.t =>
            let r := rnLookup {["rn_number" := fst ke]} in
            rn_digits {["rn_number" := fst ke]} = fst ke /\
            fst ke <> "" /\
            13670 <= decimal_value (fst ke) /\
            RNLookupResult.rnNumber r = "RN " ++ fst ke /\
            RNLookupResult.companyName r = RNEntry.company (snd ke) /\
            RNLookupResult.registrationYear r = RNEntry.year (snd ke) /\
            RNLookupResult.status r = active /\
            exists reg calc,
              RNEntry.year (snd ke) = Some reg /\
              RNLookupResult.calculatedYear r = Some (Num calc) /\
              -1 <= calc - reg <= 1)
         RN_DATABASE.
Proof.
  repeat (constructor;
          [cbv zeta;
           split; [vm_compute; reflexivity|];
           split; [discriminate|];
           split; [vm_compute; discriminate|];
           split; [vm_compute; reflexivity|];
           split; [vm_compute; reflexivity|];
           split; [vm_compute; reflexivity|];
           split; [vm_compute; reflexivity|];
           eexists _, _; split; [reflexivity|]; split; [vm_compute; reflexivity|];
           split; vm_compute; discriminate|]).
  constructor.
Qed.

(** X3.  A number of the registration table, however it is written around
    its digits, is reported active with the company and the registration
    year of the table; and the formula year is within one year of the
    registered one. *)
Theorem rnLookup_known (args : Args) (k : string) (e : RNEntry.t) :
  In (k, e) RN_DATABASE ->
  rn_digits args = k ->
  let r := rnLookup args in
  RNLookupResult.rnNumber r = "RN " ++ k /\
  RNLookupResult.companyName r = RNEntry.company e /\
  RNLookupResult.registrationYear r = RNEntry.year e /\
  RNLookupResult.status r = active /\
  exists reg calc,
    RNEntry.year e = Some reg /\
    RNLookupResult.calculatedYear r = Some (Num calc) /\
    -1 <= calc - reg <= 1.
Proof.
  intros Hin Hk r.
  pose proof RN_DATABASE_entries as Hall. rewrite List.Forall_forall in Hall.
  specialize (Hall _ Hin). cbv zeta in Hall. cbn [fst snd] in Hall.
  destruct Hall as (Hd & Hne & _ & Hn & Hc & Hy & Hs & Hcalc).
  assert (Hr : r = rnLookup {["rn_number" := k]}).
  { subst r. apply rnLookup_by_digits; [now rewrite Hd|now rewrite Hk]. }
  rewrite Hr. auto.
Qed.

Lemma rnLookup_known_witness :
  let r := rnLookup {["rn_number" := "RN-73277"]} in
  RNLookupResult.companyName r = "Levi Strauss & Co." /\
  RNLookupResult.registrationYear r = Some 1982 /\
  RNLookupResult.status r = active.
Proof.
  destruct (rnLookup_known {["rn_number" := "RN-73277"]} "73277"
              (RNEntry.mk "Levi Strauss & Co." (Some 1982)))
    as (_ & Hc & Hy & Hs & _); [simpl; tauto|vm_compute; reflexivity|].
  split; [exact Hc|]. split; [exact Hy|exact Hs].
Defined.

(** A formula year of at least 1959 is truthy. *)
Lemma truthy_from_1959 (y : number) : num_ge y (Num 1959) = true -> truthy (Some y) = true.
Proof.
  destruct y as [v|s|]; cbn [num_ge truthy]; intros H; [|reflexivity|discriminate H].
  apply Z.leb_le in H. destruct (v =? 0) eqn:E; [apply Z.eqb_eq in E; lia|reflexivity].
Qed.

(** X4.  The status of a lookup is never [inactive]; it is [active] exactly
    when the argument holds digits that denote a number from 13670 on, so a
    registration number of the pre-formula series is always reported
    [not_found].  The table is looked up under a digit string, which is
    never a name inherited from [Object.prototype]. *)
Theorem rnLookup_status (args : Args) :
  (forall name, get RN_DATABASE (rn_digits args) <> Inherited name) /\
  RNLookupResult.status (rnLookup args) <> inactive /\
  (RNLookupResult.status (rnLookup args) = active
   <-> rn_digits args <> "" /\ 13670 <= decimal_value (rn_digits args)) /\
  (RNLookupResult.status (rnLookup args) = active
   <-> exists y, RNLookupResult.calculatedYear (rnLookup args) = Some y /\
                 num_ge y (Num 1959) = true).
Proof.
  assert (Hd : all_chars is_digit (rn_digits args) = true) by apply all_chars_filter.
  assert (Hinh : forall name, get RN_DATABASE (rn_digits args) <> Inherited name).
  { intros name. unfold get. destruct (assoc _ _); [discriminate|].
    rewrite (digits_not_inherited _ Hd). discriminate. }
  split; [exact Hinh|].
  assert (Hown : forall e, get RN_DATABASE (rn_digits args) = Own e ->
                           13670 <= decimal_value (rn_digits args)).
  { intros e He. apply get_Own_In in He.
    pose proof RN_DATABASE_entries as Hall. rewrite List.Forall_forall in Hall.
    specialize (Hall _ He). cbv zeta in Hall. cbn [fst snd] in Hall. tauto. }
  rewrite (rnLookup_cases args). cbv zeta. fold (rn_digits args).
  pose proof (decimal_value_nonneg_digits _ Hd) as H0.
  destruct (rn_digits args) as [|c s] eqn:E.
  { cbn. split; [discriminate|]. split; split; intros H; try discriminate.
    - destruct H as [H _]. congruence.
    - destruct H as (y & H & _). discriminate. }
  rewrite <- E in *. replace (nonempty (rn_digits args)) with true by (rewrite E; reflexivity).
  unfold valid_rn. cbv zeta. cbn [RNLookupResult.status RNLookupResult.calculatedYear].
  destruct (Z_lt_le_dec (decimal_value (rn_digits args)) 13670) as [L|L].
  - rewrite number_of_Z_small by lia. rewrite (calculateRNYear_below _ L).
    destruct (get RN_DATABASE (rn_digits args)) as [e|name|] eqn:G.
    + specialize (Hown e eq_refl). lia.
    + exfalso. exact (Hinh name eq_refl).
    + cbn [truthy]. split; [discriminate|]. split; split; intros H; try discriminate.
      * lia.
      * destruct H as (y & H & _). discriminate.
  - assert (Hge : num_ge (number_of_Z (decimal_value (rn_digits args))) (Num 13670) = true).
    { destruct (number_of_Z_lower 13670 (decimal_value (rn_digits args)) ltac:(lia) L)
        as [-> |(r & -> & Hr)]; [reflexivity|]. cbn [num_ge]. now apply Z.leb_le. }
    destruct (calculateRNYear_from _ Hge) as (y & -> & Hy).
    rewrite (truthy_from_1959 y Hy).
    assert (Hact : match get RN_DATABASE (rn_digits args) with
                   | Undefined => active
                   | _ => active
                   end = active) by (destruct (get _ _); reflexivity).
    rewrite Hact. split; [discriminate|]. split; split; intros _; try reflexivity.
    + split; [rewrite E; discriminate|exact L].
    + exists y. split; [reflexivity|exact Hy].
Qed.

(** ** Brand patterns: failures, bounds and era selection *)

Lemma lower_not_upper c : not_upper (lower c) = true.
Proof. destruct c as [[] [] [] [] [] [] [] []]; reflexivity. Qed.

Lemma toLowerCase_not_upper s : all_chars not_upper (toLowerCase s) = true.
Proof.
  induction s as [|c s IH]; [reflexivity|].
  cbn [toLowerCase all_chars]. now rewrite lower_not_upper, IH.
Qed.

Lemma all_chars_drop p n : forall s, all_chars p s = true -> all_chars p (drop n s) = true.
Proof.
  induction n as [|n IH]; intros s H; [exact H|].
  destruct s as [|c s]; [reflexivity|]. cbn [drop]. apply IH.
  cbn [all_chars] in H. now apply andb_true_iff in H as [_ H].
Qed.

Lemma strip_one_drop seqs s s' :
  strip_one seqs s = Some s' -> exists n, s' = drop n s.
Proof.
  induction seqs as [|w seqs IH]; cbn [strip_one]; [discriminate|].
  destruct (String.prefix w s); [|exact IH].
  intros H. injection H as <-. eauto.
Qed.

Lemma all_chars_strip_all p seqs fuel : forall s,
  all_chars p s = true -> all_chars p (strip_all fuel seqs s) = true.
Proof.
  induction fuel as [|fuel IH]; intros s H; [exact H|].
  cbn [strip_all]. destruct (strip_one seqs s) as [s'|] eqn:E; [|exact H].
  apply IH. apply strip_one_drop in E as [n ->]. now apply all_chars_drop.
Qed.

Lemma all_chars_rev_app p s1 : forall s2,
  all_chars p (String.rev_app s1 s2) = all_chars p s1 && all_chars p s2.
Proof.
  induction s1 as [|c s1 IH]; intros s2; [reflexivity|].
  cbn [String.rev_app all_chars]. rewrite IH. cbn [all_chars].
  destruct (p c), (all_chars p s1), (all_chars p s2); reflexivity.
Qed.

Lemma all_chars_rev p s : all_chars p (String.rev s) = all_chars p s.
Proof. unfold String.rev. rewrite all_chars_rev_app. cbn. now rewrite andb_true_r. Qed.

(** Trimming keeps a property that holds of every character. *)
Lemma all_chars_trim p s : all_chars p s = true -> all_chars p (trim s) = true.
Proof.
  intros H. unfold trim, trimEnd, trimStart.
  rewrite all_chars_rev. apply all_chars_strip_all. rewrite all_chars_rev.
  now apply all_chars_strip_all.
Qed.

Lemma brand_key_not_upper (args : Args) : all_chars not_upper (brand_key args) = true.
Proof. unfold brand_key. apply all_chars_trim, toLowerCase_not_upper. Qed.

Lemma mem_In k l : mem k l = true -> In k l.
Proof.
  unfold mem. rewrite existsb_exists. intros (x & Hx & E).
  apply String.eqb_eq in E. now subst.
Qed.

(** The only inherited names a normalised brand can be. *)
Lemma inherited_brand_key (args : Args) :
  mem (brand_key args) Object_prototype = true <->
  brand_key args = "constructor" \/ brand_key args = "__proto__".
Proof.
  split.
  - intros H. pose proof (brand_key_not_upper args) as Hl.
    apply mem_In in H. simpl in H.
    destruct H as [H|[H|[H|[H|[H|[H|[H|[H|[H|[H|[H|[H|[]]]]]]]]]]]]];
      rewrite <- H in *; auto; discriminate Hl.
  - intros [-> | ->]; reflexivity.
Qed.

(** [brandPatterns] either returns, or throws the TypeError of
    [Object.keys(undefined)] on one of the two inherited names. *)
Lemma brandPatterns_outcome (args : Args) :
  (exists r, brandPatterns args = Ok r /\
             brand_key args <> "constructor" /\ brand_key args <> "__proto__") \/
  (brandPatterns args = Throw (TypeError "Cannot convert undefined or null to object") /\
   (brand_key args = "constructor" \/ brand_key args = "__proto__")).
Proof.
  pose proof (inherited_brand_key args) as Hk.
  destruct (get BRAND_PATTERNS (brand_key args)) as [bd|name|] eqn:G.
  - destruct (brandPatterns_own args bd G) as (k & d & r & _ & Hr & _).
    left. exists r. split; [exact Hr|].
    split; intros E; rewrite E in G; discriminate G.
  - assert (Hm : mem (brand_key args) Object_prototype = true).
    { unfold get in G. destruct (assoc _ _); [discriminate|].
      destruct (mem _ _); [reflexivity|discriminate]. }
    right. split; [|now apply Hk].
    unfold brandPatterns. fold (brand_key args). now rewrite G.
  - assert (Hm : mem (brand_key args) Object_prototype = false).
    { unfold get in G. destruct (assoc _ _); [discriminate|].
      destruct (mem _ _); [discriminate|reflexivity]. }
    destruct (brandPatterns_unknown args G) as (r & Hr & _).
    left. exists r. split; [exact Hr|].
    split; intros E; assert (mem (brand_key args) Object_prototype = true)
      by (apply Hk; auto); congruence.
Qed.

(** X5.  [brandPatterns] throws exactly when the brand, lower-cased and
    trimmed, is "constructor" or "__proto__"; what it throws is then the
    TypeError of [Object.keys(undefined)].  For every other argument map it
    returns a result. *)
Theorem brandPatterns_throws (args : Args) :
  (brandPatterns args = Throw (TypeError "Cannot convert undefined or null to object")
   <-> brand_key args = "constructor" \/ brand_key args = "__proto__") /\
  (forall e, brandPatterns args = Throw e ->
             e = TypeError "Cannot convert undefined or null to object") /\
  (brand_key args <> "constructor" -> brand_key args <> "__proto__" ->
   exists r, brandPatterns args = Ok r).
Proof.
  destruct (brandPatterns_outcome args) as [(r & Hr & H1 & H2)|[Ht Hk]].
  - rewrite Hr. split; [split; [discriminate|tauto]|].
    split; [discriminate|]. eauto.
  - rewrite Ht. split; [tauto|].
    split; [intros e H; now injection H as <-|]. tauto.
Qed.

Lemma clamp_score_range q : 0 <= clamp_score q <= 100.
Proof. unfold clamp_score. lia. Qed.

(** X6.  Whatever [brandPatterns] returns has a score between 0 and 100.
    For a brand of the table the result names one of the brand's eras, and
    its matched patterns and red flags are drawn from that era's lists, the
    matched patterns never being empty. *)
Theorem brandPatterns_result_bounds (args : Args) (r : BrandPatternResult.t) :
  brandPatterns args = Ok r ->
  (exists score, BrandPatternResult.authenticityScore r = Num score /\ 0 <= score <= 100) /\
  (forall bd, get BRAND_PATTERNS (brand_key args) = Own bd ->
     exists eraData,
       In (BrandPatternResult.era r, eraData) (BrandPatternDB.eras bd) /\
       incl (BrandPatternResult.matchedPatterns r) (EraData.patterns eraData) /\
       BrandPatternResult.matchedPatterns r <> [] /\
       incl (BrandPatternResult.redFlags r) (EraData.redFlags eraData) /\
       (length (BrandPatternResult.redFlags r) <= 3)%nat /\
       BrandPatternResult.details r = EraData.details eraData).
Proof.
  intros Hr.
  destruct (get BRAND_PATTERNS (brand_key args)) as [bd|name|] eqn:G.
  - destruct (brandPatterns_own args bd G) as (k & d & r' & Hin & Hr' & He & Hd & Hm & Hf & Hs).
    rewrite Hr in Hr'. apply Ok_inj in Hr'. subst r'.
    split; [rewrite Hs; eexists; split; [reflexivity|apply clamp_score_range]|].
    intros bd' E. injection E as <-. exists d. rewrite He.
    split; [exact Hin|].
    destruct (BRAND_PATTERNS_shape _ _ G) as [_ Hwf].
    rewrite List.Forall_forall in Hwf. pose proof (Hwf _ Hin) as Hlen.
    unfold well_formed_era in Hlen. simpl in Hlen.
    assert (Hflags : (length (EraData.redFlags d) <= 3)%nat).
    { apply get_Own_In in G. simpl in G.
      destruct G as [G|[G|[G|[]]]]; injection G as _ <-; simpl in Hin;
        repeat (destruct Hin as [Hin|Hin]; [injection Hin as _ <-; simpl; lia|]);
        destruct Hin. }
    split; [|split; [|split; [|split]]].
    + rewrite Hm. destruct (0 <? _)%nat; [|apply incl_refl].
      intros x Hx. now apply filter_In in Hx as [Hx _].
    + rewrite Hm. destruct (List.filter _ (EraData.patterns d)) as [|x l] eqn:Ef; simpl.
      * intros E. rewrite E in Hlen. simpl in Hlen. lia.
      * discriminate.
    + rewrite Hf. intros x Hx. now apply filter_In in Hx as [Hx _].
    + rewrite Hf. pose proof (List.filter_length_le (observed (observed_markers args))
                                (EraData.redFlags d)). lia.
    + exact Hd.
  - unfold brandPatterns in Hr. fold (brand_key args) in Hr. rewrite G in Hr. discriminate Hr.
  - destruct (brandPatterns_unknown args G) as (r' & Hr' & Hs & _).
    rewrite Hr in Hr'. apply Ok_inj in Hr'. subst r'.
    split; [exists 50; split; [exact Hs|lia]|]. intros bd E. discriminate E.
Qed.

Lemma brandPatterns_result_bounds_witness :
  exists r score,
    brandPatterns (<["brand" := "Levis"]> (<["era" := "1970s"]>
                     {["markers" := "orange tab possible, stretch denim"]})) = Ok r /\
    BrandPatternResult.authenticityScore r = Num score /\ 0 <= score <= 100.
Proof.
  destruct (brandPatterns (<["brand" := "Levis"]> (<["era" := "1970s"]>
              {["markers" := "orange tab possible, stretch denim"]}))) as [r|e] eqn:E;
    [|vm_compute in E; discriminate E].
  destruct (brandPatterns_result_bounds _ r E) as [(score & Hs & Hb) _].
  exists r, score. auto.
Defined.

(** What [brandPatterns] returns once the era search has settled on a key. *)
Lemma brandPatterns_at (args : Args) bd k d :
  get BRAND_PATTERNS (brand_key args) = Own bd ->
  select_era_key (era_arg args) (map fst (BrandPatternDB.eras bd)) = Some k ->
  get (BrandPatternDB.eras bd) k = Own d ->
  exists r,
    brandPatterns args = Ok r /\
    BrandPatternResult.era r = k /\
    BrandPatternResult.details r = EraData.details d.
Proof.
  intros G Hsel Hd. unfold brandPatterns. fold (brand_key args). rewrite G. cbv zeta.
  unfold select_era_key, era_arg, decade_of in Hsel. rewrite Hsel, Hd.
  eexists. split; [reflexivity|]. split; reflexivity.
Qed.

(** Every era key of the table selects itself, and its own entry. *)
Lemma era_keys_select_themselves :
  Forall (fun b : string * BrandPatternDB.t =>
            get BRAND_PATTERNS (fst b) = Own (snd b) /\
            Forall (fun e : string * EraData.t =>
                      select_era_key (fst e) (map fst (BrandPatternDB.eras (snd b)))
                        = Some (fst e) /\
                      get (BrandPatternDB.eras (snd b)) (fst e) = Own (snd e))
                   (BrandPatternDB.eras (snd b)))
         BRAND_PATTERNS.
Proof.
  repeat (constructor;
          [split; [reflexivity|];
           repeat (constructor; [split; vm_compute; reflexivity|]); constructor|]).
  constructor.
Qed.

Lemma find_none_all {A} (f : A -> bool) l :
  (forall x, In x l -> f x = false) -> find f l = None.
Proof.
  induction l as [|a l IH]; intros H; [reflexivity|].
  cbn [find]. rewrite (H a (or_introl eq_refl)). apply IH. intros x Hx. apply H. now right.
Qed.

(** X7.  Era selection.  When the era argument, trimmed, is one of the era
    keys of the brand, the result is built from exactly that era.  When it
    mentions none of the brand's decades, the result is built from the last
    era of the brand's table: the 2000s for Nike, the 1990s for the other
    two brands. *)
Theorem brandPatterns_era_selection (args : Args) (bd : BrandPatternDB.t) :
  get BRAND_PATTERNS (brand_key args) = Own bd ->
  (forall k d, In (k, d) (BrandPatternDB.eras bd) -> era_arg args = k ->
     exists r, brandPatterns args = Ok r /\
               BrandPatternResult.era r = k /\
               BrandPatternResult.details r = EraData.details d) /\
  ((forall k, In k (map fst (BrandPatternDB.eras bd)) ->
              includes (decade_of k) (era_arg args) = false) ->
     exists r, brandPatterns args = Ok r /\
               Some (BrandPatternResult.era r) = last (map fst (BrandPatternDB.eras bd)) /\
               BrandPatternResult.era r
               = if String.eqb (brand_key args) "nike" then "2000s" else "1990s").
Proof.
  intros G. pose proof (get_Own_In _ _ _ G) as Hb.
  pose proof era_keys_select_themselves as Hall. rewrite List.Forall_forall in Hall.
  specialize (Hall _ Hb). cbn [fst snd] in Hall. destruct Hall as [_ Heras].
  rewrite List.Forall_forall in Heras.
  split.
  - intros k d Hin Hera. destruct (Heras _ Hin) as [Hsel Hd]. cbn [fst snd] in Hsel, Hd.
    apply (brandPatterns_at args bd k d G); [now rewrite Hera|exact Hd].
  - intros Hnone.
    assert (Hsel : select_era_key (era_arg args) (map fst (BrandPatternDB.eras bd))
                   = last (map fst (BrandPatternDB.eras bd))).
    { unfold select_era_key. now rewrite (find_none_all _ _ Hnone). }
    simpl in Hb.
    destruct Hb as [Hb|[Hb|[Hb|[]]]]; injection Hb as Hkey <-; rewrite <- Hkey;
      cbn [BrandPatternDB.eras map fst] in Hsel |- *.
    + destruct (brandPatterns_at args _ "2000s" _ G Hsel eq_refl) as (r & Hr & He & _).
      exists r. rewrite He. auto.
    + destruct (brandPatterns_at args _ "1990s" _ G Hsel eq_refl) as (r & Hr & He & _).
      exists r. rewrite He. auto.
    + destruct (brandPatterns_at args _ "1990s" _ G Hsel eq_refl) as (r & Hr & He & _).
      exists r. rewrite He. auto.
Qed.

Lemma brandPatterns_era_selection_witness :
  exists r,
    brandPatterns (<["brand" := " NIKE "]> {["era" := "2010s"]}) = Ok r /\
    BrandPatternResult.era r = "2000s".
Proof.
  assert (G : get BRAND_PATTERNS (brand_key (<["brand" := " NIKE "]> {["era" := "2010s"]}))
              = get BRAND_PATTERNS "nike") by (vm_compute; reflexivity).
  destruct (brandPatterns_era_selection (<["brand" := " NIKE "]> {["era" := "2010s"]}) _ G)
    as [_ H].
  destruct H as (r & Hr & _ & He).
  - intros k Hk. simpl in Hk.
    destruct Hk as [<-|[<-|[<-|[<-|[]]]]]; vm_compute; reflexivity.
  - exists r. split; [exact Hr|]. rewrite He. vm_compute. reflexivity.
Defined.

(** ** Date forensics: ranges, confidence and details *)

Lemma matched_markers_plausible (args : Args) : Forall plausible_marker (matched_markers args).
Proof.
  unfold matched_markers. rewrite List.Forall_forall. intros m Hm.
  apply filter_In in Hm as [Hm _].
  pose proof CONSTRUCTION_MARKERS_plausible as H. rewrite List.Forall_forall in H. auto.
Qed.

Lemma filter_shorter {A} (f : A -> bool) (l : list A) :
  (length (List.filter f l) <= length l)%nat.
Proof.
  induction l as [|x l IH]; [reflexivity|]. cbn [List.filter length].
  destruct (f x); cbn [length]; lia.
Qed.

Lemma matched_markers_length (args : Args) : (length (matched_markers args) <= 18)%nat.
Proof. unfold matched_markers. apply (filter_shorter _ CONSTRUCTION_MARKERS). Qed.

Lemma Math_round_le (p q : Q) : (p <= q)%Q -> Math_round p <= Math_round q.
Proof. apply Math_round_mono. Qed.

Lemma Math_round_inject (z : Z) : Math_round (inject_Z z) = z.
Proof. apply Math_round_int. reflexivity. Qed.

(** The two branches of [dateForensics]. *)
Lemma dateForensics_cases (args : Args) :
  let r := dateForensics args in
  let ms := matched_markers args in
  let details := toLowerCase (str_or (args !! "construction_details") "") in
  (ms = [] /\
   DateForensicsResult.yearRange r = (Num 1960, Num 2020) /\
   DateForensicsResult.confidence r = Frac (literal (3 # 10)) /\
   DateForensicsResult.constructionDetails r = [details]) \/
  (exists first others,
     ms = first :: others /\
     let overlapStart := fold_left Z.max (map era_start others) (era_start first) in
     let overlapEnd := fold_left Z.min (map era_end others) (era_end first) in
     DateForensicsResult.yearRange r
       = (if overlapStart <=? overlapEnd
          then (Num overlapStart, Num overlapEnd)
          else (Num (Math_round (weighted_average era_start ms)),
                Num (Math_round (weighted_average era_end ms)))) /\
     DateForensicsResult.confidence r
       = Frac (Qmin (literal (95 # 100))
                 (fadd (mean_confidence ms)
                       (fmul (inject_Z (Z.of_nat (length ms))) (literal (5 # 100))))) /\
     DateForensicsResult.constructionDetails r
       = List.filter (fun d => nonempty d) (map trim (split "," details))).
Proof.
  unfold dateForensics, matched_markers. cbv zeta.
  generalize (List.filter
                (fun marker =>
                   includes (ConstructionMarker.feature marker)
                     (toLowerCase (str_or (args !! "construction_details") "") ++ " "
                        ++ toLowerCase (str_or (args !! "materials") "")))
                CONSTRUCTION_MARKERS).
  intros ms. destruct ms as [|first others] eqn:Ems.
  - left. repeat split.
  - right. rewrite <- Ems. rewrite (fold_add_weight ms (0 # 1) (0 # 1) (0 # 1)).
    exists first, others. split; [exact Ems|].
    cbn [DateForensicsResult.yearRange DateForensicsResult.confidence
         DateForensicsResult.constructionDetails].
    split; [|split; reflexivity].
    destruct (_ <=? _); reflexivity.
Qed.

(** X8.  The year range [dateForensics] returns is always well ordered and
    lies inside 1920..2026, whether it is the default, the intersection of
    the matched ranges or the rounded weighted average. *)
Theorem dateForensics_range (args : Args) :
  exists s e,
    DateForensicsResult.yearRange (dateForensics args) = (Num s, Num e) /\
    1920 <= s /\ s <= e /\ e <= 2026.
Proof.
  pose proof (matched_markers_plausible args) as HP.
  pose proof (matched_markers_length args) as Hlen.
  destruct (dateForensics_cases args) as [(_ & Hy & _)|H].
  { exists 1960, 2020. split; [exact Hy|lia]. }
  destruct H as (first & others & Ems & Hy & _).
  cbv zeta in Hy.
  pose proof (fold_max_greatest (map era_start others) (era_start first)) as [Hsin Hsmax].
  pose proof (fold_min_least (map era_end others) (era_end first)) as [Hein Hemin].
  change (era_start first :: map era_start others)
    with (map era_start (first :: others)) in Hsin.
  change (era_end first :: map era_end others) with (map era_end (first :: others)) in Hein.
  destruct (_ <=? _) eqn:Hov.
  - apply Z.leb_le in Hov. eexists _, _. split; [exact Hy|].
    rewrite Ems in HP. rewrite List.Forall_forall in HP.
    apply in_map_iff in Hsin as (a & Ha & Hain). apply in_map_iff in Hein as (b & Hb & Hbin).
    destruct (HP a Hain) as (Ha1 & _). destruct (HP b Hbin) as (_ & _ & Hb3 & _).
    lia.
  - eexists _, _. split; [exact Hy|].
    apply weighted_average_range; [exact HP|]. split; [rewrite Ems; cbn [length]; lia|exact Hlen].
Qed.

(** X9.  The confidence [dateForensics] returns lies between 0.25 and
    0.95.  Without a matched marker it is 0.3 (the binary64 number); one
    weak marker alone lowers it: nylon as the only material gives 0.25,
    the least value. *)
Theorem dateForensics_confidence_bounds (args : Args) :
  (exists c,
     DateForensicsResult.confidence (dateForensics args) = Frac c /\
     (1 # 4 <= c)%Q /\ (c <= 95 # 100)%Q /\
     (matched_markers args = [] -> c = literal (3 # 10))) /\
  (exists c,
     DateForensicsResult.confidence (dateForensics {["materials" := "nylon"]}) = Frac c /\
     (c == 1 # 4)%Q).
Proof.
  split; [|eexists; split; vm_compute; reflexivity].
  pose proof (matched_markers_plausible args) as HP.
  pose proof (matched_markers_length args) as Hlen.
  destruct (dateForensics_cases args) as [(Hnil & _ & Hc & _)|H].
  { exists (literal (3 # 10)). split; [exact Hc|].
    split; [vm_compute; discriminate|]. split; [vm_compute; discriminate|reflexivity]. }
  destruct H as (first & others & Ems & _ & Hc & _).
  eexists. split; [exact Hc|]. split; [|split].
  - apply Q.min_glb; [vm_compute; discriminate|].
    destruct others as [|second others].
    + rewrite Ems.
      assert (Hin : In first CONSTRUCTION_MARKERS).
      { assert (H : In first (matched_markers args)) by (rewrite Ems; now left).
        unfold matched_markers in H. now apply filter_In in H. }
      pose proof confidence_of_one as Hone. rewrite List.Forall_forall in Hone.
      exact (Hone first Hin).
    + apply confidence_from_two; [exact HP|]. split; [rewrite Ems; cbn [length]; lia|exact Hlen].
  - eapply Qle_trans; [apply Q.le_min_l|]. vm_compute. discriminate.
  - intros E. rewrite Ems in E. discriminate E.
Qed.

Lemma prefix_app (n h : string) : String.prefix n h = true -> exists s, h = n ++ s.
Proof.
  revert h. induction n as [|c n IH]; intros h H; [exists h; reflexivity|].
  destruct h as [|d h]; [discriminate H|]. cbn [String.prefix] in H.
  destruct (Ascii.ascii_dec c d) as [->|]; [|discriminate H].
  apply IH in H as [s ->]. exists s. reflexivity.
Qed.

Lemma prefix_intro (n s : string) : String.prefix n (n ++ s) = true.
Proof.
  induction n as [|c n IH]; [now destruct s|].
  change (String.prefix (String c n) (String c (n ++ s)) = true). cbn [String.prefix].
  destruct (Ascii.ascii_dec c c); [exact IH|congruence].
Qed.

Lemma includes_spec (n h : string) :
  includes n h = true <-> exists p s, h = p ++ n ++ s.
Proof.
  split.
  - induction h as [|c h IH]; cbn [includes]; intros H.
    + rewrite orb_false_r in H. apply prefix_app in H as [s Hs]. exists "", s. exact Hs.
    + apply orb_true_iff in H as [H|H].
      * apply prefix_app in H as [s Hs]. exists "", s. exact Hs.
      * apply IH in H as (p & s & ->). exists (String c p), s. reflexivity.
  - intros (p & s & ->). induction p as [|c p IH].
    + change ("" ++ n ++ s) with (n ++ s).
      destruct (n ++ s) eqn:E; cbn [includes]; rewrite <- E, prefix_intro; reflexivity.
    + change (String c p ++ n ++ s) with (String c (p ++ n ++ s)).
      cbn [includes]. rewrite IH. apply orb_true_r.
Qed.

(** A text that includes [a ++ b] includes [b]. *)
Lemma includes_suffix (a b h : string) : includes (a ++ b) h = true -> includes b h = true.
Proof.
  rewrite !includes_spec. intros (p & s & ->). exists (p ++ a), s.
  rewrite <- !append_assoc. reflexivity.
Qed.

Lemma matched_In (args : Args) (m : ConstructionMarker.t) :
  In m CONSTRUCTION_MARKERS ->
  includes (ConstructionMarker.feature m) (combined_text args) = true ->
  In m (matched_markers args).
Proof. intros Hin H. unfold matched_markers. apply filter_In. split; assumption. Qed.

(** X10.  "care label" is part of "no care label": a description that
    mentions the absence of a care label matches both markers, whose ranges
    meet in the single year 1971.  The range returned is then exactly
    [1971, 1971], unless the matched ranges have no year in common and the
    rounded average is returned instead. *)
Theorem dateForensics_no_care_label (args : Args) :
  includes "no care label" (combined_text args) = true ->
  In care_label (matched_markers args) /\
  In no_care_label (matched_markers args) /\
  (DateForensicsResult.yearRange (dateForensics args) = (Num 1971, Num 1971) \/
   exists a b, In a (matched_markers args) /\ In b (matched_markers args) /\
               era_end b < era_start a).
Proof.
  intros H.
  assert (Hno : In no_care_label (matched_markers args)).
  { apply matched_In; [simpl; tauto|exact H]. }
  assert (Hcare : In care_label (matched_markers args)).
  { apply matched_In; [simpl; tauto|]. apply (includes_suffix "no " "care label"). exact H. }
  split; [exact Hcare|]. split; [exact Hno|].
  destruct (dateForensics_cases args) as [(Hnil & _)|Hc].
  { rewrite Hnil in Hno. destruct Hno. }
  destruct Hc as (first & others & Ems & Hy & _).
  cbv zeta in Hy.
  pose proof (fold_max_greatest (map era_start others) (era_start first)) as [Hsin Hsmax].
  pose proof (fold_min_least (map era_end others) (era_end first)) as [Hein Hemin].
  change (era_start first :: map era_start others)
    with (map era_start (first :: others)) in Hsin, Hsmax.
  change (era_end first :: map era_end others)
    with (map era_end (first :: others)) in Hein, Hemin.
  rewrite <- Ems in Hsin, Hsmax, Hein, Hemin.
  pose proof (Hsmax _ (in_map era_start _ _ Hcare)) as Hs. change (era_start care_label) with 1971 in Hs.
  pose proof (Hemin _ (in_map era_end _ _ Hno)) as He. change (era_end no_care_label) with 1971 in He.
  destruct (_ <=? _) eqn:Hov.
  - apply Z.leb_le in Hov. left. rewrite Hy. f_equal; f_equal; lia.
  - apply Z.leb_gt in Hov. right.
    apply in_map_iff in Hsin as (a & Ha & Hain). apply in_map_iff in Hein as (b & Hb & Hbin).
    exists a, b. split; [exact Hain|]. split; [exact Hbin|]. lia.
Qed.

Lemma dateForensics_no_care_label_witness :
  DateForensicsResult.yearRange
    (dateForensics {["construction_details" := "Union-made, No Care Label"]})
  = (Num 1971, Num 1971).
Proof.
  destruct (dateForensics_no_care_label
              {["construction_details" := "Union-made, No Care Label"]})
    as (_ & _ & [H|H]); [vm_compute; reflexivity|exact H|].
  exfalso. destruct H as (a & b & Ha & Hb & Hlt).
  vm_compute in Ha, Hb.
  destruct Ha as [<-|[<-|[]]]; destruct Hb as [<-|[<-|[]]]; vm_compute in Hlt; discriminate Hlt.
Defined.

Lemma split_pieces (p : ascii -> bool) (sep : ascii) (s : string) :
  all_chars p s = true -> Forall (fun piece => all_chars p piece = true) (split sep s).
Proof.
  induction s as [|c s IH]; intros H; cbn [split].
  - constructor; [reflexivity|constructor].
  - cbn [all_chars] in H. apply andb_true_iff in H as [Hc Hs]. specialize (IH Hs).
    destruct (Ascii.eqb c sep).
    + constructor; [reflexivity|exact IH].
    + destruct (split sep s) as [|piece rest].
      * constructor; [cbn; now rewrite Hc|constructor].
      * inversion IH as [|x l Hx Hl]; subst.
        constructor; [cbn [all_chars]; now rewrite Hc, Hx|exact Hl].
Qed.

Lemma split_no_sep (sep : ascii) (s : string) :
  Forall (fun piece => all_chars (fun c => negb (Ascii.eqb c sep)) piece = true) (split sep s).
Proof.
  induction s as [|c s IH]; cbn [split].
  - constructor; [reflexivity|constructor].
  - destruct (Ascii.eqb c sep) eqn:E.
    + constructor; [reflexivity|exact IH].
    + destruct (split sep s) as [|piece rest].
      * constructor; [cbn; now rewrite E|constructor].
      * inversion IH as [|x l Hx Hl]; subst.
        constructor; [cbn [all_chars]; now rewrite E, Hx|exact Hl].
Qed.

Lemma all_chars_and p q s :
  all_chars p s = true -> all_chars q s = true -> all_chars (fun c => p c && q c) s = true.
Proof.
  induction s as [|c s IH]; [reflexivity|]. cbn [all_chars]. intros Hp Hq.
  apply andb_true_iff in Hp as [Hp1 Hp2]. apply andb_true_iff in Hq as [Hq1 Hq2].
  now rewrite Hp1, Hq1, IH.
Qed.

(** X11.  The construction details of the result.  With at least one
    matched marker they are the comma-separated pieces of the lower-cased
    argument, trimmed, the empty ones dropped: each is non-empty and holds
    neither a comma nor an upper-case letter.  Without a matched marker
    the lower-cased argument is returned whole, as a single entry. *)
Theorem dateForensics_constructionDetails (args : Args) :
  let details := toLowerCase (str_or (args !! "construction_details") "") in
  let r := dateForensics args in
  (matched_markers args = [] -> DateForensicsResult.constructionDetails r = [details]) /\
  (matched_markers args <> [] ->
     DateForensicsResult.constructionDetails r
       = List.filter (fun d => nonempty d) (map trim (split "," details)) /\
     Forall (fun d => d <> "" /\ all_chars detail_char d = true)
            (DateForensicsResult.constructionDetails r)).
Proof.
  intros details r.
  destruct (dateForensics_cases args) as [(Hnil & _ & _ & Hd)|H].
  { split; [intros _; exact Hd|]. intros Hne. congruence. }
  destruct H as (first & others & Ems & _ & _ & Hd).
  split; [intros E; rewrite Ems in E; discriminate E|]. intros _.
  split; [exact Hd|]. subst r. rewrite Hd. fold details.
  rewrite List.Forall_forall. intros d Hin.
  apply filter_In in Hin as [Hin Hne]. split; [destruct d; [discriminate Hne|discriminate]|].
  apply in_map_iff in Hin as (piece & <- & Hpiece).
  apply all_chars_trim. unfold detail_char. apply all_chars_and.
  - pose proof (split_pieces not_upper "," details (toLowerCase_not_upper _)) as Hall.
    rewrite List.Forall_forall in Hall. now apply Hall.
  - pose proof (split_no_sep "," details) as Hall.
    rewrite List.Forall_forall in Hall. now apply Hall.
Qed.

(** ** Market search, the router and the declared parameters *)

Lemma base_band_In (brand : string) : In (base_band brand) (map snd baseValues).
Proof.
  unfold base_band. destruct (assoc brand baseValues) eqn:E.
  - apply assoc_In in E. apply (in_map snd) in E. exact E.
  - simpl. tauto.
Qed.

Lemma baseValues_ordered :
  Forall (fun b : Band.t => 30 <= Band.low b /\ Band.low b <= Band.high b) (map snd baseValues).
Proof. repeat (constructor; [cbn; lia|]). constructor. Qed.

Lemma era_multiplier_cases (era : string) :
  era_multiplier era = 18 # 10 \/ era_multiplier era = 14 # 10 \/
  era_multiplier era = 8 # 10 \/ era_multiplier era = 1 # 1.
Proof.
  unfold era_multiplier. destruct (_ || _); [auto|].
  destruct (includes "1990" era); [auto|]. destruct (includes "2000" era); auto.
Qed.

(** The prices of the three comparable sales, in terms of the band. *)
Lemma marketSearch_sales (args : Args) (rng : Rng) :
  let r := fst (marketSearch args rng) in
  let ev := MarketSearchResult.estimatedValue r in
  map ComparableSale.price (MarketSearchResult.comparableSales r)
  = [ num_add (EstimatedValue.mid ev) (Num (Math_round (rng 0%nat * inject_Z 50 - inject_Z 25)));
      num_sub (EstimatedValue.high ev) (Num (Math_round (rng 1%nat * inject_Z 50)));
      num_add (EstimatedValue.low ev) (Num (Math_round (rng 2%nat * inject_Z 30))) ] /\
  snd (marketSearch args rng) = fun n => rng (S (S (S n))).
Proof. split; reflexivity. Qed.

Lemma round_draw (r : Q) (k : Z) :
  (0 <= r)%Q -> (r < 1)%Q -> 0 <= k -> 0 <= Math_round (r * inject_Z k) <= k.
Proof.
  intros H0 H1 Hk.
  assert (Hk' : (0 <= inject_Z k)%Q)
    by (change 0%Q with (inject_Z 0); now rewrite <- Zle_Qle).
  split.
  - rewrite <- (Math_round_inject 0). apply Math_round_le.
    change (inject_Z 0) with 0%Q. now apply Qmult_le_0_compat.
  - rewrite <- (Math_round_inject k) at 2. apply Math_round_le.
    rewrite <- (Qmult_1_l (inject_Z k)) at 2.
    apply Qmult_le_compat_r; [now apply Qlt_le_weak|exact Hk'].
Qed.

(** X12.  Prices of [marketSearch].  For a brand that is not a member of
    [Object.prototype], and draws of [Math.random] in [0, 1): the band is
    positive with low <= mid <= high; the three comparable sales are priced
    within 25 of mid, at most 50 below high, and at most 30 above low; and
    the call consumes exactly three draws. *)
Theorem marketSearch_prices (args : Args) (rng : Rng) :
  mem (market_brand args) Object_prototype = false ->
  unit_draws rng ->
  exists low mid high p1 p2 p3,
    MarketSearchResult.estimatedValue (fst (marketSearch args rng))
      = EstimatedValue.mk (Num low) (Num mid) (Num high) "USD" /\
    0 < low /\ low <= mid /\ mid <= high /\
    map ComparableSale.price (MarketSearchResult.comparableSales (fst (marketSearch args rng)))
      = [Num p1; Num p2; Num p3] /\
    mid - 25 <= p1 <= mid + 25 /\
    high - 50 <= p2 <= high /\
    low <= p3 <= low + 30 /\
    forall n, snd (marketSearch args rng) n = rng (3 + n)%nat.
Proof.
  intros Hproto Hrng.
  destruct (marketSearch_band args rng Hproto) as (m & low & mid & high & Hev & Hl & Hh & Hmid & Hm).
  fold (era_multiplier (market_era args)) in Hm.
  pose proof (base_band_In (market_brand args)) as Hin.
  pose proof baseValues_ordered as Hord. rewrite List.Forall_forall in Hord.
  destruct (Hord _ Hin) as [Hb30 Hble].
  assert (Hmpos : (8 # 10 <= m)%Q).
  { rewrite Hm. destruct (era_multiplier_cases (market_era args)) as [-> |[-> |[-> | ->]]];
      unfold Qle; simpl; lia. }
  assert (Hm0 : (0 <= m)%Q) by (eapply Qle_trans; [|exact Hmpos]; unfold Qle; simpl; lia).
  assert (Hlow : 0 < low).
  { apply Z.lt_le_trans with 24; [lia|]. rewrite Zle_Qle, Hl.
    apply (Qle_trans _ (inject_Z 30 * (8 # 10))); [unfold Qle; simpl; lia|].
    apply (Qle_trans _ (inject_Z (Band.low (base_band (market_brand args))) * (8 # 10))).
    - apply Qmult_le_compat_r; [now rewrite <- Zle_Qle|unfold Qle; simpl; lia].
    - apply Qmult_le_l; [|exact Hmpos].
      apply Qlt_le_trans with (inject_Z 30); [reflexivity|now rewrite <- Zle_Qle]. }
  assert (Hlh : low <= high).
  { rewrite Zle_Qle, Hl, Hh. apply Qmult_le_compat_r; [now rewrite <- Zle_Qle|exact Hm0]. }
  assert (Hmid' : low <= mid <= high).
  { rewrite Hmid. split.
    - rewrite <- (Math_round_inject low) at 1. apply Math_round_le.
      apply Qle_shift_div_l; [reflexivity|]. rewrite <- inject_Z_mult, <- Zle_Qle. lia.
    - rewrite <- (Math_round_inject high) at 2. apply Math_round_le.
      apply Qle_shift_div_r; [reflexivity|]. rewrite <- inject_Z_mult, <- Zle_Qle. lia. }
  destruct (marketSearch_sales args rng) as [Hsales Hsnd]. cbv zeta in Hsales.
  rewrite Hev in Hsales. cbn [EstimatedValue.low EstimatedValue.mid EstimatedValue.high
                              num_add num_sub] in Hsales.
  destruct (Hrng 0%nat) as [H00 H01]. destruct (Hrng 1%nat) as [H10 H11].
  destruct (Hrng 2%nat) as [H20 H21].
  pose proof (round_draw _ 50 H10 H11 ltac:(lia)) as Hp2.
  pose proof (round_draw _ 30 H20 H21 ltac:(lia)) as Hp3.
  assert (Hp1 : -25 <= Math_round (rng 0%nat * inject_Z 50 - inject_Z 25) <= 25).
  { split.
    - rewrite <- (Math_round_inject (-25)). apply Math_round_le.
      apply (Qle_trans _ (0 * inject_Z 50 - inject_Z 25)); [unfold Qle; simpl; lia|].
      apply Qplus_le_compat; [|apply Qle_refl].
      apply Qmult_le_compat_r; [exact H00|unfold Qle; simpl; lia].
    - rewrite <- (Math_round_inject 25) at 2. apply Math_round_le.
      apply (Qle_trans _ (1 * inject_Z 50 - inject_Z 25)); [|unfold Qle; simpl; lia].
      apply Qplus_le_compat; [|apply Qle_refl].
      apply Qmult_le_compat_r; [now apply Qlt_le_weak|unfold Qle; simpl; lia]. }
  eexists low, mid, high, _, _, _.
  split; [exact Hev|]. split; [exact Hlow|]. split; [lia|]. split; [lia|].
  split; [exact Hsales|]. split; [lia|]. split; [lia|]. split; [lia|].
  intros n. rewrite Hsnd. reflexivity.
Qed.

Lemma sample_rng_unit : unit_draws sample_rng.
Proof.
  intros n. unfold sample_rng, Qle, Qlt. simpl. lia.
Qed.

Lemma marketSearch_prices_witness :
  exists low mid high,
    MarketSearchResult.estimatedValue
      (fst (marketSearch (<["brand" := "Supreme"]> {["era" := "1990s box logo"]}) sample_rng))
    = EstimatedValue.mk (Num low) (Num mid) (Num high) "USD" /\
    0 < low /\ low <= mid /\ mid <= high.
Proof.
  destruct (marketSearch_prices (<["brand" := "Supreme"]> {["era" := "1990s box logo"]})
              sample_rng)
    as (low & mid & high & p1 & p2 & p3 & Hev & Hl & Hm & Hh & _);
    [vm_compute; reflexivity|exact sample_rng_unit|].
  exists low, mid, high. auto.
Defined.

(** X13.  Trend and demand of [marketSearch] are read off the era argument
    alone: an era mentioning 1970 or 1980 is rising with very high demand,
    one mentioning 1990 (and neither of those) rising with high demand, any
    other stable with moderate demand.  A declining trend or a low demand
    is never reported. *)
Theorem marketSearch_trend (args : Args) (rng : Rng) :
  let era := market_era args in
  let r := fst (marketSearch args rng) in
  let early := includes "1970" era || includes "1980" era in
  MarketSearchResult.marketTrend r
    = (if early || includes "1990" era then rising else stable) /\
  MarketSearchResult.demandLevel r
    = (if early then demand_very_high
       else if includes "1990" era then demand_high else demand_moderate) /\
  MarketSearchResult.marketTrend r <> declining /\
  MarketSearchResult.demandLevel r <> demand_low.
Proof.
  intros era r early. subst r early era. unfold marketSearch. fold (market_era args).
  cbn [fst Math_random MarketSearchResult.marketTrend MarketSearchResult.demandLevel].
  destruct (includes "1970" (market_era args) || includes "1980" (market_era args));
    [cbn; repeat split; discriminate|].
  destruct (includes "1990" (market_era args)); [cbn; repeat split; discriminate|].
  destruct (includes "2000" (market_era args)); cbn; repeat split; discriminate.
Qed.

Lemma assoc_not_key {A} (k : string) (o : list (string * A)) :
  ~ In k (map fst o) -> assoc k o = None.
Proof.
  induction o as [|[k' v] o IH]; intros H; [reflexivity|].
  cbn [assoc]. destruct (String.eqb_spec k k') as [->|Hne].
  - exfalso. apply H. now left.
  - apply IH. intros Hin. apply H. now right.
Qed.

(** X14.  The tool router.  The names declared to the model are the names
    the router knows, in the same order.  For each of them the router
    returns the result of the tool, except that [brand_patterns] throws on
    the two inherited brand names.  Any other name that is not a member of
    [Object.prototype] is rejected with "Unknown tool: <name>", without
    drawing from [Math.random]; and an [Error] (as opposed to a TypeError)
    out of the router always is that rejection. *)
Theorem executeToolCall_router (name : string) (args : Args) (rng : Rng) :
  map FunctionDeclaration.name toolDeclarations = forensicTools /\
  (In name forensicTools ->
     (exists v, fst (executeToolCall name args rng) = Ok (Result v)) \/
     (name = "brand_patterns" /\
      (brand_key args = "constructor" \/ brand_key args = "__proto__") /\
      fst (executeToolCall name args rng)
      = Throw (TypeError "Cannot convert undefined or null to object"))) /\
  (~ In name forensicTools -> mem name Object_prototype = false ->
     executeToolCall name args rng = (Throw (Error ("Unknown tool: " ++ name)), rng)) /\
  (forall message, fst (executeToolCall name args rng) = Throw (Error message) ->
     message = "Unknown tool: " ++ name /\ ~ In name forensicTools).
Proof.
  split; [reflexivity|].
  assert (Hknown : In name forensicTools ->
            (exists v, fst (executeToolCall name args rng) = Ok (Result v)) \/
            (name = "brand_patterns" /\
             (brand_key args = "constructor" \/ brand_key args = "__proto__") /\
             fst (executeToolCall name args rng)
             = Throw (TypeError "Cannot convert undefined or null to object"))).
  { intros Hin. simpl in Hin. destruct Hin as [<-|[<-|[<-|[<-|[]]]]].
    - left. eexists. reflexivity.
    - unfold executeToolCall. cbn [get assoc TOOL_MAP String.eqb Ascii.eqb Bool.eqb].
      cbn [fst]. destruct (brandPatterns_outcome args) as [(r & Hr & _)|[Ht Hk]].
      + left. rewrite Hr. eexists. reflexivity.
      + right. rewrite Ht. auto.
    - left. eexists. reflexivity.
    - left. unfold executeToolCall. cbn [get assoc TOOL_MAP String.eqb Ascii.eqb Bool.eqb].
      destruct (marketSearch args rng) as [r rng']. eexists. reflexivity. }
  assert (Hunknown : ~ In name forensicTools -> mem name Object_prototype = false ->
            executeToolCall name args rng = (Throw (Error ("Unknown tool: " ++ name)), rng)).
  { intros Hnot Hmem. unfold executeToolCall, get.
    rewrite (assoc_not_key name TOOL_MAP Hnot), Hmem. reflexivity. }
  split; [exact Hknown|]. split; [exact Hunknown|].
  intros message H.
  destruct (in_dec string_dec name forensicTools) as [Hin|Hnot].
  - exfalso. destruct (Hknown Hin) as [[v Hv]|(_ & _ & Ht)]; rewrite H in *; discriminate.
  - destruct (mem name Object_prototype) eqn:Hmem.
    + exfalso. unfold executeToolCall, get in H.
      rewrite (assoc_not_key name TOOL_MAP Hnot), Hmem in H. cbn [fst] in H.
      destruct (String.eqb name "constructor"); [discriminate H|].
      destruct (String.eqb name "toString"); [discriminate H|].
      destruct (String.eqb name "__proto__"); discriminate H.
    + rewrite (Hunknown Hnot eq_refl) in H. injection H as <-. auto.
Qed.

Lemma lookup_agree (d : FunctionDeclaration.t) (args args' : Args) (p : string) :
  agree_on_declared d args args' ->
  In p (map fst (FunctionDeclaration.properties d)) -> p <> "category" ->
  args !! p = args' !! p.
Proof. intros H. apply H. Qed.

(** X15.  Each tool reads only the parameters its declaration lists, and
    [date_forensics] does not read [category], which its declaration
    requires: two argument maps that agree on the other declared parameters
    get the same outcome and leave [Math.random] in the same state. *)
Theorem tools_read_declared_parameters
    (d : FunctionDeclaration.t) (args args' : Args) (rng : Rng) :
  In d toolDeclarations ->
  agree_on_declared d args args' ->
  executeToolCall (FunctionDeclaration.name d) args rng
  = executeToolCall (FunctionDeclaration.name d) args' rng.
Proof.
  intros Hin Hagree. simpl in Hin.
  destruct Hin as [<-|[<-|[<-|[<-|[]]]]];
    unfold executeToolCall; cbn [FunctionDeclaration.name get assoc TOOL_MAP
                                 String.eqb Ascii.eqb Bool.eqb].
  - unfold rnLookup.
    rewrite (lookup_agree _ _ _ "rn_number" Hagree) by (simpl; auto || discriminate).
    reflexivity.
  - unfold brandPatterns.
    rewrite (lookup_agree _ _ _ "brand" Hagree) by (simpl; auto || discriminate).
    rewrite (lookup_agree _ _ _ "era" Hagree) by (simpl; auto || discriminate).
    rewrite (lookup_agree _ _ _ "markers" Hagree) by (simpl; auto || discriminate).
    reflexivity.
  - unfold dateForensics.
    rewrite (lookup_agree _ _ _ "construction_details" Hagree) by (simpl; auto || discriminate).
    rewrite (lookup_agree _ _ _ "materials" Hagree) by (simpl; auto || discriminate).
    reflexivity.
  - unfold marketSearch.
    rewrite (lookup_agree _ _ _ "item_description" Hagree) by (simpl; auto || discriminate).
    rewrite (lookup_agree _ _ _ "brand" Hagree) by (simpl; auto || discriminate).
    rewrite (lookup_agree _ _ _ "era" Hagree) by (simpl; auto || discriminate).
    reflexivity.
Qed.

Lemma tools_read_declared_parameters_witness :
  executeToolCall "date_forensics"
    (<["category" := "jacket"]> {["construction_details" := "talon zipper"]}) sample_rng
  = executeToolCall "date_forensics"
      (<["category" := "shoes"]> (<["size" := "L"]> {["construction_details" := "talon zipper"]}))
      sample_rng.
Proof.
  apply (tools_read_declared_parameters
           (nth 2 toolDeclarations (FunctionDeclaration.mk "" "" OBJECT [] []))).
  - simpl. tauto.
  - intros p Hp Hc. simpl in Hp. destruct Hp as [<-|[<-|[<-|[]]]]; [congruence| |];
      vm_compute; reflexivity.
Defined.

(** ** Image parts, report colours and demand *)

Lemma no_comma_cons c s :
  includes "," (String c s) = false -> Ascii.eqb c "," = false /\ includes "," s = false.
Proof.
  cbn [includes String.prefix]. intros H. apply orb_false_iff in H as [H1 H2].
  split; [|exact H2].
  destruct (Ascii.eqb_spec c ",") as [->|]; [|reflexivity].
  destruct (Ascii.ascii_dec "," ","); [|congruence]. now destruct s.
Qed.

Lemma split_comma_free s : includes "," s = false -> split "," s = [s].
Proof.
  induction s as [|c s IH]; intros H; [reflexivity|].
  apply no_comma_cons in H as [Hc Hs]. cbn [split]. rewrite Hc, (IH Hs). reflexivity.
Qed.

Lemma split_header header rest :
  includes "," header = false ->
  split "," (header ++ "," ++ rest) = header :: split "," rest.
Proof.
  induction header as [|c h IH]; intros H.
  - reflexivity.
  - apply no_comma_cons in H as [Hc Hh].
    change (String c h ++ "," ++ rest) with (String c (h ++ "," ++ rest)).
    cbn [split]. rewrite Hc, (IH Hh). reflexivity.
Qed.

(** X16.  A data URL is taken apart at its comma.  When neither the header
    nor the payload holds a comma, [imageToGenerativePart] returns exactly
    the payload of "header,payload", and returns a bare payload unchanged;
    the media type is "image/png" when that text occurs anywhere in the
    argument and "image/jpeg" otherwise, whatever type the header names. *)
Theorem imageToGenerativePart_data_url (header payload : string) :
  includes "," header = false ->
  includes "," payload = false ->
  imageToGenerativePart (header ++ "," ++ payload)
    = InlineData payload (mime_of (header ++ "," ++ payload)) /\
  imageToGenerativePart payload = InlineData payload (mime_of payload).
Proof.
  intros Hh Hp. unfold imageToGenerativePart, mime_of. split.
  - assert (Hc : includes "," (header ++ "," ++ payload) = true).
    { apply includes_spec. exists header, payload. reflexivity. }
    rewrite Hc, (split_header _ _ Hh), (split_comma_free _ Hp). reflexivity.
  - rewrite Hp. reflexivity.
Qed.

Lemma imageToGenerativePart_data_url_witness :
  imageToGenerativePart "data:image/webp;base64,UklGRg=="
  = InlineData "UklGRg==" "image/jpeg".
Proof.
  destruct (imageToGenerativePart_data_url "data:image/webp;base64" "UklGRg==") as [H _];
    [vm_compute; reflexivity|vm_compute; reflexivity|].
  exact H.
Defined.

(** X17.  The colours of the report follow the confidence level: two
    scores get the same text colour, and the same bar colour, exactly when
    [getConfidenceLevel] puts them on the same level; NaN is coloured like
    the scores below 35. *)
Theorem confidence_colours_follow_level (a b : number) :
  (getConfidenceLevel a = getConfidenceLevel b
   <-> Report.getConfidenceColor a = Report.getConfidenceColor b) /\
  (getConfidenceLevel a = getConfidenceLevel b
   <-> Report.getConfidenceBarColor a = Report.getConfidenceBarColor b) /\
  Report.getConfidenceColor NaN = Report.getConfidenceColor (Num 34) /\
  Report.getConfidenceBarColor NaN = Report.getConfidenceBarColor (Num 34).
Proof.
  unfold getConfidenceLevel, Report.getConfidenceColor, Report.getConfidenceBarColor.
  destruct (num_ge a (Num 90)), (num_ge a (Num 75)), (num_ge a (Num 55)), (num_ge a (Num 35)),
           (num_ge b (Num 90)), (num_ge b (Num 75)), (num_ge b (Num 55)), (num_ge b (Num 35));
    (split; [|split; [|split; reflexivity]]); split; intros H;
    try reflexivity; discriminate H.
Qed.

(** X18.  Demand and trend of a parsed report.  The demand level is
    [high] exactly when the parsed confidence exceeds 75 and [moderate]
    otherwise, and the trend is always [stable].  A high demand comes with
    a confidence level of at least [high]; at a confidence of exactly 75
    the level is [high] and the demand [moderate]. *)
Theorem parse_demand_follows_confidence (text : string) (startTime : Z) (clock : Clock) :
  let r := fst (parseAuthenticationResponse text startTime clock) in
  let demand := MarketSearchResult.demandLevel (AuthenticationResult.marketData r) in
  exists c,
    AuthenticationResult.confidence r = Num c /\
    (demand = demand_high <-> 75 < c) /\
    (demand = demand_moderate <-> c <= 75) /\
    (demand = demand_high ->
       AuthenticationResult.confidenceLevel r = high \/
       AuthenticationResult.confidenceLevel r = very_high) /\
    (c = 75 -> AuthenticationResult.confidenceLevel r = high /\ demand = demand_moderate) /\
    MarketSearchResult.marketTrend (AuthenticationResult.marketData r) = stable.
Proof.
  intros r demand.
  destruct (parsed_confidence text startTime clock) as (c & Hc & Hr & _). fold r in Hc.
  exists c. split; [exact Hc|].
  assert (Hd : demand = if num_gt (Num c) (Num 75) then demand_high else demand_moderate).
  { rewrite <- Hc. reflexivity. }
  assert (Hl : AuthenticationResult.confidenceLevel r = getConfidenceLevel (Num c)).
  { rewrite <- Hc. reflexivity. }
  rewrite Hd, Hl. unfold getConfidenceLevel. cbn [num_gt num_lt num_ge].
  destruct (75 <? c) eqn:E; [apply Z.ltb_lt in E|apply Z.ltb_ge in E].
  - split; [tauto|]. split; [split; [discriminate|lia]|].
    split; [|split; [lia|reflexivity]].
    intros _. destruct (90 <=? c); [now right|].
    destruct (75 <=? c) eqn:E2; [now left|apply Z.leb_gt in E2; lia].
  - split; [split; [discriminate|lia]|]. split; [tauto|].
    split; [discriminate|]. split; [|reflexivity].
    intros ->. split; reflexivity.
Qed.

(** ** Years and values read from the response *)

Lemma In_all_ascii c : In c all_ascii.
Proof.
  unfold all_ascii. rewrite <- (ascii_nat_embedding c). apply in_map.
  apply in_seq. pose proof (nat_ascii_bounded c). lia.
Qed.

Lemma all_chars_app p a b :
  all_chars p (a ++ b) = all_chars p a && all_chars p b.
Proof.
  induction a as [|c a IH]; [reflexivity|].
  change (all_chars p (String c (a ++ b)) = all_chars p (String c a) && all_chars p b).
  cbn [all_chars]. now rewrite IH, andb_assoc.
Qed.

Lemma consumed_refl st : consumed "" st st.
Proof. unfold consumed. repeat split. simpl. lia. Qed.

(** What a pattern within [q] matches is text within [q]. *)
Lemma within_sound q r st st' :
  matches r st st' -> within q r = true ->
  exists d, all_chars q d = true /\ consumed d st st'.
Proof.
  induction 1 as [st|p c s' st Hrest Hp|r1 r2 st st1 st2 H1 IH1 H2 IH2|r1 r2 st st1 H1 IH1
                 |r1 r2 st st1 H1 IH1|g r st|g r st st1 st2 H1 IH1 Hpr H2 IH2
                 |i r st st1 H1 IH1|st Hpos|st Hrest|st Hx];
    cbn [within]; intros Hw.
  - exists "". split; [reflexivity|apply consumed_refl].
  - exists (String c ""). split.
    + rewrite forallb_forall in Hw. pose proof (Hw c (In_all_ascii c)) as Hc.
      rewrite Hp in Hc. simpl in Hc. simpl. now rewrite Hc.
    + unfold consumed, advance; simpl. repeat split; [assumption|lia].
  - apply andb_true_iff in Hw as [Hw1 Hw2].
    destruct (IH1 Hw1) as (d1 & Hd1 & Hc1). destruct (IH2 Hw2) as (d2 & Hd2 & Hc2).
    exists (d1 ++ d2). split; [now rewrite all_chars_app, Hd1, Hd2|].
    eapply consumed_app; eauto.
  - apply andb_true_iff in Hw as [Hw1 Hw2]. auto.
  - apply andb_true_iff in Hw as [Hw1 Hw2]. auto.
  - exists "". split; [reflexivity|apply consumed_refl].
  - destruct (IH1 Hw) as (d1 & Hd1 & Hc1). destruct (IH2 Hw) as (d2 & Hd2 & Hc2).
    exists (d1 ++ d2). split; [now rewrite all_chars_app, Hd1, Hd2|].
    eapply consumed_app; eauto.
  - discriminate Hw.
  - exists "". split; [reflexivity|apply consumed_refl].
  - exists "". split; [reflexivity|apply consumed_refl].
  - exists "". split; [reflexivity|apply consumed_refl].
Qed.

(** The capture a group records for consumed text. *)
Lemma group_captures i r d st st1 :
  matches r st st1 -> consumed d st st1 ->
  caps (set_cap i st st1) = (i, d) :: caps st.
Proof.
  intros _ (Hrest & Hpos & Hcaps). unfold set_cap. cbn [caps]. rewrite Hcaps. f_equal. f_equal.
  rewrite Hpos, Hrest.
  replace (pos st + String.length d - pos st)%nat with (String.length d) by lia.
  apply substring_prefix.
Qed.

Lemma consumed_length d st st' :
  consumed d st st' -> String.length (rest st) = (String.length d + String.length (rest st'))%nat.
Proof. intros (H & _). rewrite H. apply length_append. Qed.

Lemma four_digits_group i st st' :
  matches (Group i (rep 4 digit)) st st' ->
  exists d, four_digits d /\ caps st' = (i, d) :: caps st.
Proof.
  inversion 1 as [| | | | | | |j r s0 s1 Hm| | |]; subst.
  pose proof Hm as Hm'. cbn [rep] in Hm'. split_seq Hm'.
  repeat match goal with
         | H : matches digit _ _ |- _ =>
             apply digit_consumed in H as (? & ? & ?)
         end.
  match goal with
  | H1 : consumed (String ?a "") st ?s1, H2 : consumed (String ?b "") ?s1 ?s2,
    H3 : consumed (String ?c "") ?s2 ?s3, H4 : consumed (String ?e "") ?s3 _ |- _ =>
      pose proof (consumed_app _ _ _ _ _ H1 (consumed_app _ _ _ _ _ H2
                    (consumed_app _ _ _ _ _ H3 H4))) as Hc;
      exists (String a (String b (String c (String e ""))))
  end.
  split.
  - split; [|reflexivity]. cbn [all_chars].
    repeat match goal with H : is_digit _ = true |- _ => rewrite H; clear H end. reflexivity.
  - eapply group_captures; [exact Hm|exact Hc].
Qed.

Lemma parseInt_four_digits d :
  four_digits d -> exists y, parseInt d = Num y /\ 0 <= y <= 9999.
Proof.
  intros [Hd Hlen]. rewrite (parseInt_exact d Hd) by lia.
  exists (decimal_value d). split; [reflexivity|].
  split; [now apply decimal_value_nonneg|].
  pose proof (decimal_value_lt d Hd) as Hb. rewrite Hlen in Hb.
  change (10 ^ Z.of_nat 4) with 10000 in Hb. lia.
Qed.

(** The two groups of a year pair are four digits each. *)
Lemma year_pair_groups text m :
  exec year_pair text = Some m ->
  exists d1 d2, four_digits d1 /\ four_digits d2 /\
                group m 1 = Some d1 /\ group m 2 = Some d2.
Proof.
  intros H. apply exec_sound in H as (st & st' & Hm & Hg).
  unfold year_pair in Hm. split_seq Hm.
  repeat match goal with
         | H : matches (Group ?i _) _ _ |- _ =>
             apply (four_digits_group i) in H as (? & ? & ?)
         end.
  repeat match goal with
         | Hm : matches ?r ?a ?b, Hc : context [caps ?b] |- _ =>
             rewrite (group_free_caps r a b Hm eq_refl) in Hc
         end.
  match goal with
  | H1 : caps _ = (1%nat, ?d1) :: _, H2 : caps st' = (2%nat, ?d2) :: _ |- _ =>
      exists d1, d2; rewrite H1 in H2; unfold group; rewrite Hg, H2
  end.
  split; [assumption|]. split; [assumption|]. split; reflexivity.
Qed.

(** X19.  The year range of a parsed report is never NaN: each end is a
    number between 0 and 9999, read from four digits, and is 1970 and 2000
    when the text holds no pair of years.  The same pair is reported under
    [brandEra] and under [dateForensics].  The ends come in the order of
    the text, so the first can exceed the second. *)
Theorem parse_yearRange_digits (text : string) (startTime : Z) (clock : Clock) :
  let r := fst (parseAuthenticationResponse text startTime clock) in
  (exists a b,
     BrandEra.yearRange (AuthenticationResult.brandEra r) = (Num a, Num b) /\
     DateForensicsResult.yearRange (AuthenticationResult.dateForensics r) = (Num a, Num b) /\
     0 <= a <= 9999 /\ 0 <= b <= 9999 /\
     (exec year_pair text = None -> a = 1970 /\ b = 2000)) /\
  BrandEra.yearRange
    (AuthenticationResult.brandEra
       (fst (parseAuthenticationResponse "Made 2000-1990" startTime clock)))
  = (Num 2000, Num 1990).
Proof.
  intros r. split; [|vm_compute; reflexivity].
  subst r. unfold parseAuthenticationResponse.
  cbn [fst AuthenticationResult.brandEra AuthenticationResult.dateForensics
       BrandEra.yearRange DateForensicsResult.yearRange].
  destruct (exec year_pair text) as [m|] eqn:E.
  - destruct (year_pair_groups text m E) as (d1 & d2 & H1 & H2 & G1 & G2).
    unfold parseInt_group. rewrite G1, G2.
    change (default "undefined" (Some d1)) with d1.
    change (default "undefined" (Some d2)) with d2.
    destruct (parseInt_four_digits d1 H1) as (a & -> & Ha).
    destruct (parseInt_four_digits d2 H2) as (b & -> & Hb).
    exists a, b. repeat split; try lia; discriminate.
  - exists 1970, 2000. repeat split; lia.
Qed.

Lemma amount_matches st st' :
  matches amount st st' -> exists d, amount_text d /\ consumed d st st'.
Proof.
  intros H.
  destruct (within_sound digit_or_comma amount st st' H) as (d & Hd & Hc);
    [vm_compute; reflexivity|].
  exists d. split; [|exact Hc]. split; [exact Hd|].
  unfold amount, plus in H. split_seq H.
  match goal with
  | Hm : matches (Seq digit _) _ _ |- _ => split_seq Hm
  end.
  match goal with
  | H1 : matches digit st ?s1 |- _ =>
      apply digit_consumed in H1 as (c & Hdigit & Hc1);
      assert (Hrest : exists d', consumed d' s1 st')
  end.
  { repeat match goal with
           | Hm : matches ?r ?a ?b |- _ =>
               apply (within_sound digit_or_comma) in Hm as (? & _ & ?);
               [|vm_compute; reflexivity]
           end.
    eexists. eapply consumed_app; eauto. }
  destruct Hrest as (d' & Hc').
  pose proof (consumed_app _ _ _ _ _ Hc1 Hc') as Hall.
  destruct Hc as (Hr1 & _). destruct Hall as (Hr2 & _).
  rewrite Hr1 in Hr2.
  assert (Hlen : String.length d = S (String.length d')).
  { pose proof (f_equal String.length Hr2) as Hl. rewrite !length_append in Hl.
    simpl in Hl. lia. }
  exists c. destruct d as [|x d0]; [discriminate Hlen|].
  change (String x d0 ++ rest st') with (String x (d0 ++ rest st')) in Hr2.
  change ((String c "" ++ d') ++ rest st') with (String c (d' ++ rest st')) in Hr2.
  injection Hr2 as -> _. exists d0. split; [reflexivity|exact Hdigit].
Qed.

Lemma amount_group i st st' :
  matches (Group i amount) st st' ->
  exists d, amount_text d /\ caps st' = (i, d) :: caps st.
Proof.
  inversion 1 as [| | | | | | |j r s0 s1 Hm| | |]; subst.
  destruct (amount_matches _ _ Hm) as (d & Hd & Hc).
  exists d. split; [exact Hd|]. eapply group_captures; eauto.
Qed.

Lemma strip_commas_digits d :
  all_chars digit_or_comma d = true -> all_chars is_digit (strip_commas d) = true.
Proof.
  induction d as [|c d IH]; [reflexivity|]. cbn [all_chars]. intros H.
  apply andb_true_iff in H as [Hc Hd]. unfold strip_commas in *. cbn [filter_chars].
  destruct (Ascii.eqb c ",") eqn:E; cbn [negb]; [now apply IH|].
  cbn [all_chars]. unfold digit_or_comma in Hc. rewrite E, orb_false_r in Hc.
  now rewrite Hc, IH.
Qed.

Lemma parseInt_amount d :
  amount_text d ->
  parseInt (strip_commas d) = number_of_Z (decimal_value (strip_commas d)) /\
  0 <= decimal_value (strip_commas d).
Proof.
  intros (Hall & c & d' & -> & Hc).
  rewrite (parseInt_digits _ (strip_commas_digits _ Hall)).
  assert (Hne : nonempty (strip_commas (String c d')) = true).
  { unfold strip_commas. cbn [filter_chars].
    destruct (Ascii.eqb c ",") eqn:E; [|reflexivity].
    apply Ascii.eqb_eq in E. subst c. discriminate Hc. }
  rewrite Hne. split; [reflexivity|].
  apply decimal_value_nonneg, strip_commas_digits, Hall.
Qed.

Lemma amount_number_parsed d : amount_text d -> amount_number (parseInt (strip_commas d)).
Proof.
  intros H. destruct (parseInt_amount d H) as [-> H0]. now apply number_of_Z_value.
Qed.

Lemma amount_number_zero : amount_number (Num 0).
Proof. right. exists 0. split; [reflexivity|]. split; [lia|]. now left. Qed.

Lemma midpoint_amounts low high :
  amount_number low -> amount_number high ->
  num_ge low (Num 0) = true /\ num_ge high (Num 0) = true /\
  num_ge (midpoint low high) (Num 0) = true /\
  (forall l h, low = Num l -> high = Num h ->
     midpoint low high = Infinity false \/
     exists m, midpoint low high = Num m /\ Z.min l h <= m <= Z.max l h) /\
  (forall l h, low = Num l -> high = Num h -> l + h < 2 ^ 53 ->
     midpoint low high = Num (Math_round (inject_Z (l + h) / inject_Z 2))).
Proof.
  intros [->|(l & -> & Hl & Rl)] [->|(h & -> & Hh & Rh)].
  - repeat split; try reflexivity; intros; discriminate.
  - repeat split; try reflexivity; try (apply Z.leb_le; exact Hh); intros; discriminate.
  - repeat split; try reflexivity; try (apply Z.leb_le; exact Hl); intros; discriminate.
  - split; [apply Z.leb_le; exact Hl|]. split; [apply Z.leb_le; exact Hh|].
    pose proof (midpoint_between l h Hl Hh Rl Rh) as HM.
    split; [|split].
    + destruct HM as [->|(m & -> & Hm)]; [reflexivity|]. apply Z.leb_le. lia.
    + intros l' h' [= <-] [= <-]. exact HM.
    + intros l' h' [= <-] [= <-] Hs. apply midpoint_small. lia.
Qed.

Lemma value_pair_groups text m :
  exec value_pair text = Some m ->
  exists d1 d2, amount_text d1 /\ amount_text d2 /\
                group m 1 = Some d1 /\ group m 2 = Some d2.
Proof.
  intros H. apply exec_sound in H as (st & st' & Hm & Hg).
  unfold value_pair in Hm. split_seq Hm.
  repeat match goal with
         | H : matches (Group ?i _) _ _ |- _ =>
             apply (amount_group i) in H as (? & ? & ?)
         end.
  repeat match goal with
         | Hm : matches ?r ?a ?b, Hc : context [caps ?b] |- _ =>
             rewrite (group_free_caps r a b Hm eq_refl) in Hc
         end.
  match goal with
  | H1 : caps _ = (1%nat, ?d1) :: _, H2 : caps st' = (2%nat, ?d2) :: _ |- _ =>
      exists d1, d2; rewrite H1 in H2; unfold group; rewrite Hg, H2
  end.
  split; [assumption|]. split; [assumption|]. split; reflexivity.
Qed.

(** X20.  The estimated value of a parsed report is never NaN: low and
    high are the binary64 numbers of the digits of the first "$low - $high"
    of the text, commas dropped, both 0 when there is none; they are not
    below zero, and infinite when beyond every finite binary64 number.  Mid is their mean
    rounded, which lies between them unless the sum overflows, and is the
    exact mean rounded half up when the sum is below 2^53.  A long amount
    is rounded: 99999999999999999999 is read as 10^20. *)
Theorem parse_estimated_value (text : string) (startTime : Z) (clock : Clock) :
  let r := fst (parseAuthenticationResponse text startTime clock) in
  (exists low high,
     MarketSearchResult.estimatedValue (AuthenticationResult.marketData r)
       = EstimatedValue.mk low (midpoint low high) high "USD" /\
     num_ge low (Num 0) = true /\ num_ge high (Num 0) = true /\
     num_ge (midpoint low high) (Num 0) = true /\
     (forall l h, low = Num l -> high = Num h ->
        midpoint low high = Infinity false \/
        exists m, midpoint low high = Num m /\ Z.min l h <= m <= Z.max l h) /\
     (forall l h, low = Num l -> high = Num h -> l + h < 2 ^ 53 ->
        midpoint low high = Num (Math_round (inject_Z (l + h) / inject_Z 2))) /\
     (exec value_pair text = None -> low = Num 0 /\ high = Num 0) /\
     (forall m, exec value_pair text = Some m ->
        exists d1 d2,
          group m 1 = Some d1 /\ group m 2 = Some d2 /\
          amount_text d1 /\ amount_text d2 /\
          low = number_of_Z (decimal_value (strip_commas d1)) /\
          high = number_of_Z (decimal_value (strip_commas d2)))) /\
  MarketSearchResult.estimatedValue
    (AuthenticationResult.marketData
       (fst (parseAuthenticationResponse "$99999999999999999999 - $3" startTime clock)))
  = EstimatedValue.mk (Num (10 ^ 20)) (Num (5 * 10 ^ 19)) (Num 3) "USD" /\
  midpoint (number_of_Z (10 ^ 308)) (number_of_Z (10 ^ 308)) = Infinity false.
Proof.
  intros r. split; [|split; vm_compute; reflexivity].
  subst r. unfold parseAuthenticationResponse.
  cbn [fst AuthenticationResult.marketData MarketSearchResult.estimatedValue].
  destruct (exec value_pair text) as [m|] eqn:E.
  - destruct (value_pair_groups text m E) as (d1 & d2 & H1 & H2 & G1 & G2).
    rewrite G1, G2. change (default "" (Some d1)) with d1. change (default "" (Some d2)) with d2.
    destruct (midpoint_amounts _ _ (amount_number_parsed d1 H1) (amount_number_parsed d2 H2))
      as (A1 & A2 & A3 & A4 & A5).
    eexists _, _. split; [reflexivity|].
    do 5 (split; [assumption|]). split; [discriminate|].
    intros m' [= <-]. exists d1, d2.
    split; [exact G1|]. split; [exact G2|]. split; [exact H1|]. split; [exact H2|].
    split; [apply (parseInt_amount d1 H1)|apply (parseInt_amount d2 H2)].
  - destruct (midpoint_amounts _ _ amount_number_zero amount_number_zero)
      as (A1 & A2 & A3 & A4 & A5).
    exists (Num 0), (Num 0). split; [reflexivity|].
    do 5 (split; [assumption|]). split; [auto|discriminate].
Qed.

(** ** Runs: clock, progress, conversation and failures *)

Lemma leaves_refl w : leaves w w [] [].
Proof. split; [apply appends_refl|reflexivity]. Qed.

Lemma leaves_trans w1 w2 w3 e1 e2 m1 m2 :
  leaves w1 w2 e1 m1 -> leaves w2 w3 e2 m2 ->
  leaves w1 w3 (e1 ++ e2)%list (m1 ++ m2)%list.
Proof.
  intros [Ha1 Hc1] [Ha2 Hc2]. split; [eapply appends_trans; eauto|congruence].
Qed.

Lemma onProgress_leaves p w o w' :
  onProgress p w = (o, w') -> o = Ok tt /\ leaves w w' [p] [].
Proof.
  intros H. pose proof (onProgress_appends _ _ _ _ H) as [Ho Ha].
  split; [exact Ho|]. split; [exact Ha|].
  unfold onProgress in H. injection H as _ <-. reflexivity.
Qed.

Lemma sendMessage_leaves chat message w o w' :
  sendMessage chat message w = (o, w') ->
  leaves w w' [] [message] /\ o = chat (World.sent w ++ [message])%list.
Proof.
  intros H. pose proof (sendMessage_effect _ _ _ _ _ H) as [Ha Ho].
  unfold sendMessage in H. injection H as <- <-.
  split; [split; [exact Ha|reflexivity]|reflexivity].
Qed.

Lemma runCall_leaves call w :
  exists o w',
    runCall call w = (Ok o, w') /\ settled_response o /\
    leaves w w' (call_events [o]) [] /\
    o = match fst (executeToolCall (FunctionCall.name call) (FunctionCall.args call)
                     (World.rng w)) with
        | Ok v => Ok (FunctionResponse (FunctionCall.name call) v)
        | Throw e => Throw e
        end.
Proof.
  destruct (runCall_effect call w) as (o & w' & Hrun & Hs & Ha & Ho).
  exists o, w'. split; [exact Hrun|]. split; [exact Hs|]. split; [|exact Ho].
  split; [exact Ha|]. unfold runCall, bind, withRng in Hrun.
  destruct (executeToolCall _ _ (World.rng w)) as [[v|e] rng']; simpl in Hrun;
    injection Hrun as _ <-; reflexivity.
Qed.

Lemma runCalls_leaves calls : forall w,
  exists settled w',
    runCalls calls w = (Ok settled, w') /\
    Forall settled_response settled /\
    leaves w w' (call_events settled) [].
Proof.
  induction calls as [|call calls IH]; intros w.
  - exists [], w. split; [reflexivity|]. split; [constructor|apply leaves_refl].
  - cbn [runCalls]. destruct (runCall_leaves call w) as (o & w1 & H1 & Hr1 & Ha1 & _).
    destruct (IH w1) as (settled & w2 & H2 & Hr2 & Ha2).
    exists (o :: settled), w2. unfold bind. rewrite H1, H2. split; [reflexivity|].
    split; [now constructor|].
    pose proof (leaves_trans _ _ _ _ _ _ _ Ha1 Ha2) as Ha. simpl in Ha.
    rewrite app_nil_r in Ha. exact Ha.
Qed.

Lemma call_events_tool settled : Forall tool_event (call_events settled).
Proof.
  induction settled as [|o settled IH]; [constructor|].
  cbn [call_events flat_map]. apply Forall_app. split; [|exact IH].
  destruct o as [[| |name v]|e]; constructor; [|constructor].
  repeat split.
Qed.

(** One round: its events belong to the tool-calling step, and it sends at
    most one message, a tool-response turn. *)
Lemma round_leaves chat calls c w o w' :
  round chat calls c w = (o, w') ->
  exists events messages,
    leaves w w' events messages /\
    Forall tool_event events /\
    ((messages = [] /\ exists e, o = Throw e) \/
     (exists parts, messages = [parts] /\ tool_turn parts = true)).
Proof.
  unfold round. intros H.
  apply bind_inv in H as [(u & w1 & H1 & H)|(e & H1 & _)]; [|discriminate H1].
  apply onProgress_leaves in H1 as [_ Ha1].
  destruct (runCalls_leaves calls w1) as (settled & w2 & H2 & Hr & Ha2).
  unfold bind at 1 in H. rewrite H2 in H. unfold bind, lift in H.
  pose proof (leaves_trans _ _ _ _ _ _ _ Ha1 Ha2) as Ha12.
  assert (Hev : Forall tool_event
                  ([progress_event tool_calling
                      ("Executing forensic tools (" ++ show c ++ "/"
                         ++ show (Z.of_nat (length calls)) ++ ")...") 3
                      (FunctionCall.name <$> head calls) None] ++ call_events settled)%list).
  { apply Forall_app. split; [|apply call_events_tool].
    constructor; [repeat split|constructor]. }
  destruct (all_settled settled) as [parts|e] eqn:Es.
  - destruct (sendMessage chat parts w2) as [o' w3] eqn:Hsend.
    injection H as <- <-.
    apply sendMessage_leaves in Hsend as [Ha3 _].
    pose proof (leaves_trans _ _ _ _ _ _ _ Ha12 Ha3) as Ha.
    rewrite app_nil_r in Ha. simpl in Ha.
    eexists _, [parts]. split; [exact Ha|]. split; [exact Hev|].
    right. exists parts. split; [reflexivity|].
    now destruct (all_settled_parts _ _ Es Hr).
  - injection H as <- <-. eexists _, []. split; [exact Ha12|]. split; [exact Hev|].
    left. split; [reflexivity|eauto].
Qed.

(** The loop: tool-calling events and tool-response turns only, no more
    turns than the ceiling leaves. *)
Lemma toolLoop_leaves chat : forall fuel result c w o w',
  toolLoop fuel chat result c w = (o, w') ->
  exists events messages,
    leaves w w' events messages /\
    Forall tool_event events /\
    Forall (fun m => tool_turn m = true) messages /\
    (length messages <= Z.to_nat (maxToolCalls - c))%nat.
Proof.
  assert (Hnone : forall w n, exists events messages,
            leaves w w events messages /\ Forall tool_event events /\
            Forall (fun m => tool_turn m = true) messages /\ (length messages <= n)%nat).
  { intros w n. exists [], []. split; [apply leaves_refl|].
    split; [constructor|]. split; [constructor|simpl; lia]. }
  induction fuel as [|fuel IH]; intros result c w o w' H.
  - rewrite toolLoop_O in H.
    destruct (Response.functionCalls result) as [[calls|]|e]; injection H as _ <-;
      apply Hnone.
  - rewrite toolLoop_S in H.
    destruct (Response.functionCalls result) as [[calls|]|e];
      try (injection H as _ <-; apply Hnone).
    destruct (c <? maxToolCalls) eqn:Hc; [|injection H as _ <-; apply Hnone].
    apply Z.ltb_lt in Hc. unfold maxToolCalls in *.
    apply bind_inv in H as [(r & w1 & Hround & Hloop)|(e & Hround & _)].
    + apply round_leaves in Hround as (ev1 & ms1 & Ha1 & He1 & Hm1).
      apply IH in Hloop as (ev2 & ms2 & Ha2 & He2 & Hm2 & Hlen).
      exists (ev1 ++ ev2)%list, (ms1 ++ ms2)%list.
      split; [eapply leaves_trans; eauto|]. split; [apply Forall_app; auto|].
      destruct Hm1 as [[-> _]|(parts & -> & Ht)].
      * split; [exact Hm2|]. simpl. unfold maxToolCalls in *. lia.
      * split; [constructor; assumption|]. simpl. unfold maxToolCalls in *. lia.
    + apply round_leaves in Hround as (ev1 & ms1 & Ha1 & He1 & Hm1).
      exists ev1, ms1. split; [exact Ha1|]. split; [exact He1|].
      destruct Hm1 as [[-> _]|(parts & -> & Ht)].
      * split; [constructor|simpl; lia].
      * split; [constructor; [exact Ht|constructor]|simpl; lia].
Qed.

Lemma parse_readings text startTime w :
  parse text startTime w
  = (Ok (fst (parseAuthenticationResponse text startTime (World.clock w))),
     World.mk (World.rng w) (fun n => World.clock w (S (S n))) (World.sent w)
              (World.progress w)).
Proof. reflexivity. Qed.

Lemma parsed_readings text startTime clock :
  let r := fst (parseAuthenticationResponse text startTime clock) in
  AuthenticationResult.timestamp r = clock 0%nat /\
  AuthenticationResult.processingTime r = clock 1%nat - startTime.
Proof. split; reflexivity. Qed.

(** Steps 1 to 4, however they end. *)
Lemma analyse_trace hosted mergedConfig imageData startTime w o w' :
  analyse hosted mergedConfig imageData startTime w = (o, w') ->
  (exists e, createClient mergedConfig = Throw e /\ o = Throw e /\
             leaves w w' [initializing] []) \/
  (exists key tools turns,
     createClient mergedConfig = Ok key /\
     Forall tool_event tools /\
     Forall (fun m => tool_turn m = true) turns /\ (length turns <= 8)%nat /\
     ((exists e tail,
         o = Throw e /\ (tail = [] \/ tail = [synthesizing]) /\
         leaves w w' ([initializing; sending] ++ tools ++ tail)%list
                (first_message imageData :: turns)) \/
      (exists text,
         o = Ok (hosted key (GeminiConfig.model mergedConfig),
                 fst (parseAuthenticationResponse text startTime (World.clock w))) /\
         appends w w' ([initializing; sending] ++ tools ++ [synthesizing])%list
                 (first_message imageData :: turns) /\
         World.clock w' = fun n => World.clock w (S (S n))))).
Proof.
  unfold analyse. intros H.
  apply bind_inv in H as [(u & w1 & H1 & H)|(e & H1 & _)]; [|discriminate H1].
  apply onProgress_leaves in H1 as [_ Ha1]. fold initializing in Ha1.
  apply bind_inv in H as [(key & w2 & Hkey & H)|(e & Hkey & ->)];
    apply lift_effect in Hkey as [Hkey ->];
    [|left; exists e; auto].
  right. exists key.
  apply bind_inv in H as [(u2 & w2 & H2 & H)|(e & H2 & _)]; [|discriminate H2].
  apply onProgress_leaves in H2 as [_ Ha2]. fold sending in Ha2.
  pose proof (leaves_trans _ _ _ _ _ _ _ Ha1 Ha2) as Ha12. simpl in Ha12.
  apply bind_inv in H as [(result & w3 & Hsend & H)|(e & Hsend & ->)];
    apply sendMessage_leaves in Hsend as [Ha3 _];
    pose proof (leaves_trans _ _ _ _ _ _ _ Ha12 Ha3) as Ha123; simpl in Ha123;
    fold (first_message imageData) in Ha123.
  2:{ exists [], []. split; [auto|]. split; [constructor|]. split; [constructor|].
      split; [simpl; lia|]. left. exists e, []. split; [reflexivity|]. split; [now left|].
      exact Ha123. }
  apply bind_inv in H as [(result' & w4 & Hloop & H)|(e & Hloop & ->)];
    apply toolLoop_leaves in Hloop as (tools & turns & Ha4 & Htools & Hturns & Hlen);
    change (Z.to_nat (maxToolCalls - 0)) with 8%nat in Hlen;
    pose proof (leaves_trans _ _ _ _ _ _ _ Ha123 Ha4) as Ha1234; simpl in Ha1234;
    exists tools, turns; (split; [auto|]); (split; [exact Htools|]);
    (split; [exact Hturns|]); (split; [exact Hlen|]).
  2:{ left. exists e, []. split; [reflexivity|]. split; [now left|].
      rewrite app_nil_r. exact Ha1234. }
  apply bind_inv in H as [(u5 & w5 & H5 & H)|(e & H5 & _)]; [|discriminate H5].
  apply onProgress_leaves in H5 as [_ Ha5]. fold synthesizing in Ha5.
  pose proof (leaves_trans _ _ _ _ _ _ _ Ha1234 Ha5) as Ha. simpl in Ha.
  rewrite app_nil_r in Ha.
  apply bind_inv in H as [(text & w6 & Htext & H)|(e & Htext & ->)];
    apply lift_effect in Htext as [Htext ->].
  2:{ left. exists e, [synthesizing]. split; [reflexivity|]. split; [now right|]. exact Ha. }
  right. exists text. rewrite (bind_step _ _ _ _ _ (parse_readings text startTime w5)) in H.
  unfold ret in H. injection H as <- <-. destruct Ha as [[Hp Hs] Hc]. rewrite Hc.
  split; [reflexivity|]. split; [|reflexivity]. split; simpl; assumption.
Qed.

(** Step 5 and the closing event, however they end. *)
Lemma selfCorrect_trace chat mergedConfig startTime authResult w o w' :
  selfCorrect chat mergedConfig startTime authResult w = (o, w') ->
  let c := AuthenticationResult.confidence authResult in
  (below_threshold c (GeminiConfig.selfCorrectionThreshold mergedConfig) = false /\
   o = Ok authResult /\
   exists last, final_event last /\ leaves w w' [last] []) \/
  (below_threshold c (GeminiConfig.selfCorrectionThreshold mergedConfig) = true /\
   ((exists e, o = Throw e /\ leaves w w' [reanalyzing c] [[Text (correctionPrompt c)]]) \/
    (exists text last,
       let corrected := fst (parseAuthenticationResponse text startTime (World.clock w)) in
       o = Ok (if num_gt (AuthenticationResult.confidence corrected) c
               then corrected else authResult) /\
       final_event last /\
       appends w w' [reanalyzing c; last] [[Text (correctionPrompt c)]]))).
Proof.
  intros H c. unfold selfCorrect in H.
  assert (Hfinish : forall w o w',
    bind (onProgress (progress_event complete
            ("Authentication complete: "
               ++ show_number (AuthenticationResult.confidence authResult)
               ++ "% confidence") 6 None None)) (fun _ => ret authResult) w = (o, w') ->
    o = Ok authResult /\ exists last, final_event last /\ leaves w w' [last] []).
  { clear. intros w o w' H.
    apply bind_inv in H as [(u & w1 & H1 & H)|(e & H1 & _)]; [|discriminate H1].
    apply onProgress_leaves in H1 as [_ Ha1]. unfold ret in H. injection H as <- <-.
    split; [reflexivity|]. eexists. split; [|exact Ha1]. repeat split. }
  fold c in H.
  destruct (below_threshold c _) eqn:Hb.
  2:{ left. split; [reflexivity|]. apply Hfinish. exact H. }
  right. split; [reflexivity|].
  apply bind_inv in H as [(u & w1 & H1 & H)|(e & H1 & _)]; [|discriminate H1].
  apply onProgress_leaves in H1 as [_ Ha1]. fold (reanalyzing c) in Ha1.
  apply bind_inv in H as [(reply & w2 & Hsend & H)|(e & Hsend & ->)];
    apply sendMessage_leaves in Hsend as [Ha2 _];
    pose proof (leaves_trans _ _ _ _ _ _ _ Ha1 Ha2) as Ha12; simpl in Ha12.
  2:{ left. exists e. auto. }
  apply bind_inv in H as [(text & w3 & Htext & H)|(e & Htext & ->)];
    apply lift_effect in Htext as [Htext ->].
  2:{ left. exists e. auto. }
  right. exists text. rewrite (bind_step _ _ _ _ _ (parse_readings text startTime w2)) in H.
  destruct Ha12 as [[Hp Hs] Hc]. rewrite Hc in H.
  destruct (num_gt _ _) eqn:Hgt.
  - apply bind_inv in H as [(u5 & w5 & H5 & H)|(e & H5 & _)]; [|discriminate H5].
    apply onProgress_appends in H5 as [_ [Hp5 Hs5]]. unfold ret in H. injection H as <- <-.
    match type of Hp5 with _ = (_ ++ [?p])%list => exists p end.
    cbv zeta. rewrite Hgt. split; [reflexivity|]. split; [repeat split|].
    split; simpl in *; [rewrite Hp5, Hp, <- app_assoc|rewrite Hs5, Hs, app_nil_r]; reflexivity.
  - apply Hfinish in H as [-> (last & Hlast & [[Hp5 Hs5] _])].
    exists last. cbv zeta. rewrite Hgt. split; [reflexivity|]. split; [exact Hlast|].
    split; simpl in *; [rewrite Hp5, Hp, <- app_assoc|rewrite Hs5, Hs, app_nil_r]; reflexivity.
Qed.

(** A run from a fresh world: the first reading of the clock is the start
    time. *)
Lemma authenticateItem_start env hosted imageData config rng clock :
  authenticateItem env hosted imageData config (fresh rng clock)
  = bind (analyse hosted (merge (DEFAULT_CONFIG env) config) imageData (clock 0%nat))
         (fun analysed =>
            let '(chat, authResult) := analysed in
            selfCorrect chat (merge (DEFAULT_CONFIG env) config) (clock 0%nat) authResult)
         (World.mk rng (fun n => clock (S n)) [] []).
Proof. reflexivity. Qed.

Lemma authenticateItem_split env hosted imageData config rng clock o w' :
  authenticateItem env hosted imageData config (fresh rng clock) = (o, w') ->
  let mergedConfig := merge (DEFAULT_CONFIG env) config in
  let w0 := World.mk rng (fun n => clock (S n)) [] [] in
  (exists e, o = Throw e /\
             analyse hosted mergedConfig imageData (clock 0%nat) w0 = (Throw e, w')) \/
  (exists chat initial w1,
     analyse hosted mergedConfig imageData (clock 0%nat) w0 = (Ok (chat, initial), w1) /\
     selfCorrect chat mergedConfig (clock 0%nat) initial w1 = (o, w')).
Proof.
  rewrite authenticateItem_start. intros H. cbv zeta.
  apply bind_inv in H as [([chat initial] & w1 & Han & H)|(e & Han & ->)].
  - right. exists chat, initial, w1. auto.
  - left. exists e. auto.
Qed.

(** X21.  What the clock shows in a report.  A run that returns has read
    [Date.now] once at its start and twice for every parse: the timestamp
    of the result is the reading that opens its parse and its processing
    time is the next reading minus the first of the run.  So if the clock
    never goes back, the processing time is not negative. *)
Theorem processing_time_measured env hosted imageData config rng clock r w' :
  authenticateItem env hosted imageData config (fresh rng clock) = (Ok r, w') ->
  (exists k, (k = 1 \/ k = 3)%nat /\
     AuthenticationResult.timestamp r = clock k /\
     AuthenticationResult.processingTime r = clock (S k) - clock 0%nat) /\
  ((forall n, clock n <= clock (S n)) ->
   0 <= AuthenticationResult.processingTime r /\
   clock 0%nat <= AuthenticationResult.timestamp r).
Proof.
  intros H.
  assert (Hk : exists k, (k = 1 \/ k = 3)%nat /\
     AuthenticationResult.timestamp r = clock k /\
     AuthenticationResult.processingTime r = clock (S k) - clock 0%nat).
  { apply authenticateItem_split in H. cbv zeta in H.
    destruct H as [(e & H & _)|(chat & initial & w1 & Han & Hsc)]; [discriminate H|].
    apply analyse_trace in Han as [(e & _ & Ho & _)|Han]; [discriminate Ho|].
    destruct Han as (key & tools & turns & _ & _ & _ & _ & [(e & tail & Ho & _)|Han]);
      [discriminate Ho|].
    destruct Han as (text & Ho & _ & Hclock). injection Ho as _ ->.
    cbn [World.clock] in Hclock.
    assert (Hinit : exists k, (k = 1 \/ k = 3)%nat /\
              AuthenticationResult.timestamp
                (fst (parseAuthenticationResponse text (clock 0%nat) (fun n => clock (S n))))
              = clock k /\
              AuthenticationResult.processingTime
                (fst (parseAuthenticationResponse text (clock 0%nat) (fun n => clock (S n))))
              = clock (S k) - clock 0%nat).
    { exists 1%nat. split; [now left|]. split; reflexivity. }
    apply selfCorrect_trace in Hsc. cbv zeta in Hsc.
    destruct Hsc as [(_ & Ho & _)|(_ & [(e & Ho & _)|Hsc])].
    - apply Ok_inj in Ho. subst r. exact Hinit.
    - discriminate Ho.
    - destruct Hsc as (text' & last & Ho & _). apply Ok_inj in Ho. rewrite Hclock in Ho.
      destruct (num_gt _ _); subst r; [|exact Hinit].
      exists 3%nat. split; [now right|]. split; reflexivity. }
  split; [exact Hk|]. intros Hmono.
  destruct Hk as (k & Hk & -> & ->).
  assert (Hle : forall a b, (a <= b)%nat -> clock a <= clock b).
  { intros a b Hab. induction Hab as [|b Hab IH]; [lia|]. specialize (Hmono b). lia. }
  split.
  - specialize (Hle 0%nat (S k) ltac:(lia)). lia.
  - apply Hle. lia.
Qed.

Lemma processing_time_measured_witness :
  exists r,
    fst (authenticateItem sample_env hesitant "AAAA" no_overrides
           (fresh sample_rng sample_clock)) = Ok r /\
    0 <= AuthenticationResult.processingTime r.
Proof.
  pose proof (run_pair (authenticateItem sample_env hesitant "AAAA" no_overrides
                          (fresh sample_rng sample_clock))) as E.
  destruct (fst (authenticateItem sample_env hesitant "AAAA" no_overrides
                   (fresh sample_rng sample_clock))) as [r|e] eqn:Hr;
    [|vm_compute in Hr; discriminate Hr].
  destruct (processing_time_measured _ _ _ _ _ _ _ _ E) as [_ H].
  exists r. split; [reflexivity|]. apply H. intros n. unfold sample_clock. lia.
Defined.

Lemma ascending_app l1 l2 :
  ascending l1 -> ascending l2 ->
  (forall p q, In p l1 -> In q l2 -> ScanProgress.step p <= ScanProgress.step q) ->
  ascending (l1 ++ l2).
Proof.
  unfold ascending. induction 1 as [|p l1 Hs IH Hp]; intros H2 Hcross; [exact H2|].
  cbn [app]. constructor.
  - apply IH; [exact H2|]. intros a b Ha Hb. apply Hcross; [now right|exact Hb].
  - apply Forall_app. split; [exact Hp|].
    rewrite List.Forall_forall. intros q Hq. apply Hcross; [now left|exact Hq].
Qed.

Lemma phase_nil lo hi : phase lo hi [].
Proof. split; constructor. Qed.

Lemma phase_one lo hi p :
  lo <= ScanProgress.step p <= hi -> ScanProgress.status p <> complete ->
  ScanProgress.totalSteps p = 6 -> phase lo hi [p].
Proof.
  intros H1 H2 H3. split; [constructor; constructor|].
  constructor; [auto|constructor].
Qed.

Lemma phase_app lo mid hi l1 l2 :
  lo <= mid <= hi -> phase lo mid l1 -> phase mid hi l2 -> phase lo hi (l1 ++ l2).
Proof.
  intros Hm [Ha1 Hf1] [Ha2 Hf2]. rewrite List.Forall_forall in Hf1, Hf2. split.
  - apply ascending_app; [exact Ha1|exact Ha2|].
    intros p q Hp Hq. destruct (Hf1 p Hp) as [? _]. destruct (Hf2 q Hq) as [? _]. lia.
  - apply Forall_app. split; rewrite List.Forall_forall; intros p Hp.
    + destruct (Hf1 p Hp) as (? & ? & ?). repeat split; auto; lia.
    + destruct (Hf2 p Hp) as (? & ? & ?). repeat split; auto; lia.
Qed.

Lemma phase_tools tools : Forall tool_event tools -> phase 3 3 tools.
Proof.
  intros H. split.
  - unfold ascending. induction H as [|p l Hp Hl IH]; constructor; [exact IH|].
    rewrite List.Forall_forall in Hl |- *. intros q Hq.
    destruct Hp as (_ & -> & _). destruct (Hl q Hq) as (_ & -> & _). lia.
  - rewrite List.Forall_forall in H |- *. intros p Hp.
    destruct (H p Hp) as (Hs & -> & Ht).
    split; [lia|]. split; [rewrite Hs; discriminate|exact Ht].
Qed.

Lemma phase_in_progress lo hi l :
  1 <= lo -> hi <= 5 -> phase lo hi l -> Forall in_progress l.
Proof.
  intros Hlo Hhi [_ H]. rewrite List.Forall_forall in H |- *. intros p Hp.
  destruct (H p Hp) as (? & ? & ?). repeat split; auto; lia.
Qed.

(** The events of steps 1 to 4. *)
Lemma analyse_phase tools tail :
  Forall tool_event tools -> tail = [] \/ tail = [synthesizing] ->
  phase 1 4 ([initializing; sending] ++ tools ++ tail).
Proof.
  intros Ht Htail.
  change ([initializing; sending] ++ tools ++ tail)%list
    with ([initializing] ++ ([sending] ++ (tools ++ tail)))%list.
  apply (phase_app 1 1 4); [lia|apply phase_one; [cbn; lia|discriminate|reflexivity]|].
  apply (phase_app 1 2 4); [lia|apply phase_one; [cbn; lia|discriminate|reflexivity]|].
  apply (phase_app 2 3 4); [lia| |].
  - destruct (phase_tools tools Ht) as [Ha Hf]. split; [exact Ha|].
    rewrite List.Forall_forall in Hf |- *. intros p Hp.
    destruct (Hf p Hp) as (? & ? & ?). repeat split; auto; lia.
  - destruct Htail as [-> | ->]; [apply phase_nil|].
    apply phase_one; [cbn; lia|discriminate|reflexivity].
Qed.

Lemma final_ascending init last :
  phase 1 5 init -> final_event last -> ascending (init ++ [last]).
Proof.
  intros [Ha Hf] (_ & _ & Hstep). apply ascending_app; [exact Ha|constructor; constructor|].
  intros p q Hp [<-|[]]. rewrite List.Forall_forall in Hf.
  destruct (Hf p Hp) as [? _]. lia.
Qed.

Lemma phase_widen lo hi lo' hi' l :
  lo' <= lo -> hi <= hi' -> phase lo hi l -> phase lo' hi' l.
Proof.
  intros H1 H2 [Ha Hf]. split; [exact Ha|].
  rewrite List.Forall_forall in Hf |- *. intros p Hp.
  destruct (Hf p Hp) as (? & ? & ?). repeat split; auto; lia.
Qed.

(** X22.  The progress protocol.  Whatever the hosted model does, the
    events a run reports start with the initializing event of step 1, carry
    step numbers that never go down, and all count six steps in total.  A
    run that returns a result reports the [complete] event of step 6 last
    and no other [complete] event; a run that fails reports none. *)
Theorem progress_protocol env hosted imageData config rng clock o w' :
  authenticateItem env hosted imageData config (fresh rng clock) = (o, w') ->
  exists rest,
    World.progress w' = initializing :: rest /\
    ascending (World.progress w') /\
    match o with
    | Ok _ => exists init last,
        World.progress w' = (init ++ [last])%list /\
        Forall in_progress init /\ final_event last
    | Throw _ => Forall in_progress (World.progress w')
    end.
Proof.
  intros H. apply authenticateItem_split in H. cbv zeta in H.
  destruct H as [(e & -> & Han)|(chat & initial & w1 & Han & Hsc)].
  - apply analyse_trace in Han as [(e' & _ & _ & [[Hp _] _])|Han].
    + simpl in Hp. rewrite Hp. exists []. split; [reflexivity|].
      assert (Hph : phase 1 4 [initializing])
        by (apply phase_one; [cbn; lia|discriminate|reflexivity]).
      split; [apply Hph|]. apply (phase_in_progress 1 4); [lia|lia|exact Hph].
    + destruct Han as (key & tools & turns & _ & Ht & _ & _ & [Hfail|(text & Ho & _)]);
        [|discriminate Ho].
      destruct Hfail as (e' & tail & _ & Htail & [[Hp _] _]). simpl in Hp. rewrite Hp.
      pose proof (analyse_phase tools tail Ht Htail) as Hph.
      eexists. split; [reflexivity|]. split; [apply Hph|].
      apply (phase_in_progress 1 4); [lia|lia|exact Hph].
  - apply analyse_trace in Han as [(e' & _ & Ho & _)|Han]; [discriminate Ho|].
    destruct Han as (key & tools & turns & _ & Ht & _ & _ & [(e' & tail & Ho & _)|Han]);
      [discriminate Ho|].
    destruct Han as (text & _ & [Hp1 _] & _). simpl in Hp1.
    pose proof (analyse_phase tools [synthesizing] Ht (or_intror eq_refl)) as Hph.
    apply (phase_widen 1 4 1 5) in Hph; [|lia|lia].
    apply selfCorrect_trace in Hsc. cbv zeta in Hsc.
    destruct Hsc as [(_ & -> & last & Hlast & [[Hp _] _])|(_ & [Hfail|Hok])].
    + rewrite Hp, Hp1. eexists. split; [reflexivity|].
      split; [apply (final_ascending _ last Hph Hlast)|].
      eexists _, last. split; [reflexivity|]. split; [|exact Hlast].
      apply (phase_in_progress 1 5); [lia|lia|exact Hph].
    + destruct Hfail as (e & -> & [[Hp _] _]). rewrite Hp, Hp1.
      assert (Hph' : phase 1 5 (([initializing; sending] ++ tools ++ [synthesizing])
                                 ++ [reanalyzing (AuthenticationResult.confidence initial)])).
      { apply (phase_app 1 5 5); [lia|exact Hph|].
        apply phase_one; [cbn; lia|discriminate|reflexivity]. }
      eexists. split; [reflexivity|]. split; [apply Hph'|].
      apply (phase_in_progress 1 5); [lia|lia|exact Hph'].
    + destruct Hok as (text' & last & -> & Hlast & [Hp _]). rewrite Hp, Hp1.
      assert (Hph' : phase 1 5 (([initializing; sending] ++ tools ++ [synthesizing])
                                 ++ [reanalyzing (AuthenticationResult.confidence initial)])).
      { apply (phase_app 1 5 5); [lia|exact Hph|].
        apply phase_one; [cbn; lia|discriminate|reflexivity]. }
      change [reanalyzing (AuthenticationResult.confidence initial); last]
        with ([reanalyzing (AuthenticationResult.confidence initial)] ++ [last])%list.
      rewrite app_assoc.
      eexists. split; [reflexivity|].
      split; [apply (final_ascending _ last Hph' Hlast)|].
      eexists _, last. split; [reflexivity|]. split; [|exact Hlast].
      apply (phase_in_progress 1 5); [lia|lia|exact Hph'].
Qed.

Lemma progress_protocol_witness :
  exists rest,
    World.progress (snd (authenticateItem sample_env hesitant "AAAA" no_overrides
                           (fresh sample_rng sample_clock)))
    = initializing :: rest.
Proof.
  destruct (progress_protocol sample_env hesitant "AAAA" no_overrides sample_rng sample_clock
              _ _ (run_pair (authenticateItem sample_env hesitant "AAAA" no_overrides
                               (fresh sample_rng sample_clock))))
    as (rest & H & _).
  exists rest. exact H.
Defined.

(** X23.  The shape of a conversation.  A run sends nothing when the
    credential is missing.  Otherwise it sends the prompt with the image
    first, then at most eight tool-response turns, then at most one
    correction prompt: never more than ten messages. *)
Theorem conversation_shape env hosted imageData config rng clock o w' :
  authenticateItem env hosted imageData config (fresh rng clock) = (o, w') ->
  let mergedConfig := merge (DEFAULT_CONFIG env) config in
  (World.sent w' = [] <-> exists e, createClient mergedConfig = Throw e) /\
  (World.sent w' = [] \/
   exists turns correction,
     World.sent w' = (first_message imageData :: turns ++ correction)%list /\
     Forall (fun m => tool_turn m = true) turns /\ (length turns <= 8)%nat /\
     (correction = [] \/ exists c, correction = [[Text (correctionPrompt c)]])) /\
  (length (World.sent w') <= 10)%nat.
Proof.
  intros H mergedConfig.
  assert (Hshape :
    (World.sent w' = [] /\ exists e, createClient mergedConfig = Throw e) \/
    ((exists key, createClient mergedConfig = Ok key) /\
     exists turns correction,
       World.sent w' = (first_message imageData :: turns ++ correction)%list /\
       Forall (fun m => tool_turn m = true) turns /\ (length turns <= 8)%nat /\
       (correction = [] \/ exists c, correction = [[Text (correctionPrompt c)]]))).
  { apply authenticateItem_split in H. cbv zeta in H. fold mergedConfig in H.
    destruct H as [(e & -> & Han)|(chat & initial & w1 & Han & Hsc)].
    - apply analyse_trace in Han as [(e' & Hkey & _ & [[_ Hs] _])|Han].
      + left. simpl in Hs. split; [exact Hs|eauto].
      + destruct Han as (key & tools & turns & Hkey & _ & Hturns & Hlen & [Hfail|(text & Ho & _)]);
          [|discriminate Ho].
        destruct Hfail as (e' & tail & _ & _ & [[_ Hs] _]). simpl in Hs.
        right. split; [eauto|]. exists turns, []. rewrite app_nil_r. auto.
    - apply analyse_trace in Han as [(e' & _ & Ho & _)|Han]; [discriminate Ho|].
      destruct Han as (key & tools & turns & Hkey & _ & Hturns & Hlen & [(e' & tail & Ho & _)|Han]);
        [discriminate Ho|].
      destruct Han as (text & _ & [_ Hs1] & _). simpl in Hs1.
      right. split; [eauto|]. exists turns.
      apply selfCorrect_trace in Hsc. cbv zeta in Hsc.
      destruct Hsc as [(_ & _ & last & _ & [[_ Hs] _])|(_ & [Hfail|Hok])].
      + exists []. rewrite Hs, Hs1, !app_nil_r. auto.
      + destruct Hfail as (e & _ & [[_ Hs] _]). eexists. rewrite Hs, Hs1.
        split; [reflexivity|]. split; [exact Hturns|]. split; [exact Hlen|]. right. eauto.
      + destruct Hok as (text' & last & _ & _ & [_ Hs]). eexists. rewrite Hs, Hs1.
        split; [reflexivity|]. split; [exact Hturns|]. split; [exact Hlen|]. right. eauto. }
  destruct Hshape as [[Hs Hkey]|[[key Hkey] Hsent]].
  - split; [tauto|]. split; [now left|]. rewrite Hs. simpl. lia.
  - destruct Hsent as (turns & correction & Hs & Hturns & Hlen & Hcorr).
    split; [|split].
    + rewrite Hs. split; [discriminate|]. intros [e He]. congruence.
    + right. exists turns, correction. auto.
    + rewrite Hs. cbn [length]. rewrite List.length_app.
      destruct Hcorr as [-> |[c ->]]; simpl; lia.
Qed.

(** Client creation when no key is passed in: the key of the environment
    decides. *)
Lemma createClient_by_env env config :
  PartialConfig.apiKey config = Absent ->
  createClient (merge (DEFAULT_CONFIG env) config)
  = match Env.VITE_GEMINI_API_KEY env with
    | Some key => if nonempty key then Ok key else Throw (Error key_required)
    | None => Throw (Error key_required)
    end.
Proof.
  intros Habsent. unfold createClient, merge, DEFAULT_CONFIG. cbn [GeminiConfig.apiKey].
  rewrite Habsent. cbn [spread str_or_else].
  destruct (Env.VITE_GEMINI_API_KEY env) as [k|]; cbn [str_or]; [|reflexivity].
  destruct (nonempty k) eqn:E; [now rewrite E|reflexivity].
Qed.

(** A run whose client cannot be created. *)
Lemma missing_key_run env hosted imageData config rng clock e :
  createClient (merge (DEFAULT_CONFIG env) config) = Throw e ->
  authenticateItem env hosted imageData config (fresh rng clock)
  = (Throw e, World.mk rng (fun n => clock (S n)) [] [initializing]).
Proof.
  intros Hthrow. rewrite authenticateItem_start. unfold analyse.
  unfold bind at 1. unfold bind at 1. unfold onProgress at 1. unfold bind at 1.
  rewrite Hthrow. reflexivity.
Qed.

Lemma conversation_shape_witness :
  (length (World.sent (snd (authenticateItem sample_env hesitant "AAAA" no_overrides
                              (fresh sample_rng sample_clock)))) <= 10)%nat.
Proof.
  destruct (conversation_shape sample_env hesitant "AAAA" no_overrides sample_rng sample_clock
              _ _ (run_pair (authenticateItem sample_env hesitant "AAAA" no_overrides
                               (fresh sample_rng sample_clock))))
    as (_ & _ & H).
  exact H.
Defined.

(** X24.  Without a credential nothing is sent.  When no key is passed in
    and [isGeminiConfigured] is false, [authenticateItem] fails with the
    message that asks for VITE_GEMINI_API_KEY, after reporting the first
    progress event and before contacting the model; when it is true, the
    client is created with the key of the environment. *)
Theorem authenticateItem_needs_key env hosted imageData config rng clock :
  PartialConfig.apiKey config = Absent ->
  (isGeminiConfigured env = false ->
   authenticateItem env hosted imageData config (fresh rng clock)
   = (Throw (Error key_required),
      World.mk rng (fun n => clock (S n)) [] [initializing])) /\
  (isGeminiConfigured env = true ->
   exists key, Env.VITE_GEMINI_API_KEY env = Some key /\
               createClient (merge (DEFAULT_CONFIG env) config) = Ok key).
Proof.
  intros Habsent. pose proof (createClient_by_env env config Habsent) as Hc.
  unfold isGeminiConfigured. split; intros Hk.
  - apply missing_key_run. rewrite Hc.
    destruct (Env.VITE_GEMINI_API_KEY env) as [k|]; [rewrite Hk|]; reflexivity.
  - destruct (Env.VITE_GEMINI_API_KEY env) as [k|]; [|discriminate Hk].
    exists k. split; [reflexivity|]. rewrite Hc, Hk. reflexivity.
Qed.

Lemma authenticateItem_needs_key_witness :
  fst (authenticateItem (Env.mk None None None None) hesitant "AAAA" no_overrides
         (fresh sample_rng sample_clock))
  = Throw (Error key_required).
Proof.
  destruct (authenticateItem_needs_key (Env.mk None None None None) hesitant "AAAA"
              no_overrides sample_rng sample_clock eq_refl) as [H _].
  rewrite (H eq_refl). reflexivity.
Defined.

Lemma runCalls_first_failure (good : list FunctionCall.t) bad rest e : forall w,
  Forall call_succeeds good ->
  (forall rng, fst (executeToolCall (FunctionCall.name bad) (FunctionCall.args bad) rng)
               = Throw e) ->
  exists settled w',
    runCalls (good ++ bad :: rest)%list w = (Ok settled, w') /\ all_settled settled = Throw e.
Proof.
  induction good as [|call good IH]; intros w Hgood Hbad.
  - cbn [app runCalls]. destruct (runCall_effect bad w) as (o & w1 & H1 & _ & _ & Ho).
    rewrite Hbad in Ho. subst o.
    destruct (runCalls_effect rest w1) as (settled & w2 & H2 & _).
    eexists _, w2. unfold bind. rewrite H1, H2. split; reflexivity.
  - inversion Hgood as [|c cs Hc Hcs]; subst.
    cbn [app runCalls]. destruct (runCall_effect call w) as (o & w1 & H1 & _ & _ & Ho).
    destruct (Hc (World.rng w)) as [v Hv]. rewrite Hv in Ho. subst o.
    destruct (IH w1 Hcs Hbad) as (settled & w2 & H2 & Hs).
    eexists _, w2. unfold bind. rewrite H1, H2. split; [reflexivity|].
    cbn [all_settled]. rewrite Hs. reflexivity.
Qed.

(** X25.  A tool the router does not know ends the run.  If the first
    reply of the model asks for tools and, after calls that succeed, one
    for an unknown tool, [authenticateItem] fails with "Unknown tool:
    <name>": one round has been opened, and nothing but the first message
    has been sent to the model. *)
Theorem unknown_tool_ends_run env (hosted : Hosted) imageData config rng clock key
    (good : list FunctionCall.t) (bad : FunctionCall.t) (rest : list FunctionCall.t) text :
  let mergedConfig := merge (DEFAULT_CONFIG env) config in
  createClient mergedConfig = Ok key ->
  hosted key (GeminiConfig.model mergedConfig) [first_message imageData]
    = Ok (Response.mk (Ok (Some (good ++ bad :: rest)%list)) text) ->
  Forall call_succeeds good ->
  unknown_tool (FunctionCall.name bad) ->
  let run := authenticateItem env hosted imageData config (fresh rng clock) in
  fst run = Throw (Error ("Unknown tool: " ++ FunctionCall.name bad)) /\
  World.sent (snd run) = [first_message imageData] /\
  rounds (snd run) = 1%nat.
Proof.
  intros mergedConfig Hkey Hreply Hgood [Hnot Hmem] run.
  assert (Hbad : forall rng0,
            fst (executeToolCall (FunctionCall.name bad) (FunctionCall.args bad) rng0)
            = Throw (Error ("Unknown tool: " ++ FunctionCall.name bad))).
  { intros rng0. unfold executeToolCall, get.
    rewrite (assoc_not_key _ TOOL_MAP Hnot), Hmem. reflexivity. }
  assert (Hrun : exists w4,
            authenticateItem env hosted imageData config (fresh rng clock)
            = (Throw (Error ("Unknown tool: " ++ FunctionCall.name bad)), w4) /\
            World.sent w4 = [first_message imageData] /\ rounds w4 = 1%nat).
  { rewrite authenticateItem_start. fold mergedConfig. unfold analyse.
    destruct (onProgress_Ok initializing (World.mk rng (fun n => clock (S n)) [] []))
      as (w1 & E1 & [Hp1 Hs1]).
    fold initializing. unfold bind at 1. rewrite (bind_step _ _ _ _ _ E1).
    rewrite Hkey. rewrite (bind_step (lift (Ok key)) _ w1 key w1) by reflexivity.
    destruct (onProgress_Ok sending w1) as (w2 & E2 & [Hp2 Hs2]).
    fold sending. rewrite (bind_step _ _ _ _ _ E2).
    fold (first_message imageData).
    destruct (sendMessage (hosted key (GeminiConfig.model mergedConfig))
                (first_message imageData) w2) as [o3 w3] eqn:E3.
    pose proof (sendMessage_leaves _ _ _ _ _ E3) as [[[Hp3 Hs3] _] Ho3].
    simpl in Hs1, Hp1. rewrite app_nil_r, Hs1 in Hs2. rewrite Hp1 in Hp2.
    rewrite Hs2 in Ho3, Hs3. rewrite app_nil_r, Hp2 in Hp3.
    change ([] ++ [first_message imageData])%list with [first_message imageData] in Ho3, Hs3.
    rewrite Hreply in Ho3. subst o3. rewrite (bind_step _ _ _ _ _ E3).
    change (Z.to_nat maxToolCalls) with 8%nat. unfold bind at 1. rewrite toolLoop_S.
    cbn [Response.functionCalls]. change (0 <? maxToolCalls) with true. cbv iota.
    destruct (round (hosted key (GeminiConfig.model mergedConfig)) (good ++ bad :: rest)%list
                    (0 + 1) w3) as [o4 w4] eqn:E4.
    assert (Hthrow : o4 = Throw (Error ("Unknown tool: " ++ FunctionCall.name bad)) /\
                     World.sent w4 = World.sent w3 /\ rounds w4 = S (rounds w3)).
    { pose proof (round_effect _ _ _ _ _ _ E4) as (events & messages & Ha & Hone & _ & _).
      unfold round in E4.
      apply bind_inv in E4 as [(u & w5 & H5 & E4)|(e & H5 & _)]; [|discriminate H5].
      destruct (runCalls_first_failure good bad rest _ w5 Hgood Hbad)
        as (settled & w6 & H6 & Hs6).
      unfold bind at 1 in E4. rewrite H6 in E4. unfold bind, lift in E4. rewrite Hs6 in E4.
      injection E4 as <- <-. split; [reflexivity|].
      apply onProgress_appends in H5 as [_ [_ Hs5]].
      destruct (runCalls_effect (good ++ bad :: rest)%list w5)
        as (settled' & w6' & H6' & _ & [_ Hs6']).
      rewrite H6 in H6'. injection H6' as _ <-.
      split; [rewrite Hs6', Hs5, !app_nil_r; reflexivity|].
      apply rounds_appends in Ha as (Hr & _). rewrite Hr, Hone. lia. }
    destruct Hthrow as (-> & Hs4 & Hr4).
    exists w4. unfold bind at 1. rewrite E4.
    split; [reflexivity|]. split; [now rewrite Hs4, Hs3|].
    rewrite Hr4. unfold rounds. rewrite Hp3. reflexivity. }
  destruct Hrun as (w4 & Hrun & Hs & Hr). subst run. rewrite Hrun. auto.
Qed.

Lemma unknown_tool_ends_run_witness :
  let hosted : Hosted :=
    fun _ _ _ => Ok (request [rn_call; FunctionCall.mk "carbon_dating" ∅]) in
  let run := authenticateItem sample_env hosted "AAAA" no_overrides
               (fresh sample_rng sample_clock) in
  fst run = Throw (Error "Unknown tool: carbon_dating") /\
  World.sent (snd run) = [first_message "AAAA"].
Proof.
  intros hosted run.
  destruct (unknown_tool_ends_run sample_env hosted "AAAA" no_overrides sample_rng sample_clock
              "sample-key" [rn_call] (FunctionCall.mk "carbon_dating" ∅) [] (Ok ""))
    as (H1 & H2 & _).
  - reflexivity.
  - reflexivity.
  - constructor; [|constructor]. intros rng0. eexists. reflexivity.
  - split; [|reflexivity]. simpl. intros [H|[H|[H|[H|[]]]]]; discriminate H.
  - split; [exact H1|exact H2].
Defined.

(** ** Table round trip, settings, tool turns and the application *)

(** X26.  The brand table recognises itself.  For every brand and era of
    the table, a call that reports exactly the expected patterns of the era
    returns that era with every pattern matched, no red flag and a score of
    100; a call that reports exactly its red flags returns every red flag
    and a score of 0. *)
Theorem brand_table_round_trip (b : string) (bd : BrandPatternDB.t) (k : string) (d : EraData.t) :
  In (b, bd) BRAND_PATTERNS ->
  In (k, d) (BrandPatternDB.eras bd) ->
  (exists r, brandPatterns (report b k (EraData.patterns d)) = Ok r /\
             BrandPatternResult.era r = k /\
             BrandPatternResult.matchedPatterns r = EraData.patterns d /\
             BrandPatternResult.redFlags r = [] /\
             BrandPatternResult.authenticityScore r = Num 100) /\
  (exists r, brandPatterns (report b k (EraData.redFlags d)) = Ok r /\
             BrandPatternResult.era r = k /\
             BrandPatternResult.redFlags r = EraData.redFlags d /\
             BrandPatternResult.authenticityScore r = Num 0).
Proof.
  intros Hb Hk.
  assert (Hall :
    Forall (fun b : string * BrandPatternDB.t =>
      Forall (fun e : string * EraData.t =>
        (exists r, brandPatterns (report (fst b) (fst e) (EraData.patterns (snd e))) = Ok r /\
                   BrandPatternResult.era r = fst e /\
                   BrandPatternResult.matchedPatterns r = EraData.patterns (snd e) /\
                   BrandPatternResult.redFlags r = [] /\
                   BrandPatternResult.authenticityScore r = Num 100) /\
        (exists r, brandPatterns (report (fst b) (fst e) (EraData.redFlags (snd e))) = Ok r /\
                   BrandPatternResult.era r = fst e /\
                   BrandPatternResult.redFlags r = EraData.redFlags (snd e) /\
                   BrandPatternResult.authenticityScore r = Num 0))
        (BrandPatternDB.eras (snd b)))
      BRAND_PATTERNS).
  { repeat (constructor;
            [repeat (constructor;
                     [split; eexists; (split; [vm_compute; reflexivity|]);
                      repeat split; vm_compute; reflexivity|]);
             constructor|]).
    constructor. }
  rewrite List.Forall_forall in Hall. specialize (Hall _ Hb). cbn [fst snd] in Hall.
  rewrite List.Forall_forall in Hall. exact (Hall _ Hk).
Qed.

Lemma brand_table_round_trip_witness :
  exists r,
    brandPatterns (report "levis" "1960s"
                     ["Big E (LEVI'S)"; "Single-stitch hems"; "Redline selvedge"; "Paper patch"])
    = Ok r /\
    BrandPatternResult.authenticityScore r = Num 100.
Proof.
  destruct (brand_table_round_trip "levis"
              (BrandPatternDB.mk (BrandPatternDB.eras (default (BrandPatternDB.mk [])
                                    (assoc "levis" BRAND_PATTERNS))))
              "1960s"
              (default (EraData.mk [] [] "")
                 (assoc "1960s" (BrandPatternDB.eras (default (BrandPatternDB.mk [])
                                    (assoc "levis" BRAND_PATTERNS))))))
    as [(r & Hr & _ & _ & _ & Hs) _]; [simpl; tauto|simpl; tauto|].
  exists r. split; [exact Hr|exact Hs].
Defined.

Lemma analyse_config hosted m1 m2 imageData startTime :
  createClient m1 = createClient m2 ->
  GeminiConfig.model m1 = GeminiConfig.model m2 ->
  analyse hosted m1 imageData startTime = analyse hosted m2 imageData startTime.
Proof. intros H1 H2. unfold analyse. rewrite H1, H2. reflexivity. Qed.

Lemma selfCorrect_config chat m1 m2 startTime authResult :
  GeminiConfig.selfCorrectionThreshold m1 = GeminiConfig.selfCorrectionThreshold m2 ->
  selfCorrect chat m1 startTime authResult = selfCorrect chat m2 startTime authResult.
Proof. intros H. unfold selfCorrect. rewrite H. reflexivity. Qed.

(** X27.  Settings without effect.  Of a configuration, a run uses the
    key, the model name and the self-correction threshold only: the
    thinking level, the media resolution and the number of retries, given
    in the call or by the environment, change neither its outcome nor what
    it reports and sends. *)
Theorem unused_settings env env' hosted imageData config config' w :
  Env.VITE_GEMINI_API_KEY env = Env.VITE_GEMINI_API_KEY env' ->
  Env.VITE_GEMINI_MODEL env = Env.VITE_GEMINI_MODEL env' ->
  PartialConfig.apiKey config = PartialConfig.apiKey config' ->
  PartialConfig.model config = PartialConfig.model config' ->
  PartialConfig.selfCorrectionThreshold config = PartialConfig.selfCorrectionThreshold config' ->
  authenticateItem env hosted imageData config w
  = authenticateItem env' hosted imageData config' w.
Proof.
  intros Hk Hm Hck Hcm Hct. unfold authenticateItem.
  set (m1 := merge (DEFAULT_CONFIG env) config).
  set (m2 := merge (DEFAULT_CONFIG env') config').
  assert (H1 : createClient m1 = createClient m2).
  { subst m1 m2. unfold createClient, merge, DEFAULT_CONFIG. cbn [GeminiConfig.apiKey].
    now rewrite Hk, Hck. }
  assert (H2 : GeminiConfig.model m1 = GeminiConfig.model m2).
  { subst m1 m2. unfold merge, DEFAULT_CONFIG. cbn [GeminiConfig.model]. now rewrite Hm, Hcm. }
  assert (H3 : GeminiConfig.selfCorrectionThreshold m1 = GeminiConfig.selfCorrectionThreshold m2).
  { subst m1 m2. unfold merge, DEFAULT_CONFIG. cbn [GeminiConfig.selfCorrectionThreshold].
    now rewrite Hct. }
  apply bind_ext. intros startTime w0.
  rewrite (analyse_config hosted m1 m2 imageData startTime H1 H2).
  apply bind_ext. intros [chat authResult] w1.
  now rewrite (selfCorrect_config chat m1 m2 startTime authResult H3).
Qed.

Lemma unused_settings_witness :
  authenticateItem sample_env hesitant "AAAA"
    (PartialConfig.mk Absent Absent (Given (Some "low")) (Given (Some "low"))
                      (Given (Some 5)) Absent)
    (fresh sample_rng sample_clock)
  = authenticateItem sample_env hesitant "AAAA" no_overrides (fresh sample_rng sample_clock).
Proof. apply unused_settings; reflexivity. Defined.

Lemma answered_nil chat : answered chat [].
Proof. intros pre turn post H. destruct pre; discriminate H. Qed.

Lemma answered_snoc chat sent m :
  answered chat sent ->
  (tool_turn m = true ->
   exists reply calls,
     chat sent = Ok reply /\ Response.functionCalls reply = Ok (Some calls) /\ answers m calls) ->
  answered chat (sent ++ [m]).
Proof.
  intros Hsent Hm pre turn post E Ht.
  destruct (exists_last (l := turn :: post)) as (l & x & El); [discriminate|].
  destruct l as [|t l].
  - injection El as -> ->. apply app_inj_tail in E as [-> ->]. auto.
  - cbn [app] in El. injection El as <- ->.
    change (pre ++ turn :: l ++ [x])%list with (pre ++ (turn :: l) ++ [x])%list in E.
    rewrite app_assoc in E. apply app_inj_tail in E as [-> ->].
    apply (Hsent pre turn l eq_refl Ht).
Qed.

(** The responses of a round that goes through carry the names of the
    calls, in order. *)
Lemma runCalls_answers calls : forall w settled w' parts,
  runCalls calls w = (Ok settled, w') -> all_settled settled = Ok parts ->
  answers parts calls.
Proof.
  induction calls as [|call calls IH]; intros w settled w' parts Hrun Hs.
  - cbn in Hrun. injection Hrun as <- _. injection Hs as <-. reflexivity.
  - cbn [runCalls] in Hrun. destruct (runCall_effect call w) as (o & w1 & H1 & _ & _ & Ho).
    destruct (runCalls_effect calls w1) as (settled1 & w2 & H2 & _).
    unfold bind in Hrun. rewrite H1, H2 in Hrun. unfold ret in Hrun. injection Hrun as <- _.
    cbn [all_settled] in Hs. destruct o as [p|e]; [|discriminate Hs].
    destruct (all_settled settled1) as [parts1|] eqn:E1; [|discriminate Hs].
    injection Hs as <-. unfold answers. cbn [map]. f_equal.
    + destruct (fst (executeToolCall _ _ _)); [|discriminate Ho]. now injection Ho as ->.
    + apply (IH w1 settled1 w2 parts1 H2 E1).
Qed.

Lemma round_answered chat calls c w o w' reply :
  round chat calls c w = (o, w') ->
  chat (World.sent w) = Ok reply -> Response.functionCalls reply = Ok (Some calls) ->
  answered chat (World.sent w) ->
  answered chat (World.sent w') /\ (forall r, o = Ok r -> chat (World.sent w') = Ok r).
Proof.
  unfold round. intros H Hreply Hcalls Hans.
  apply bind_inv in H as [(u & w1 & H1 & H)|(e & H1 & _)]; [|discriminate H1].
  apply onProgress_appends in H1 as [_ [_ Hs1]]. rewrite app_nil_r in Hs1.
  destruct (runCalls_effect calls w1) as (settled & w2 & H2 & _ & [_ Hs2]).
  rewrite app_nil_r in Hs2.
  unfold bind at 1 in H. rewrite H2 in H. unfold bind, lift in H.
  destruct (all_settled settled) as [parts|e] eqn:Es.
  - unfold sendMessage in H. injection H as <- <-. cbn [World.sent].
    rewrite Hs2, Hs1. split; [|auto].
    apply answered_snoc; [exact Hans|]. intros _. exists reply, calls.
    split; [exact Hreply|]. split; [exact Hcalls|].
    apply (runCalls_answers calls w1 settled w2 parts H2 Es).
  - injection H as <- <-. rewrite Hs2, Hs1. split; [exact Hans|]. intros r Hr. discriminate Hr.
Qed.

Lemma toolLoop_answered chat : forall fuel result c w o w',
  toolLoop fuel chat result c w = (o, w') ->
  chat (World.sent w) = Ok result ->
  answered chat (World.sent w) -> answered chat (World.sent w').
Proof.
  induction fuel as [|fuel IH]; intros result c w o w' H Hlast Hans.
  - rewrite toolLoop_O in H.
    destruct (Response.functionCalls result) as [[calls|]|e]; injection H as _ <-; exact Hans.
  - rewrite toolLoop_S in H.
    destruct (Response.functionCalls result) as [[calls|]|e] eqn:Hcalls;
      try (injection H as _ <-; exact Hans).
    destruct (c <? maxToolCalls); [|injection H as _ <-; exact Hans].
    apply bind_inv in H as [(r & w1 & Hround & Hloop)|(e & Hround & _)].
    + destruct (round_answered _ _ _ _ _ _ _ Hround Hlast Hcalls Hans) as [Hans1 Hlast1].
      apply (IH _ _ _ _ _ Hloop (Hlast1 r eq_refl) Hans1).
    + now destruct (round_answered _ _ _ _ _ _ _ Hround Hlast Hcalls Hans).
Qed.

Lemma answered_text chat sent (text : string) :
  answered chat sent -> answered chat (sent ++ [[Text text]]).
Proof. intros H. apply answered_snoc; [exact H|]. intros Ht. discriminate Ht. Qed.

(** X28.  Tool responses answer the calls.  In every run, each
    tool-response turn sent to the model answers, one for one and in order,
    the calls the model requested in its reply to the messages before that
    turn. *)
Theorem turns_answer_calls env hosted imageData config rng clock o w' key :
  authenticateItem env hosted imageData config (fresh rng clock) = (o, w') ->
  createClient (merge (DEFAULT_CONFIG env) config) = Ok key ->
  answered (hosted key (GeminiConfig.model (merge (DEFAULT_CONFIG env) config)))
           (World.sent w').
Proof.
  intros H Hkey. apply authenticateItem_split in H. cbv zeta in H.
  set (mergedConfig := merge (DEFAULT_CONFIG env) config) in *.
  set (chat := hosted key (GeminiConfig.model mergedConfig)).
  assert (Han : forall o1 w1,
            analyse hosted mergedConfig imageData (clock 0%nat)
              (World.mk rng (fun n => clock (S n)) [] []) = (o1, w1) ->
            answered chat (World.sent w1) /\
            (forall c a, o1 = Ok (c, a) -> c = chat)).
  { clear H. intros o1 w1 H. unfold analyse in H.
    apply bind_inv in H as [(u & w2 & H1 & H)|(e & H1 & _)]; [|discriminate H1].
    apply onProgress_appends in H1 as [_ [_ Hs1]]. simpl in Hs1.
    rewrite Hkey in H. rewrite (bind_step (lift (Ok key)) _ w2 key w2) in H by reflexivity.
    apply bind_inv in H as [(u2 & w3 & H2 & H)|(e & H2 & _)]; [|discriminate H2].
    apply onProgress_appends in H2 as [_ [_ Hs2]]. rewrite app_nil_r, Hs1 in Hs2.
    fold chat in H.
    assert (Hfirst : forall w4, World.sent w4
                       = (World.sent w3 ++ [[Text buildForensicPrompt;
                                             imageToGenerativePart imageData]])%list ->
                     answered chat (World.sent w4)).
    { intros w4 Hs4. rewrite Hs4, Hs2. apply answered_snoc; [apply answered_nil|].
      intros Ht. discriminate Ht. }
    apply bind_inv in H as [(result & w4 & Hsend & H)|(e & Hsend & ->)];
      apply sendMessage_effect in Hsend as [[_ Hs4] Ho4];
      [|split; [now apply Hfirst|discriminate]].
    pose proof (Hfirst w4 Hs4) as Hans4.
    apply bind_inv in H as [(result' & w5 & Hloop & H)|(e & Hloop & ->)];
      apply (toolLoop_answered chat) in Hloop; auto;
      [|split; [exact Hloop|discriminate]].
    apply bind_inv in H as [(u6 & w6 & H6 & H)|(e & H6 & _)]; [|discriminate H6].
    apply onProgress_appends in H6 as [_ [_ Hs6]]. rewrite app_nil_r in Hs6.
    apply bind_inv in H as [(text & w7 & Htext & H)|(e & Htext & ->)];
      apply lift_effect in Htext as [_ ->];
      [|split; [now rewrite Hs6|discriminate]].
    rewrite (bind_step _ _ _ _ _ (parse_readings text (clock 0%nat) w6)) in H.
    unfold ret in H. injection H as <- <-. cbn [World.sent]. rewrite Hs6.
    split; [exact Hloop|]. intros c a E. now injection E as <- _. }
  destruct H as [(e & _ & H)|(chat' & initial & w1 & H & Hsc)].
  - now apply Han in H.
  - apply Han in H as [Hans Hchat]. specialize (Hchat chat' initial eq_refl). subst chat'.
    apply selfCorrect_trace in Hsc. cbv zeta in Hsc.
    destruct Hsc as [(_ & _ & last & _ & [[_ Hs] _])|(_ & [Hfail|Hok])].
    + rewrite Hs, app_nil_r. exact Hans.
    + destruct Hfail as (e & _ & [[_ Hs] _]). rewrite Hs. now apply answered_text.
    + destruct Hok as (text' & last & _ & _ & [_ Hs]). rewrite Hs. now apply answered_text.
Qed.

Lemma turns_answer_calls_witness :
  answered (lookup_then_answer "sample-key" (Some "gemini-2.0-flash"))
    (World.sent (snd (authenticateItem sample_env lookup_then_answer "AAAA" no_overrides
                        (fresh sample_rng sample_clock)))).
Proof.
  apply (turns_answer_calls sample_env lookup_then_answer "AAAA" no_overrides
           sample_rng sample_clock
           (fst (authenticateItem sample_env lookup_then_answer "AAAA" no_overrides
                   (fresh sample_rng sample_clock)))).
  - apply run_pair.
  - reflexivity.
Defined.

Lemma fold_setProgress (l : list ScanProgress.t) : forall s,
  let s' := fold_left (fun s p => App.setProgress (Some p) s) l s in
  App.State.view s' = App.State.view s /\
  App.State.scanning s' = App.State.scanning s /\
  App.State.result s' = App.State.result s /\
  App.State.error s' = App.State.error s /\
  App.State.showDemo s' = App.State.showDemo s /\
  App.State.isDemoResult s' = App.State.isDemoResult s.
Proof.
  induction l as [|p l IH]; intros s; cbn [fold_left]; [repeat split|].
  destruct (IH (App.setProgress (Some p) s)) as (H1 & H2 & H3 & H4 & H5 & H6).
  cbv zeta. rewrite H1, H2, H3, H4, H5, H6. repeat split.
Qed.

(** X29.  A capture settles the application.  When [handleCapture] has
    run, scanning is off and no progress is shown.  If the run returned,
    its result is shown in the results view without an error; if it
    failed, the message of the error is shown, no result, and the view is
    the one the capture started from.  With no key configured the error is
    the one that asks for VITE_GEMINI_API_KEY, and nothing was sent. *)
Theorem handleCapture_settles env hosted imageData (s : App.State.t) rng clock :
  let run := authenticateItem env hosted imageData App.no_config (fresh rng clock) in
  let after := App.handleCapture env hosted imageData s (fresh rng clock) in
  snd after = snd run /\
  App.State.scanning (fst after) = false /\
  App.State.progress (fst after) = None /\
  App.State.isDemoResult (fst after) = false /\
  App.State.showDemo (fst after) = App.State.showDemo s /\
  match fst run with
  | Ok authResult =>
      App.State.result (fst after) = Some authResult /\
      App.State.error (fst after) = None /\
      App.State.view (fst after) = App.results
  | Throw err =>
      App.State.result (fst after) = None /\
      App.State.error (fst after) = Some (App.message err) /\
      App.State.view (fst after) = App.State.view s
  end /\
  (isGeminiConfigured env = false ->
   App.State.error (fst after) = Some key_required /\ World.sent (snd after) = []).
Proof.
  intros run after.
  assert (Hmain :
    snd after = snd run /\
    App.State.scanning (fst after) = false /\
    App.State.progress (fst after) = None /\
    App.State.isDemoResult (fst after) = false /\
    App.State.showDemo (fst after) = App.State.showDemo s /\
    match fst run with
    | Ok authResult =>
        App.State.result (fst after) = Some authResult /\
        App.State.error (fst after) = None /\
        App.State.view (fst after) = App.results
    | Throw err =>
        App.State.result (fst after) = None /\
        App.State.error (fst after) = Some (App.message err) /\
        App.State.view (fst after) = App.State.view s
    end).
  { subst after run. unfold App.handleCapture.
    destruct (authenticateItem env hosted imageData App.no_config (fresh rng clock))
      as [o w'].
    cbn [fst snd].
    set (s0 := App.setIsDemoResult false
                 (App.setResult None (App.setError None (App.setScanning true s)))).
    destruct o as [authResult|err]; cbn;
      match goal with
      | |- context [fold_left ?f ?l ?s1] =>
          destruct (fold_setProgress l s1) as (H1 & H2 & H3 & H4 & H5 & H6)
      end;
      cbv zeta in H1, H2, H3, H4, H5, H6; rewrite ?H1, ?H2, ?H3, ?H4, ?H5, ?H6;
      repeat split. }
  destruct Hmain as (Hw & H1 & H2 & H3 & H4 & H5).
  repeat (split; [assumption|]).
  intros Hk.
  assert (Hrun : run = (Throw (Error key_required),
                        World.mk rng (fun n => clock (S n)) [] [initializing])).
  { subst run. apply missing_key_run. rewrite (createClient_by_env env App.no_config eq_refl).
    unfold isGeminiConfigured in Hk.
    destruct (Env.VITE_GEMINI_API_KEY env) as [k|]; [rewrite Hk|]; reflexivity. }
  rewrite Hrun in H5, Hw. cbn [fst snd] in H5, Hw. destruct H5 as (_ & He & _).
  rewrite Hw. split; [exact He|reflexivity].
Qed.
